(* ===== verification/_CoqProject ===== *)
-Q . S2P
Prelude.v
Keeps.v
Partial.v
CInt.v
Kernel.v
DiskSim.v
IoBatch.v
HashTable.v
CauseTags.v
CauseRefs.v
Buffers.v
BuffersInv.v
BuffersOps.v
BuffersRuns.v
BuffersFit.v
StackLib.v
Tags.v
RequestTags.v
Queue.v
IoctlHelper.v
Registry.v
Modules.v
RbTree.v
ExpireRb.v
Jiffies.v
SplitAccount.v
SplitSched.v
TBucket.v
TBucketTokens.v
TBucketInv.v
TBucketFrame.v
TBucketCharge.v
TBucketSafe.v
TBucketDispatch.v
TBucketRing.v
TBucketHandlers.v
TBucketRuns.v
TBucketExamples.v
TBucketHost.v
TBucketAloof.v
TBucketStack.v
TBucketStackExamples.v
Deadline.v
DeadlineDirty.v
DeadlineInv.v
DeadlineOps.v
DeadlineDispatch.v
DeadlineHandlers.v
DeadlineMerge.v
DeadlineRuns.v
DeadlineExamples.v
DeadlineHost.v
DeadlineAloof.v
DeadlineStack.v
DeadlineStackExamples.v
DeadlineAttrs.v
Afq.v
AfqOps.v
AfqInv.v
AfqVio.v
AfqAccount.v
AfqHooks.v
AfqWorks.v
AfqSelect.v
AfqSubmit.v
AfqPool.v
AfqCalls.v
AfqRequests.v
AfqRuns.v
AfqFair.v
AfqExamples.v
AfqAloof.v
AfqHost.v
AfqStack.v
AfqStackExamples.v
Elevator.v
VfsCalls.v
VfsModules.v
VfsAfq.v
SchedTypes.v
