(* ===== verification/Prelude.v ===== *)
(** * Split-level I/O schedulers

    A verification of the schedulers of this repository (src/modules/): kernel modules
    that decide both when a system call may go ahead and which block request goes to
    the disk next, and that charge I/O to the accounts that caused it, however late
    and through whatever file-system layer it reaches the disk.

    ** The program and its model

    - Cause tags (src/patches/4.5/cause_tags.c.patch, cause_tags.h.patch): pages, buffers
      and bios carry reference-counted lists of the accounts that dirtied them.
      [CauseTags]; a cause list lives in the heap [k_causes] of the [kernel] record, and
      the class [Host] is what freeing one needs of the scheduler it calls back.
    - The kernel's hash table (src/patches/3.6/hashtable.h.patch): [HashTable].
    - A model of a disk and batches of simulated requests (disk_sim.c, io_batch.c), by
      which the cost of I/O is estimated: [DiskSim], [IoBatch].
    - Request queues (queue.h): [Queue].
    - The registry of disks and the ioctl by which accounts are configured
      (ioctl_helper.c): [IoctlHelper]; the parser works on the buffer of 100 bytes.
      [Registry]: what the schedulers of all disks do to the registry while one of them lives ([life]).
    - Trees in the order of expiry (expire_rb.c, io_work_expire_rb.c): [ExpireRb], on the
      trees of [RbTree].
    - The token-bucket scheduler (tbucket.c): [TBucket] has its data and all of its
      handlers, one definition per function, with the loops as definitions of their own.
      An account is an address in the heap [td_heap]; a queue is an account and a
      direction ([qref]); the state of a handler is the record [tb].
    - The account database and the descriptors shared by the other two schedulers
      (split_account.c, split_sched.c): [SplitAccount], [SplitSched].
    - The split-deadline scheduler (split_deadline_sched.c): [Deadline] has its data and
      all of its functions; the arrays of two are records indexed by the direction
      ([per_dir]), the state of a handler is the record [dl].
    - The actually-fair-queuing scheduler (acct_afq_sched.c): [Afq] has its data and the
      accounting, [AfqOps] the works, the batches, the timers, the threads and all
      handlers.  What an account waits for is an [io_ref]: the descriptor of a system
      call in the heap [calls], or that of a request; batches are in the heap [batches];
      following an address that is not in its heap, taking one descriptor for another
      ([WR_IO] and its siblings) and taking [afq_data->lock] twice are faults.  An entry
      hook that blocks ends in [Waits].  The state of a handler is the record [afq].
    - The lines the patches for 4.5 add to the kernel.  Cause lists (buffer.c.patch,
      ext4*.c.patch, transaction.c.patch, commit.c.patch, revoke.c.patch, journal.c.patch,
      bio.c.patch, blk-lib.c.patch, page-io.c.patch, file.c.patch, extent_io.c.patch,
      filemap.c.patch): [Buffers] has an operation for each place that makes, shares, hands
      on or gives back a cause list; the fields that point to one are the cells of [memory].
      The way to the hooks of system calls (elevator.c.patch, elevator.h.patch,
      super.c.patch): [Elevator]; the calls themselves (read_write.c.patch, sync.c.patch,
      namei.c.patch): [VfsCalls], as trees of the steps they take.
    - The tables of the schedulers and loading and unloading them: [SchedTypes], [Modules];
      the files in sysfs of the split-deadline scheduler: [DeadlineAttrs].

    How they interact: the block layer hands requests to a scheduler (add, merge) and
    asks for the next one (dispatch); the file system calls the hooks when a page is
    dirtied or its tag freed; write and fsync pass through the entry hooks; the ioctl
    reaches every registered disk.  The inductive types [handler] of [TBucketRuns],
    [DeadlineRuns] and [AfqRuns] list these entry points, and [reachable] there says what a run is:
    initialisation, then handlers in any order, and in between whatever else the kernel
    does as long as it keeps the promises spelled out in [callable] and [kernel_step].
    The patched kernel is put together with the schedulers.  [VfsAfq] lets the
    system calls of [VfsCalls] be the callers of the fair-queuing scheduler.  [TBucketHost], [DeadlineHost]
    and [AfqHost] put the hooks of the three schedulers under
    the operations of [Buffers], which know of a scheduler only the classes [HostOk] ([CauseRefs])
    and [FsHostOk] ([BuffersInv]).  [TBucketStack], [DeadlineStack] and [AfqStack] are the whole machines: file
    systems, journal and block layer, the scheduler, and requests that the block layer makes of
    their bios; an [act] ([dact], [fstep]) is one step of any of them, and what is left of the promises of
    the kernel is [act_ready] ([dact_ready], [fstep_ready]): that objects exist, that sizes are those of pages and
    disks, and that a bio is left alone while a request has it.  What ties the requests of any of
    them to the memory is [requests_ok] ([RequestTags]).
    A scheduler ends with its exit hook: the lives [alive] ([TBucketRuns], [AfqRuns]), [machine_life], [disk_life] and
    [fair_life] are runs together with the registry of disks, and remember whether the disk could be registered.

    ** Conventions

    Integers are [Z] with the wrap-around of their C type written out ([CInt]).  Code
    that may die is of type [result]: a [BUG_ON] that fires, a NULL pointer that is
    followed and an array index out of range are values, with the line of the source.
    Stateful code is of type [ST]; [hoare] states specifications that include that
    nothing faults, [keeps] ([Keeps]) those of code that keeps an invariant and
    leaves part of the state alone, and [partial] ([Partial]) those of code that may fault.  The promises of the block layer on tags of requests
    are stated once for all schedulers, for the class [Tagged] of [Tags].  What the kernel decides is a [world]: the time, which
    allocations fail, what is in fresh memory; the theorems hold for all of them.
    Functions of the kernel that are not in the repository (sort, the time functions,
    the hash function, elevator and red-black-tree helpers, jiffies, kstrtol and
    simple_strtol, the registries of devices and elevators) are operations of the classes
    [KernelFns], [RbFns], [ElvFns], [JiffyFns], [StrFns], [StrtolFns], [RegFns] and [ModFns]; what the
    code relies on are the laws in [KernelOk], [RbOk], [ElvOk], [JiffyOk], [StrOk],
    [StrtolOk], [RegOk] and [ModOk], each with an instance that computes; how often the driver asks for requests
    when it is woken is the class [Driver].  The queue lock is not modelled: a handler
    runs under it as one step; where the code gives the lock up
    (the write hook of the token bucket) the step is one turn of the loop; the fsync hook of the deadline scheduler is
    both: [deadline_fsync_entry] has the interference as an argument, and in a run its turns ([fsync_enter], [fsync_issue],
    [fsync_wake], [fsync_stamp]) are handlers of their own.

    ** What is proved

    - Token bucket.  [TBucketRuns]: no handler faults in any run, but the exit hook, which hits a BUG_ON if the disk could
      not be registered; and the scheduler refines one FIFO per account and direction.  [TBucketRing], [TBucketDispatch]:
      dispatching takes one request or none, only within the budget of its account, and
      does not leave an eligible request behind without a timer, except in the case
      [dispatch_can_stall] exhibits; forced dispatch drains everything.
      [TBucketCharge]: settling a batch charges the accounts the cost of the combined
      batch in proportion, and refunds the estimates; dirtying a page splits its cost
      over its causes.  [TBucketTokens]: tokens flow in at the rate, are capped at the
      limit, and the estimated wait pays a debt back.  [TBucketInv], [TBucketFrame],
      [TBucketSafe], [TBucketHandlers]: the invariant and that each handler keeps it.
    - Deadline.  [DeadlineRuns]: no handler faults in any run ([DeadlineStack] says when the exit hook does), the scheduler refines a
      pool that gives each request out once, at most [writes_starved + 1] batches of
      reads overtake a waiting write, and the dirty-page counters are exact.
      [DeadlineDispatch]: one request is dispatched if one waits, a batch takes the next request in the
      order of sectors as long as it goes on and starts with the oldest request if that has expired.
      [DeadlineHandlers], [DeadlineMerge]: adding and merging, with the order of expiry.
      [DeadlineDirty]: [fsync] comes back on every branch; a negative mark miscounts.  [DeadlineInv],
      [DeadlineOps]: the invariant and the steps the handlers are made of.
    - Fair queuing.  [AfqRuns]: in runs that do not run out of memory, with the settings [setting_ok] allows and the
      current number of the scheduler for the write hook, no handler but the merge hook faults, dead-locks or diverges; the scheduler refines a pool of works ([AfqPool]): one
      FIFO per account, batches that take from the fronts, works that return; the tags of
      works agree with their descriptors; a waiting call is in one queue of an active
      account and a running one in one batch; the counts of batches are exact; dispatching
      serves the account with the least counter; the last work of a batch allows the
      next; and the write hook that keeps the lock.  [AfqFair]: charges are shared by
      priority, and the tracked minimum is one.  [AfqInv] has the invariant, [AfqVio],
      [AfqAccount], [AfqHooks] that charging and the hooks keep it, [AfqWorks],
      [AfqSelect], [AfqSubmit] how works are queued, selected and let go, [AfqCalls] and
      [AfqRequests] the handlers.  [AfqExamples] runs a small machine and exhibits what
      goes wrong: refunds that charge, a count below zero, a timer left behind, and
      settings the code does not check.
    - Cause lists in the kernel.  [CauseRefs]: how each operation of cause_tags.c changes the
      number of references, and that freeing is safe with any scheduler that keeps the
      promises of [HostOk].  [BuffersInv], [BuffersOps]: each operation of [Buffers] keeps
      every pointer counted.  [BuffersRuns]: in every run no cause list is used after it was
      freed, its count is the number of pointers to it, and it is freed with the last one; the
      causes of a btrfs page that go to the wrong bio, and those that are lost with a page.  No operation faults, but
      [prepare_page] when there is no memory for the struct of a page ([enough]).
      [BuffersFit]: the sizes and the counts of accounts that these operations write.
      [DeadlineHost]: the dirty pages the split-deadline scheduler counts are the cause lists
      that something still points to.
    - Whole machines.  [TBucketStack], [DeadlineStack], [AfqStack]: in every run no operation and no
      handler faults, with the exceptions named above and no others; that the tags of the requests are in order,
      a hypothesis on the kernel in [TBucketRuns], [DeadlineRuns] and [AfqRuns], follows here from the
      reference counts ([RequestTags]).  The token bucket
      loses the I/O of a request that another one is merged into; the dirty pages of the
      split-deadline scheduler are followed from the write to the dispatch.  [TBucketHost], [AfqHost]: the
      hooks keep the promises of [HostOk]; [TBucketAloof], [DeadlineAloof], [AfqAloof]: what the
      handlers leave alone, by the rules of [Partial]; [StackLib]: what these share;
      [TBucketStackExamples], [DeadlineStackExamples], [AfqStackExamples]: runs.
    - System calls.  [VfsCalls]: each call pairs its hooks and gives its reference back, but
      for [vfs_mkdir] in a full directory.  [VfsModules]: in every run of calls, switches and
      unloads a hook that is called is part of a module that is loaded; the references of a
      module are its users; a call is not told that its scheduler was replaced; a full
      directory pins a module.  [VfsAfq]: the calls are callers such as the fair-queuing
      scheduler needs.  [Elevator]: the numbers of the schedulers of a queue.
    - Modules and settings.  [Modules]: with modules loaded and unloaded one statement at a time, an elevator that can be
      selected has the registry it needs, in two of the three modules; two modules take the device from each other.
      [DeadlineAttrs]: what is read from sysfs can be written back, unless an expiry time overflows an int.
    - Components.  [IoBatch]: bounds on the cost of a batch, its independence of the
      order in which requests that do not continue one another are added, and the merging of sequential requests.  [DiskSim]: seek times
      are a capped metric.  [CauseTags]: adding to a bio collects the accounts.
      [ExpireRb]: the trees keep the order and find what they hold.  [SplitAccount]: the
      database is a map filled on demand.  [SplitSched]: no descriptor leaks.
      [IoctlHelper]: a printed message is read back; an unterminated one is read past
      its end.  [Queue]: the elapsed time is exact below its cap.

    ** Fuel

    Loops that are not structural have fuel: [normalize_up] and [normalize_down] get the
    number of turns they need ([normalize_timespec_same] shows that they end),
    [drain_queue] the length of the queue and one more, [walk] the size of the tree, and
    [fsync_loop] is proved to end with one more than the number of dirty pages.
    [dispatch_loop] counts down [queues_count] as the code does.  [add_io_work] gets one
    turn more than there are active accounts, since every turn but the last takes one
    off the list; running out would be the fault [Diverges], which [afq_no_fault] excludes.

    ** What is not modelled

    Left out are printing and statistics that are only printed (also in the journal and in
    CFQ), starting and stopping threads (whether it succeeds is a parameter), memory that is
    only released, symbols that the patches export, and the kernel around the lines of
    the patches: what it promises, that objects exist while they are used and that a task does
    not fork in the middle of write-back, is [ready] of [BuffersRuns]; there the greatest number of sectors of a request is
    less than 2^28, so that [new_cause_list_list], whose size is an int, allocates what it says.  Replacing an elevator is
    modelled as far as the lines of the patch and the references on modules go ([switch_queue]).  Of the patches
    those for 4.5 are modelled (for [sched_uniq] also that for 3.2.51); the others repeat
    them.  The merge hook of the fair-queuing scheduler is a BUG_ON(1); runs do not call it.

    This file holds what all others share: faults and results, the state monad and its
    specifications, record update, sums, and tactics. *)

From Stdlib Require Export ZArith Lia Sorting.Sorted.
From stdpp Require Export base gmap list numbers option strings.

#[global] Open Scope Z_scope.

(** ** Faults and results

    The kernel code has no exceptions: a run either returns, or dies.  It
    dies on a [BUG_ON] whose condition holds, on the dereference of a NULL
    pointer or of one whose memory was freed, on an access outside of an array or
    through a pointer cast to the wrong type; and it hangs on a spin lock that is
    held and never released, or in a loop that does not end. *)

Inductive fault :=
  | BUG (line : Z)          (* BUG_ON at that line of the source *)
  | NullDeref (line : Z)    (* dereference of NULL *)
  | OutOfBounds (line : Z)  (* array access out of bounds *)
  | UseAfterFree (line : Z) (* dereference of freed memory *)
  | BadCast (line : Z)      (* container_of on an object of another type *)
  | Deadlock (line : Z)     (* spin_lock on a lock that is held *)
  | Diverges (line : Z).    (* a loop that exceeds its bound *)

Inductive result (A : Type) :=
  | Ok (a : A)
  | Fault (f : fault).
Arguments Ok {A} a.
Arguments Fault {A} f.

Definition rbind {A B} (m : result A) (f : A -> result B) : result B :=
  match m with Ok a => f a | Fault e => Fault e end.

Declare Scope split_scope.
Delimit Scope split_scope with split.
#[global] Open Scope split_scope.

Notation "'let?' x := m 'in' k" := (rbind m (fun x => k))
  (at level 10, x pattern, m at level 100, k at level 200,
   format "'[v' 'let?'  x  :=  m  'in' '/' k ']'") : split_scope.

Definition is_ok {A} (r : result A) : Prop :=
  match r with Ok _ => True | Fault _ => False end.

(** [BUG_ON(cond)] at a source line. *)
Definition bug_on (line : Z) (cond : bool) : result unit :=
  if cond then Fault (BUG line) else Ok tt.

(** Dereference of a pointer that may be NULL. *)
Definition deref {A} (line : Z) (o : option A) : result A :=
  match o with Some a => Ok a | None => Fault (NullDeref line) end.

(** [a[i]] for an array of known length. *)
Definition array_get {A} (line : Z) (l : list A) (i : Z) : result A :=
  if decide (0 <= i) then
    match l !! Z.to_nat i with Some a => Ok a | None => Fault (OutOfBounds line) end
  else Fault (OutOfBounds line).

(** [a[i] = x]. *)
Definition array_set {A} (line : Z) (l : list A) (i : Z) (x : A) : result (list A) :=
  if decide (0 <= i < Z.of_nat (length l))
  then Ok (<[Z.to_nat i := x]> l) else Fault (OutOfBounds line).

(** ** Stateful code *)

(** Code that runs on a state [S] and may die. *)
Definition ST (S A : Type) : Type := S -> result (A * S).

Definition ret {S A} (a : A) : ST S A := fun s => Ok (a, s).
Definition bind {S A B} (m : ST S A) (f : A -> ST S B) : ST S B := fun s =>
  match m s with Ok (a, s') => f a s' | Fault e => Fault e end.

Notation "'let!' x := m 'in' k" := (bind m (fun x => k))
  (at level 10, x pattern, m at level 100, k at level 200,
   format "'[v' 'let!'  x  :=  m  'in' '/' k ']'") : split_scope.
Notation "m ;; k" := (bind m (fun _ => k))
  (at level 100, right associativity, format "'[v' m ;; '/' k ']'") : split_scope.

Definition gets {S A} (f : S -> A) : ST S A := fun s => Ok (f s, s).
Definition modify {S} (f : S -> S) : ST S unit := fun s => Ok (tt, f s).
Definition lift {S A} (r : result A) : ST S A := fun s =>
  match r with Ok a => Ok (a, s) | Fault e => Fault e end.

(** [list_for_each_entry]: the body runs on each entry, in list order. *)
Fixpoint for_each {S A} (l : list A) (body : A -> ST S unit) : ST S unit :=
  match l with
  | [] => ret tt
  | x :: l' => body x;; for_each l' body
  end.

(** The same with a value threaded through the loop. *)
Fixpoint for_acc {S A B} (l : list A) (b : B) (body : B -> A -> ST S B) : ST S B :=
  match l with
  | [] => ret b
  | x :: l' => let! b' := body b x in for_acc l' b' body
  end.

(** ** Specifications of stateful code

    [hoare P m Q]: started in a state of [P], [m] does not die, and returns
    a value and a state of [Q]. *)
Definition hoare {S A} (P : S -> Prop) (m : ST S A) (Q : A -> S -> Prop) : Prop :=
  forall s, P s -> match m s with Ok (a, s') => Q a s' | Fault _ => False end.

Section Hoare.
Context {S : Type}.
Implicit Types P : S -> Prop.

Lemma hoare_ret {A} P (a : A) (Q : A -> S -> Prop) :
  (forall s, P s -> Q a s) -> hoare P (ret a) Q.
Proof. intros H s Hs. apply H, Hs. Qed.

Lemma hoare_bind {A B} P (m : ST S A) (f : A -> ST S B) R Q :
  hoare P m R -> (forall a, hoare (R a) (f a) Q) -> hoare P (bind m f) Q.
Proof.
  intros Hm Hf s Hs. specialize (Hm s Hs). unfold bind.
  destruct (m s) as [[a s']|]; [apply Hf, Hm | done].
Qed.

Lemma hoare_conseq {A} P P' (m : ST S A) Q Q' :
  hoare P' m Q' -> (forall s, P s -> P' s) -> (forall a s, Q' a s -> Q a s) -> hoare P m Q.
Proof.
  intros Hm HP HQ s Hs. specialize (Hm s (HP s Hs)).
  destruct (m s) as [[a s']|]; [apply HQ, Hm | done].
Qed.

Lemma hoare_gets {A} P (f : S -> A) Q :
  (forall s, P s -> Q (f s) s) -> hoare P (gets f) Q.
Proof. intros H s Hs. apply H, Hs. Qed.

Lemma hoare_modify P (f : S -> S) (Q : unit -> S -> Prop) :
  (forall s, P s -> Q tt (f s)) -> hoare P (modify f) Q.
Proof. intros H s Hs. apply H, Hs. Qed.

Lemma hoare_lift {A} P (r : result A) Q :
  (forall s, P s -> exists a, r = Ok a /\ Q a s) -> hoare P (lift r) Q.
Proof.
  intros H s Hs. destruct (H s Hs) as (a & -> & HQ). exact HQ.
Qed.

Lemma hoare_pre {A} P (m : ST S A) Q (phi : Prop) :
  (phi -> hoare P m Q) -> hoare (fun s => phi /\ P s) m Q.
Proof. intros H s [Hphi Hs]. exact (H Hphi s Hs). Qed.

(** A loop keeps what its body keeps. *)
Lemma hoare_for_each {A} (l : list A) (body : A -> ST S unit) (I : S -> Prop) :
  (forall x, x ∈ l -> hoare I (body x) (fun _ => I)) ->
  hoare I (for_each l body) (fun _ => I).
Proof.
  induction l as [|x l IH]; intros Hb; simpl; [by apply hoare_ret |].
  apply (hoare_bind _ _ _ (fun _ => I)); [apply Hb; left |].
  intros _. apply IH. intros y Hy. apply Hb. by right.
Qed.

Lemma hoare_for_acc {A B} (l : list A) (b : B) (body : B -> A -> ST S B)
    (I : B -> S -> Prop) :
  (forall b x, x ∈ l -> hoare (I b) (body b x) I) ->
  hoare (I b) (for_acc l b body) I.
Proof.
  revert b. induction l as [|x l IH]; intros b Hb; simpl; [by apply hoare_ret |].
  apply (hoare_bind _ _ _ I); [apply Hb; left |].
  intros b'. apply IH. intros b'' y Hy. apply Hb. by right.
Qed.

(** Reading a specification off a run. *)
Lemma hoare_run {A} P (m : ST S A) Q s :
  hoare P m Q -> P s -> exists a s', m s = Ok (a, s') /\ Q a s'.
Proof.
  intros Hm Hs. specialize (Hm s Hs). destruct (m s) as [[a s']|]; [eauto | done].
Qed.
End Hoare.

(** ** Record update

    [r <| f := v |>] is the record [r] with its field [f] set to [v], and
    [r <| f ::= g |>] with [g] applied to the field.  A record type takes part
    by an instance of [Eta] that lists its fields. *)

Class Eta (R : Type) := eta : R -> R.

Class Setter {R T : Type} (f : R -> T) := update_field : (T -> T) -> R -> R.

Ltac solve_setter f :=
  match type of f with
  | ?R -> ?T =>
      let e := eval unfold eta in (eta : R -> R) in
      let e := eval hnf in e in
      let p := eval pattern f in e in
      match p with
      | ?ctx _ => exact (fun (g : T -> T) => ctx (fun r : R => g (f r)))
      end
  end.

#[global] Hint Extern 0 (Setter ?f) => solve_setter f : typeclass_instances.

Definition upd {R T} (f : R -> T) `{!Setter f} (g : T -> T) (r : R) : R := update_field g r.

Notation "r <| f := v |>" := (upd f (fun _ => v) r)
  (at level 1, left associativity, format "r  <| f  :=  v |>").
Notation "r <| f ::= g |>" := (upd f g r)
  (at level 1, left associativity, format "r  <| f  ::=  g |>").

Arguments upd {R T} f _ g r /.
Arguments update_field {R T} f _ _ _ /.

(** ** Lists *)

Lemma Forall_mono {A} (P Q : A -> Prop) l :
  (forall x, P x -> Q x) -> Forall P l -> Forall Q l.
Proof. intros H. induction 1; constructor; auto. Qed.

Lemma list_alter_insert {A} (f : A -> A) (l : list A) i x :
  l !! i = Some x -> alter f i l = <[i := f x]> l.
Proof.
  revert i. induction l as [|y l IH]; intros [|i] Hi; simplify_eq/=; auto. f_equal. by apply IH.
Qed.

(** A property of one field of the members depends on that field only. *)
Lemma Forall_field {A B} (f : A -> B) (P : B -> Prop) l l' :
  f <$> l' = f <$> l -> Forall (fun a => P (f a)) l -> Forall (fun a => P (f a)) l'.
Proof. intros E H. apply (Forall_fmap f P). rewrite E. by apply Forall_fmap. Qed.

(** ** Sums over lists of integers *)

Fixpoint zsum (l : list Z) : Z :=
  match l with [] => 0 | x :: l' => x + zsum l' end.

Lemma zsum_app l1 l2 : zsum (l1 ++ l2) = zsum l1 + zsum l2.
Proof. induction l1; simpl; lia. Qed.

Lemma zsum_nonneg l : Forall (fun x => 0 <= x) l -> 0 <= zsum l.
Proof. induction 1; simpl; lia. Qed.

#[global] Instance zsum_perm : Proper (Permutation ==> eq) zsum.
Proof. induction 1; simpl; lia. Qed.

(** ** Sums over maps *)

Section Msum.
Context {K A : Type} `{Countable K} (f : A -> Z).
(** The sum of [f] over the values of a map. *)
Definition msum (m : gmap K A) : Z := map_fold (fun _ x acc => f x + acc) 0 m.
Lemma msum_empty : msum ∅ = 0.
Proof. unfold msum. by rewrite map_fold_empty. Qed.
Lemma msum_insert m k x : m !! k = None -> msum (<[k := x]> m) = f x + msum m.
Proof. intros Hk. unfold msum. rewrite map_fold_insert_L; [done | intros; lia | done]. Qed.
Lemma msum_delete m k x : m !! k = Some x -> msum (delete k m) = msum m - f x.
Proof.
  intros Hk. rewrite <- (insert_delete_id m k x Hk) at 2. rewrite msum_insert by apply lookup_delete_eq. lia.
Qed.
Lemma msum_update m k x y : m !! k = Some x -> msum (<[k := y]> m) = msum m - f x + f y.
Proof.
  intros Hk. rewrite <- insert_delete_eq, msum_insert by apply lookup_delete_eq.
  rewrite (msum_delete _ _ _ Hk). lia.
Qed.
Lemma msum_nonneg m : (forall x, 0 <= f x) -> 0 <= msum m.
Proof.
  intros Hf. induction m as [|k x m Hk IH] using map_ind; [by rewrite msum_empty |].
  rewrite msum_insert by done. specialize (Hf x). lia.
Qed.
Lemma msum_lookup m k x : (forall x, 0 <= f x) -> m !! k = Some x -> f x <= msum m.
Proof.
  intros Hf Hk. pose proof (msum_nonneg (delete k m) Hf) as H1. rewrite (msum_delete _ _ _ Hk) in H1. lia.
Qed.
Lemma msum_zero m : (forall k x, m !! k = Some x -> f x = 0) -> msum m = 0.
Proof.
  induction m as [|k x m Hk IH] using map_ind; intros Hz; [by rewrite msum_empty |].
  rewrite msum_insert by done. rewrite (Hz k x) by apply lookup_insert_eq.
  rewrite IH; [done |]. intros k' y Hy. apply (Hz k'). rewrite lookup_insert_ne; congruence.
Qed.
End Msum.

Create HintDb split.

(** ** Tactics *)

(** Split on the conditions of the code under proof. *)
Ltac split_ifs :=
  repeat match goal with
    | |- context [if ?b then _ else _] => destruct b eqn:?
    end.

(** Turn the boolean comparisons of the code into propositions. *)
Ltac bool_to_prop :=
  repeat match goal with
    | H : (_ && _) = true |- _ => apply andb_true_iff in H; destruct H
    | H : (_ || _) = false |- _ => apply orb_false_iff in H; destruct H
    | H : (_ =? _) = true |- _ => apply Z.eqb_eq in H
    | H : (_ =? _) = false |- _ => apply Z.eqb_neq in H
    | H : (_ <? _) = true |- _ => apply Z.ltb_lt in H
    | H : (_ <? _) = false |- _ => apply Z.ltb_ge in H
    | H : (_ <=? _) = true |- _ => apply Z.leb_le in H
    | H : (_ <=? _) = false |- _ => apply Z.leb_gt in H
    | H : (_ >=? _) = true |- _ => rewrite Z.geb_leb in H; apply Z.leb_le in H
    | H : (_ >=? _) = false |- _ => rewrite Z.geb_leb in H; apply Z.leb_gt in H
    | H : (_ >? _) = true |- _ => rewrite Z.gtb_ltb in H; apply Z.ltb_lt in H
    | H : (_ >? _) = false |- _ => rewrite Z.gtb_ltb in H; apply Z.ltb_ge in H
    | H : negb _ = true |- _ => apply negb_true_iff in H
    | H : negb _ = false |- _ => apply negb_false_iff in H
    end.

(** ** Code that works on a part of the state *)

Definition zoom {S T A} (get : S -> T) (set : T -> S -> S) (m : ST T A) : ST S A := fun s =>
  match m (get s) with
  | Ok (a, t) => Ok (a, set t s)
  | Fault e => Fault e
  end.

(** [m s] returns [a] in state [s'], written as an equation of the code. *)
Lemma bind_ok {S A B} (m : ST S A) (f : A -> ST S B) s a s' :
  m s = Ok (a, s') -> bind m f s = f a s'.
Proof. unfold bind. by intros ->. Qed.

Lemma zoom_ok {S T A} (get : S -> T) set (m : ST T A) s a t :
  m (get s) = Ok (a, t) -> zoom get set m s = Ok (a, set t s).
Proof. unfold zoom. by intros ->. Qed.
