(* ===== verification/Keeps.v ===== *)
(** * Code that keeps an invariant and a frame

    [keeps I R P m Q]: started in a state of the invariant [I] and of [P], [m]
    returns, in a state of [I] and of [Q] that the preorder [R] relates to the first.
    [I] is what the component promises of its data in between, [R] the part of
    the state that the code leaves alone. *)

From S2P Require Import Prelude.

Definition keeps {S A} (I : S -> Prop) (R : relation S) (P : S -> Prop) (m : ST S A)
    (Q : A -> S -> Prop) : Prop :=
  forall s, I s -> P s -> exists a s', m s = Ok (a, s') /\ I s' /\ R s s' /\ Q a s'.

Section Keeps.
Context {S : Type} {I : S -> Prop} {R : relation S} {HR : PreOrder R}.

Lemma keeps_ret {A} P (a : A) (Q : A -> S -> Prop) :
  (forall s, P s -> Q a s) -> keeps I R P (ret a) Q.
Proof. intros H s Hi Hs. exists a, s. split_and!; auto. reflexivity. Qed.

Lemma keeps_bind {A B} P (m : ST S A) (f : A -> ST S B) (M : A -> S -> Prop) Q :
  keeps I R P m M -> (forall a, keeps I R (M a) (f a) Q) -> keeps I R P (bind m f) Q.
Proof.
  intros Hm Hf s Hi Hs. destruct (Hm s Hi Hs) as (a & s1 & E1 & Hi1 & F1 & HM).
  destruct (Hf a s1 Hi1 HM) as (b & s2 & E2 & Hi2 & F2 & HQ).
  exists b, s2. rewrite (bind_ok _ _ _ _ _ E1). split_and!; auto. by transitivity s1.
Qed.

Lemma keeps_conseq {A} P P' (m : ST S A) Q Q' :
  keeps I R P' m Q' -> (forall s, P s -> P' s) -> (forall a s, Q' a s -> Q a s) ->
  keeps I R P m Q.
Proof.
  intros Hm HP HQ s Hi Hs. destruct (Hm s Hi (HP s Hs)) as (a & s' & E & Hi' & F & H).
  exists a, s'. auto.
Qed.

(** A loop with an invariant that knows how many turns were made. *)
Lemma keeps_for_acc_at {A B} (l : list A) (b : B) (body : B -> A -> ST S B)
    (J : nat -> B -> S -> Prop) :
  (forall i b x, l !! i = Some x -> keeps I R (J i b) (body b x) (J (Datatypes.S i))) ->
  keeps I R (J O b) (for_acc l b body) (J (length l)).
Proof.
  revert J b. induction l as [|x l IH]; intros J b Hb; simpl; [by apply keeps_ret |].
  apply (keeps_bind _ _ _ (J 1%nat)); [by apply (Hb O) |].
  intros b'. apply (IH (fun i => J (Datatypes.S i))). intros i b'' y Hy. by apply (Hb (Datatypes.S i)).
Qed.

Lemma keeps_for_acc {A B} (l : list A) (b : B) (body : B -> A -> ST S B) (J : B -> S -> Prop) :
  (forall b x, x ∈ l -> keeps I R (J b) (body b x) J) -> keeps I R (J b) (for_acc l b body) J.
Proof.
  intros Hb. apply (keeps_for_acc_at l b body (fun _ => J)). intros i b' x Hx.
  apply Hb, list_elem_of_lookup. eauto.
Qed.

Lemma keeps_for_each {A} (l : list A) (body : A -> ST S unit) (J : S -> Prop) :
  (forall x, x ∈ l -> keeps I R J (body x) (fun _ => J)) ->
  keeps I R J (for_each l body) (fun _ => J).
Proof.
  induction l as [|x l IH]; intros Hb; simpl; [by apply keeps_ret |].
  apply (keeps_bind _ _ _ (fun _ => J)); [apply Hb; left |].
  intros _. apply IH. intros y Hy. apply Hb. by right.
Qed.

Lemma keeps_for_each_at {A} (l : list A) (body : A -> ST S unit) (J : nat -> S -> Prop) :
  (forall i x, l !! i = Some x -> keeps I R (J i) (body x) (fun _ => J (Datatypes.S i))) ->
  keeps I R (J O) (for_each l body) (fun _ => J (length l)).
Proof.
  revert J. induction l as [|x l IH]; intros J Hb; simpl; [by apply keeps_ret |].
  apply (keeps_bind _ _ _ (fun _ => J 1%nat)); [by apply (Hb O) |].
  intros _. apply (IH (fun i => J (Datatypes.S i))). intros i y Hy. by apply (Hb (Datatypes.S i)).
Qed.

Lemma keeps_gets {A} P (f : S -> A) (Q : A -> S -> Prop) :
  (forall s, P s -> Q (f s) s) -> keeps I R P (gets f) Q.
Proof. intros H s Hi Hs. exists (f s), s. split_and!; auto. reflexivity. Qed.

(** A fact that the frame transports can be carried along. *)
Lemma keeps_carry {A} (F : S -> Prop) P (m : ST S A) Q :
  (forall s s', R s s' -> F s -> F s') -> keeps I R P m Q ->
  keeps I R (fun s => P s /\ F s) m (fun a s => Q a s /\ F s).
Proof.
  intros HF Hm s Hi [Hs Hfs]. destruct (Hm s Hi Hs) as (a & s' & E & Hi' & F' & HQ).
  exists a, s'. split_and!; eauto.
Qed.

Lemma keeps_pure {A} (phi : Prop) P (m : ST S A) Q :
  (phi -> keeps I R P m Q) -> keeps I R (fun s => P s /\ phi) m Q.
Proof. intros H s Hi [Hs Hphi]. by apply H. Qed.

(** The state the code starts in may be named. *)
Lemma keeps_from {A} P (m : ST S A) Q :
  (forall s0, I s0 -> P s0 -> keeps I R (fun s => s = s0) m Q) -> keeps I R P m Q.
Proof. intros H s Hi Hs. exact (H s Hi Hs s Hi eq_refl). Qed.

End Keeps.
