(* ===== verification/Partial.v ===== *)
(** * What code leaves alone, if it returns

    [partial P m Q]: if [m], started in a state of [P], returns, then in a state of [Q].
    That it returns is proved elsewhere, from what the data promise; these
    specifications need no such promise and so go through any code by its text. *)

From S2P Require Import Prelude.

Definition partial {S A} (P : S -> Prop) (m : ST S A) (Q : A -> S -> Prop) : Prop :=
  forall s a s', P s -> m s = Ok (a, s') -> Q a s'.

(** [stable P m]: [m] keeps [P]. *)
Abbreviation stable P m := (partial P m (fun _ => P)).

Section Rules.
Context {S : Type}.
Implicit Types P : S -> Prop.

Lemma partial_ret {A} P (a : A) (Q : A -> S -> Prop) : (forall s, P s -> Q a s) -> partial P (ret a) Q.
Proof. intros H s b s' Hs [= <- <-]. auto. Qed.

Lemma partial_bind {A B} P (m : ST S A) (f : A -> ST S B) R Q :
  partial P m R -> (forall a, partial (R a) (f a) Q) -> partial P (bind m f) Q.
Proof.
  intros Hm Hf s b s' Hs. unfold bind. destruct (m s) as [[a s1]|] eqn:E; [|done]. intros E'.
  eapply Hf; [|exact E']. by eapply Hm.
Qed.

Lemma partial_conseq {A} P P' (m : ST S A) (Q Q' : A -> S -> Prop) :
  partial P' m Q' -> (forall s, P s -> P' s) -> (forall a s, Q' a s -> Q a s) -> partial P m Q.
Proof. intros Hm HP HQ s a s' Hs E. eapply HQ, Hm; [|exact E]. auto. Qed.

Lemma partial_eq {A} P (m m' : ST S A) Q : (forall s, m s = m' s) -> partial P m' Q -> partial P m Q.
Proof. intros E Hm s a s' Hs. rewrite E. by apply Hm. Qed.

(** What is known of the value only. *)
Lemma partial_pure {A} P (m : ST S A) Q (phi : Prop) :
  (phi -> partial P m Q) -> partial (fun s => P s /\ phi) m Q.
Proof. intros H s a s' [Hs Hphi] E. by eapply H. Qed.

(** A step of a sequence that keeps [P]. *)
Lemma stable_bind {A B} P (m : ST S A) (f : A -> ST S B) :
  stable P m -> (forall a, stable P (f a)) -> stable P (bind m f).
Proof. apply partial_bind. Qed.
Lemma stable_ret {A} P (a : A) : stable P (ret a).
Proof. by apply partial_ret. Qed.
Lemma stable_gets {A} P (f : S -> A) : stable P (gets f).
Proof. by intros s a s' Hs [= <- <-]. Qed.
Lemma stable_lift {A} P (r : result A) : stable P (lift r).
Proof. intros s a s' Hs. unfold lift. destruct r; [by intros [= <- <-] | done]. Qed.
Lemma stable_modify P f : (forall s, P s -> P (f s)) -> stable P (modify f).
Proof. intros Hf s a s' Hs [= <- <-]. auto. Qed.
Lemma stable_reads {A} P (m : ST S A) : (forall s a s', m s = Ok (a, s') -> s' = s) -> stable P m.
Proof. intros Hm s a s' Hs E. by rewrite (Hm _ _ _ E). Qed.

Lemma stable_for_each {A} P (l : list A) (body : A -> ST S unit) :
  (forall x, x ∈ l -> stable P (body x)) -> stable P (for_each l body).
Proof.
  induction l as [|x l IH]; intros Hb; simpl; [apply stable_ret |].
  apply stable_bind; [apply Hb; left |]. intros _. apply IH. intros y Hy. apply Hb. by right.
Qed.

Lemma stable_for_acc {A B} P (l : list A) (b : B) (body : B -> A -> ST S B) :
  (forall b x, stable P (body b x)) -> stable P (for_acc l b body).
Proof.
  intros Hb. revert b. induction l as [|x l IH]; intros b; simpl; [apply stable_ret |].
  apply stable_bind; [apply Hb |]. intros b'. apply IH.
Qed.

(** Code on a part of the state. *)
Lemma partial_zoom {T A} (get : S -> T) (put : T -> S -> S) (m : ST T A) P (P' : T -> Prop) (Q' : A -> T -> Prop) Q :
  partial P' m Q' -> (forall s, P s -> P' (get s)) -> (forall a s t, P s -> Q' a t -> Q a (put t s)) ->
  partial P (zoom get put m) Q.
Proof.
  intros Hm Hget Hput s a s' Hs. unfold zoom. destruct (m (get s)) as [[b t]|] eqn:E; [|done].
  intros [= <- <-]. apply Hput; [done |]. eapply Hm; [|exact E]. auto.
Qed.
End Rules.

Create HintDb stable.
#[export] Hint Resolve stable_ret stable_gets stable_lift : stable.

(** Goes through the text of the code; what is left is about the operations that are not
    in the database. *)
Ltac stable_step :=
  match goal with
  | |- partial _ (bind _ _) _ => apply stable_bind; [|intros]
  | |- partial _ (for_each _ _) _ => apply stable_for_each; intros
  | |- partial _ (for_acc _ _ _) _ => apply stable_for_acc; intros
  | |- partial _ (match ?x with _ => _ end) _ => destruct x
  | |- partial _ _ _ => solve [eauto 2 with stable nocore]
  end.
Ltac stable := repeat stable_step.
