(* ===== verification/CInt.v ===== *)
(** * C integers on a 64-bit kernel

    An integer of the source is a [Z]; what the source computes at a width is
    computed in [Z] and wrapped: [s32] for [int], [s64] for [long], [long long],
    [off_t] and [loff_t], [u32] for [unsigned int], [u64] for [unsigned long] and
    [size_t].  The kernel is compiled with -fno-strict-overflow, so signed
    arithmetic wraps as well; a conversion to a narrower signed type truncates. *)

From S2P Require Import Prelude.

Definition u32 (x : Z) : Z := x mod 0x100000000.
Definition u64 (x : Z) : Z := x mod 0x10000000000000000.
Definition s32 (x : Z) : Z := (x + 0x80000000) mod 0x100000000 - 0x80000000.
Definition s64 (x : Z) : Z :=
  (x + 0x8000000000000000) mod 0x10000000000000000 - 0x8000000000000000.

Abbreviation INT_MAX := 0x7fffffff (only parsing).
Abbreviation INT_MIN := (-0x80000000) (only parsing).
Abbreviation LONG_MAX := 0x7fffffffffffffff (only parsing).

Definition is_s32 (x : Z) : Prop := -0x80000000 <= x < 0x80000000.
Definition is_s64 (x : Z) : Prop := -0x8000000000000000 <= x < 0x8000000000000000.
Definition is_u64 (x : Z) : Prop := 0 <= x < 0x10000000000000000.

#[global] Instance is_s32_dec x : Decision (is_s32 x).
Proof. unfold is_s32. apply _. Defined.
#[global] Instance is_s64_dec x : Decision (is_s64 x).
Proof. unfold is_s64. apply _. Defined.
#[global] Instance is_u64_dec x : Decision (is_u64 x).
Proof. unfold is_u64. apply _. Defined.

(** C's division truncates towards zero. *)
Definition c_div (a b : Z) : Z := Z.quot a b.

Create Rewrite HintDb wrap.

(** ** Values in range are kept *)

Lemma s64_small x : is_s64 x -> s64 x = x.
Proof. unfold is_s64, s64. intros H. rewrite Z.mod_small; lia. Qed.
Lemma s32_small x : is_s32 x -> s32 x = x.
Proof. unfold is_s32, s32. intros H. rewrite Z.mod_small; lia. Qed.
Lemma u64_small x : is_u64 x -> u64 x = x.
Proof. unfold is_u64, u64. intros H. by rewrite Z.mod_small. Qed.

(** ** Results are in range *)

Lemma s64_range x : is_s64 (s64 x).
Proof.
  unfold is_s64, s64.
  pose proof (Z.mod_pos_bound (x + 0x8000000000000000) 0x10000000000000000). lia.
Qed.
Lemma s32_range x : is_s32 (s32 x).
Proof.
  unfold is_s32, s32. pose proof (Z.mod_pos_bound (x + 0x80000000) 0x100000000). lia.
Qed.
Lemma u64_range x : is_u64 (u64 x).
Proof. unfold is_u64, u64. apply Z.mod_pos_bound. lia. Qed.

Lemma s64_idem x : s64 (s64 x) = s64 x.
Proof. apply s64_small, s64_range. Qed.
Lemma u64_idem x : u64 (u64 x) = u64 x.
Proof. apply u64_small, u64_range. Qed.
Lemma s32_idem x : s32 (s32 x) = s32 x.
Proof. apply s32_small, s32_range. Qed.

(** ** Wrapping is a congruence: an inner wrap can be dropped *)

Lemma s64_shift x k : s64 (x + k * 0x10000000000000000) = s64 x.
Proof.
  unfold s64.
  replace (x + k * 0x10000000000000000 + 0x8000000000000000)
    with (x + 0x8000000000000000 + k * 0x10000000000000000) by lia.
  by rewrite Z_mod_plus_full.
Qed.
Lemma s64_cong x : exists k, s64 x = x + k * 0x10000000000000000.
Proof.
  exists (- ((x + 0x8000000000000000) / 0x10000000000000000)). unfold s64.
  pose proof (Z.div_mod (x + 0x8000000000000000) 0x10000000000000000). lia.
Qed.
Lemma u64_cong x : exists k, u64 x = x + k * 0x10000000000000000.
Proof.
  exists (- (x / 0x10000000000000000)). unfold u64.
  pose proof (Z.div_mod x 0x10000000000000000). lia.
Qed.
Lemma u64_shift x k : u64 (x + k * 0x10000000000000000) = u64 x.
Proof. unfold u64. by rewrite Z_mod_plus_full. Qed.

Lemma s32_shift x k : s32 (x + k * 0x100000000) = s32 x.
Proof.
  unfold s32.
  replace (x + k * 0x100000000 + 0x80000000) with (x + 0x80000000 + k * 0x100000000) by lia.
  by rewrite Z_mod_plus_full.
Qed.
Lemma s32_cong x : exists k, s32 x = x + k * 0x100000000.
Proof.
  exists (- ((x + 0x80000000) / 0x100000000)). unfold s32.
  pose proof (Z.div_mod (x + 0x80000000) 0x100000000). lia.
Qed.
Lemma s32_add_l a b : s32 (s32 a + b) = s32 (a + b).
Proof.
  destruct (s32_cong a) as [k ->].
  by rewrite <- (s32_shift (a + b) k); f_equal; lia.
Qed.
Lemma s32_sub_l a b : s32 (s32 a - b) = s32 (a - b).
Proof. apply (s32_add_l a (- b)). Qed.

Lemma s64_add_l a b : s64 (s64 a + b) = s64 (a + b).
Proof.
  destruct (s64_cong a) as [k ->].
  by rewrite <- (s64_shift (a + b) k); f_equal; lia.
Qed.
Lemma s64_add_r a b : s64 (a + s64 b) = s64 (a + b).
Proof. rewrite Z.add_comm, s64_add_l. f_equal. lia. Qed.
Lemma s64_sub_l a b : s64 (s64 a - b) = s64 (a - b).
Proof.
  destruct (s64_cong a) as [k ->].
  by rewrite <- (s64_shift (a - b) k); f_equal; lia.
Qed.
Lemma s64_sub_r a b : s64 (a - s64 b) = s64 (a - b).
Proof.
  destruct (s64_cong b) as [k ->].
  by rewrite <- (s64_shift (a - b) (-k)); f_equal; lia.
Qed.
Lemma s64_u64 a : s64 (u64 a) = s64 a.
Proof. destruct (u64_cong a) as [k ->]. by rewrite s64_shift. Qed.
Lemma u64_s64 a : u64 (s64 a) = u64 a.
Proof. destruct (s64_cong a) as [k ->]. by rewrite u64_shift. Qed.
Lemma u64_add_l a b : u64 (u64 a + b) = u64 (a + b).
Proof.
  destruct (u64_cong a) as [k ->].
  by rewrite <- (u64_shift (a + b) k); f_equal; lia.
Qed.
Lemma u64_add_r a b : u64 (a + u64 b) = u64 (a + b).
Proof. rewrite Z.add_comm, u64_add_l. f_equal. lia. Qed.

#[export] Hint Rewrite s64_idem u64_idem s32_idem s64_add_l s64_add_r s64_sub_l s64_sub_r
  s64_u64 u64_s64 u64_add_l u64_add_r : wrap.
#[export] Hint Resolve s64_range s32_range u64_range : split.

(** [wrap_small]: drop the wraps whose argument is in range. *)
Ltac wrap_small :=
  repeat first
    [ rewrite s64_small by (unfold is_s64 in *; lia)
    | rewrite s32_small by (unfold is_s32 in *; lia)
    | rewrite u64_small by (unfold is_u64 in *; lia) ].

(** ** [safe_div] of the schedulers (tbucket.c and acct_afq_sched.c)

    [__safe_div(long long a, long long b)]: a division by zero logs a line and
    returns the dividend. *)
Definition safe_div (a b : Z) : Z :=
  let a := s64 a in let b := s64 b in
  if b =? 0 then (if a =? 0 then 0 else a) else s64 (c_div a b).

Lemma safe_div_pos a b :
  0 <= a < 0x8000000000000000 -> 0 < b < 0x8000000000000000 -> safe_div a b = a / b.
Proof.
  intros Ha Hb. unfold safe_div, c_div.
  assert (0 <= a / b <= a).
  { split; [apply Z.div_pos; lia | apply Z.div_le_upper_bound; nia]. }
  rewrite (s64_small a), (s64_small b) by (unfold is_s64; lia).
  destruct (Z.eqb_spec b 0); [lia |].
  rewrite Z.quot_div_nonneg by lia. apply s64_small. unfold is_s64. lia.
Qed.

Lemma safe_div_zero a : safe_div a 0 = s64 a.
Proof.
  unfold safe_div. simpl. destruct (Z.eqb_spec (s64 a) 0) as [->|]; done.
Qed.
