(* ===== verification/Kernel.v ===== *)
(** * The kernel the schedulers run in

    What the modules use of the kernel and what is not part of this
    repository.  Functions of the kernel are the operations of the class
    [KernelFns], and what the modules rely on are the laws of [KernelOk]; the
    instance [ref_fns] is an implementation of them that computes.

    What the kernel decides (the time, whether an allocation succeeds, the
    contents of fresh memory) is read from a [world]: the n-th reading of the
    clock and the n-th allocation of a run have an answer fixed in advance, and
    a theorem for all worlds is a theorem for all that the kernel may decide. *)

From S2P Require Import Prelude CInt.

(** Address of a kernel object.  A pointer that may be NULL is an [option ptr]. *)
Abbreviation ptr := positive.

(** Is this the pointer [p]?  As a number, to count references with. *)
Definition one (o : option ptr) (p : ptr) : Z := if decide (o = Some p) then 1 else 0.

Lemma one_range o p : 0 <= one o p <= 1.
Proof. unfold one. case_decide; lia. Qed.
Lemma one_none p : one None p = 0.
Proof. done. Qed.
Lemma one_eq p : one (Some p) p = 1.
Proof. unfold one. by rewrite decide_True. Qed.
Lemma one_ne p q : p <> q -> one (Some p) q = 0.
Proof. intros H. unfold one. rewrite decide_False; [done | congruence]. Qed.

Record timespec := Timespec { tv_sec : Z; tv_nsec : Z }.
#[global] Instance eta_timespec : Eta timespec := fun r => Timespec (tv_sec r) (tv_nsec r).
#[global] Instance timespec_eq_dec : EqDecision timespec.
Proof. solve_decision. Defined.

Definition NSEC_PER_SEC : Z := 1000000000.
Definition USEC_PER_SEC : Z := 1000000.
Definition NSEC_PER_USEC : Z := 1000.

(** The instant a timespec denotes, in nanoseconds. *)
Definition ts_ns (t : timespec) : Z := tv_sec t * NSEC_PER_SEC + tv_nsec t.

Definition ts_normal (t : timespec) : Prop := 0 <= tv_nsec t < NSEC_PER_SEC.
#[global] Instance ts_normal_dec t : Decision (ts_normal t).
Proof. unfold ts_normal. apply _. Defined.

(** ** Functions of the kernel *)

Class KernelFns := {
  (* lib/sort.c: sort(base, num, size, cmp, NULL) *)
  ksort : forall {A : Type}, (A -> A -> Z) -> list A -> list A;
  (* linux/time.h *)
  timespec_sub : timespec -> timespec -> timespec;
  timespec_add_ns : timespec -> Z -> timespec;
  (* linux/jiffies.h *)
  usecs_to_jiffies : Z -> Z;
  (* linux/hash.h *)
  hash_32 : Z -> Z -> Z;
  (* block/elevator.c: the dispatch list after rq is put in its place; the
     first argument gives the first sector of a request *)
  elv_dispatch_sort : (ptr -> Z) -> list ptr -> ptr -> list ptr;
}.

(** A comparison function a sort can work with: a total preorder. *)
Definition cmp_ok {A} (cmp : A -> A -> Z) : Prop :=
  (forall x y, cmp x y <= 0 \/ cmp y x <= 0) /\
  (forall x y z, cmp x y <= 0 -> cmp y z <= 0 -> cmp x z <= 0).

Class KernelOk (K : KernelFns) : Prop := {
  ksort_perm : forall A (cmp : A -> A -> Z) l, Permutation (ksort cmp l) l;
  ksort_sorted : forall A (cmp : A -> A -> Z) l,
    cmp_ok cmp -> StronglySorted (fun x y => cmp x y <= 0) (ksort cmp l);
  timespec_sub_ns : forall a b, ts_normal a -> ts_normal b ->
    ts_normal (timespec_sub a b) /\ ts_ns (timespec_sub a b) = ts_ns a - ts_ns b;
  timespec_add_ns_ns : forall a n, ts_normal a -> 0 <= n ->
    ts_normal (timespec_add_ns a n) /\ ts_ns (timespec_add_ns a n) = ts_ns a + n;
  hash_32_range : forall v bits, 0 <= bits <= 31 -> 0 <= hash_32 v bits < 2 ^ bits;
  elv_dispatch_sort_perm : forall pos l rq,
    Permutation (elv_dispatch_sort pos l rq) (rq :: l);
}.

(** ** An implementation *)

Section RefFns.
Fixpoint insert_by {A} (cmp : A -> A -> Z) (x : A) (l : list A) : list A :=
  match l with
  | [] => [x]
  | y :: l' => if cmp x y <=? 0 then x :: l else y :: insert_by cmp x l'
  end.

Definition sort_by {A} (cmp : A -> A -> Z) (l : list A) : list A :=
  foldr (insert_by cmp) [] l.

Definition ts_of_ns (n : Z) : timespec := Timespec (n / NSEC_PER_SEC) (n mod NSEC_PER_SEC).

Lemma insert_by_perm {A} (cmp : A -> A -> Z) x l : Permutation (insert_by cmp x l) (x :: l).
Proof.
  induction l as [|y l IH]; simpl; [done |].
  destruct (cmp x y <=? 0); [done |]. rewrite IH. apply perm_swap.
Qed.

Lemma sort_by_perm {A} (cmp : A -> A -> Z) l : Permutation (sort_by cmp l) l.
Proof.
  induction l as [|x l IH]; simpl; [done |]. rewrite insert_by_perm. by rewrite IH.
Qed.

Lemma insert_by_sorted {A} (cmp : A -> A -> Z) x l :
  cmp_ok cmp -> StronglySorted (fun x y => cmp x y <= 0) l ->
  StronglySorted (fun x y => cmp x y <= 0) (insert_by cmp x l).
Proof.
  intros [Htot Htr]. induction 1 as [|y l Hl IH Hy]; simpl.
  { repeat constructor. }
  destruct (Z.leb_spec (cmp x y) 0) as [Hxy|Hxy].
  - repeat constructor; try done.
    eapply Forall_mono; [|exact Hy]. intros z Hz. simpl in *. eauto.
  - constructor; [done |]. rewrite insert_by_perm. constructor; [|done].
    destruct (Htot x y); [lia | done].
Qed.

Lemma sort_by_sorted {A} (cmp : A -> A -> Z) l :
  cmp_ok cmp -> StronglySorted (fun x y => cmp x y <= 0) (sort_by cmp l).
Proof.
  intros H. induction l as [|x l IH]; simpl; [constructor |]. by apply insert_by_sorted.
Qed.

Lemma ts_of_ns_spec n : ts_normal (ts_of_ns n) /\ ts_ns (ts_of_ns n) = n.
Proof.
  unfold ts_normal, ts_ns, ts_of_ns, NSEC_PER_SEC. simpl.
  pose proof (Z.div_mod n 1000000000). pose proof (Z.mod_pos_bound n 1000000000). lia.
Qed.
End RefFns.

#[export] Instance ref_fns : KernelFns := {|
  ksort := fun A => sort_by;
  timespec_sub a b := ts_of_ns (ts_ns a - ts_ns b);
  timespec_add_ns a n := ts_of_ns (ts_ns a + n);
  usecs_to_jiffies us := (us + 3999) / 4000;
  hash_32 v bits := v mod 2 ^ bits;
  elv_dispatch_sort pos l rq := insert_by (fun a b => pos a - pos b) rq l;
|}.

#[export] Instance ref_fns_ok : KernelOk ref_fns.
Proof.
  constructor.
  - intros. apply sort_by_perm.
  - intros. by apply sort_by_sorted.
  - intros. apply ts_of_ns_spec.
  - intros. apply ts_of_ns_spec.
  - intros v bits Hb. simpl. apply Z.mod_pos_bound. apply Z.pow_pos_nonneg; lia.
  - intros. apply insert_by_perm.
Qed.

(** ** What the kernel decides during a run *)

Record world := World {
  w_clock : nat -> timespec;   (* answer of the n-th reading of the clock *)
  w_jiffies : nat -> Z;        (* jiffies at that reading *)
  w_alloc : nat -> bool;       (* does the n-th kmalloc succeed? *)
  w_junk : nat -> Z;           (* contents of memory that was not initialised *)
  w_tick : nat;                (* readings of the clock so far *)
  w_nalloc : nat;              (* allocations so far *)
}.
#[export] Instance eta_world : Eta world := fun w =>
  World (w_clock w) (w_jiffies w) (w_alloc w) (w_junk w) (w_tick w) (w_nalloc w).

Definition clock_step (w : world) : world := w <| w_tick ::= S |>.
Definition alloc_step (w : world) : world := w <| w_nalloc ::= S |>.

(** The clock shows normalised times that fit a [time_t]. *)
Definition clock_ok (w : world) : Prop :=
  forall n, ts_normal (w_clock w n) /\ 0 <= tv_sec (w_clock w n) < 0x100000000.

Definition getnstimeofday : ST world timespec := fun w =>
  Ok (w_clock w (w_tick w), clock_step w).

Definition read_jiffies : ST world Z := fun w => Ok (w_jiffies w (w_tick w), clock_step w).

(** Does the next [kmalloc] succeed? *)
Definition kmalloc : ST world bool := fun w => Ok (w_alloc w (w_nalloc w), alloc_step w).
