(* ===== verification/DiskSim.v ===== *)
(** * Disk model (src/modules/disk_sim.h, disk_sim.c)

    The simulated disk is the position of its head; a request costs its size
    plus a positioning time, the distance from the head capped at [SEEK_CAP].
    Costs are [size_t], offsets [off_t]. *)

From S2P Require Import Prelude CInt.

(** [#define SEEK_CAP ((size_t)2*1024*1024)] *)
Definition SEEK_CAP : Z := 2 * 1024 * 1024.

Record IORequest := MkIORequest { offset : Z; size : Z }.
#[export] Instance eta_IORequest : Eta IORequest := fun r => MkIORequest (offset r) (size r).
#[export] Instance IORequest_eq_dec : EqDecision IORequest.
Proof. solve_decision. Defined.

Record disk_sim := DiskSim { head_location : Z }.
#[export] Instance eta_disk_sim : Eta disk_sim := fun d => DiskSim (head_location d).

(** [static size_t offset_diff(off_t o1, off_t o2)] *)
Definition offset_diff (o1 o2 : Z) : Z :=
  if o1 >? o2 then u64 (s64 (o1 - o2)) else u64 (s64 (o2 - o1)).

Definition disk_init (disk : disk_sim) : disk_sim := disk <| head_location := 0 |>.

Definition seek_time (o1 o2 : Z) : Z := Z.min (offset_diff o1 o2) SEEK_CAP.

Definition disk_position_time (disk : disk_sim) (request : IORequest) : Z :=
  Z.min (seek_time (head_location disk) (offset request)) SEEK_CAP.

Definition disk_simulate_request (disk : disk_sim) (request : IORequest) : Z * disk_sim :=
  let cost := u64 (size request + disk_position_time disk request) in
  (cost, disk <| head_location := s64 (offset request + size request) |>).

Definition disk_set_head (disk : disk_sim) (location : Z) : disk_sim :=
  disk <| head_location := location |>.

(** ** The distance is exact over the whole range of offsets

    The subtraction of two [off_t] may overflow [long]; read back as a [size_t]
    it is the distance all the same. *)
Lemma offset_diff_abs o1 o2 :
  is_s64 o1 -> is_s64 o2 -> offset_diff o1 o2 = Z.abs (o1 - o2).
Proof.
  unfold is_s64, offset_diff. intros H1 H2.
  destruct (Z.gtb_spec o1 o2); rewrite u64_s64, u64_small by (unfold is_u64; lia); lia.
Qed.

Lemma seek_time_abs o1 o2 :
  is_s64 o1 -> is_s64 o2 -> seek_time o1 o2 = Z.min (Z.abs (o1 - o2)) SEEK_CAP.
Proof. intros. unfold seek_time. by rewrite offset_diff_abs. Qed.

Lemma seek_time_range o1 o2 : 0 <= seek_time o1 o2 <= SEEK_CAP.
Proof.
  unfold seek_time, offset_diff, SEEK_CAP.
  destruct (o1 >? o2);
    [pose proof (u64_range (s64 (o1 - o2))) | pose proof (u64_range (s64 (o2 - o1)))];
    unfold is_u64 in *; lia.
Qed.

Lemma disk_position_time_seek disk r :
  disk_position_time disk r = seek_time (head_location disk) (offset r).
Proof.
  unfold disk_position_time. pose proof (seek_time_range (head_location disk) (offset r)). lia.
Qed.

Lemma disk_position_time_range disk r : 0 <= disk_position_time disk r <= SEEK_CAP.
Proof. rewrite disk_position_time_seek. apply seek_time_range. Qed.

#[export] Hint Resolve seek_time_range disk_position_time_range : split.

(** Seeking is a metric on offsets, capped: it is symmetric, zero exactly
    for equal offsets, at most [SEEK_CAP], and going through a third offset is never
    cheaper.  It holds for all offsets an [off_t] can have, although their difference
    overflows. *)
Theorem seek_time_metric a b c :
  is_s64 a -> is_s64 b -> is_s64 c ->
  seek_time a b = seek_time b a /\ (seek_time a b = 0 <-> a = b) /\
  0 <= seek_time a b <= SEEK_CAP /\ seek_time a c <= seek_time a b + seek_time b c.
Proof.
  intros Ha Hb Hc. rewrite !seek_time_abs by done. unfold SEEK_CAP. lia.
Qed.

Lemma seek_time_metric_witness :
  is_s64 (-0x8000000000000000) /\ seek_time (-0x8000000000000000) 0x7fffffffffffffff = SEEK_CAP.
Proof.
  assert (H1 : is_s64 (-0x8000000000000000)) by (by vm_compute).
  assert (H2 : is_s64 0x7fffffffffffffff) by (by vm_compute).
  split; [exact H1 |].
  destruct (seek_time_metric (-0x8000000000000000) 0x7fffffffffffffff 0 H1 H2) as (_ & _ & H & _);
    [by vm_compute |]. reflexivity.
Defined.
