(* ===== verification/IoBatch.v ===== *)
(** * Batches of simulated requests (src/modules/io_batch.h, io_batch.c)

    A batch collects the requests an account (or the whole disk) issued, in
    an array of fixed capacity, and prices them: the cost of a batch is what the
    simulated disk needs to serve its requests in the order of their offsets. *)

From S2P Require Import Prelude CInt Kernel DiskSim.

Record io_batch := IoBatch {
  disk : disk_sim;
  reqs : list IORequest;        (* the array reqs[0 .. reqs_capacity-1] *)
  reqs_size : Z;
  reqs_capacity : Z;
  bytes : Z;                    (* sum of bytes across reqs *)
  cost : Z;                     (* cached cost, (size_t)-1 if there is none *)
  bytes_cap : Z;
}.
#[export] Instance eta_io_batch : Eta io_batch := fun b =>
  IoBatch (disk b) (reqs b) (reqs_size b) (reqs_capacity b) (bytes b) (cost b) (bytes_cap b).

(** [(size_t)-1] *)
Definition NO_COST : Z := u64 (-1).

(** [iobatch_new]: two allocations, of the struct and of the array; only the
    first entry of the array is cleared, the others keep what was in memory. *)
Definition iobatch_new (batch_ok reqs_ok : bool) (junk : list IORequest)
    (capacity cap : Z) : option io_batch :=
  if negb batch_ok || negb reqs_ok then None
  else Some {|
    disk := disk_init (DiskSim 0);
    reqs := <[0%nat := MkIORequest 0 0]> (take (Z.to_nat capacity) junk);
    reqs_size := 0;
    reqs_capacity := capacity;
    bytes := 0;
    cost := NO_COST;
    bytes_cap := cap;
  |}.

Definition iobatch_full (batch : io_batch) : result bool :=
  let? _ := bug_on 26 (reqs_size batch >? reqs_capacity batch) in
  Ok ((reqs_size batch >=? reqs_capacity batch) || (bytes batch >=? bytes_cap batch)).

(** Returns 1 if the request extends the last one of the batch, 0 if it was
    added as a new one or if the batch was full. *)
Definition iobatch_add_request (batch : io_batch) (off sz : Z) : result (Z * io_batch) :=
  let? full := iobatch_full batch in
  if full then Ok (0, batch)
  else
    let? merge :=
      if reqs_size batch >? 0 then
        let? prev := array_get 41 (reqs batch) (reqs_size batch - 1) in
        Ok (if off =? s64 (offset prev + size prev) then Some prev else None)
      else Ok None in
    match merge with
    | Some prev =>
        let? reqs' := array_set 42 (reqs batch) (reqs_size batch - 1)
                        (prev <| size := s32 (size prev + sz) |>) in
        Ok (1, batch <| reqs := reqs' |> <| cost := NO_COST |>
                     <| bytes := u64 (bytes batch + sz) |>)
    | None =>
        let? reqs' := array_set 45 (reqs batch) (reqs_size batch) (MkIORequest off sz) in
        Ok (0, batch <| reqs := reqs' |> <| reqs_size := s32 (reqs_size batch + 1) |>
                     <| cost := NO_COST |> <| bytes := u64 (bytes batch + sz) |>)
    end.

Definition iobatch_clear (batch : io_batch) : io_batch :=
  if reqs_size batch >? 0
  then batch <| reqs_size := 0 |> <| cost := NO_COST |> <| bytes := 0 |>
  else batch.

Definition request_cmp (a b : IORequest) : Z :=
  if offset a <? offset b then -1 else if offset a >? offset b then 1 else 0.

(** The entries [reqs[0 .. reqs_size-1]]. *)
Definition live (batch : io_batch) : list IORequest :=
  take (Z.to_nat (reqs_size batch)) (reqs batch).

Section Cost.
Context {K : KernelFns}.

Definition iobatch_scan_sort (batch : io_batch) : result io_batch :=
  if reqs_size batch <=? Z.of_nat (length (reqs batch))
  then Ok (batch <| reqs := ksort request_cmp (live batch)
                            ++ drop (Z.to_nat (reqs_size batch)) (reqs batch) |>)
  else Fault (OutOfBounds 97).

(** The loop of [iobatch_get_cost] over the requests of the batch. *)
Fixpoint simulate_requests (l : list IORequest) (c : Z) (d : disk_sim) : Z * disk_sim :=
  match l with
  | [] => (c, d)
  | r :: l' =>
      let (c', d') := disk_simulate_request d r in
      simulate_requests l' (u64 (c + c')) d'
  end.

Definition iobatch_get_cost (batch : io_batch) : result (Z * io_batch) :=
  if negb (cost batch =? NO_COST) then Ok (cost batch, batch)
  else if reqs_size batch =? 0 then Ok (0, batch <| cost := 0 |>)
  else
    let? batch := iobatch_scan_sort batch in
    let? first := array_get 115 (reqs batch) 0 in
    let (c, d) := simulate_requests (live batch) SEEK_CAP
                    (disk_set_head (disk batch) (offset first)) in
    Ok (c, batch <| disk := d |> <| cost := c |>).

End Cost.

(** ** Reference definitions *)

(** What adding a request does to the list of requests of a batch. *)
Fixpoint push_request (l : list IORequest) (off sz : Z) : list IORequest :=
  match l with
  | [] => [MkIORequest off sz]
  | [r] => if off =? s64 (offset r + size r)
           then [r <| size := s32 (size r + sz) |>] else [r; MkIORequest off sz]
  | r :: l' => r :: push_request l' off sz
  end.

(** Positioning time of a scan over [l] by a head that starts at [h]. *)
Fixpoint seeks_from (h : Z) (l : list IORequest) : Z :=
  match l with
  | [] => 0
  | r :: l' => Z.min (Z.abs (h - offset r)) SEEK_CAP + seeks_from (offset r + size r) l'
  end.

(** The cost of serving [l] in its order: one full seek to its first request,
    the bytes, and the seeks in between. *)
Definition scan_cost (l : list IORequest) : Z :=
  match l with
  | [] => 0
  | r :: _ => SEEK_CAP + zsum (size <$> l) + seeks_from (offset r) l
  end.

(** ** The invariant of a batch

    The sizes and offsets a batch holds are those of disk requests: an offset is
    a non-negative [off_t] with room for a request behind it, a size is
    non-negative; [MAX_IO] bounds the size of one request. *)

Definition MAX_IO : Z := 0x40000000.

Definition req_ok (r : IORequest) : Prop :=
  0 <= offset r < 0x4000000000000000 /\ 0 <= size r < 0x80000000.
#[export] Instance req_ok_dec r : Decision (req_ok r).
Proof. unfold req_ok. apply _. Defined.

Definition offset_le (a b : IORequest) : Prop := offset a <= offset b.

Record batch_wf (b : io_batch) : Prop := {
  wf_array : Z.of_nat (length (reqs b)) = reqs_capacity b;
  wf_size : 0 <= reqs_size b <= reqs_capacity b;
  wf_capacity : 0 < reqs_capacity b <= 0x200;
  wf_cap : 0 < bytes_cap b <= 0x20000000;
  wf_live : Forall req_ok (live b);
  wf_bytes : bytes b = zsum (size <$> live b);
  wf_bytes_bound : bytes b < bytes_cap b + MAX_IO;
  wf_cost : cost b = NO_COST \/
    (cost b = scan_cost (live b) /\ StronglySorted offset_le (live b));
}.

Definition batch_fullb (b : io_batch) : bool :=
  (reqs_size b >=? reqs_capacity b) || (bytes b >=? bytes_cap b).

(** ** Lemmas *)

Lemma live_length b : batch_wf b -> length (live b) = Z.to_nat (reqs_size b).
Proof.
  intros Hb. pose proof (wf_array b Hb). pose proof (wf_size b Hb).
  unfold live. rewrite length_take. lia.
Qed.

Lemma iobatch_full_ok b : batch_wf b -> iobatch_full b = Ok (batch_fullb b).
Proof.
  intros Hb. pose proof (wf_size b Hb). unfold iobatch_full, bug_on.
  destruct (Z.gtb_spec (reqs_size b) (reqs_capacity b)); [lia | done].
Qed.

Lemma iobatch_new_wf junk cap bcap :
  (Z.to_nat cap ≤ length junk)%nat -> 0 < cap <= 0x200 -> 0 < bcap <= 0x20000000 ->
  exists b, iobatch_new true true junk cap bcap = Some b /\ batch_wf b /\ batch_fullb b = false.
Proof.
  intros Hj Hc Hb. eexists. split; [done |]. split; [split |].
  all: unfold live, batch_fullb, MAX_IO; simpl; try (lia || constructor || done).
  rewrite length_insert, length_take. lia.
Qed.

Lemma push_request_snoc l r off sz :
  push_request (l ++ [r]) off sz =
  if off =? s64 (offset r + size r)
  then l ++ [r <| size := s32 (size r + sz) |>] else l ++ [r; MkIORequest off sz].
Proof.
  induction l as [|x l IH]; simpl; [done |]. rewrite IH.
  destruct l; simpl; by destruct (_ =? _).
Qed.

Lemma push_request_sizes l off sz :
  Forall req_ok l -> 0 <= sz -> zsum (size <$> l) + sz < 0x80000000 ->
  zsum (size <$> push_request l off sz) = zsum (size <$> l) + sz.
Proof.
  intros Hl Hs Hsum. destruct l as [|r l _] using rev_ind; [simpl; lia |].
  rewrite push_request_snoc.
  apply Forall_app in Hl as [Hl Hr]. inversion_clear Hr as [|? ? [_ Hr'] _].
  rewrite fmap_app, zsum_app in Hsum. simpl in Hsum.
  assert (0 <= zsum (size <$> l)).
  { apply zsum_nonneg, Forall_fmap. eapply Forall_mono; [|exact Hl]. intros ? []; simpl; lia. }
  split_ifs; rewrite !fmap_app, !zsum_app; simpl; [wrap_small; lia | lia].
Qed.

Lemma push_request_ok l off sz :
  Forall req_ok l -> 0 <= sz -> 0 <= off < 0x4000000000000000 ->
  zsum (size <$> l) + sz < 0x80000000 ->
  Forall req_ok (push_request l off sz).
Proof.
  intros Hl Hs Ho Hsum. destruct l as [|r l _] using rev_ind.
  { simpl in *. repeat constructor; simpl; lia. }
  rewrite push_request_snoc.
  apply Forall_app in Hl as [Hl Hr]. inversion_clear Hr as [|? ? [Hr1 Hr2] _].
  rewrite fmap_app, zsum_app in Hsum. simpl in Hsum.
  assert (0 <= zsum (size <$> l)).
  { apply zsum_nonneg, Forall_fmap. eapply Forall_mono; [|exact Hl]. intros ? []; simpl; lia. }
  split_ifs; apply Forall_app; (split; [done |]); repeat constructor; simpl; wrap_small; lia.
Qed.

(** Adding to a batch that is not full acts on its requests as [push_request],
    within the array. *)
Lemma iobatch_add_request_live b off sz :
  batch_wf b -> batch_fullb b = false ->
  exists rv b', iobatch_add_request b off sz = Ok (rv, b') /\
    live b' = push_request (live b) off sz /\
    length (reqs b') = length (reqs b) /\ reqs_capacity b' = reqs_capacity b /\
    bytes_cap b' = bytes_cap b /\ disk b' = disk b /\
    bytes b' = u64 (bytes b + sz) /\ cost b' = NO_COST /\
    reqs_size b' = s32 (reqs_size b + 1 - rv) /\ (rv = 0 \/ rv = 1 /\ 0 < reqs_size b).
Proof.
  intros Hb Hf. pose proof (wf_array b Hb) as Ha. pose proof (wf_size b Hb) as Hs.
  pose proof (wf_capacity b Hb) as Hc.
  assert (Hlt : reqs_size b < reqs_capacity b).
  { unfold batch_fullb in Hf. bool_to_prop. lia. }
  unfold iobatch_add_request. rewrite iobatch_full_ok, Hf by done. simpl.
  assert (Hnew : array_set 45 (reqs b) (reqs_size b) (MkIORequest off sz)
                 = Ok (<[Z.to_nat (reqs_size b) := MkIORequest off sz]> (reqs b))).
  { unfold array_set. rewrite decide_True by lia. done. }
  assert (Hlast : forall r, reqs b !! Z.to_nat (reqs_size b) = Some r ->
    take (Z.to_nat (s32 (reqs_size b + 1))) (<[Z.to_nat (reqs_size b) := MkIORequest off sz]> (reqs b))
    = live b ++ [MkIORequest off sz]).
  { intros r Hr. wrap_small. replace (Z.to_nat (reqs_size b + 1)) with (S (Z.to_nat (reqs_size b))) by lia.
    rewrite (take_S_r _ _ (MkIORequest off sz)) by (apply list_lookup_insert_eq; lia).
    unfold live. by rewrite take_insert_ge. }
  destruct (lookup_lt_is_Some_2 (reqs b) (Z.to_nat (reqs_size b))) as [x Hx]; [lia |].
  destruct (Z.gtb_spec (reqs_size b) 0) as [Hpos|Hz].
  2: { exists 0. eexists. rewrite Hnew. simpl. split; [done |].
       unfold live at 1; simpl. rewrite (Hlast x Hx).
       assert (live b = []) as ->.
       { unfold live. replace (reqs_size b) with 0 by lia. done. }
       simpl. rewrite length_insert, Z.sub_0_r. repeat split; auto. }
  destruct (lookup_lt_is_Some_2 (reqs b) (Z.to_nat (reqs_size b - 1))) as [r Hr]; [lia |].
  assert (Hlive : live b = take (Z.to_nat (reqs_size b - 1)) (reqs b) ++ [r]).
  { unfold live. replace (Z.to_nat (reqs_size b)) with (S (Z.to_nat (reqs_size b - 1))) by lia.
    by apply take_S_r. }
  rewrite Hlive, push_request_snoc.
  unfold array_get. rewrite decide_True, Hr by lia. simpl.
  destruct (off =? s64 (offset r + size r)) eqn:He; simpl.
  - unfold array_set. rewrite decide_True by lia. simpl.
    exists 1. eexists. split; [done |]. unfold live; simpl.
    rewrite length_insert, Z.add_simpl_r. rewrite (s32_small (reqs_size b)) by (unfold is_s32; lia).
    split; [| repeat split; auto with lia].
    replace (Z.to_nat (reqs_size b)) with (S (Z.to_nat (reqs_size b - 1))) by lia.
    rewrite (take_S_r _ _ (r <| size := s32 (size r + sz) |>)) by (apply list_lookup_insert_eq; lia).
    by rewrite take_insert_ge by lia.
  - rewrite Hnew. simpl. exists 0. eexists. split; [done |].
    unfold live at 1; simpl. rewrite (Hlast x Hx), Hlive, <- app_assoc.
    rewrite length_insert, Z.sub_0_r. repeat split; auto.
Qed.

(** The invariant is kept by every operation. *)
Lemma iobatch_add_request_wf b off sz :
  batch_wf b -> batch_fullb b = false ->
  0 <= off < 0x4000000000000000 -> 0 <= sz <= MAX_IO ->
  exists rv b', iobatch_add_request b off sz = Ok (rv, b') /\ batch_wf b' /\
    live b' = push_request (live b) off sz /\ bytes b' = bytes b + sz /\
    reqs_capacity b' = reqs_capacity b /\ bytes_cap b' = bytes_cap b.
Proof.
  intros Hb Hf Ho Hs.
  destruct (iobatch_add_request_live b off sz Hb Hf)
    as (rv & b' & Hadd & Hl & Hlen & Hcap & Hbc & _ & Hby & Hco & Hsz & Hrv).
  exists rv, b'. destruct Hb as [Ha Hsize Hc Hcp Hok Hbytes Hbb _].
  unfold batch_fullb in Hf. bool_to_prop. unfold MAX_IO in *.
  assert (0 <= zsum (size <$> live b)).
  { apply zsum_nonneg, Forall_fmap. eapply Forall_mono; [|exact Hok]. intros ? []; simpl; lia. }
  assert (Hby' : bytes b' = bytes b + sz) by (rewrite Hby; wrap_small; lia).
  assert (reqs_size b' = reqs_size b + 1 - rv) by (rewrite Hsz; wrap_small; lia).
  split; [done |]. split; [|repeat split; auto].
  split; unfold MAX_IO; rewrite ?Hl, ?Hcap, ?Hbc, ?Hlen; try lia; auto.
  - apply push_request_ok; auto; lia.
  - rewrite push_request_sizes by (auto; lia). lia.
Qed.

Definition off_ok (off : Z) : Prop := 0 <= off < 0x4000000000000000.

Lemma iobatch_add_total b off sz :
  batch_wf b -> off_ok off -> 0 <= sz <= MAX_IO ->
  exists rv b', iobatch_add_request b off sz = Ok (rv, b') /\ batch_wf b'.
Proof.
  intros Hb Ho Hs. destruct (batch_fullb b) eqn:Hf.
  - exists 0, b. unfold iobatch_add_request. by rewrite iobatch_full_ok, Hf.
  - destruct (iobatch_add_request_wf b off sz Hb Hf Ho Hs) as (rv & b' & E & Hb' & _). eauto.
Qed.

Lemma live_clear b : live (iobatch_clear b) = if reqs_size b >? 0 then [] else live b.
Proof. unfold iobatch_clear. by destruct (_ >? _). Qed.

(** A cleared batch is empty and has room. *)
Lemma iobatch_clear_wf b :
  batch_wf b -> batch_wf (iobatch_clear b) /\ batch_fullb (iobatch_clear b) = false /\
    live (iobatch_clear b) = [] /\ bytes (iobatch_clear b) = 0 /\
    reqs_capacity (iobatch_clear b) = reqs_capacity b.
Proof.
  intros [Ha Hs Hc Hcp Hok Hbytes Hbb Hco].
  unfold iobatch_clear. destruct (Z.gtb_spec (reqs_size b) 0) as [Hp|Hp].
  - split; [split; unfold MAX_IO; simpl; auto; try (lia || constructor || done) |].
    unfold batch_fullb, live. simpl. repeat split; auto; lia.
  - assert (Hz : reqs_size b = 0) by lia.
    assert (Hl : live b = []) by (unfold live; by rewrite Hz).
    rewrite Hl in Hbytes, Hco. simpl in Hbytes.
    split; [split; rewrite ?Hl; auto | unfold batch_fullb; rewrite Hbytes, Hz; repeat split; auto; lia].
Qed.

(** ** The price of a batch *)

Section CostLemmas.
Context {K : KernelFns}.

Lemma seeks_from_range h l : 0 <= seeks_from h l <= Z.of_nat (length l) * SEEK_CAP.
Proof.
  revert h. induction l as [|r l IH]; intros h; simpl length; cbn [seeks_from]; [lia |].
  specialize (IH (offset r + size r)). unfold SEEK_CAP in *. lia.
Qed.

Lemma sizes_nonneg l : Forall req_ok l -> 0 <= zsum (size <$> l).
Proof.
  intros H. apply zsum_nonneg, Forall_fmap. eapply Forall_mono; [|exact H].
  intros ? []; simpl; lia.
Qed.

Lemma simulate_requests_cost l c d :
  Forall req_ok l -> is_s64 (head_location d) -> 0 <= c ->
  c + zsum (size <$> l) + Z.of_nat (length l) * SEEK_CAP < 0x8000000000000000 ->
  fst (simulate_requests l c d) = c + zsum (size <$> l) + seeks_from (head_location d) l.
Proof.
  intros Hl. revert c d. induction Hl as [|r l [Ho Hs] Hl IH]; intros c d Hd Hc Hsum.
  { simpl. lia. }
  pose proof (sizes_nonneg l Hl). cbn [simulate_requests seeks_from fmap list_fmap zsum].
  cbn [fmap list_fmap zsum length] in Hsum.
  unfold disk_simulate_request. rewrite disk_position_time_seek, seek_time_abs
    by (auto; unfold is_s64; lia).
  rewrite IH; cbn [head_location upd update_field]; unfold SEEK_CAP, is_s64 in *;
    rewrite ?(s64_small (_ + _)) by (unfold is_s64; lia);
    rewrite ?(u64_small (size r + _)) by (unfold is_u64; lia);
    rewrite ?(u64_small (c + _)) by (unfold is_u64; lia); lia.
Qed.

Lemma request_cmp_ok : cmp_ok request_cmp.
Proof.
  split; intros; unfold request_cmp in *;
    repeat match goal with |- context [?a <? ?b] => destruct (Z.ltb_spec a b)
           | |- context [?a >? ?b] => destruct (Z.gtb_spec a b)
           | H : context [?a <? ?b] |- _ => destruct (Z.ltb_spec a b)
           | H : context [?a >? ?b] |- _ => destruct (Z.gtb_spec a b) end; lia.
Qed.

Lemma request_cmp_le a b : request_cmp a b <= 0 <-> offset_le a b.
Proof.
  unfold request_cmp, offset_le.
  destruct (Z.ltb_spec (offset a) (offset b)), (Z.gtb_spec (offset a) (offset b)); lia.
Qed.

Context {KO : KernelOk K}.

Lemma ksort_offsets l : StronglySorted offset_le (ksort request_cmp l).
Proof.
  pose proof (ksort_sorted _ request_cmp l request_cmp_ok) as H.
  induction H as [|a l' _ IH Ha]; constructor; auto.
  eapply Forall_mono; [|exact Ha]. intros x. apply request_cmp_le.
Qed.

Lemma scan_cost_bounds l :
  Forall req_ok l -> l <> [] ->
  SEEK_CAP + zsum (size <$> l) <= scan_cost l
  <= zsum (size <$> l) + Z.of_nat (length l) * SEEK_CAP.
Proof.
  intros Hl Hne. destruct l as [|r l]; [done |]. unfold scan_cost.
  pose proof (seeks_from_range (offset r + size r) l). cbn [seeks_from length].
  rewrite Z.sub_diag. unfold SEEK_CAP in *. lia.
Qed.

(** Pricing a batch does not die; it sorts the requests, changes nothing else
    that counts, and returns the cost of the scan over them. *)
Lemma iobatch_get_cost_wf b :
  batch_wf b -> exists c b', iobatch_get_cost b = Ok (c, b') /\ batch_wf b' /\
    c = scan_cost (live b') /\ cost b' = c /\
    Permutation (live b') (live b) /\ StronglySorted offset_le (live b') /\
    bytes b' = bytes b /\ reqs_size b' = reqs_size b /\
    reqs_capacity b' = reqs_capacity b /\ bytes_cap b' = bytes_cap b.
Proof.
  intros Hb. destruct (Hb) as [Ha Hs Hc Hcp Hok Hbytes Hbb Hco].
  unfold iobatch_get_cost.
  destruct (Z.eqb_spec (cost b) NO_COST) as [Hn|Hn]; simpl.
  2: { destruct Hco as [?|[Hco Hso]]; [done |]. exists (cost b), b. repeat split; auto; lia. }
  destruct (Z.eqb_spec (reqs_size b) 0) as [Hz|Hz].
  { assert (Hl : live b = []) by (unfold live; by rewrite Hz).
    exists 0. eexists. split; [done |].
    match goal with |- batch_wf ?x /\ _ => assert (E : live x = []) by done end.
    rewrite E, Hl. rewrite Hl in Hbytes, Hok.
    split; [split; rewrite ?E; simpl; auto; right; split; [done | constructor] |].
    repeat split; auto; constructor. }
  unfold iobatch_scan_sort. destruct (Z.leb_spec (reqs_size b) (Z.of_nat (length (reqs b)))); [|lia].
  simpl. set (l := ksort request_cmp (live b)).
  assert (Hp : Permutation l (live b)) by apply ksort_perm.
  assert (Hlen : length l = Z.to_nat (reqs_size b)) by (rewrite Hp; by apply live_length).
  set (rs := l ++ drop (Z.to_nat (reqs_size b)) (reqs b)).
  assert (Hlive : take (Z.to_nat (reqs_size b)) rs = l) by (unfold rs; by rewrite take_app_length').
  assert (Hrs : length rs = length (reqs b)) by (unfold rs; rewrite length_app, length_drop; lia).
  destruct l as [|r0 l'] eqn:El; [simpl in Hlen; lia |].
  unfold array_get. rewrite decide_True by lia. unfold rs at 1. simpl lookup. cbn [rbind].
  unfold live at 1. cbn [reqs reqs_size upd update_field]. fold rs. rewrite Hlive.
  assert (Hokl : Forall req_ok (r0 :: l')) by (by rewrite Hp).
  assert (Hsl : zsum (size <$> (r0 :: l')) = bytes b) by (rewrite Hbytes; by rewrite Hp).
  destruct (simulate_requests _ _ _) as [c d] eqn:Es.
  assert (Hcost : c = scan_cost (r0 :: l')).
  { pose proof (Forall_inv Hokl) as [Ho _].
    apply (f_equal fst) in Es. rewrite simulate_requests_cost in Es.
    - simpl in Es. rewrite <- Es. unfold scan_cost. simpl. lia.
    - done.
    - unfold is_s64; simpl; lia.
    - unfold SEEK_CAP; lia.
    - rewrite Hsl, Hlen. unfold SEEK_CAP, MAX_IO in *. lia. }
  exists c. eexists. split; [done |].
  match goal with |- batch_wf ?x /\ _ => assert (E : live x = r0 :: l') by exact Hlive end.
  rewrite E. pose proof (ksort_offsets (live b)) as Hso. fold l in Hso.
  rewrite El in Hso. split; [|repeat split; auto].
  split; rewrite ?E; cbn [reqs reqs_size reqs_capacity bytes cost bytes_cap]; auto; lia.
Qed.

End CostLemmas.

(** ** Properties *)

(** Two sorted arrangements of requests at distinct offsets are the same. *)
Lemma sorted_unique l1 l2 :
  StronglySorted offset_le l1 -> StronglySorted offset_le l2 ->
  Permutation l1 l2 -> NoDup (offset <$> l1) -> l1 = l2.
Proof.
  intros H1. revert l2. induction H1 as [|a l1 H1 IH Ha]; intros l2 H2 Hp Hnd.
  { by apply Permutation_nil_l in Hp. }
  destruct l2 as [|b l2]; [by apply Permutation_nil_r in Hp |].
  inversion_clear H2 as [|? ? H2' Hb]. rewrite fmap_cons in Hnd.
  apply list.NoDup_cons in Hnd as [Hnin Hnd].
  assert (a = b) as <-.
  { assert (Hina : a ∈ b :: l2) by (rewrite <- Hp; left).
    assert (Hinb : b ∈ a :: l1) by (rewrite Hp; left).
    apply elem_of_cons in Hina as [|Hina]; [done |].
    apply elem_of_cons in Hinb as [|Hinb]; [done |].
    rewrite list.Forall_forall in Ha, Hb. specialize (Ha b Hinb). specialize (Hb a Hina).
    unfold offset_le in *. destruct Hnin. replace (offset a) with (offset b) by lia.
    by apply list_elem_of_fmap_2. }
  f_equal. apply IH; auto. by apply Permutation_cons_inv in Hp.
Qed.

(** A run of requests, each starting where the one before ends. *)
Fixpoint add_run (b : io_batch) (off : Z) (sizes : list Z) : result io_batch :=
  match sizes with
  | [] => Ok b
  | sz :: sizes' =>
      let? r := iobatch_add_request b off sz in add_run (snd r) (off + sz) sizes'
  end.

Lemma add_run_merges b off base sizes :
  batch_wf b -> live b = [MkIORequest base (off - base)] ->
  0 <= base <= off -> off + zsum sizes < 0x4000000000000000 ->
  Forall (fun sz => 0 < sz <= MAX_IO) sizes -> bytes b + zsum sizes <= bytes_cap b ->
  reqs_size b < reqs_capacity b ->
  exists b', add_run b off sizes = Ok b' /\ batch_wf b' /\
    live b' = [MkIORequest base (off + zsum sizes - base)].
Proof.
  intros Hb Hl Hbase Hoff Hsz Hcap Hroom. revert b off Hb Hl Hbase Hoff Hcap Hroom.
  induction Hsz as [|sz sizes Hs Hsz IH]; intros b off Hb Hl Hbase Hoff Hcap Hroom.
  { exists b. simpl. rewrite Hl, Z.add_0_r. auto. }
  simpl in Hoff, Hcap. simpl.
  assert (0 <= zsum sizes).
  { apply zsum_nonneg. eapply Forall_mono; [|exact Hsz]. intros ? ?; simpl in *; lia. }
  assert (Hf : batch_fullb b = false).
  { unfold batch_fullb. lia. }
  destruct (iobatch_add_request_wf b off sz Hb Hf) as (rv & b' & -> & Hb' & Hl' & Hby & Hrc & Hbc);
    [lia | lia |]. simpl.
  assert (Hbyt : bytes b = off - base) by (rewrite (wf_bytes b Hb), Hl; simpl; lia).
  pose proof (wf_bytes_bound b Hb). pose proof (wf_cap b Hb). unfold MAX_IO in *.
  rewrite Hl in Hl'. simpl in Hl'. rewrite !s64_small in Hl' by (unfold is_s64; lia).
  replace (off =? base + (off - base)) with true in Hl' by lia.
  rewrite s32_small in Hl' by (unfold is_s32; lia).
  pose proof (live_length b Hb) as E1. pose proof (live_length b' Hb') as E2.
  rewrite Hl in E1. rewrite Hl' in E2. simpl in E1, E2.
  pose proof (wf_size b Hb). pose proof (wf_size b' Hb').
  destruct (IH b' (off + sz)) as (b'' & -> & Hb'' & Hl''); auto; try lia.
  { rewrite Hl'. f_equal. f_equal. lia. }
  exists b''. split; [done |]. split; [done |]. rewrite Hl''. f_equal. f_equal. lia.
Qed.

(** Requests added one after the other. *)
Fixpoint add_all (b : io_batch) (l : list IORequest) : result io_batch :=
  match l with
  | [] => Ok b
  | r :: l' =>
      let? x := iobatch_add_request b (offset r) (size r) in add_all (snd x) l'
  end.

(** No request starts where another one ends. *)
Definition apart (l : list IORequest) : Prop :=
  forall r r', r ∈ l -> r' ∈ l -> offset r' <> offset r + size r.
#[export] Instance apart_perm : Proper (Permutation ==> iff) apart.
Proof. intros l l' Hp. unfold apart. by setoid_rewrite Hp. Qed.

Definition io_ok (r : IORequest) : Prop := off_ok (offset r) /\ 0 < size r <= MAX_IO.

(** Such requests become entries of their own, in the order they are added in. *)
Lemma add_all_live b l :
  batch_wf b -> Forall io_ok l -> apart (live b ++ l) ->
  reqs_size b + Z.of_nat (length l) <= reqs_capacity b -> bytes b + zsum (size <$> l) <= bytes_cap b ->
  exists b', add_all b l = Ok b' /\ batch_wf b' /\ live b' = live b ++ l.
Proof.
  intros Hb Hl. revert b Hb. induction Hl as [|[off sz] l [Ho Hs] Hl IH]; intros b Hb Ha Hroom Hcap.
  { exists b. by rewrite app_nil_r. }
  simpl length in *. rewrite fmap_cons in Hcap. cbn [zsum offset size add_all] in *. unfold off_ok, MAX_IO in *.
  assert (0 <= zsum (size <$> l)).
  { apply zsum_nonneg, Forall_fmap. eapply Forall_impl; [exact Hl |]. intros [o z] [_ ?]. simpl in *. lia. }
  assert (Hf : batch_fullb b = false) by (unfold batch_fullb; lia).
  destruct (iobatch_add_request_wf b off sz Hb Hf) as (rv & b1 & -> & Hb1 & Hl1 & Hby & Hrc & Hbc); [lia | unfold MAX_IO; lia |].
  assert (Hp : push_request (live b) off sz = live b ++ [MkIORequest off sz]).
  { pose proof (wf_live b Hb) as Hok. destruct (live b) as [|r k _] using rev_ind; [done |].
    rewrite push_request_snoc. apply Forall_app in Hok as [_ [Hr _]%Forall_cons]. destruct Hr as [? ?].
    rewrite s64_small by (unfold is_s64; lia).
    destruct (Z.eqb_spec off (offset r + size r)) as [E|E]; [|by rewrite <- app_assoc].
    exfalso. by apply (Ha r (MkIORequest off sz)); [set_solver.. |]. }
  rewrite Hp in Hl1. simpl. pose proof (live_length b Hb) as E0. pose proof (live_length b1 Hb1) as E1.
  rewrite Hl1, length_app in E1. simpl in E1. pose proof (wf_size b Hb). pose proof (wf_size b1 Hb1).
  destruct (IH b1 Hb1) as (b' & E & Hb' & Hl'); [by rewrite Hl1, <- app_assoc | lia | lia |].
  exists b'. split; [done |]. split; [done |]. by rewrite Hl', Hl1, <- app_assoc.
Qed.

Section Properties.
Context {K : KernelFns} {KO : KernelOk K}.

(** C32: pricing a batch that is not empty succeeds; the price lies between one
    seek plus the bytes of the batch and one seek per request plus the bytes, and
    pricing the batch again returns the same price from the cache and changes
    nothing. *)
Theorem iobatch_get_cost_bounds b :
  batch_wf b -> reqs_size b <> 0 ->
  exists c b', iobatch_get_cost b = Ok (c, b') /\
    SEEK_CAP + bytes b <= c <= reqs_size b * SEEK_CAP + bytes b /\
    iobatch_get_cost b' = Ok (c, b').
Proof.
  intros Hb Hne.
  destruct (iobatch_get_cost_wf b Hb) as (c & b' & Hg & Hb' & Hc & Hcc & Hp & _ & Hby & Hrs & _).
  exists c, b'. split; [done |]. pose proof (live_length b' Hb') as Hlen.
  pose proof (wf_size b' Hb'). pose proof (wf_capacity b' Hb').
  assert (Hnil : live b' <> []) by (intros E; rewrite E in Hlen; simpl in Hlen; lia).
  pose proof (scan_cost_bounds (live b') (wf_live b' Hb') Hnil) as Hsc.
  rewrite <- (wf_bytes b' Hb'), Hlen, <- Hc, Hby, Z2Nat.id, Hrs in Hsc by lia.
  split; [lia |]. unfold iobatch_get_cost. rewrite Hcc.
  pose proof (wf_bytes_bound b' Hb'). pose proof (wf_cap b' Hb').
  replace (c =? NO_COST) with false; [done |]. symmetry. apply Z.eqb_neq.
  change NO_COST with 0xffffffffffffffff. unfold SEEK_CAP, MAX_IO in *. lia.
Qed.

(** Two batches with the same entries, at distinct offsets, have the same price, whatever order the sort
    routine is given them in. *)
Lemma cost_permuted b1 b2 :
  batch_wf b1 -> batch_wf b2 -> Permutation (live b1) (live b2) ->
  NoDup (offset <$> live b1) ->
  exists c b1' b2', iobatch_get_cost b1 = Ok (c, b1') /\ iobatch_get_cost b2 = Ok (c, b2').
Proof.
  intros H1 H2 Hp Hnd.
  destruct (iobatch_get_cost_wf b1 H1) as (c1 & b1' & Hg1 & _ & Hc1 & _ & Hp1 & Hs1 & _).
  destruct (iobatch_get_cost_wf b2 H2) as (c2 & b2' & Hg2 & _ & Hc2 & _ & Hp2 & Hs2 & _).
  exists c1, b1', b2'. split; [done |].
  assert (live b2' = live b1') as E.
  { apply sorted_unique; auto; [by rewrite Hp2, Hp1 | by rewrite Hp2, <- Hp]. }
  by rewrite Hg2, Hc1, Hc2, E.
Qed.

(** C33: requests none of which starts where another one ends, at distinct offsets, can be added to an empty
    batch with room for them in any order: every addition succeeds, and the price of the batch is the same.
    (Where a request continues another one the order matters, see [order_matters] below.) *)
Theorem iobatch_get_cost_order b l l' :
  batch_wf b -> live b = [] -> Permutation l l' ->
  Forall io_ok l -> apart l -> NoDup (offset <$> l) ->
  Z.of_nat (length l) <= reqs_capacity b -> zsum (size <$> l) <= bytes_cap b ->
  exists b1 b2 c b1' b2', add_all b l = Ok b1 /\ add_all b l' = Ok b2 /\
    iobatch_get_cost b1 = Ok (c, b1') /\ iobatch_get_cost b2 = Ok (c, b2').
Proof.
  intros Hb He Hp Hok Ha Hnd Hlen Hcap.
  assert (Hz : reqs_size b = 0).
  { pose proof (live_length b Hb) as E. rewrite He in E. simpl in E. pose proof (wf_size b Hb). lia. }
  assert (Hby : bytes b = 0) by (by rewrite (wf_bytes b Hb), He).
  destruct (add_all_live b l) as (b1 & E1 & Hb1 & Hl1); [done.. | by rewrite He | lia | lia |].
  destruct (add_all_live b l') as (b2 & E2 & Hb2 & Hl2);
    [done | by rewrite <- Hp | by rewrite He, <- Hp | rewrite <- Hp; lia | rewrite <- Hp; lia |].
  rewrite He in Hl1, Hl2. simpl in Hl1, Hl2.
  destruct (cost_permuted b1 b2 Hb1 Hb2) as (c & b1' & b2' & ? & ?); [by rewrite Hl1, Hl2 | by rewrite Hl1 |].
  by exists b1, b2, c, b1', b2'.
Qed.

(** A sequential run costs one seek: requests that each start where the one
    before ended are merged into one entry of the array, and the batch is priced
    at a single seek plus the bytes of the run. *)
Theorem iobatch_sequential_run b off sizes sz :
  batch_wf b -> live b = [] -> 0 <= off -> off + zsum (sz :: sizes) < 0x4000000000000000 ->
  Forall (fun sz => 0 < sz <= MAX_IO) (sz :: sizes) ->
  zsum (sz :: sizes) <= bytes_cap b -> 1 < reqs_capacity b ->
  exists b' b'', add_run b off (sz :: sizes) = Ok b' /\ reqs_size b' = 1 /\
    iobatch_get_cost b' = Ok (SEEK_CAP + zsum (sz :: sizes), b'').
Proof.
  intros Hb Hl Hoff Hsum Hsz Hcap Hroom. simpl in Hsum, Hcap |- *.
  inversion_clear Hsz as [|? ? Hs Hsz']. unfold MAX_IO in Hs.
  assert (0 <= zsum sizes).
  { apply zsum_nonneg. eapply Forall_mono; [|exact Hsz']. intros ? ?; simpl in *; lia. }
  assert (Hby0 : bytes b = 0) by (by rewrite (wf_bytes b Hb), Hl).
  pose proof (live_length b Hb) as E0. rewrite Hl in E0. simpl in E0.
  pose proof (wf_size b Hb).
  destruct (iobatch_add_request_wf b off sz Hb) as (rv & b1 & -> & Hb1 & Hl1 & Hby & Hrc & Hbc);
    [unfold batch_fullb; lia | lia | unfold MAX_IO; lia |].
  simpl. rewrite Hl in Hl1. simpl in Hl1.
  pose proof (live_length b1 Hb1) as E1. rewrite Hl1 in E1. simpl in E1.
  destruct (add_run_merges b1 (off + sz) off sizes) as (b' & -> & Hb' & Hl');
    auto; try lia; [by rewrite Hl1; repeat f_equal; lia |].
  destruct (iobatch_get_cost_wf b' Hb') as (c & b'' & Hg & Hb'' & Hc & _ & Hp & _).
  exists b', b''. pose proof (live_length b' Hb') as E2. rewrite Hl' in E2. simpl in E2.
  pose proof (wf_size b' Hb').
  split; [done |]. split; [lia |]. rewrite Hg.
  rewrite Hl' in Hp. symmetry in Hp. apply Permutation_singleton_l in Hp.
  rewrite Hc, <- Hp. cbn [scan_cost seeks_from fmap list_fmap zsum offset size].
  rewrite Z.sub_diag. do 2 f_equal. unfold SEEK_CAP. lia.
Qed.

End Properties.

(** ** Examples *)

(** A batch with two requests, far apart. *)
Definition batch2 : io_batch :=
  IoBatch (DiskSim 0) [MkIORequest 0x1000000 4096; MkIORequest 0 4096; MkIORequest 0 0] 2 3 8192
    NO_COST 0x100000.
Definition batch0 : io_batch :=
  IoBatch (DiskSim 0) [MkIORequest 0 0; MkIORequest 0 0] 0 2 0 NO_COST 0x100000.

Lemma batch2_wf : batch_wf batch2.
Proof. split; try done; [apply (bool_decide_unpack _); by vm_compute | by left]. Qed.
Lemma batch0_wf : batch_wf batch0.
Proof. split; try done; by left. Qed.

Lemma iobatch_get_cost_bounds_witness :
  batch_wf batch2 /\ exists c b', iobatch_get_cost batch2 = Ok (c, b') /\
    SEEK_CAP + 8192 <= c <= 2 * SEEK_CAP + 8192.
Proof.
  split; [apply batch2_wf |].
  destruct (iobatch_get_cost_bounds batch2 batch2_wf) as (c & b' & E & H & _); [done |]. eauto.
Defined.

Lemma iobatch_get_cost_order_witness :
  let r := MkIORequest 0x1000000 4096 in let r' := MkIORequest 0 4096 in
  exists b1 b2 c b1' b2', add_all batch0 [r; r'] = Ok b1 /\ add_all batch0 [r'; r] = Ok b2 /\
    iobatch_get_cost b1 = Ok (c, b1') /\ iobatch_get_cost b2 = Ok (c, b2').
Proof.
  apply (iobatch_get_cost_order batch0).
  - apply batch0_wf.
  - reflexivity.
  - apply perm_swap.
  - repeat constructor; done.
  - intros r1 r2 H1 H2. repeat (apply elem_of_cons in H1 as [->|H1]); try (by apply elem_of_nil in H1);
      repeat (apply elem_of_cons in H2 as [->|H2]); try (by apply elem_of_nil in H2); done.
  - apply (bool_decide_unpack _). by vm_compute.
  - done.
  - done.
Defined.

(** A request is only merged into the one added just before it: of three requests, two of them sequential, the price
    depends on the order. *)
Lemma order_matters :
  let b := IoBatch (DiskSim 0) (replicate 3 (MkIORequest 0 0)) 0 3 0 NO_COST 0x100000 in
  let x := MkIORequest 0 4096 in let y := MkIORequest 4096 4096 in let z := MkIORequest 2048 100 in
  exists b1 b2 b1' b2', add_all b [x; y; z] = Ok b1 /\ add_all b [x; z; y] = Ok b2 /\
    iobatch_get_cost b1 = Ok (2111588, b1') /\ iobatch_get_cost b2 = Ok (2109440, b2').
Proof.
  eexists _, _, _, _. split; [vm_compute; reflexivity |]. split; [vm_compute; reflexivity |].
  split; vm_compute; reflexivity.
Qed.

Lemma iobatch_sequential_run_witness :
  exists b' b'', add_run batch0 4096 [4096; 8192; 512] = Ok b' /\ reqs_size b' = 1 /\
    iobatch_get_cost b' = Ok (SEEK_CAP + 12800, b'').
Proof.
  apply (iobatch_sequential_run batch0 4096 [8192; 512] 4096).
  - apply batch0_wf.
  - done.
  - done.
  - done.
  - repeat constructor; done.
  - done.
  - done.
Defined.
