(* ===== verification/HashTable.v ===== *)
(** * The kernel's hash table (src/patches/3.6/hashtable.h.patch)

    The table the account databases are kept in: [1 << 10] chains, a node added
    at the head of the chain its key hashes to.  The hash function itself
    (hash_32 of linux/hash.h) is a function of the kernel. *)

From S2P Require Import Prelude CInt Kernel.

(** [DECLARE_HASHTABLE(accounts, 10)] *)
Definition HASH_BITS : Z := 10.
Definition HASH_SIZE : nat := 1024.

Section HashTable.
Context {K : KernelFns}.
Context {A : Type} `{EqDecision A}.

(** [hash_min] of an [int]: [hash_32], on the value as an [u32]. *)
Definition hash_min (key : Z) : nat := Z.to_nat (hash_32 (u32 key) HASH_BITS).

Definition hash_init : list (list A) := replicate HASH_SIZE [].

Definition hash_add (ht : list (list A)) (node : A) (key : Z) : list (list A) :=
  alter (cons node) (hash_min key) ht.

Definition hash_del (ht : list (list A)) (node : A) : list (list A) :=
  filter (fun n => n <> node) <$> ht.

(** The nodes [hash_for_each_possible] visits, in its order. *)
Definition hash_possible (ht : list (list A)) (key : Z) : list A :=
  default [] (ht !! hash_min key).

(** The nodes [hash_for_each] visits, in its order. *)
Definition hash_nodes (ht : list (list A)) : list A := concat ht.

(** The search loop of the account databases: the first node of the chain that
    passes the test. *)
Definition hash_search (ht : list (list A)) (key : Z) (test : A -> bool) : option A :=
  List.find test (hash_possible ht key).

(** A table that files each node under its key. *)
Record ht_wf (keyof : A -> Z) (ht : list (list A)) : Prop := {
  ht_length : length ht = HASH_SIZE;
  ht_filed : forall i chain n, ht !! i = Some chain -> n ∈ chain -> i = hash_min (keyof n);
}.

Lemma elem_of_hash_nodes ht n :
  n ∈ hash_nodes ht <-> exists i chain, ht !! i = Some chain /\ n ∈ chain.
Proof.
  unfold hash_nodes. rewrite list_elem_of_In, in_concat. split.
  - intros (c & Hc & Hn). apply list_elem_of_In, list_elem_of_lookup in Hc as [i Hi].
    exists i, c. by rewrite list_elem_of_In.
  - intros (i & c & Hi & Hn). exists c. split; [|by rewrite <- list_elem_of_In].
    apply list_elem_of_In, list_elem_of_lookup. eauto.
Qed.

Lemma hash_init_wf keyof : ht_wf keyof hash_init.
Proof.
  split; [apply length_replicate |]. intros i chain n Hi Hn.
  apply lookup_replicate in Hi as [-> _]. by apply elem_of_nil in Hn.
Qed.

Lemma hash_init_nodes : hash_nodes hash_init = [].
Proof. unfold hash_nodes, hash_init. induction HASH_SIZE; simpl; auto. Qed.

Lemma hash_possible_nodes keyof ht n :
  ht_wf keyof ht -> n ∈ hash_nodes ht <-> n ∈ hash_possible ht (keyof n).
Proof.
  intros [_ Hf]. rewrite elem_of_hash_nodes. unfold hash_possible. split.
  - intros (i & c & Hi & Hn). rewrite <- (Hf i c n Hi Hn), Hi. done.
  - destruct (ht !! hash_min (keyof n)) as [c|] eqn:E; simpl; [eauto | by intros ?%elem_of_nil].
Qed.

Lemma hash_possible_in ht key n : n ∈ hash_possible ht key -> n ∈ hash_nodes ht.
Proof.
  unfold hash_possible. rewrite elem_of_hash_nodes.
  destruct (ht !! hash_min key) as [c|] eqn:E; simpl; [eauto | by intros ?%elem_of_nil].
Qed.

Lemma hash_del_wf keyof ht node : ht_wf keyof ht -> ht_wf keyof (hash_del ht node).
Proof.
  intros [Hl Hf]. split; [unfold hash_del; by rewrite length_fmap |].
  intros i chain n Hi Hn. unfold hash_del in Hi. rewrite list_lookup_fmap in Hi.
  destruct (ht !! i) as [c|] eqn:E; simpl in Hi; simplify_eq.
  apply list_elem_of_filter in Hn as [_ Hn]. eauto.
Qed.

Lemma hash_del_nodes ht node n : n ∈ hash_nodes (hash_del ht node) <-> n ∈ hash_nodes ht /\ n <> node.
Proof.
  rewrite !elem_of_hash_nodes. unfold hash_del. split.
  - intros (i & c & Hi & Hn). rewrite list_lookup_fmap in Hi.
    destruct (ht !! i) as [c'|] eqn:E; simpl in Hi; simplify_eq.
    apply list_elem_of_filter in Hn as [? ?]. eauto.
  - intros [(i & c & Hi & Hn) Hne]. exists i, (filter (fun n => n <> node) c).
    rewrite list_lookup_fmap, Hi. split; [done |]. by apply list_elem_of_filter.
Qed.

(** Searching the chain finds a node of the table, if one has the key. *)
Lemma hash_search_some keyof ht key n :
  hash_search ht key (fun n => keyof n =? key) = Some n -> n ∈ hash_nodes ht /\ keyof n = key.
Proof.
  intros Hs. apply find_some in Hs as [Hin Hk]. apply Z.eqb_eq in Hk. split; [|done].
  apply (hash_possible_in _ key). by apply list_elem_of_In.
Qed.

Lemma hash_search_none keyof ht key n :
  ht_wf keyof ht -> hash_search ht key (fun n => keyof n =? key) = None ->
  n ∈ hash_nodes ht -> keyof n <> key.
Proof.
  intros Hw Hs Hn Hk. apply (hash_possible_nodes keyof) in Hn; [|done]. rewrite Hk in Hn.
  apply list_elem_of_In in Hn. apply (find_none _ _ Hs) in Hn. by rewrite Hk, Z.eqb_refl in Hn.
Qed.

Lemma hash_search_ext ht key f g :
  (forall n, n ∈ hash_nodes ht -> f n = g n) -> hash_search ht key f = hash_search ht key g.
Proof.
  intros H. unfold hash_search.
  assert (Hc : forall n, n ∈ hash_possible ht key -> f n = g n)
    by (intros n Hn; eapply H, hash_possible_in, Hn).
  induction (hash_possible ht key) as [|x l IH]; simpl; [done |].
  rewrite Hc by left. rewrite IH; [done |]. intros n Hn. apply Hc. by right.
Qed.

Context {KO : KernelOk K}.

Lemma hash_min_lt key : (hash_min key < HASH_SIZE)%nat.
Proof.
  unfold hash_min, HASH_BITS, HASH_SIZE.
  pose proof (hash_32_range (u32 key) 10). lia.
Qed.

Lemma hash_add_wf keyof ht node :
  ht_wf keyof ht -> ht_wf keyof (hash_add ht node (keyof node)).
Proof.
  intros [Hl Hf]. unfold hash_add. split; [by rewrite length_alter |].
  intros i chain n Hi Hn. destruct (decide (i = hash_min (keyof node))) as [->|Hne].
  - rewrite list_lookup_alter_eq in Hi. destruct (ht !! _) as [c|] eqn:E; simpl in Hi; simplify_eq.
    apply elem_of_cons in Hn as [->|Hn]; [done | eauto].
  - rewrite list_lookup_alter_ne in Hi by done. eauto.
Qed.

Lemma hash_add_nodes keyof ht node :
  ht_wf keyof ht -> Permutation (hash_nodes (hash_add ht node (keyof node))) (node :: hash_nodes ht).
Proof.
  intros [Hl _]. unfold hash_nodes, hash_add. pose proof (hash_min_lt (keyof node)) as Hlt.
  rewrite <- Hl in Hlt. clear Hl. revert Hlt. generalize (hash_min (keyof node)).
  induction ht as [|c ht IH]; intros i Hi; simpl in Hi; [lia |].
  destruct i as [|i]; [done |].
  change (c ++ concat (alter (cons node) i ht) ≡ₚ node :: c ++ concat ht).
  rewrite IH by lia. by rewrite Permutation_middle.
Qed.

(** A table is read by its key: whatever was added, searching the chain of a key
    finds a node of that key exactly when the table has one. *)
Lemma hash_search_iff keyof ht key :
  ht_wf keyof ht ->
  is_Some (hash_search ht key (fun n => keyof n =? key)) <->
  exists n, n ∈ hash_nodes ht /\ keyof n = key.
Proof.
  intros Hw. split.
  - intros [n Hn]. exists n. by apply hash_search_some.
  - intros (n & Hn & Hk). destruct (hash_search _ _ _) as [m|] eqn:E; [eauto |].
    by destruct (hash_search_none keyof ht key n Hw E Hn).
Qed.

End HashTable.
