(* ===== verification/CauseTags.v ===== *)
(** * Cause tags (src/patches/4.5/cause_tags.h.patch, cause_tags.c.patch)

    The data the block layer and the schedulers share: a [cause_list] names the
    accounts that caused an I/O; it is reference-counted and shared between a page,
    its buffer and a bio.  A [cause_list_list] collects the cause lists of a bio.
    The lists live in a heap, [k_causes]; freeing one may call the scheduler back,
    which is what the class [Host] stands for.

    [DISABLE_CAUSES_DEBUG] is defined in the header, so a cause list has no magic
    number and [cause_list_check] is 0. *)

From S2P Require Import Prelude CInt Kernel.

Definition SPLIT_UNKNOWN : Z := 0.
Definition SPLIT_DATA : Z := 1.
Definition SPLIT_JOURNAL : Z := 2.
Definition SPLIT_CHECKPOINT : Z := 3.
Definition SPLIT_ZERO : Z := 4.
Definition SPLIT_JOURNAL_META : Z := 5.

Record cause_list := CauseList {
  refcount : Z;
  cl_type : Z;
  items : list Z;             (* account_id of each io_cause, in list order *)
  item_count : Z;
  callback_q : option ptr;    (* request_queue to notify when freed *)
  cl_sched_uniq : Z;
  cl_size : Z;
  cl_inode : option ptr;
  cl_private : Z;             (* for the scheduler: cost estimate *)
}.
#[export] Instance eta_cause_list : Eta cause_list := fun c =>
  CauseList (refcount c) (cl_type c) (items c) (item_count c) (callback_q c)
    (cl_sched_uniq c) (cl_size c) (cl_inode c) (cl_private c).

Record cause_list_list := CauseListList {
  uniq_causes : option ptr;
  cll_size : Z;
  cll_item_count : Z;
  cll_item_capacity : Z;
  cll_items : list (option ptr);   (* the array items[0 .. item_capacity-1] *)
}.
#[export] Instance eta_cll : Eta cause_list_list := fun c =>
  CauseListList (uniq_causes c) (cll_size c) (cll_item_count c) (cll_item_capacity c) (cll_items c).

(** The fields of [struct bio] in use. *)
Record bio := Bio {
  bi_sector : Z;
  bi_size : Z;
  bi_cll : option cause_list_list;
}.
#[export] Instance eta_bio : Eta bio := fun b => Bio (bi_sector b) (bi_size b) (bi_cll b).

(** The fields of [struct task_struct] in use. *)
Record task_struct := Task { task_causes : option ptr; task_account_id : Z }.

Record kernel := Kern {
  k_world : world;
  k_causes : gmap ptr cause_list;
  k_next : ptr;                     (* the next address kmalloc hands out *)
  cause_list_alloc : Z;             (* the counters of cause_tags.c *)
  cause_list_free : Z;
  cause_item_alloc : Z;
  cause_item_free : Z;
  k_works : list (option ptr);      (* put_cause_list_work scheduled *)
}.
#[export] Instance eta_kernel : Eta kernel := fun k =>
  Kern (k_world k) (k_causes k) (k_next k) (cause_list_alloc k) (cause_list_free k)
    (cause_item_alloc k) (cause_item_free k) (k_works k).

(** The parts of the kernel the code reads the time and gets memory from. *)
Definition in_world {A} (m : ST world A) : ST kernel A :=
  zoom k_world (fun w k => k <| k_world := w |>) m.

(** Reading and writing [*cl]. *)
Definition read_causes (line : Z) (p : ptr) : ST kernel cause_list := fun k =>
  match k_causes k !! p with Some c => Ok (c, k) | None => Fault (NullDeref line) end.
Definition write_causes (p : ptr) (f : cause_list -> cause_list) : ST kernel unit :=
  modify (fun k => k <| k_causes ::= alter f p |>).

Definition __new_cause_list : ST kernel (option ptr) :=
  let! ok := in_world kmalloc in
  if negb ok then ret None
  else
    let! p := gets k_next in
    modify (fun k => k <| cause_list_alloc ::= fun n => s32 (n + 1) |>);;
    modify (fun k => k <| k_next ::= Pos.succ |>
      <| k_causes ::= <[p := {| refcount := 1; cl_type := SPLIT_UNKNOWN; items := [];
           item_count := 0; callback_q := None; cl_sched_uniq := 0; cl_size := 0;
           cl_inode := None; cl_private := -1 |}]> |>);;
    ret (Some p).

Definition get_cause_list (cl : option ptr) : ST kernel (option ptr) :=
  match cl with
  | None => ret None
  | Some p =>
      read_causes 134 p;;
      write_causes p (fun c => c <| refcount ::= fun n => s32 (n + 1) |>);;
      ret (Some p)
  end.

Definition set_cause_list_type (cl : option ptr) (type : Z) : ST kernel unit :=
  match cl with
  | None => ret tt
  | Some p => read_causes 326 p;; write_causes p (fun c => c <| cl_type := type |>)
  end.

(** Returns 1 if the account was added, 0 otherwise. *)
Definition __cause_list_add (cl : option ptr) (account_id : Z) : ST kernel Z :=
  match cl with
  | None => ret 0
  | Some p =>
      let! c := read_causes 199 p in
      let already_exists := existsb (fun id => id =? account_id) (items c) in
      if negb already_exists then
        let! ok := in_world kmalloc in
        modify (fun k => k <| cause_item_alloc ::= fun n => s32 (n + 1) |>);;
        if ok then
          write_causes p (fun c => c <| items ::= fun l => l ++ [account_id] |>
                                     <| item_count ::= fun n => s32 (n + 1) |>);;
          ret 1
        else ret 0
      else ret 0
  end.

(** Returns the number of items added and the new value of [*to]. *)
Definition cause_list_copy (from to : option ptr) : ST kernel (Z * option ptr) :=
  let! to := match to with None => __new_cause_list | Some _ => ret to end in
  match from, to with
  | Some f, Some _ =>
      let! c := read_causes 260 f in
      let! rv := for_acc (items c) 0 (fun rv id =>
                   let! n := __cause_list_add to id in ret (s32 (rv + n))) in
      ret (rv, to)
  | _, _ => ret (0, to)
  end.

Definition cause_list_add (cl : option ptr) (task : task_struct) : ST kernel (Z * option ptr) :=
  let! cl := match cl with None => __new_cause_list | Some _ => ret cl end in
  match task_causes task with
  | Some _ => cause_list_copy (task_causes task) cl
  | None => let! rv := __cause_list_add cl (task_account_id task) in ret (rv, cl)
  end.

(** *** Lists of cause lists *)

(** [sizeof(struct cause_list_list)] and of a pointer. *)
Definition CLL_SIZE : Z := 24.
Definition PTR_SIZE : Z := 8.

(** [alloc_size] is an [int]: for a large capacity it wraps around.  A negative size is a huge
    one for [kmalloc], which fails; one that is too small leaves no room for the
    struct, or an array that is shorter than [item_capacity] says. *)
Definition new_cause_list_list (item_capacity : Z) : ST kernel (option cause_list_list) :=
  let alloc_size := s32 (CLL_SIZE + PTR_SIZE * item_capacity) in
  if item_capacity <? 0 then ret None
  else
    let! mem := in_world kmalloc in
    let cll_ok := mem && (0 <=? alloc_size) in
    let! uniq := __new_cause_list in
    match cll_ok, uniq with
    | true, Some u =>
        if alloc_size <? CLL_SIZE then lift (Fault (OutOfBounds (if alloc_size =? 0 then 352 else 353)))
        else
          ret (Some {| uniq_causes := Some u; cll_size := 0; cll_item_count := 0;
                       cll_item_capacity := item_capacity;
                       cll_items := replicate (Z.to_nat ((alloc_size - CLL_SIZE) / PTR_SIZE)) None |})
    | _, _ =>
        (* kfree(cll); kfree(uniq_causes) *)
        modify (fun k => match uniq with
                         | Some u => k <| k_causes ::= delete u |>
                         | None => k end);;
        ret None
    end.

Definition cause_list_list_add (cll : option cause_list_list) (cl : option ptr)
    : ST kernel (option cause_list_list) :=
  match cll, cl with
  | Some l, Some p =>
      if cll_item_count l =? cll_item_capacity l then ret (Some l)
      else
        let! differs :=
          (if cll_item_count l =? 0 then ret true
           else let! last := lift (array_get 381 (cll_items l) (cll_item_count l - 1)) in
                ret (negb (bool_decide (cl = last)))) in
        let! l :=
          (if differs : bool then
             let! r := cause_list_copy cl (uniq_causes l) in
             ret (l <| uniq_causes := snd r |>)
           else ret l) in
        let! q := get_cause_list cl in
        let! items' := lift (array_set 384 (cll_items l) (cll_item_count l) q) in
        let! c := read_causes 386 p in
        let l := l <| cll_items := items' |>
                   <| cll_item_count ::= fun n => s32 (n + 1) |>
                   <| cll_size ::= fun n => u64 (n + cl_size c) |> in
        let! u := lift (deref 387 (uniq_causes l)) in
        read_causes 387 u;;
        write_causes u (fun c => c <| cl_size := cll_size l |>);;
        ret (Some l)
  | _, _ => ret cll
  end.

(** ** Freeing, which may call the scheduler back *)

(** What the code that frees a cause list needs of its host: the kernel inside
    the host's state, the [sched_uniq] of a request queue, and the hook of the
    elevator that runs on it. *)
Class Host (S : Type) := {
  ker : S -> kernel;
  set_ker : kernel -> S -> S;
  queue_sched_uniq : ptr -> S -> Z;
  elevator_causes_free_fn : ptr -> S -> option (ptr -> ST S unit);
}.

Section Free.
Context {S : Type} {H : Host S}.

Definition in_kernel {A} (m : ST kernel A) : ST S A := zoom ker set_ker m.

Definition free_cause_list (p : ptr) : ST S unit :=
  let! c := in_kernel (read_causes 97 p) in
  match callback_q c with
  | Some q =>
      let! uniq := gets (queue_sched_uniq q) in
      if uniq =? cl_sched_uniq c then
        let! fn := gets (elevator_causes_free_fn q) in
        match fn with Some causes_free_fn => causes_free_fn p | None => ret tt end
      else ret tt
  | None => ret tt
  end;;
  let! c := in_kernel (read_causes 109 p) in
  in_kernel (modify (fun k =>
    k <| cause_item_free ::= fun n => s32 (n + Z.of_nat (length (items c))) |>
      <| cause_list_free ::= fun n => s32 (n + 1) |>
      <| k_causes ::= delete p |>)).

Definition put_cause_list (cl : option ptr) : ST S unit :=
  match cl with
  | None => ret tt
  | Some p =>
      let! c := in_kernel (read_causes 145 p) in
      in_kernel (write_causes p (fun c => c <| refcount ::= fun n => s32 (n - 1) |>));;
      if s32 (refcount c - 1) =? 0 then free_cause_list p else ret tt
  end.

(** Schedules the put for later; if the work item cannot be allocated the
    reference is kept for ever. *)
Definition put_cause_list_safe (cl : option ptr) : ST kernel unit :=
  let! ok := in_world kmalloc in
  if negb ok then ret tt
  else modify (fun k => k <| k_works ::= fun l => l ++ [cl] |>).

Definition do_put_cause_list_work : ST S unit :=
  let! works := gets (fun s => k_works (ker s)) in
  match works with
  | [] => ret tt
  | cl :: works' =>
      in_kernel (modify (fun k => k <| k_works := works' |>));;
      put_cause_list cl
  end.

Definition del_cause_list_list (cll : option cause_list_list) : ST S unit :=
  match cll with
  | None => ret tt
  | Some l =>
      for_each (take (Z.to_nat (cll_item_count l)) (cll_items l)) put_cause_list;;
      put_cause_list (uniq_causes l)
  end.

(** [max_sectors] is [queue_max_sectors] of the device of the bio. *)
Definition add_causes_zero_to_bio (max_sectors : Z) (b : bio) (size : Z) : ST S bio :=
  let! cll := match bi_cll b with
              | None => in_kernel (new_cause_list_list (Z.shiftr max_sectors 3))
              | Some _ => ret (bi_cll b) end in
  let b := b <| bi_cll := cll |> in
  match cll with
  | None => ret b
  | Some _ =>
      let! causes := in_kernel __new_cause_list in
      match causes with
      | None => ret b
      | Some p =>
          in_kernel (set_cause_list_type causes SPLIT_ZERO);;
          in_kernel (write_causes p (fun c => c <| cl_size := u64 size |>));;
          let! cll := in_kernel (cause_list_list_add (bi_cll b) causes) in
          put_cause_list causes;;
          ret (b <| bi_cll := cll |>)
      end
  end.

(** [bh_causes] and [b_size] are the fields of the buffer head; returns its new
    [causes] and the bio. *)
Definition move_causes_bh_to_bio (max_sectors : Z) (bh_causes : option ptr) (b_size : Z) (b : bio)
    : ST S (option ptr * bio) :=
  match bh_causes with
  | None => ret (None, b)
  | Some p =>
      let! cll := match bi_cll b with
                  | None => in_kernel (new_cause_list_list (Z.shiftr max_sectors 3))
                  | Some _ => ret (bi_cll b) end in
      in_kernel (read_causes 311 p);;
      in_kernel (write_causes p (fun c => c <| cl_size := u64 b_size |>));;
      let! cll := in_kernel (cause_list_list_add cll bh_causes) in
      put_cause_list bh_causes;;
      ret (None, b <| bi_cll := cll |>)
  end.

End Free.

(** ** The heap of cause lists *)

Record causes_wf (c : cause_list) : Prop := {
  causes_nodup : NoDup (items c);
  causes_count : item_count c = s32 (Z.of_nat (length (items c)));
}.

Record kernel_wf (k : kernel) : Prop := {
  kernel_causes : forall p c, k_causes k !! p = Some c -> causes_wf c;
  kernel_next : forall p c, k_causes k !! p = Some c -> (p < k_next k)%positive;
}.

Lemma existsb_elem (l : list Z) id : existsb (fun x => x =? id) l = bool_decide (id ∈ l).
Proof.
  induction l as [|x l IH]; simpl; [done |]. rewrite IH.
  destruct (Z.eqb_spec x id) as [->|Hne]; simpl.
  - symmetry. apply bool_decide_eq_true. left.
  - apply bool_decide_ext. rewrite elem_of_cons. intuition congruence.
Qed.

Lemma s32_succ n : s32 (s32 (Z.of_nat n) + 1) = s32 (Z.of_nat (S n)).
Proof.
  rewrite s32_add_l. f_equal. lia.
Qed.

Definition add_item (id : Z) (c : cause_list) : cause_list :=
  c <| items ::= fun l => l ++ [id] |> <| item_count ::= fun n => s32 (n + 1) |>.

Lemma add_item_wf id c : causes_wf c -> id ∉ items c -> causes_wf (add_item id c).
Proof.
  intros [Hn Hc] Hid. split; simpl.
  - apply list.NoDup_app. split; [done |]. split; [|apply NoDup_singleton].
    intros x Hx ->%list_elem_of_singleton. done.
  - rewrite Hc, length_app, Nat.add_comm. simpl. apply s32_succ.
Qed.

(** The whole effect of [__cause_list_add] on an allocated list. *)
Lemma __cause_list_add_run k p c id :
  k_causes k !! p = Some c ->
  exists rv k', __cause_list_add (Some p) id k = Ok (rv, k') /\
    k_next k' = k_next k /\ w_alloc (k_world k') = w_alloc (k_world k) /\
    ((rv = 1 /\ (id ∉ items c) /\ k_causes k' = <[p := add_item id c]> (k_causes k)) \/
     (rv = 0 /\ k_causes k' = k_causes k /\
      (id ∈ items c \/ exists n, w_alloc (k_world k) n = false))).
Proof.
  intros Hp. unfold __cause_list_add, bind, read_causes. rewrite Hp, existsb_elem.
  destruct (bool_decide_reflect (id ∈ items c)) as [Hin|Hin]; simpl.
  { exists 0, k. repeat split; auto. }
  unfold zoom, kmalloc. simpl.
  destruct (w_alloc (k_world k) (w_nalloc (k_world k))) eqn:Hal; simpl.
  - exists 1. eexists. split; [done |]. simpl. repeat split; auto. left. repeat split; auto.
    apply map_eq. intros q. rewrite lookup_alter, lookup_insert.
    case_decide; subst; [by rewrite Hp | done].
  - exists 0. eexists. split; [done |]. simpl. repeat split; auto. right. eauto.
Qed.

Lemma kernel_wf_insert k k' p c :
  kernel_wf k -> k_causes k' = <[p := c]> (k_causes k) -> causes_wf c ->
  is_Some (k_causes k !! p) -> k_next k' = k_next k -> kernel_wf k'.
Proof.
  intros [Hc Hn] Hk Hw [c0 Hp] Hnext. split; intros q d; rewrite Hk, lookup_insert; case_decide.
  all: intros; simplify_eq; rewrite ?Hnext; eauto.
Qed.

Lemma kernel_wf_same k k' :
  kernel_wf k -> k_causes k' = k_causes k -> k_next k' = k_next k -> kernel_wf k'.
Proof. intros [Hc Hn] E1 E2. split; rewrite E1; [exact Hc |]. by rewrite E2. Qed.

(** The loop that copies causes, when memory does not run out. *)
Lemma copy_loop_run ids rv k u cu :
  kernel_wf k -> k_causes k !! u = Some cu -> (forall n, w_alloc (k_world k) n = true) ->
  exists rv' k' cu', for_acc ids rv (fun rv id =>
      let! n := __cause_list_add (Some u) id in ret (s32 (rv + n))) k = Ok (rv', k') /\
    kernel_wf k' /\ k_causes k' = <[u := cu']> (k_causes k) /\ k_next k' = k_next k /\
    (forall id, id ∈ items cu' <-> id ∈ items cu \/ id ∈ ids) /\
    (forall n, w_alloc (k_world k') n = true).
Proof.
  intros Hk Hu Ha. revert rv k cu Hk Hu Ha. induction ids as [|id ids IH]; intros rv k cu Hk Hu Ha.
  { exists rv, k, cu. rewrite insert_id by done. split_and!; auto.
    intros id. rewrite elem_of_nil. tauto. }
  destruct (__cause_list_add_run k u cu id Hu) as (r & k1 & Hadd & Hn & Hw & Hcase).
  cbn [for_acc]. rewrite (bind_ok _ _ k (s32 (rv + r)) k1)
    by (by rewrite (bind_ok _ _ _ _ _ Hadd)).
  assert (exists cu1, k_causes k1 = <[u := cu1]> (k_causes k) /\ causes_wf cu1 /\
    forall x, x ∈ items cu1 <-> x ∈ items cu \/ x = id) as (cu1 & Hk1 & Hwf & Hit).
  { destruct Hcase as [(-> & Hid & Hk1)|(-> & Hk1 & [Hin|[n Hf]])].
    - exists (add_item id cu). split; [done |]. split.
      { apply add_item_wf; [|done]. by apply (kernel_causes k Hk u). }
      intros x. simpl. by rewrite elem_of_app, list_elem_of_singleton.
    - exists cu. rewrite insert_id by done. split; [done |].
      split; [by apply (kernel_causes k Hk u) |]. intros x. intuition congruence.
    - by rewrite Ha in Hf. }
  assert (kernel_wf k1) by (eapply kernel_wf_insert; eauto).
  destruct (IH (s32 (rv + r)) k1 cu1) as (rv' & k' & cu' & -> & Hk' & Hm & Hn' & Hit' & Ha').
  { done. } { by rewrite Hk1, lookup_insert_eq. } { intros n. by rewrite Hw. }
  exists rv', k', cu'. split; [done |]. split; [done |].
  rewrite Hm, Hk1, insert_insert_eq, Hn'. split_and!; auto.
  intros x. rewrite Hit', Hit, elem_of_cons. tauto.
Qed.

Lemma cause_list_copy_run k f u c cu :
  kernel_wf k -> k_causes k !! f = Some c -> k_causes k !! u = Some cu ->
  (forall n, w_alloc (k_world k) n = true) ->
  exists rv k' cu', cause_list_copy (Some f) (Some u) k = Ok ((rv, Some u), k') /\
    kernel_wf k' /\ k_causes k' = <[u := cu']> (k_causes k) /\ k_next k' = k_next k /\
    (forall id, id ∈ items cu' <-> id ∈ items cu \/ id ∈ items c).
Proof.
  intros Hk Hf Hu Ha.
  destruct (copy_loop_run (items c) 0 k u cu Hk Hu Ha)
    as (rv & k' & cu' & Hl & Hk' & Hm & Hn & Hit & _).
  exists rv, k', cu'. split; [|auto].
  unfold cause_list_copy, bind at 1, ret at 1.
  rewrite (bind_ok _ _ k c k) by (unfold read_causes; by rewrite Hf).
  by rewrite (bind_ok _ _ _ _ _ Hl).
Qed.

(** A list of cause lists whose members are allocated and whose [uniq_causes]
    names every account that one of them names. *)
Record cll_wf (k : kernel) (l : cause_list_list) (u : ptr) (cu : cause_list) : Prop := {
  cll_uniq : uniq_causes l = Some u;
  cll_uniq_causes : k_causes k !! u = Some cu;
  cll_array : Z.of_nat (length (cll_items l)) = cll_item_capacity l;
  cll_count : 0 <= cll_item_count l <= cll_item_capacity l;
  cll_capacity : cll_item_capacity l < 0x80000000;
  cll_members : forall i, 0 <= i < cll_item_count l -> exists p c,
    cll_items l !! Z.to_nat i = Some (Some p) /\ p <> u /\ k_causes k !! p = Some c /\
    (forall id, id ∈ items c -> id ∈ items cu);
}.

(** The copy step of [cause_list_list_add]: made unless the list is the last
    member already. *)
Lemma cll_copy_step k l u cu p c :
  kernel_wf k -> (forall n, w_alloc (k_world k) n = true) ->
  cll_wf k l u cu -> k_causes k !! p = Some c -> p <> u ->
  exists differs k' cu',
    (if cll_item_count l =? 0 then ret true
     else let! last := lift (array_get 381 (cll_items l) (cll_item_count l - 1)) in
          ret (negb (bool_decide (Some p = last)))) k = Ok (differs, k) /\
    (if differs : bool then
       let! r := cause_list_copy (Some p) (uniq_causes l) in ret (l <| uniq_causes := snd r |>)
     else ret l) k = Ok (l, k') /\
    kernel_wf k' /\ cll_wf k' l u cu' /\ k_causes k' !! p = Some c /\
    (forall id, id ∈ items c -> id ∈ items cu').
Proof.
  intros Hk Ha Hl Hp Hne. destruct (Hl) as [Hu Hcu Harr Hcnt Hcap Hmem].
  assert (Hcopy : exists k' cu', (let! r := cause_list_copy (Some p) (uniq_causes l) in
       ret (l <| uniq_causes := snd r |>)) k = Ok (l, k') /\
    kernel_wf k' /\ cll_wf k' l u cu' /\ k_causes k' !! p = Some c /\
    (forall id, id ∈ items c -> id ∈ items cu')).
  { destruct (cause_list_copy_run k p u c cu Hk Hp Hcu Ha) as (rv & k' & cu' & Hc & Hk' & Hm & _ & Hit).
    exists k', cu'. rewrite Hu, (bind_ok _ _ _ _ _ Hc). split.
    { unfold ret. simpl. rewrite <- Hu. by destruct l. }
    split; [done |]. split; [|split; [by rewrite Hm, lookup_insert_ne | set_solver]].
    split; auto; [by rewrite Hm, lookup_insert_eq |].
    intros i Hi. destruct (Hmem i Hi) as (q & d & Hq & Hqu & Hd & Hsub).
    exists q, d. rewrite Hm, lookup_insert_ne by done. split_and!; auto.
    intros id Hid. rewrite Hit. auto. }
  destruct (Z.eqb_spec (cll_item_count l) 0) as [Hz|Hz].
  { destruct Hcopy as (k' & cu' & ?). exists true, k', cu'. auto. }
  destruct (Hmem (cll_item_count l - 1)) as (q & d & Hq & Hqu & Hd & Hsub); [lia |].
  unfold array_get. rewrite decide_True, Hq by lia. unfold lift, bind at 1. simpl.
  destruct (bool_decide_reflect (Some p = Some q)) as [E|E].
  - exists false, k, cu. simplify_eq. split_and!; auto.
  - destruct Hcopy as (k' & cu' & ?). exists true, k', cu'. auto.
Qed.

(** A list of cause lists collects: as long as memory does not run out,
    adding a cause list to a [cause_list_list] that has room takes a reference on
    it, stores it in the next slot, adds its size, and keeps [uniq_causes] naming
    every account that a member names. *)
Theorem cause_list_list_add_collects k l u cu p c :
  kernel_wf k -> (forall n, w_alloc (k_world k) n = true) ->
  cll_wf k l u cu -> k_causes k !! p = Some c -> p <> u ->
  cll_item_count l < cll_item_capacity l ->
  exists l' k' cu' c', cause_list_list_add (Some l) (Some p) k = Ok (Some l', k') /\
    cll_wf k' l' u cu' /\ cll_item_count l' = cll_item_count l + 1 /\
    cll_items l' !! Z.to_nat (cll_item_count l) = Some (Some p) /\
    cll_size l' = u64 (cll_size l + cl_size c) /\ cl_size cu' = cll_size l' /\
    k_causes k' !! p = Some c' /\ refcount c' = s32 (refcount c + 1).
Proof.
  intros Hk Ha Hl Hp Hne Hroom.
  destruct (cll_copy_step k l u cu p c Hk Ha Hl Hp Hne)
    as (differs & k1 & cu1 & E1 & E2 & Hk1 & [Hu Hcu Harr Hcnt Hcap Hmem] & Hp1 & Hsub).
  unfold cause_list_list_add. destruct (Z.eqb_spec (cll_item_count l) (cll_item_capacity l)); [lia |].
  rewrite (bind_ok _ _ _ _ _ E1), (bind_ok _ _ _ _ _ E2).
  unfold get_cause_list, read_causes, write_causes, bind, modify, lift, ret, array_set.
  rewrite Hp1. rewrite decide_True by lia.
  cbn [k_causes upd update_field uniq_causes cll_item_count cll_items].
  rewrite lookup_alter_eq, Hp1, Hu. simpl. rewrite lookup_alter_ne, Hcu by done.
  set (c' := c <| refcount ::= fun n => s32 (n + 1) |>).
  eexists _, _, (cu1 <| cl_size := u64 (cll_size l + cl_size c) |>), c'. split; [done |].
  simpl. rewrite !(lookup_alter_ne _ _ u p) by done. rewrite lookup_alter_eq, Hp1. simpl.
  assert (Hin : <[Z.to_nat (cll_item_count l):=Some p]> (cll_items l)
                !! Z.to_nat (cll_item_count l) = Some (Some p))
    by (apply list_lookup_insert_eq; lia).
  rewrite s32_small by (unfold is_s32; lia). split_and!; auto. split; simpl; auto; try lia.
  - rewrite lookup_alter_eq, lookup_alter_ne, Hcu by done. done.
  - by rewrite length_insert.
  - intros i Hi. destruct (decide (i = cll_item_count l)) as [->|Hi'].
    { exists p, c'. rewrite lookup_alter_ne, lookup_alter_eq, Hp1 by done. auto. }
    destruct (Hmem i) as (q & d & Hq & Hqu & Hd & Hs); [lia |].
    rewrite list_lookup_insert_ne by lia. exists q.
    rewrite lookup_alter_ne by done. destruct (decide (q = p)) as [->|Hqp].
    + exists c'. rewrite lookup_alter_eq, Hp1. simplify_eq. auto.
    + exists d. rewrite lookup_alter_ne by done. auto.
Qed.

(** ** Example: a list of cause lists with room for two *)

Definition ex_world : world :=
  World (fun _ => Timespec 0 0) (fun _ => 0) (fun _ => true) (fun _ => 0) 0 0.
Definition ex_causes : cause_list := CauseList 1 SPLIT_DATA [7] 1 None 1 4096 None 0.
Definition ex_uniq : cause_list := CauseList 1 SPLIT_UNKNOWN [] 0 None 0 0 None (-1).
Definition ex_kernel : kernel :=
  Kern ex_world (<[1%positive := ex_causes]> (<[2%positive := ex_uniq]> ∅)) 3 0 0 0 0 [].
Definition ex_cll : cause_list_list := CauseListList (Some 2%positive) 0 0 2 [None; None].

Lemma ex_kernel_wf : kernel_wf ex_kernel.
Proof.
  assert (Hc : forall p c, k_causes ex_kernel !! p = Some c ->
    (c = ex_causes \/ c = ex_uniq) /\ (p < 3)%positive).
  { simpl. intros p c. rewrite !lookup_insert.
    repeat case_decide; subst; intros Hl; simplify_eq; (split; [auto | lia]). }
  split.
  - intros p c [[->| ->] _]%Hc; (split; [|done]); simpl; [apply NoDup_singleton | constructor].
  - intros p c [_ H]%Hc. exact H.
Qed.

Lemma cause_list_list_add_collects_witness :
  exists l' k', cause_list_list_add (Some ex_cll) (Some 1%positive) ex_kernel = Ok (Some l', k') /\
    cll_size l' = 4096.
Proof.
  destruct (cause_list_list_add_collects ex_kernel ex_cll 2 ex_uniq 1 ex_causes)
    as (l' & k' & cu' & c' & E & _ & _ & _ & Hs & _).
  - apply ex_kernel_wf.
  - done.
  - split; try done. simpl. lia.
  - done.
  - done.
  - done.
  - exists l', k'. split; [exact E | exact Hs].
Defined.
