(* ===== verification/CauseRefs.v ===== *)
(** * References to cause lists

    A cause list is shared by buffers, pages, bios, transactions and tasks, and is freed with the last
    reference.  [owned k u] says that the heap of cause lists has exactly the lists
    that someone refers to, and that the count of each list is [u p], the number of
    pointers to it that there are; the specifications below say how each operation of
    cause_tags.c changes [u].  That they do not fault includes that no list is used after it was
    freed.

    Freeing calls the scheduler back; what it may do is the class [HostOk]. *)

From S2P Require Import Prelude CInt Kernel CauseTags.

Definition REF_MAX : Z := 0x7fffffff.

Record owned (k : kernel) (u : ptr -> Z) : Prop := {
  ow_refs : forall p, match k_causes k !! p with
                      | Some c => refcount c = u p /\ 0 < u p <= REF_MAX
                      | None => u p = 0
                      end;
  ow_next : forall p, is_Some (k_causes k !! p) -> (p < k_next k)%positive;
}.

(** How code that knows nothing of schedulers changes the heap: a list keeps its inode
    and its queue; a new one has neither, and one that goes away had neither; and every list
    took an allocation. *)
Definition allocs (k : kernel) : Z := Z.of_nat (w_nalloc (k_world k)).
Definition lists (k : kernel) : Z := Z.of_nat (size (k_causes k)).

Definition evolved (o o' : option cause_list) : Prop :=
  match o, o' with
  | Some c, Some c' => cl_inode c' = cl_inode c /\ callback_q c' = callback_q c /\
      (callback_q c <> None -> cl_sched_uniq c' = cl_sched_uniq c)
  | None, Some c' => cl_inode c' = None /\ callback_q c' = None
  | Some c, None => cl_inode c = None /\ callback_q c = None
  | None, None => True
  end.

Record evolves (k k' : kernel) : Prop := {
  ev_place : forall p, evolved (k_causes k !! p) (k_causes k' !! p);
  ev_allocs : allocs k <= allocs k';
  ev_lists : lists k' - allocs k' <= lists k - allocs k;
  ev_world : w_alloc (k_world k') = w_alloc (k_world k);
}.

Lemma size_alter (f : cause_list -> cause_list) (p : ptr) (m : gmap ptr cause_list) : size (alter f p m) = size m.
Proof.
  destruct (m !! p) as [c|] eqn:E.
  - assert (alter f p m = <[p := f c]> m) as ->; [|by apply map_size_insert_Some; eauto].
    apply map_eq. intros q. rewrite lookup_alter, lookup_insert. case_decide; subst; by rewrite ?E.
  - f_equal. apply map_eq. intros q. rewrite lookup_alter. case_decide; subst; by rewrite ?E.
Qed.

Lemma evolved_refl o : evolved o o.
Proof. by destruct o. Qed.
Lemma evolved_trans o1 o2 o3 : evolved o1 o2 -> evolved o2 o3 -> evolved o1 o3.
Proof.
  destruct o1 as [c1|], o2 as [c2|], o3 as [c3|]; simpl; intros H1 H2; try done.
  - destruct H1 as (E1 & F1 & H1), H2 as (E2 & F2 & H2). split_and!; [congruence.. |].
    intros Hq. rewrite H2 by (by rewrite F1). auto.
  - destruct H1 as (E1 & F1 & _), H2 as [E2 F2]. split; congruence.
  - destruct H1 as [E1 F1], H2 as [E2 F2]. split_and!; congruence.
  - destruct H1 as [E1 F1], H2 as (E2 & F2 & _). split; congruence.
Qed.

#[export] Instance evolves_preorder : PreOrder evolves.
Proof.
  split.
  - intros k. split; [intros p; apply evolved_refl | lia | lia | done].
  - intros k1 k2 k3 [P1 A1 L1 W1] [P2 A2 L2 W2]. split; [|lia | lia | congruence]. intros p. by eapply evolved_trans.
Qed.

Lemma evolves_same k k' : k_causes k' = k_causes k -> allocs k <= allocs k' ->
  w_alloc (k_world k') = w_alloc (k_world k) -> evolves k k'.
Proof.
  intros E Ha Hw. split; [intros p; rewrite E; apply evolved_refl | done | | done]. unfold lists. rewrite E. lia.
Qed.

(** A change of a list that keeps its inode and its queue. *)
Definition keeps_place (f : cause_list -> cause_list) : Prop :=
  forall c, cl_inode (f c) = cl_inode c /\ callback_q (f c) = callback_q c /\ cl_sched_uniq (f c) = cl_sched_uniq c.

Lemma evolves_alter k k' f p :
  keeps_place f -> k_causes k' = alter f p (k_causes k) -> k_world k' = k_world k -> evolves k k'.
Proof.
  intros Hf E Hw. assert (Ha : allocs k' = allocs k) by (unfold allocs; by rewrite Hw).
  split; [|lia | |by rewrite Hw].
  - intros q. rewrite E, lookup_alter. case_decide as Hq; [subst q | apply evolved_refl].
    destruct (k_causes k !! p) as [c0|]; [|done]. destruct (Hf c0) as (? & ? & ?). by split_and!.
  - unfold lists. rewrite E, size_alter. lia.
Qed.

Lemma owned_ext k k' u u' :
  owned k u -> k_causes k' = k_causes k -> k_next k' = k_next k -> (forall p, u' p = u p) -> owned k' u'.
Proof.
  intros [H1 H2] E1 E2 Hu. split; intros p; rewrite E1; [rewrite Hu; apply H1 | rewrite E2; apply H2].
Qed.

(** The list of a pointer that someone has is there. *)
Definition held (o : option ptr) (u : ptr -> Z) : Prop := forall p, o = Some p -> 0 < u p.

Lemma owned_lookup k u p :
  owned k u -> 0 < u p -> exists c, k_causes k !! p = Some c /\ refcount c = u p /\ u p <= REF_MAX.
Proof.
  intros [H _] Hu. specialize (H p). destruct (k_causes k !! p) as [c|]; [|lia].
  exists c. destruct H. split_and!; auto; lia.
Qed.

Lemma owned_nonneg k u p : owned k u -> 0 <= u p <= REF_MAX.
Proof. intros [H _]. specialize (H p). unfold REF_MAX in *. destruct (k_causes k !! p); lia. Qed.

(** ** Specifications *)

(** Started with the references [u], [m] does not fault and ends with some [u'] of [Q]. *)
Definition kspec {A} (m : ST kernel A) (u : ptr -> Z) (Q : A -> (ptr -> Z) -> Prop) : Prop :=
  forall k, owned k u -> exists a k' u', m k = Ok (a, k') /\ owned k' u' /\ evolves k k' /\ Q a u'.

Lemma kspec_ret {A} (a : A) u Q : Q a u -> kspec (ret a) u Q.
Proof. intros HQ k Hk. exists a, k, u. split_and!; auto. reflexivity. Qed.

Lemma kspec_bind {A B} (m : ST kernel A) (f : A -> ST kernel B) u R Q :
  kspec m u R -> (forall a u', R a u' -> kspec (f a) u' Q) -> kspec (bind m f) u Q.
Proof.
  intros Hm Hf k Hk. destruct (Hm k Hk) as (a & k1 & u1 & E1 & Hk1 & V1 & HR).
  destruct (Hf a u1 HR k1 Hk1) as (b & k2 & u2 & E2 & Hk2 & V2 & HQ).
  exists b, k2, u2. rewrite (bind_ok _ _ _ _ _ E1). split_and!; auto. by transitivity k1.
Qed.

Lemma kspec_conseq {A} (m : ST kernel A) u (Q Q' : A -> (ptr -> Z) -> Prop) :
  kspec m u Q -> (forall a u', Q a u' -> Q' a u') -> kspec m u Q'.
Proof. intros Hm HQ k Hk. destruct (Hm k Hk) as (a & k1 & u1 & ? & ? & ? & ?). eauto 10. Qed.

(** Operations that leave the references alone. *)
Definition keeps_refs {A} (m : ST kernel A) (u : ptr -> Z) : Prop := kspec m u (fun _ u' => u' = u).

Lemma kspec_lift {A} (r : result A) u a (Q : A -> (ptr -> Z) -> Prop) : r = Ok a -> Q a u -> kspec (lift r) u Q.
Proof. intros -> HQ k Hk. exists a, k, u. split_and!; auto. reflexivity. Qed.

Lemma kspec_read line p u : 0 < u p -> keeps_refs (read_causes line p) u.
Proof.
  intros Hu k Hk. destruct (owned_lookup k u p Hk Hu) as (c & Hc & _).
  exists c, k, u. unfold read_causes. rewrite Hc. split_and!; auto. reflexivity.
Qed.

Lemma kspec_write p f u :
  keeps_place f -> (forall c, refcount (f c) = refcount c) -> keeps_refs (write_causes p f) u.
Proof.
  intros Hf Hr k Hk. eexists _, _, u. split; [reflexivity |]. split; [|split; [|done]].
  2: { by eapply evolves_alter. }
  destruct Hk as [H1 H2]. split; intros q; simpl.
  - specialize (H1 q). rewrite lookup_alter. case_decide as Hq; [|exact H1]. subst q.
    destruct (k_causes k !! p); simpl; [by rewrite Hr | exact H1].
  - rewrite lookup_alter. case_decide as Hq; [|apply H2]. subst q. intros [c Hc].
    apply H2. destruct (k_causes k !! p); [by eexists | done].
Qed.

Lemma kspec_kmalloc u : keeps_refs (in_world kmalloc) u.
Proof.
  intros k Hk. eexists _, _, u. split; [reflexivity |]. split; [by eapply owned_ext |].
  split; [|done]. apply evolves_same; [done | | done]. unfold allocs. simpl. lia.
Qed.

Lemma kspec_count (f : kernel -> kernel) u :
  (forall k, k_causes (f k) = k_causes k /\ k_next (f k) = k_next k /\ k_world (f k) = k_world k) ->
  keeps_refs (modify f) u.
Proof.
  intros Hf k Hk. destruct (Hf k) as (E1 & E2 & E3). eexists tt, _, u. split; [done |].
  split; [by eapply owned_ext |]. split; [|done]. apply evolves_same; [done | | by rewrite E3]. unfold allocs. rewrite E3. lia.
Qed.

(** *** Making, getting, and naming causes *)

Lemma fresh_absent k u : owned k u -> k_causes k !! k_next k = None /\ u (k_next k) = 0.
Proof.
  intros Hk. assert (E : k_causes k !! k_next k = None).
  { destruct (k_causes k !! k_next k) eqn:E; [|done].
    assert (k_next k < k_next k)%positive by (apply (ow_next _ _ Hk); by eexists). lia. }
  split; [done |]. pose proof (ow_refs _ _ Hk (k_next k)) as H. by rewrite E in H.
Qed.

(** What a new list is. *)
Definition blank (c : cause_list) : Prop := refcount c = 1 /\ cl_inode c = None /\ callback_q c = None.

Lemma new_run k :
  exists o k', __new_cause_list k = Ok (o, k') /\ allocs k' = allocs k + 1 /\
    match o with
    | Some p => p = k_next k /\ k_next k' = Pos.succ (k_next k) /\
        exists c, blank c /\ k_causes k' = <[p := c]> (k_causes k)
    | None => k_causes k' = k_causes k /\ k_next k' = k_next k
    end.
Proof.
  unfold __new_cause_list, bind, in_world, zoom, kmalloc. simpl. destruct (w_alloc _ _); simpl.
  - eexists (Some _), _. split; [reflexivity |]. split; [unfold allocs; simpl; lia |]. split_and!; [done | done |].
    eexists. split; [|reflexivity]. done.
  - eexists None, _. split; [reflexivity |]. split; [unfold allocs; simpl; lia |]. done.
Qed.

(** A heap with one more list, which is new. *)
Lemma owned_new k k' u c :
  owned k u -> blank c -> k_causes k' = <[k_next k := c]> (k_causes k) -> k_next k' = Pos.succ (k_next k) ->
  owned k' (fun p => u p + one (Some (k_next k)) p).
Proof.
  intros Hk [Hc _] E1 E2. destruct (fresh_absent k u Hk) as [_ Hu]. destruct Hk as [H1 H2].
  split; intros q; rewrite E1, lookup_insert; case_decide as Hq.
  - subst q. rewrite Hu, one_eq, Hc. unfold REF_MAX. lia.
  - rewrite one_ne, Z.add_0_r by done. apply H1.
  - intros _. subst q. lia.
  - intros Hs. specialize (H2 q Hs). lia.
Qed.

Lemma evolves_new k k' p c :
  k_causes k !! p = None -> blank c -> k_causes k' = <[p := c]> (k_causes k) -> allocs k' = allocs k + 1 ->
  w_alloc (k_world k') = w_alloc (k_world k) -> evolves k k'.
Proof.
  intros Hp (_ & Hi & Hq) E Ha Hw. split; [|lia | | done].
  - intros q. rewrite E, lookup_insert. case_decide; [subst q; by rewrite Hp | apply evolved_refl].
  - unfold lists. rewrite E, map_size_insert_None by done. lia.
Qed.

Lemma new_alloc k o k' : __new_cause_list k = Ok (o, k') -> w_alloc (k_world k') = w_alloc (k_world k).
Proof. unfold __new_cause_list, bind, in_world, zoom, kmalloc. simpl. by destruct (w_alloc _ _); intros [= _ <-]. Qed.

Lemma new_spec' u :
  kspec __new_cause_list u (fun o u' => (forall p, u' p = u p + one o p) /\ forall p, o = Some p -> u p = 0).
Proof.
  intros k Hk. destruct (new_run k) as (o & k' & E & Ha & Ho). pose proof (new_alloc _ _ _ E) as Hw.
  exists o, k'. destruct o as [p|].
  - destruct Ho as (-> & Hn & c & Hc & Ek). destruct (fresh_absent k u Hk) as [Hf Hz].
    eexists. split; [done |]. split; [by eapply owned_new |]. split; [by eapply evolves_new |].
    split; [done |]. by intros p [= <-].
  - destruct Ho as [Ek Hn]. exists u. split; [done |]. split; [by eapply owned_ext |].
    split; [apply evolves_same; [done | lia | done] |]. split; [|done]. intros p. rewrite one_none. lia.
Qed.

Lemma new_spec u : kspec __new_cause_list u (fun o u' => forall p, u' p = u p + one o p).
Proof. eapply kspec_conseq; [apply new_spec' |]. by intros o u' []. Qed.

Lemma get_spec o u :
  (forall p, o = Some p -> 0 < u p < REF_MAX) ->
  kspec (get_cause_list o) u (fun o' u' => o' = o /\ forall p, u' p = u p + one o p).
Proof.
  intros Hu k Hk. destruct o as [p0|]; simpl.
  2: { exists None, k, u. split_and!; auto; [reflexivity |]. intros p. rewrite one_none. lia. }
  specialize (Hu p0 eq_refl). destruct (owned_lookup k u p0 Hk) as (c & Hc & Hr & _); [lia |].
  eexists (Some p0), _, (fun p => u p + one (Some p0) p). unfold bind, read_causes. rewrite Hc.
  split; [reflexivity |]. split; [|split; [|done]].
  2: { by eapply (evolves_alter _ _ (fun c => c <| refcount ::= fun n => s32 (n + 1) |>)). }
  destruct Hk as [H1 H2]. split; intros q; simpl; rewrite lookup_alter; case_decide as Hq; auto.
  - subst q. rewrite Hc. simpl. rewrite Hr, one_eq. unfold REF_MAX in *. rewrite s32_small by (unfold is_s32; lia). lia.
  - rewrite one_ne, Z.add_0_r by done. apply H1.
  - subst q. intros _. apply H2. by eexists.
Qed.

Lemma type_spec o t u : held o u -> keeps_refs (set_cause_list_type o t) u.
Proof.
  intros Ho. destruct o as [p|]; simpl; [|by apply kspec_ret].
  eapply kspec_bind; [apply kspec_read; auto |]. intros _ ? ->. by apply kspec_write.
Qed.

Lemma add_spec o id u : held o u -> keeps_refs (__cause_list_add o id) u.
Proof.
  intros Ho. destruct o as [p|]; simpl; [|by apply kspec_ret].
  eapply kspec_bind; [apply kspec_read; auto |]. intros c ? ->. destruct (negb _); [|by apply kspec_ret].
  eapply kspec_bind; [apply kspec_kmalloc |]. intros ok ? ->.
  eapply kspec_bind; [by apply kspec_count |]. intros _ ? ->. destruct ok; [|by apply kspec_ret].
  eapply kspec_bind; [by apply kspec_write |]. intros _ ? ->. by apply kspec_ret.
Qed.

Lemma add_all_spec ids rv o u : held o u ->
  keeps_refs (for_acc ids rv (fun rv id => let! n := __cause_list_add o id in ret (s32 (rv + n)))) u.
Proof.
  intros Ho. revert rv. induction ids as [|id ids IH]; intros rv; simpl; [by apply kspec_ret |].
  apply (kspec_bind _ _ _ (fun _ u' => u' = u)); [|intros rv' ? ->; apply IH].
  eapply kspec_bind; [by apply add_spec |]. intros n ? ->. by apply kspec_ret.
Qed.

(** A pointer that is NULL gets a new list. *)
Definition renewed (o : option ptr) (u : ptr -> Z) (o' : option ptr) (u' : ptr -> Z) : Prop :=
  (o <> None -> o' = o) /\ (forall p, u' p = u p + one o' p - one o p).

Lemma renew_spec o u :
  kspec (match o with None => __new_cause_list | Some _ => ret o end) u (renewed o u).
Proof.
  destruct o as [p|]; [by apply kspec_ret; split; [|intros; lia] |].
  eapply kspec_conseq; [apply new_spec |]. cbv beta. intros o' u' H. split; [done |].
  intros p. rewrite H, one_none. lia.
Qed.

Lemma renewed_held o u o' u' x : (forall p, 0 <= u p) -> held o u -> renewed o u o' u' -> held x u -> held x u' /\ held o' u'.
Proof.
  intros Hn Ho [Hs Hu] Hx. split; intros p E; specialize (Hn p); rewrite Hu; pose proof (one_range o' p).
  - subst x. specialize (Hx p eq_refl). destruct o as [q|]; [|rewrite one_none; lia].
    assert (o' = Some q) as -> by (by apply Hs). lia.
  - subst o'. rewrite one_eq. destruct o as [q|]; [|rewrite one_none; lia].
    assert (Some p = Some q) as [= <-] by (by apply Hs). specialize (Ho p eq_refl). rewrite one_eq. lia.
Qed.

Lemma copy_spec from to u :
  held from u -> held to u ->
  kspec (cause_list_copy from to) u (fun r u' => renewed to u (snd r) u').
Proof.
  intros Hf Ht k Hk. assert (Hn : forall p, 0 <= u p) by (intros p; apply (owned_nonneg _ _ p Hk)).
  revert k Hk. unfold cause_list_copy. eapply kspec_bind; [apply renew_spec |]. intros o u1 Hr.
  destruct (renewed_held _ _ _ _ from Hn Ht Hr Hf) as [Hf1 Ho1].
  destruct from as [f|], o as [x|]; try (by apply kspec_ret).
  eapply kspec_bind; [apply kspec_read; auto |]. intros c ? ->.
  eapply kspec_bind; [by apply add_all_spec |]. intros rv ? ->. by apply kspec_ret.
Qed.

Lemma cause_list_add_spec o t u :
  held o u -> held (task_causes t) u ->
  kspec (cause_list_add o t) u (fun r u' => renewed o u (snd r) u').
Proof.
  intros Ho Ht k Hk. assert (Hn : forall p, 0 <= u p) by (intros p; apply (owned_nonneg _ _ p Hk)).
  revert k Hk. unfold cause_list_add. eapply kspec_bind; [apply renew_spec |]. intros o1 u1 Hr.
  destruct (renewed_held _ _ _ _ (task_causes t) Hn Ho Hr Ht) as [Ht1 Ho1].
  destruct (task_causes t) as [f|].
  - eapply kspec_conseq; [by apply copy_spec |]. intros r u2 [H1 H2]. destruct Hr as [R1 R2]. split.
    + intros H. rewrite H1 by (by rewrite R1). by apply R1.
    + intros p. rewrite H2, R2. lia.
  - eapply kspec_bind; [by apply add_spec |]. intros rv ? ->. by apply kspec_ret.
Qed.

(** ** Lists of cause lists *)

Definition refs_in (l : list (option ptr)) (p : ptr) : Z := zsum (map (fun o => one o p) l).

Lemma refs_in_nonneg l p : 0 <= refs_in l p.
Proof. apply zsum_nonneg, Forall_forall. intros x (o & -> & _)%list_elem_of_fmap. apply one_range. Qed.
Lemma refs_in_app l l' p : refs_in (l ++ l') p = refs_in l p + refs_in l' p.
Proof. unfold refs_in. by rewrite map_app, zsum_app. Qed.

Definition cll_used (l : cause_list_list) : list (option ptr) :=
  take (Z.to_nat (cll_item_count l)) (cll_items l).

(** The references that the list of a bio has. *)
Definition cll_refs (o : option cause_list_list) (p : ptr) : Z :=
  match o with Some l => one (uniq_causes l) p + refs_in (cll_used l) p | None => 0 end.

Lemma cll_refs_nonneg o p : 0 <= cll_refs o p.
Proof.
  destruct o as [l|]; simpl; [|lia]. pose proof (refs_in_nonneg (cll_used l) p). pose proof (one_range (uniq_causes l) p). lia.
Qed.

Record cll_shape (l : cause_list_list) : Prop := {
  sh_uniq : is_Some (uniq_causes l);
  sh_array : Z.of_nat (length (cll_items l)) = cll_item_capacity l;
  sh_count : 0 <= cll_item_count l <= cll_item_capacity l;
  sh_capacity : cll_item_capacity l < 0x80000000;
}.
Definition cll_ok (o : option cause_list_list) : Prop := forall l, o = Some l -> cll_shape l.

(** A capacity for which [alloc_size] does not wrap around. *)
Lemma cll_alloc_size cap :
  0 <= cap < 0x8000000 ->
  s32 (CLL_SIZE + PTR_SIZE * cap) = CLL_SIZE + PTR_SIZE * cap /\ (0 <=? CLL_SIZE + PTR_SIZE * cap) = true /\
  (CLL_SIZE + PTR_SIZE * cap <? CLL_SIZE) = false /\ (CLL_SIZE + PTR_SIZE * cap - CLL_SIZE) / PTR_SIZE = cap.
Proof.
  unfold CLL_SIZE, PTR_SIZE. intros Hc. split_and!.
  - apply s32_small. unfold is_s32. lia.
  - apply Z.leb_le. lia.
  - apply Z.ltb_ge. lia.
  - replace (24 + 8 * cap - 24) with (cap * 8) by lia. by apply Z.div_mul.
Qed.

(** What is made if there is memory for it. *)
Lemma new_cll_eq cap k :
  0 <= cap < 0x8000000 ->
  new_cause_list_list cap k =
    (let! ok := in_world kmalloc in
     let! uniq := __new_cause_list in
     match ok, uniq with
     | true, Some u => ret (Some (CauseListList (Some u) 0 0 cap (replicate (Z.to_nat cap) None)))
     | _, _ =>
         modify (fun k => match uniq with Some u => k <| k_causes ::= delete u |> | None => k end);;
         ret None
     end) k.
Proof.
  intros Hc. unfold new_cause_list_list. destruct (cll_alloc_size cap Hc) as (-> & -> & -> & ->).
  destruct (Z.ltb_spec cap 0) as [|_]; [lia |]. unfold bind.
  destruct (in_world kmalloc k) as [[ok k1]|]; [|done]. by rewrite andb_true_r.
Qed.

Lemma kspec_eq {A} (m m' : ST kernel A) u Q : (forall k, m k = m' k) -> kspec m' u Q -> kspec m u Q.
Proof. intros E Hm k Hk. rewrite E. by apply Hm. Qed.

Lemma new_cll_spec cap u :
  cap < 0x8000000 ->
  kspec (new_cause_list_list cap) u (fun o u' =>
    cll_ok o /\ forall p, u' p = u p + cll_refs o p /\ (0 < u p -> cll_refs o p = 0)).
Proof.
  intros Hcap. destruct (Z.ltb_spec cap 0) as [Hneg|Hpos].
  { unfold new_cause_list_list. destruct (Z.ltb_spec cap 0); [|lia]. apply kspec_ret. split; [done |]. intros p. simpl. lia. }
  eapply kspec_eq; [intros k; by apply new_cll_eq |].
  eapply kspec_bind; [apply kspec_kmalloc |]. intros ok ? ->. intros k Hk.
  destruct (new_run k) as (o & k1 & E1 & Ha & Ho). pose proof (new_alloc _ _ _ E1) as Hw. rewrite (bind_ok _ _ _ _ _ E1).
  destruct o as [x|]; [destruct Ho as (-> & Hn & c & Hc & Ek) | destruct Ho as [Ek Hn]].
  - destruct (fresh_absent k u Hk) as [Hf Hz]. destruct ok.
    + eexists _, k1, _. split; [reflexivity |]. split; [by eapply owned_new |]. split; [by eapply evolves_new |]. split.
      * intros l [= <-]. split; simpl; [by eexists | | lia | lia]. rewrite length_replicate. lia.
      * intros p. simpl. unfold cll_used. simpl. unfold refs_in. simpl. split; [lia |].
        intros Hp. rewrite one_ne; [done |]. intros <-. lia.
    + eexists None, _, u. split; [reflexivity |]. cbn [upd update_field k_causes].
      assert (Ed : delete (k_next k) (k_causes k1) = k_causes k) by (rewrite Ek; by apply delete_insert_id).
      split; [|split; [apply evolves_same; [exact Ed | unfold allocs in *; simpl; lia | exact Hw] |]].
      * destruct Hk as [H1 H2]. split; cbn; rewrite Ed; [done |]. intros p Hp. rewrite Hn. specialize (H2 p Hp). lia.
      * split; [done |]. intros p. simpl. lia.
  - exists None, k1, u. split; [by destruct ok |]. split; [by eapply owned_ext |].
    split; [apply evolves_same; [done | lia | done] |]. split; [done |]. intros p. simpl. lia.
Qed.

(** One more list of causes, if there is room for it. *)
Definition extends (l : cause_list_list) (cl : option ptr) (l' : cause_list_list) : Prop :=
  cl <> None -> cll_item_count l < cll_item_capacity l ->
  cll_item_count l' = cll_item_count l + 1 /\ cll_items l' !! Z.to_nat (cll_item_count l) = Some cl.

Lemma cll_add_spec l cl u :
  cll_shape l -> held (uniq_causes l) u -> (forall p, cl = Some p -> 0 < u p < REF_MAX) ->
  kspec (cause_list_list_add (Some l) cl) u (fun o u' => exists l', o = Some l' /\ cll_shape l' /\ extends l cl l' /\
    forall p, u' p - cll_refs (Some l') p = u p - cll_refs (Some l) p).
Proof.
  intros Hl Hun Hcl. destruct cl as [p0|]; [|apply kspec_ret; exists l; by split_and!]. unfold cause_list_list_add.
  destruct (Z.eqb_spec (cll_item_count l) (cll_item_capacity l)) as [Hfull|Hroom]; [apply kspec_ret; exists l; split_and!; auto; intros _ Hlt; lia |].
  pose proof Hl as [[x Hx] Harr Hcnt Hcap]. specialize (Hcl p0 eq_refl).
  apply (kspec_bind _ _ _ (fun _ u' => u' = u)).
  { destruct (Z.eqb_spec (cll_item_count l) 0); [by apply kspec_ret |].
    destruct (lookup_lt_is_Some_2 (cll_items l) (Z.to_nat (cll_item_count l - 1))) as [y Hy]; [lia |].
    eapply kspec_bind; [|intros last ? Hlast; apply kspec_ret; exact Hlast].
    apply (kspec_lift _ _ y); [|done]. unfold array_get. by rewrite decide_True, Hy by lia. }
  intros differs ? ->. apply (kspec_bind _ _ _ (fun l' u' => l' = l /\ forall p, u' p = u p)).
  { destruct differs; [|by apply kspec_ret].
    eapply kspec_bind; [apply copy_spec; [intros p [= <-]; lia | done] |]. intros r u1 [Hs Hu1].
    apply kspec_ret. rewrite Hs by (by rewrite Hx). split; [by destruct l |].
    intros p. rewrite Hu1, Hs by (by rewrite Hx). lia. }
  intros l1 u1 [-> Hu1]. eapply kspec_bind; [apply get_spec; intros p [= <-]; rewrite Hu1; lia |].
  intros q u2 [-> Hu2]. eapply kspec_bind.
  { eapply (kspec_lift _ _ _ (fun i u' => i = <[Z.to_nat (cll_item_count l) := Some p0]> (cll_items l) /\ u' = u2)); [|done].
    unfold array_set. by rewrite decide_True by lia. }
  intros items' ? [-> ->]. assert (Hpos : forall p, 0 < u p -> 0 < u2 p).
  { intros p Hp. rewrite Hu2, Hu1. pose proof (one_range (Some p0) p). lia. }
  eapply kspec_bind; [apply kspec_read, Hpos; lia |]. intros c ? ->. cbn [uniq_causes upd update_field].
  eapply kspec_bind; [apply (kspec_lift _ _ x (fun a u' => a = x /\ u' = u2)); [by rewrite Hx | done] |].
  intros ? ? [-> ->]. eapply kspec_bind; [apply kspec_read, Hpos; by apply Hun |]. intros cu ? ->.
  eapply kspec_bind; [by apply kspec_write |]. intros _ ? ->. apply kspec_ret.
  assert (Hn : s32 (cll_item_count l + 1) = cll_item_count l + 1) by (apply s32_small; unfold is_s32; lia).
  exists (CauseListList (uniq_causes l) (u64 (cll_size l + cl_size c)) (cll_item_count l + 1) (cll_item_capacity l)
            (<[Z.to_nat (cll_item_count l) := Some p0]> (cll_items l))).
  split; [simpl; by rewrite Hn |]. split; [|split].
  - split; cbn [uniq_causes cll_items cll_item_count cll_item_capacity]; [by eexists | | lia | done].
    by rewrite length_insert.
  - intros _ _. split; [done |]. simpl. apply list_lookup_insert_eq. lia.
  - intros p. unfold cll_refs, cll_used. cbn [uniq_causes cll_item_count cll_items].
    replace (Z.to_nat (cll_item_count l + 1)) with (S (Z.to_nat (cll_item_count l))) by lia.
    rewrite (take_S_r _ _ (Some p0)) by (apply list_lookup_insert_eq; lia).
    rewrite take_insert_ge, refs_in_app, Hu2, Hu1 by lia. unfold refs_in at 2. simpl. lia.
Qed.

(** The list of a bio, which is made when it is first needed. *)
Lemma bio_cll_spec cap o u :
  cap < 0x8000000 -> cll_ok o ->
  kspec (match o with None => new_cause_list_list cap | Some _ => ret o end) u
    (fun o' u' => cll_ok o' /\ forall p, u' p - cll_refs o' p = u p - cll_refs o p /\ (0 < u p -> u' p = u p)).
Proof.
  intros Hcap Ho. destruct o as [l|]; [by apply kspec_ret |].
  eapply kspec_conseq; [by apply new_cll_spec |]. cbv beta. intros o' u' [Hok Hu]. split; [done |].
  intros p. destruct (Hu p) as [-> Hz]. simpl. split; lia.
Qed.

Definition balance (u : ptr -> Z) (o : option cause_list_list) (p : ptr) : Z := u p - cll_refs o p.

Lemma cll_add_opt_spec o cl u :
  cll_ok o -> (forall p, 0 <= balance u o p) -> (forall p, cl = Some p -> 0 < u p < REF_MAX) ->
  kspec (cause_list_list_add o cl) u (fun o' u' => cll_ok o' /\
    (forall p, balance u' o' p = balance u o p) /\ forall l, o = Some l -> exists l', o' = Some l' /\ extends l cl l').
Proof.
  intros Ho Hb Hcl. destruct o as [l|]; [|by apply kspec_ret; split_and!]. pose proof (Ho l eq_refl) as Hl.
  eapply kspec_conseq; [apply cll_add_spec; [done | | done] |].
  - intros p E. specialize (Hb p). unfold balance in Hb. simpl in Hb. rewrite E, one_eq in Hb.
    pose proof (refs_in_nonneg (cll_used l) p). lia.
  - cbv beta. intros o' u' (l' & -> & Hl' & Hx & Hu). split_and!; [by intros ? [= <-] | exact Hu |].
    intros ? [= <-]. eauto.
Qed.

(** ** Freeing *)

(** The part of [free_cause_list] that calls the scheduler. *)
Definition notify {S} {H : Host S} (c : cause_list) (p : ptr) : ST S unit :=
  match callback_q c with
  | Some q =>
      let! uniq := gets (queue_sched_uniq q) in
      if uniq =? cl_sched_uniq c then
        let! fn := gets (elevator_causes_free_fn q) in
        match fn with Some causes_free_fn => causes_free_fn p | None => ret tt end
      else ret tt
  | None => ret tt
  end.

(** The heap after a hook: the same lists with the same counts. *)
Record same_refs (k k' : kernel) : Prop := {
  sr_next : k_next k' = k_next k;
  sr_refs : refcount <$> k_causes k' = refcount <$> k_causes k;
}.

(** What a scheduler promises to the code that frees: its hook returns, and leaves the
    references alone; and its data are right again when the list is gone. *)
Class HostOk (S : Type) {H : Host S} := {
  host_inv : S -> Prop;
  host_ker : forall k s, ker (set_ker k s) = k;
  host_same : forall s, set_ker (ker s) s = s;
  host_evolves : forall k s, host_inv s -> evolves (ker s) k -> host_inv (set_ker k s);
  host_free : forall s p c, host_inv s -> k_causes (ker s) !! p = Some c ->
    exists s', notify c p s = Ok (tt, s') /\ same_refs (ker s) (ker s') /\
      forall k, k_causes k = delete p (k_causes (ker s')) -> k_world k = k_world (ker s') ->
      host_inv (set_ker k s');
}.

Section Host.
Context {S : Type} {H : Host S} {HO : HostOk S}.

Definition hspec {A} (m : ST S A) (u : ptr -> Z) (Q : A -> (ptr -> Z) -> Prop) : Prop :=
  forall s, host_inv s -> owned (ker s) u ->
  exists a s' u', m s = Ok (a, s') /\ host_inv s' /\ owned (ker s') u' /\ Q a u'.

Lemma hspec_ret {A} (a : A) u (Q : A -> (ptr -> Z) -> Prop) : Q a u -> hspec (ret a) u Q.
Proof. intros HQ s Hs Ho. by exists a, s, u. Qed.

Lemma hspec_bind {A B} (m : ST S A) (f : A -> ST S B) u R Q :
  hspec m u R -> (forall a u', R a u' -> hspec (f a) u' Q) -> hspec (bind m f) u Q.
Proof.
  intros Hm Hf s Hs Ho. destruct (Hm s Hs Ho) as (a & s1 & u1 & E1 & Hs1 & Ho1 & HR).
  destruct (Hf a u1 HR s1 Hs1 Ho1) as (b & s2 & u2 & E2 & Hs2 & Ho2 & HQ).
  exists b, s2, u2. by rewrite (bind_ok _ _ _ _ _ E1).
Qed.

Lemma hspec_conseq {A} (m : ST S A) u (Q Q' : A -> (ptr -> Z) -> Prop) :
  hspec m u Q -> (forall a u', Q a u' -> Q' a u') -> hspec m u Q'.
Proof. intros Hm HQ s Hs Ho. destruct (Hm s Hs Ho) as (a & s1 & u1 & ? & ? & ? & ?). eauto 10. Qed.

Lemma hspec_kernel {A} (m : ST kernel A) u Q : kspec m u Q -> hspec (in_kernel m) u Q.
Proof.
  intros Hm s Hs Ho. destruct (Hm (ker s) Ho) as (a & k' & u' & E & Ho' & V & HQ).
  exists a, (set_ker k' s), u'. unfold in_kernel, zoom. rewrite E, host_ker. split_and!; auto.
  by apply host_evolves.
Qed.

(** What is known of the references while code runs. *)
Lemma hspec_nonneg {A} (m : ST S A) u Q : ((forall p, 0 <= u p <= REF_MAX) -> hspec m u Q) -> hspec m u Q.
Proof. intros Hm s Hs Ho. apply Hm; auto. intros p. apply (owned_nonneg _ _ p Ho). Qed.

(** *** Giving back a reference *)

Definition put_refcount (c : cause_list) : cause_list := c <| refcount ::= fun n => s32 (n - 1) |>.

Lemma in_kernel_read line p s c :
  k_causes (ker s) !! p = Some c -> in_kernel (read_causes line p) s = Ok (c, s).
Proof. intros Hc. unfold in_kernel, zoom, read_causes. by rewrite Hc, host_same. Qed.

(** The last reference: the scheduler is told and the list is freed. *)
Lemma free_run p c s :
  host_inv s -> k_causes (ker s) !! p = Some c ->
  exists s', free_cause_list p s = Ok (tt, s') /\ host_inv s' /\ k_next (ker s') = k_next (ker s) /\
    refcount <$> k_causes (ker s') = delete p (refcount <$> k_causes (ker s)).
Proof.
  intros Hs Hc. destruct (host_free s p c Hs Hc) as (s1 & E1 & [N1 R1] & Hdel).
  assert (Hc1 : exists c1, k_causes (ker s1) !! p = Some c1).
  { assert (Hl : (refcount <$> k_causes (ker s1)) !! p = Some (refcount c)) by (by rewrite R1, lookup_fmap, Hc).
    rewrite lookup_fmap in Hl. destruct (k_causes (ker s1) !! p); [by eexists | done]. }
  destruct Hc1 as [c1 Hc1]. unfold free_cause_list. rewrite (bind_ok _ _ _ _ _ (in_kernel_read 97 p s c Hc)).
  fold (notify c p). rewrite (bind_ok _ _ _ _ _ E1), (bind_ok _ _ _ _ _ (in_kernel_read 109 p s1 c1 Hc1)).
  eexists. split; [reflexivity |]. rewrite host_ker. split; [|split].
  - by apply Hdel.
  - exact N1.
  - simpl. by rewrite fmap_delete, R1.
Qed.

Lemma put_spec o u :
  held o u -> hspec (put_cause_list o) u (fun _ u' => forall q, u' q = u q - one o q).
Proof.
  intros Hu. destruct o as [p|]; [|apply hspec_ret; intros q; rewrite one_none; lia].
  specialize (Hu p eq_refl). intros s Hs Ho.
  destruct (owned_lookup _ _ _ Ho Hu) as (c & Hc & Hr & Hm). unfold REF_MAX in Hm.
  set (k' := (ker s) <| k_causes ::= alter put_refcount p |>).
  assert (Hc' : k_causes k' !! p = Some (put_refcount c)) by (simpl; by rewrite lookup_alter_eq, Hc).
  assert (Hs32 : s32 (refcount c - 1) = u p - 1) by (rewrite Hr; apply s32_small; unfold is_s32; lia).
  assert (Hs' : host_inv (set_ker k' s)).
  { apply host_evolves; [done |]. by eapply (evolves_alter _ _ put_refcount). }
  assert (Hother : forall q, q <> p -> k_causes k' !! q = k_causes (ker s) !! q)
    by (intros q Hq; simpl; by rewrite lookup_alter_ne).
  unfold put_cause_list. rewrite (bind_ok _ _ _ _ _ (in_kernel_read 145 p s c Hc)).
  rewrite (bind_ok _ _ _ tt (set_ker k' s)) by done. rewrite Hs32.
  destruct (Z.eqb_spec (u p - 1) 0) as [Hlast|Hmore].
  - destruct (free_run p (put_refcount c) (set_ker k' s) Hs') as (s2 & E2 & Hs2 & N2 & R2); [by rewrite host_ker |].
    rewrite host_ker in N2, R2. exists tt, s2, (fun q => u q - one (Some p) q). split_and!; auto.
    assert (Hl : forall q, refcount <$> k_causes (ker s2) !! q =
      if decide (q = p) then None else refcount <$> k_causes (ker s) !! q).
    { intros q. rewrite <- lookup_fmap, R2, lookup_delete. destruct (decide (p = q)) as [->|Hq].
      - by rewrite decide_True.
      - rewrite decide_False by congruence. by rewrite lookup_fmap, Hother. }
    split; intros q; specialize (Hl q).
    + pose proof (ow_refs _ _ Ho q) as Hq. destruct (decide (q = p)) as [->|Hne].
      * destruct (k_causes (ker s2) !! p); [done |]. rewrite one_eq. lia.
      * rewrite one_ne by congruence. rewrite Z.sub_0_r. destruct (k_causes (ker s2) !! q), (k_causes (ker s) !! q); try done.
        injection Hl as ->. done.
    + intros [d Hd]. rewrite N2. simpl. apply (ow_next _ _ Ho). rewrite Hd in Hl.
      destruct (decide (q = p)); [done |]. destruct (k_causes (ker s) !! q); [by eexists | done].
  - exists tt, (set_ker k' s), (fun q => u q - one (Some p) q). rewrite host_ker. split_and!; auto.
    split; intros q; destruct (decide (q = p)) as [->|Hne]; rewrite ?Hc', ?Hother by done.
    + simpl. rewrite one_eq, Hs32. unfold REF_MAX. lia.
    + rewrite one_ne, Z.sub_0_r by congruence. apply Ho.
    + intros _. simpl. apply (ow_next _ _ Ho). by eexists.
    + apply (ow_next _ _ Ho).
Qed.

Lemma put_all_spec l u :
  (forall p, refs_in l p <= u p) -> hspec (for_each l put_cause_list) u (fun _ u' => forall p, u' p = u p - refs_in l p).
Proof.
  revert u. induction l as [|o l IH]; intros u Hu; cbn [for_each].
  { apply hspec_ret. intros p. unfold refs_in. simpl. lia. }
  assert (Hl : forall p, refs_in (o :: l) p = one o p + refs_in l p) by done.
  eapply hspec_bind; [apply put_spec |].
  - intros p ->. specialize (Hu p). rewrite Hl, one_eq in Hu. pose proof (refs_in_nonneg l p). lia.
  - cbv beta. intros _ u1 Hu1. eapply hspec_conseq; [apply IH |].
    + intros p. specialize (Hu p). rewrite Hl in Hu. rewrite Hu1. lia.
    + cbv beta. intros _ u2 Hu2 p. rewrite Hu2, Hu1, Hl. lia.
Qed.

Lemma del_cll_spec o u :
  (forall p, cll_refs o p <= u p) -> hspec (del_cause_list_list o) u (fun _ u' => forall p, u' p = u p - cll_refs o p).
Proof.
  intros Hu. destruct o as [l|]; simpl in *; [|apply hspec_ret; intros p; lia].
  eapply hspec_bind; [apply (put_all_spec (cll_used l)) |].
  - intros p. specialize (Hu p). pose proof (one_range (uniq_causes l) p). lia.
  - cbv beta. intros _ u1 Hu1. eapply hspec_conseq; [apply put_spec |].
    + intros p E. specialize (Hu p). rewrite E, one_eq in Hu. rewrite Hu1. lia.
    + cbv beta. intros _ u2 Hu2 p. rewrite Hu2, Hu1. lia.
Qed.

(** *** Causes that go to a bio *)

(** A list of causes goes to the list of a bio, and its reference with it or away. *)
Lemma give_spec {A} (f : option cause_list_list -> A) o cl u :
  cll_ok o -> (forall p, one cl p <= balance u o p) -> (forall p, cl = Some p -> u p < REF_MAX) ->
  hspec (let! o := in_kernel (cause_list_list_add o cl) in put_cause_list cl;; ret (f o)) u
    (fun a u' => exists o', a = f o' /\ cll_ok o' /\ forall p, balance u' o' p = balance u o p - one cl p).
Proof.
  intros Ho Hb Hroom. eapply hspec_bind.
  { apply hspec_kernel, cll_add_opt_spec; [done | |].
    - intros p. specialize (Hb p). pose proof (one_range cl p). lia.
    - intros p E. specialize (Hb p). unfold balance in Hb. rewrite E, one_eq in Hb.
      pose proof (cll_refs_nonneg o p). specialize (Hroom p E). lia. }
  cbv beta. intros o1 u1 (Ho1 & Hu1 & _). eapply hspec_bind; [apply put_spec |].
  - intros p E. specialize (Hb p). rewrite <- Hu1, E, one_eq in Hb. unfold balance in Hb.
    pose proof (cll_refs_nonneg o1 p). lia.
  - cbv beta. intros _ u2 Hu2. apply hspec_ret. exists o1. split_and!; [done | done |]. intros p. rewrite <- Hu1. unfold balance. rewrite Hu2. lia.
Qed.

Lemma shiftr_small n k : n < 0x10000000 -> 1 <= k -> Z.shiftr n k < 0x8000000.
Proof.
  intros Hn Hk. rewrite Z.shiftr_div_pow2 by lia. apply Z.div_lt_upper_bound; [lia |].
  assert (2 ^ 1 <= 2 ^ k) by (apply Z.pow_le_mono_r; lia). lia.
Qed.

Lemma need_cll_spec cap o u :
  cap < 0x8000000 -> cll_ok o ->
  hspec (match o with None => in_kernel (new_cause_list_list cap) | Some _ => ret o end) u
    (fun o' u' => cll_ok o' /\ forall p, u' p - cll_refs o' p = u p - cll_refs o p /\ (0 < u p -> u' p = u p)).
Proof.
  intros Hcap Ho. destruct o as [l|]; [by apply hspec_ret; split | by apply hspec_kernel, (bio_cll_spec _ None)].
Qed.

(** [move_causes_bh_to_bio]: the reference of the buffer goes. *)
Lemma move_spec max_sectors bh_causes size b u :
  max_sectors < 0x10000000 -> cll_ok (bi_cll b) ->
  (forall p, one bh_causes p <= balance u (bi_cll b) p) -> (forall p, bh_causes = Some p -> u p < REF_MAX) ->
  hspec (move_causes_bh_to_bio max_sectors bh_causes size b) u (fun r u' => fst r = None /\ cll_ok (bi_cll (snd r)) /\
    forall p, balance u' (bi_cll (snd r)) p = balance u (bi_cll b) p - one bh_causes p).
Proof.
  intros Hms Hb Hu Hroom. destruct bh_causes as [p0|]; cbn [move_causes_bh_to_bio].
  2: { apply hspec_ret. split_and!; [done | done |]. intros p. rewrite one_none. simpl. lia. }
  assert (H0 : 0 < u p0).
  { specialize (Hu p0). unfold balance in Hu. rewrite one_eq in Hu. pose proof (cll_refs_nonneg (bi_cll b) p0). lia. }
  eapply hspec_bind; [apply need_cll_spec; [apply shiftr_small; lia | done] |].
  cbv beta. intros o1 u1 [Ho1 Hu1]. destruct (Hu1 p0) as [_ Hk0]. specialize (Hk0 H0).
  eapply hspec_bind; [apply hspec_kernel, kspec_read; lia |]. intros c ? ->.
  eapply hspec_bind; [apply hspec_kernel; by apply kspec_write |]. intros _ ? ->.
  eapply hspec_conseq; [apply (give_spec (fun o => (None, b <| bi_cll := o |>))); [done | |] |].
  - intros p. unfold balance. rewrite (proj1 (Hu1 p)). apply Hu.
  - intros p [= <-]. rewrite Hk0. by apply Hroom.
  - cbv beta. intros a u2 (o2 & -> & Ho2 & Hu2). split_and!; [done | done |]. intros p. rewrite Hu2.
    unfold balance. by rewrite (proj1 (Hu1 p)).
Qed.

(** [add_causes_zero_to_bio]: the bio refers to a list of its own. *)
Lemma zero_spec max_sectors size b u :
  max_sectors < 0x10000000 -> cll_ok (bi_cll b) -> (forall p, 0 <= balance u (bi_cll b) p) ->
  hspec (add_causes_zero_to_bio max_sectors b size) u (fun b' u' => cll_ok (bi_cll b') /\
    forall p, balance u' (bi_cll b') p = balance u (bi_cll b) p).
Proof.
  intros Hms Hb Hu. unfold add_causes_zero_to_bio. eapply hspec_bind; [apply need_cll_spec; [apply shiftr_small; lia | done] |].
  cbv beta. intros o1 u1 [Ho1 Hu1]. destruct o1 as [l|].
  2: { apply hspec_ret. split; [done |]. intros p. unfold balance. simpl. destruct (Hu1 p) as [E _]. simpl in E. lia. }
  eapply hspec_bind; [apply hspec_kernel, new_spec' |]. cbv beta. intros o u2 [Hu2 Hf].
  assert (E12 : forall p, balance u2 (Some l) p = balance u (bi_cll b) p + one o p).
  { intros p. unfold balance. rewrite Hu2. destruct (Hu1 p) as [E _]. lia. }
  destruct o as [x|]; [|apply hspec_ret; split; [done |]; intros p; simpl; rewrite E12, one_none; lia].
  assert (Hx : u2 x = 1) by (rewrite Hu2, one_eq, (Hf x eq_refl); lia).
  eapply hspec_bind; [apply hspec_kernel, type_spec; intros p [= <-]; lia |]. intros _ ? ->.
  eapply hspec_bind; [apply hspec_kernel; by apply kspec_write |]. intros _ ? ->.
  eapply hspec_conseq; [apply (give_spec (fun o => b <| bi_cll := Some l |> <| bi_cll := o |>)); [done | |] |].
  - intros p. cbn [bi_cll upd update_field]. rewrite E12. specialize (Hu p). lia.
  - intros p [= <-]. rewrite Hx. unfold REF_MAX. lia.
  - cbv beta. intros a u3 (o3 & -> & Ho3 & Hu3). split; [done |]. intros p.
    cbn [bi_cll upd update_field] in *. rewrite Hu3, E12. lia.
Qed.

End Host.
