(* ===== verification/Buffers.v ===== *)
(** * Cause lists in the file systems and the block layer (src/patches/4.5: buffer.c.patch,
    ext4_jbd2.c.patch, ext4-inode.c.patch, page-io.c.patch, transaction.c.patch, commit.c.patch,
    revoke.c.patch, journal.c.patch, bio.c.patch, blk-lib.c.patch, file.c.patch, extent_io.c.patch,
    filemap.c.patch)

    The lines that the patches add to the rest of the kernel: where the pointers to cause lists are,
    and how they are made, shared, handed on and given back between a write to a page and the
    end of its I/O.

    The pointers are in [cells], one for each field [causes] that there is; a
    transaction that commits has another one in a local variable.  Pages of btrfs point
    to a cell of their own.  A bio has a list of cause lists.  [lost] has the
    pointers that were overwritten: no field of the kernel, but what is there
    for ever. *)

From S2P Require Import Prelude CInt Kernel CauseTags CauseRefs.

(** ** Where the pointers are *)

Inductive loc :=
  | BufferCauses (bh : ptr)             (* bh->causes *)
  | TransactionCauses (t : ptr)         (* transaction->causes *)
  | JournalHeadCauses (jh : ptr)        (* jh->causes *)
  | TaskCauses (task : ptr)             (* task->causes *)
  | CommitCauses (task : ptr)           (* cause_list of jbd2_journal_commit_transaction *)
  | LockedCauses (locked : ptr).        (* causes of a struct cause_list_locked *)

#[export] Instance loc_eq_dec : EqDecision loc.
Proof. solve_decision. Defined.

Definition loc_code (l : loc) : positive * positive :=
  match l with
  | BufferCauses p => (1, p) | TransactionCauses p => (2, p) | JournalHeadCauses p => (3, p)
  | TaskCauses p => (4, p) | CommitCauses p => (5, p) | LockedCauses p => (6, p)
  end%positive.
Definition loc_decode (c : positive * positive) : option loc :=
  match c with
  | (1, p) => Some (BufferCauses p) | (2, p) => Some (TransactionCauses p)
  | (3, p) => Some (JournalHeadCauses p) | (4, p) => Some (TaskCauses p)
  | (5, p) => Some (CommitCauses p) | (6, p) => Some (LockedCauses p) | _ => None
  end%positive.
#[export] Instance loc_countable : Countable loc.
Proof. apply (inj_countable loc_code loc_decode). by intros []. Defined.

Record memory := Memory {
  cells : gmap loc (option ptr);
  pages : gmap ptr (option ptr);      (* page->locked_causes *)
  bios : gmap ptr bio;
  lost : list (option ptr);
}.
#[export] Instance eta_memory : Eta memory := fun m => Memory (cells m) (pages m) (bios m) (lost m).

Record glue (S : Type) := Glue { g_host : S; g_mem : memory }.
#[global] Arguments Glue {S}.
#[global] Arguments g_host {S}.
#[global] Arguments g_mem {S}.

(** ** What the file systems need of the scheduler *)

Class FsHost (S : Type) {H : Host S} := {
  (* inode_to_request_queue of the elevator *)
  inode_queue : ptr -> S -> option ptr;
  (* elevator_causes_dirty_fn(q, causes, current, inode, pos) of the elevator of q *)
  elevator_causes_dirty_fn : ptr -> S -> option (ptr -> task_struct -> ptr -> Z -> ST S unit);
}.

Section Glue.
Context {S : Type} {H : Host S} {FH : FsHost S}.

(** ** Access to the state *)

Definition in_host {A} (m : ST S A) : ST (glue S) A := fun g =>
  let? r := m (g_host g) in Ok (fst r, Glue (snd r) (g_mem g)).
Definition in_mem {A} (f : memory -> result (A * memory)) : ST (glue S) A := fun g =>
  let? r := f (g_mem g) in Ok (fst r, Glue (g_host g) (snd r)).

Definition cell (line : Z) (l : loc) : ST (glue S) (option ptr) :=
  in_mem (fun m => match cells m !! l with Some o => Ok (o, m) | None => Fault (UseAfterFree line) end).
Definition change (f : memory -> memory) : ST (glue S) unit := in_mem (fun m => Ok (tt, f m)).
Definition set_cell (l : loc) (o : option ptr) : ST (glue S) unit := change (fun m => m <| cells ::= <[l := o]> |>).
Definition drop_cell (l : loc) : ST (glue S) unit := change (fun m => m <| cells ::= delete l |>).
Definition get_bio (line : Z) (b : ptr) : ST (glue S) bio :=
  in_mem (fun m => match bios m !! b with Some v => Ok (v, m) | None => Fault (UseAfterFree line) end).
Definition set_bio (b : ptr) (v : bio) : ST (glue S) unit := change (fun m => m <| bios ::= <[b := v]> |>).
Definition get_page (line : Z) (pg : ptr) : ST (glue S) (option ptr) :=
  in_mem (fun m => match pages m !! pg with Some o => Ok (o, m) | None => Fault (UseAfterFree line) end).

(** [current]: its [causes], and its [account_id], which is [id]. *)
Definition current (line : Z) (cur : ptr) (id : Z) : ST (glue S) task_struct :=
  let! causes := cell line (TaskCauses cur) in ret (Task causes id).

(** [cause_list_add(&causes, current)]. *)
Definition add_current (line : Z) (l : loc) (cur : ptr) (id : Z) : ST (glue S) Z :=
  let! causes := cell line l in
  let! task := current line cur id in
  let! r := in_host (in_kernel (cause_list_add causes task)) in
  set_cell l (snd r);;
  ret (fst r).

(** [set_cause_list_type(causes, type)]. *)
Definition set_type (line : Z) (l : loc) (type : Z) : ST (glue S) unit :=
  let! causes := cell line l in in_host (in_kernel (set_cause_list_type causes type)).

(** [put_cause_list(causes)]. *)
Definition put (line : Z) (l : loc) : ST (glue S) unit :=
  let! causes := cell line l in in_host (put_cause_list causes).

(** [causes = new_cause_list()]. *)
Definition renew (l : loc) : ST (glue S) unit :=
  let! causes := in_host (in_kernel __new_cause_list) in set_cell l causes.

(** [to->causes = get_cause_list(from)], whatever [to->causes] was before. *)
Definition share (line : Z) (from to : loc) : ST (glue S) unit :=
  let! causes := cell line from in
  let! q := in_host (in_kernel (get_cause_list causes)) in
  let! old := cell line to in
  set_cell to q;;
  change (fun m => m <| lost ::= cons old |>).

(** ** Buffers (buffer.c.patch) *)

(** The dirty hook, in the words of the buffer layer; btrfs has a copy of it. *)
Definition tell_scheduler (c : cause_list) (p q : ptr) (size : Z) (task : task_struct) (inode : ptr) (pos : Z)
    : ST S unit :=
  match callback_q c with
  | None =>
      let! uniq := gets (queue_sched_uniq q) in
      in_kernel (write_causes p (fun c => c <| callback_q := Some q |> <| cl_sched_uniq := uniq |>
                                            <| cl_size := u64 size |>))
  | Some _ => ret tt
  end;;
  let! causes_dirty_fn := gets (elevator_causes_dirty_fn q) in
  match causes_dirty_fn with
  | Some causes_dirty_fn =>
      let! c := in_kernel (read_causes 57 p) in
      let! uniq := gets (queue_sched_uniq q) in
      if uniq =? cl_sched_uniq c then causes_dirty_fn p task inode pos else ret tt
  | None => ret tt
  end.

Definition dirty_hook (l : loc) (size : Z) (cur : ptr) (id : Z) (inode : ptr) (pos cause_added : Z) : ST (glue S) unit :=
  let! causes := cell 43 l in
  let! q := in_host (gets (inode_queue inode)) in
  match q, causes with
  | Some q, Some p =>
      if negb (cause_added =? 0) then
        let! c := in_host (in_kernel (read_causes 46 p)) in
        let! task := current 58 cur id in
        in_host (tell_scheduler c p q size task inode pos)
      else ret tt
  | _, _ => ret tt
  end.

(** What [__block_commit_write] does with a buffer that was written. *)
Definition dirty_buffer (bh : ptr) (b_size : Z) (cur : ptr) (id : Z) (inode : ptr) (pos : Z) : ST (glue S) unit :=
  let! cause_added := add_current 38 (BufferCauses bh) cur id in
  set_type 39 (BufferCauses bh) SPLIT_DATA;;
  dirty_hook (BufferCauses bh) b_size cur id inode pos cause_added.

(** The loop, over the buffers of the page between [from] and [to]. *)
Definition __block_commit_write (bhs : list ptr) (b_size : Z) (cur : ptr) (id : Z) (inode : ptr) (pos : Z)
    : ST (glue S) unit :=
  for_each bhs (fun bh => dirty_buffer bh b_size cur id inode pos).

(** [block_commit_write] does not know the position. *)
Definition block_commit_write (bhs : list ptr) (b_size : Z) (cur : ptr) (id : Z) (inode : ptr) : ST (glue S) unit :=
  __block_commit_write bhs b_size cur id inode (-1).

(** [move_causes_bh_to_bio(bh, bio)]. *)
Definition move_to_bio (line max_sectors : Z) (bh : ptr) (b_size : Z) (bi : ptr) : ST (glue S) unit :=
  let! causes := cell line (BufferCauses bh) in
  let! v := get_bio line bi in
  let! r := in_host (move_causes_bh_to_bio max_sectors causes b_size v) in
  set_cell (BufferCauses bh) (fst r);;
  set_bio bi (snd r).

(** The end of [submit_bh_wbc], before [submit_bio]. *)
Definition submit_bh (write : bool) (max_sectors : Z) (bh : ptr) (b_size : Z) (bi : ptr) : ST (glue S) unit :=
  if write then move_to_bio 91 max_sectors bh b_size bi else ret tt.

(** [kmem_cache_zalloc] has cleared the buffer. *)
Definition alloc_buffer_head (bh : ptr) : ST (glue S) unit :=
  set_cell (BufferCauses bh) None;;
  let! causes := cell 103 (BufferCauses bh) in
  lift (bug_on 103 (negb (bool_decide (causes = None)))).

Definition free_buffer_head (bh : ptr) : ST (glue S) unit :=
  put 113 (BufferCauses bh);;
  set_cell (BufferCauses bh) None;;
  drop_cell (BufferCauses bh).

(** ** The journal *)

(** ext4_jbd2.c.patch *)
Definition __ext4_journal_get_create_access (bh cur : ptr) (id : Z) : ST (glue S) unit :=
  add_current 20 (BufferCauses bh) cur id;;
  set_type 21 (BufferCauses bh) SPLIT_CHECKPOINT.

(** transaction.c.patch *)
Definition jbd2_get_transaction (t : ptr) : ST (glue S) unit := renew (TransactionCauses t).

Definition jbd2_journal_free_transaction (t : ptr) : ST (glue S) unit :=
  put 18 (TransactionCauses t);;
  drop_cell (TransactionCauses t).

Definition jbd2_journal_dirty_metadata (t jh cur : ptr) (id : Z) : ST (glue S) unit :=
  add_current 35 (TransactionCauses t) cur id;;
  add_current 36 (JournalHeadCauses jh) cur id;;
  ret tt.

(** journal.c.patch *)
Definition journal_add_journal_head (jh : ptr) : ST (glue S) unit := set_cell (JournalHeadCauses jh) None.

Definition journal_free_journal_head (jh : ptr) : ST (glue S) unit :=
  put 17 (JournalHeadCauses jh);;
  drop_cell (JournalHeadCauses jh).

(** commit.c.patch: [jbd2_journal_commit_transaction] has the causes of the transaction
    from here on, *)
Definition commit_begin (cur t : ptr) : ST (glue S) unit :=
  let! causes := cell 94 (TransactionCauses t) in
  let! q := in_host (in_kernel (get_cause_list causes)) in
  set_cell (CommitCauses cur) q;;
  set_type 95 (CommitCauses cur) SPLIT_JOURNAL.

(** to here. *)
Definition commit_end (cur : ptr) : ST (glue S) unit :=
  put 210 (CommitCauses cur);;
  drop_cell (CommitCauses cur).

(** In between it hands them to the buffers of the journal that it writes: the block with the commit record, *)
Definition journal_submit_commit_record (cur bh : ptr) : ST (glue S) unit :=
  share 29 (CommitCauses cur) (BufferCauses bh).

(** and the blocks with revoke records (revoke.c.patch): the last one has the causes of
    the transaction, and one that is written because it is full has none. *)
Definition flush_descriptor (cause_list : option loc) (bh : ptr) : ST (glue S) unit :=
  match cause_list with
  | Some l => share 67 l (BufferCauses bh)
  | None =>
      let! old := cell 67 (BufferCauses bh) in
      set_cell (BufferCauses bh) None;;
      change (fun m => m <| lost ::= cons old |>)
  end.

(** ** Write-back of ext4 (ext4-inode.c.patch, page-io.c.patch) *)

(** [ext4_writepages] begins to act as a proxy of the tasks that dirtied the pages; *)
Definition proxy_begin (cur : ptr) : ST (glue S) unit :=
  let! causes := cell 57 (TaskCauses cur) in
  lift (bug_on 57 (negb (bool_decide (causes = None))));;
  renew (TaskCauses cur).

(** collects the causes of a buffer ([mpage_add_bh_to_extent]); *)
Definition mpage_add_bh_to_extent (cur bh : ptr) : ST (glue S) unit :=
  let! causes := cell 18 (TaskCauses cur) in
  match causes with
  | Some _ =>
      let! from := cell 19 (BufferCauses bh) in
      let! r := in_host (in_kernel (cause_list_copy from causes)) in
      set_cell (TaskCauses cur) (snd r)
  | None => ret tt
  end.

(** starts afresh when an extent has been mapped; *)
Definition mpage_map_and_submit_extent (cur : ptr) : ST (glue S) unit :=
  put 43 (TaskCauses cur);;
  renew (TaskCauses cur).

(** and ends. *)
Definition proxy_end (cur : ptr) : ST (glue S) unit :=
  put 67 (TaskCauses cur);;
  set_cell (TaskCauses cur) None.

(** [io_submit_add_bh], after [bio_add_page] took the buffer. *)
Definition io_submit_add_bh (max_sectors : Z) (bh : ptr) (b_size : Z) (bi : ptr) : ST (glue S) unit :=
  move_to_bio 19 max_sectors bh b_size bi.

(** ** Bios (bio.c.patch, blk-lib.c.patch) *)

(** [bio_init] clears the bio. *)
Definition bio_alloc (bi : ptr) : ST (glue S) unit := set_bio bi (Bio 0 0 None).

Definition bio_free (bi : ptr) : ST (glue S) unit :=
  let! v := get_bio 17 bi in
  in_host (del_cause_list_list (bi_cll v));;
  change (fun m => m <| bios ::= delete bi |>).

(** The loop of [__blkdev_issue_zeroout] over the pages of a bio; [szs] are their sizes in sectors. *)
Definition issue_zeroout (max_sectors : Z) (bi : ptr) (szs : list Z) : ST (glue S) unit :=
  for_each szs (fun sz =>
    let! v := get_bio 18 bi in
    let! v := in_host (add_causes_zero_to_bio max_sectors v (Z.shiftl sz 9)) in
    set_bio bi v).

(** ** Btrfs (filemap.c.patch, file.c.patch, extent_io.c.patch) *)

(** [pagecache_get_page] makes a page. *)
Definition page_init (pg : ptr) : ST (glue S) unit := change (fun m => m <| pages ::= <[pg := None]> |>).

(** [prepare_pages]: the page gets a [struct cause_list_locked], at [fresh], if it has none. *)
Definition prepare_page (fresh pg : ptr) : ST (glue S) unit :=
  let! locked := get_page 98 pg in
  match locked with
  | None =>
      let! ok := in_host (in_kernel (in_world kmalloc)) in
      lift (bug_on 100 (negb ok));;
      change (fun m => m <| pages ::= <[pg := Some fresh]> |>);;
      renew (LockedCauses fresh)
  | Some l =>
      let! causes := cell 106 (LockedCauses l) in
      match causes with None => renew (LockedCauses l) | Some _ => ret tt end
  end.

Definition PAGE_CACHE_SIZE : Z := 4096.

Definition add_to_causes (pg cur : ptr) (id : Z) (inode : ptr) (pos : Z) : ST (glue S) unit :=
  let! locked := get_page 27 pg in
  match locked with
  | None => ret tt
  | Some l =>
      let! causes := cell 37 (LockedCauses l) in
      match causes with None => renew (LockedCauses l) | Some _ => ret tt end;;
      let! cause_added := add_current 40 (LockedCauses l) cur id in
      set_type 41 (LockedCauses l) SPLIT_DATA;;
      dirty_hook (LockedCauses l) PAGE_CACHE_SIZE cur id inode pos cause_added
  end.

Definition copy_causes_page_to_bio (max_sectors : Z) (pg bi : ptr) (page_size : Z) : ST (glue S) unit :=
  let! locked := get_page 26 pg in
  match locked with
  | None => ret tt
  | Some l =>
      let! causes := cell 31 (LockedCauses l) in
      match causes with
      | None => ret tt
      | Some p =>
          let! v := get_bio 34 bi in
          let! cll := match bi_cll v with
                      | None => in_host (in_kernel (new_cause_list_list (Z.shiftr max_sectors 1)))
                      | Some _ => ret (bi_cll v) end in
          in_host (in_kernel (read_causes 47 p));;
          in_host (in_kernel (write_causes p (fun c => c <| cl_size := u64 page_size |>)));;
          let! cll := in_host (in_kernel (cause_list_list_add cll causes)) in
          in_host (put_cause_list causes);;
          set_bio bi (v <| bi_cll := cll |>);;
          set_cell (LockedCauses l) None
      end
  end.

(** [submit_extent_page]: [old] is the bio that is being filled; [joins] says whether
    the page can be added to it, else it is submitted; [new] is what
    [btrfs_bio_alloc] returns.  Returns the bio that has the page. *)
Definition submit_extent_page (max_sectors : Z) (joins : bool) (old new : option ptr) (pg : ptr) (page_size : Z)
    : ST (glue S) (option ptr) :=
  let! done := match old with
               | Some bi => copy_causes_page_to_bio max_sectors pg bi page_size;; ret joins
               | None => ret false end in
  if done : bool then ret old
  else
    match new with
    | None => ret None
    | Some bi =>
        bio_alloc bi;;
        copy_causes_page_to_bio max_sectors pg bi page_size;;
        ret (Some bi)
    end.

End Glue.
