(* ===== verification/BuffersInv.v ===== *)
(** * Cause lists in the kernel: every pointer is counted

    [balanced M u]: the pointers to a cause list [p] that are in the memory [M] are [u p] many.  Every
    operation of Buffers.v, started in a balanced memory, runs without a fault and
    ends in one; the references change with the pointers. *)

From S2P Require Import Prelude CInt Kernel CauseTags CauseRefs Buffers.

(** ** Counting pointers *)

Definition cell_refs (m : gmap loc (option ptr)) (p : ptr) : Z := msum (fun o => one o p) m.
Definition bio_refs (m : gmap ptr bio) (p : ptr) : Z := msum (fun b => cll_refs (bi_cll b) p) m.
Definition holders (M : memory) (p : ptr) : Z := cell_refs (cells M) p + bio_refs (bios M) p + refs_in (lost M) p.

Lemma one_nonneg p o : 0 <= one o p.
Proof. apply one_range. Qed.

Lemma holders_nonneg M p : 0 <= holders M p.
Proof.
  unfold holders, cell_refs, bio_refs. pose proof (refs_in_nonneg (lost M) p).
  pose proof (msum_nonneg (fun o => one o p) (cells M) (one_nonneg p)).
  pose proof (msum_nonneg (fun b => cll_refs (bi_cll b) p) (bios M) (fun b => cll_refs_nonneg (bi_cll b) p)). lia.
Qed.

Lemma cell_held M l o p : cells M !! l = Some o -> one o p <= holders M p.
Proof.
  intros Hl. pose proof (msum_lookup (fun o => one o p) _ _ _ (one_nonneg p) Hl).
  pose proof (msum_nonneg (fun b => cll_refs (bi_cll b) p) (bios M) (fun b => cll_refs_nonneg (bi_cll b) p)).
  unfold holders, cell_refs, bio_refs. pose proof (refs_in_nonneg (lost M) p). cbv beta in *. lia.
Qed.

Lemma cell_bio_held M l o b v p :
  cells M !! l = Some o -> bios M !! b = Some v -> one o p + cll_refs (bi_cll v) p <= holders M p.
Proof.
  intros Hl Hb. pose proof (msum_lookup (fun o => one o p) _ _ _ (one_nonneg p) Hl).
  pose proof (msum_lookup (fun b => cll_refs (bi_cll b) p) _ _ _ (fun b => cll_refs_nonneg (bi_cll b) p) Hb).
  unfold holders, cell_refs, bio_refs. pose proof (refs_in_nonneg (lost M) p). cbv beta in *. lia.
Qed.

Lemma bio_held M b v p : bios M !! b = Some v -> cll_refs (bi_cll v) p <= holders M p.
Proof.
  intros Hb. pose proof (msum_lookup (fun b => cll_refs (bi_cll b) p) _ _ _ (fun b => cll_refs_nonneg (bi_cll b) p) Hb).
  pose proof (msum_nonneg (fun o => one o p) (cells M) (one_nonneg p)).
  unfold holders, cell_refs, bio_refs. pose proof (refs_in_nonneg (lost M) p). cbv beta in *. lia.
Qed.

Lemma holders_set M l o o' p :
  cells M !! l = Some o -> holders (M <| cells ::= <[l := o']> |>) p = holders M p - one o p + one o' p.
Proof. intros Hl. unfold holders, cell_refs. simpl. rewrite (msum_update _ _ _ _ _ Hl). lia. Qed.

Lemma holders_new M l o' p :
  cells M !! l = None -> holders (M <| cells ::= <[l := o']> |>) p = holders M p + one o' p.
Proof. intros Hl. unfold holders, cell_refs. simpl. rewrite msum_insert by done. lia. Qed.

Lemma holders_drop M l o p :
  cells M !! l = Some o -> holders (M <| cells ::= delete l |>) p = holders M p - one o p.
Proof. intros Hl. unfold holders, cell_refs. simpl. rewrite (msum_delete _ _ _ _ Hl). lia. Qed.

Lemma holders_bio M b v v' p :
  bios M !! b = Some v ->
  holders (M <| bios ::= <[b := v']> |>) p = holders M p - cll_refs (bi_cll v) p + cll_refs (bi_cll v') p.
Proof. intros Hb. unfold holders, bio_refs. simpl. rewrite (msum_update _ _ _ _ _ Hb). lia. Qed.

Lemma holders_bio_new M b v' p :
  bios M !! b = None -> holders (M <| bios ::= <[b := v']> |>) p = holders M p + cll_refs (bi_cll v') p.
Proof. intros Hb. unfold holders, bio_refs. simpl. rewrite msum_insert by done. lia. Qed.

Lemma holders_bio_drop M b v p :
  bios M !! b = Some v -> holders (M <| bios ::= delete b |>) p = holders M p - cll_refs (bi_cll v) p.
Proof. intros Hb. unfold holders, bio_refs. simpl. rewrite (msum_delete _ _ _ _ Hb). lia. Qed.

Lemma holders_lose M o p : holders (M <| lost ::= cons o |>) p = holders M p + one o p.
Proof. unfold holders, refs_in. simpl. lia. Qed.

(** ** The invariant *)

Record mem_ok (M : memory) : Prop := {
  mo_cll : forall b v, bios M !! b = Some v -> cll_ok (bi_cll v);
  mo_pages : forall pg l, pages M !! pg = Some (Some l) -> is_Some (cells M !! LockedCauses l);
}.

Record balanced (M : memory) (u : ptr -> Z) : Prop := {
  ba_refs : forall p, u p = holders M p;
  ba_mem : mem_ok M;
}.

Lemma mem_ok_set M l o : mem_ok M -> mem_ok (M <| cells ::= <[l := o]> |>).
Proof.
  intros [H1 H2]. split; simpl; [done |]. intros pg x Hx. rewrite lookup_insert. case_decide; [done | eauto].
Qed.

Definition is_locked (l : loc) : bool := match l with LockedCauses _ => true | _ => false end.

Lemma mem_ok_drop M l : is_locked l = false -> mem_ok M -> mem_ok (M <| cells ::= delete l |>).
Proof.
  intros Hl [H1 H2]. split; simpl; [done |]. intros pg x Hx. rewrite lookup_delete_ne; [eauto |]. by intros ->.
Qed.

Lemma mem_ok_bio M b v : cll_ok (bi_cll v) -> mem_ok M -> mem_ok (M <| bios ::= <[b := v]> |>).
Proof.
  intros Hv [H1 H2]. split; simpl; [|done]. intros b' v'. rewrite lookup_insert. case_decide; [by intros [= <-] | eauto].
Qed.

Lemma mem_ok_bio_drop M b : mem_ok M -> mem_ok (M <| bios ::= delete b |>).
Proof.
  intros [H1 H2]. split; simpl; [|done]. intros b' v'. rewrite lookup_delete. case_decide; [done | eauto].
Qed.

Lemma mem_ok_lose M o : mem_ok M -> mem_ok (M <| lost ::= cons o |>).
Proof. by intros [H1 H2]. Qed.

(** What nothing changes any more: the pointers that were overwritten, and the cells of
    structures that no page refers to. *)
Definition orphan (M : memory) (l : ptr) : Prop := forall pg, pages M !! pg <> Some (Some l).

Record frames (M M' : memory) : Prop := {
  fr_lost : exists new, lost M' = new ++ lost M;
  fr_orphan : forall l o, cells M !! LockedCauses l = Some o -> orphan M l ->
    cells M' !! LockedCauses l = Some o /\ orphan M' l;
}.

#[export] Instance frames_preorder : PreOrder frames.
Proof.
  split.
  - intros M. split; [by exists [] | done].
  - intros M1 M2 M3 [[n1 L1] O1] [[n2 L2] O2]. split.
    + exists (n2 ++ n1). by rewrite L2, L1, app_assoc.
    + intros l o Hl Ho. destruct (O1 l o Hl Ho). by apply O2.
Qed.

(** A change of the cells that are not of a page, or are of one. *)
Definition page_of (M : memory) (l : loc) : Prop :=
  match l with LockedCauses x => ~ orphan M x | _ => True end.

Lemma frames_set M l o : page_of M l -> frames M (M <| cells ::= <[l := o]> |>).
Proof.
  intros Hl. split; [by exists [] |]. intros x o' Hx Ho. split; [|done]. simpl.
  rewrite lookup_insert_ne; [done |]. by intros ->.
Qed.

Lemma frames_new M l o : cells M !! l = None -> frames M (M <| cells ::= <[l := o]> |>).
Proof.
  intros Hl. split; [by exists [] |]. intros x o' Hx Ho. split; [|done]. simpl.
  rewrite lookup_insert_ne; [done |]. intros ->. congruence.
Qed.

Lemma frames_drop M l : is_locked l = false -> frames M (M <| cells ::= delete l |>).
Proof.
  intros Hl. split; [by exists [] |]. intros x o' Hx Ho. split; [|done]. simpl.
  rewrite lookup_delete_ne; [done |]. by intros ->.
Qed.

Lemma frames_bios M f : frames M (M <| bios ::= f |>).
Proof. split; [by exists [] | done]. Qed.
Lemma frames_lose M o : frames M (M <| lost ::= cons o |>).
Proof. split; [by exists [o] | done]. Qed.

(** ** What the scheduler promises *)

Class FsHostOk (S : Type) {H : Host S} {FH : FsHost S} {HO : HostOk S} := {
  host_dirty : forall s inode q p c task pos size,
    host_inv s -> inode_queue inode s = Some q -> k_causes (ker s) !! p = Some c ->
    exists s', tell_scheduler c p q size task inode pos s = Ok (tt, s') /\ host_inv s' /\ same_refs (ker s) (ker s');
}.

Lemma owned_same k k' u : owned k u -> same_refs k k' -> owned k' u.
Proof.
  intros [H1 H2] [N R]. assert (Hl : forall p, refcount <$> k_causes k' !! p = refcount <$> k_causes k !! p)
    by (intros p; by rewrite <- !lookup_fmap, R).
  split; intros p; specialize (Hl p).
  - specialize (H1 p). destruct (k_causes k' !! p), (k_causes k !! p); try done. by injection Hl as ->.
  - intros [c Hc]. rewrite Hc in Hl. rewrite N. apply H2. destruct (k_causes k !! p); [by eexists | done].
Qed.

Section Specs.
Context {S : Type} {H : Host S} {FH : FsHost S} {HO : HostOk S} {FO : FsHostOk S}.
Implicit Types M : memory.

Definition gspec {A} (m : ST (glue S) A) M (u : ptr -> Z) (Q : A -> memory -> (ptr -> Z) -> Prop) : Prop :=
  forall h, host_inv h -> owned (ker h) u ->
  exists a h' M' u', m (Glue h M) = Ok (a, Glue h' M') /\ host_inv h' /\ owned (ker h') u' /\ Q a M' u'.

Lemma gspec_ret {A} (a : A) M u (Q : A -> memory -> (ptr -> Z) -> Prop) : Q a M u -> gspec (ret a) M u Q.
Proof. intros HQ h Hh Ho. by exists a, h, M, u. Qed.

Lemma gspec_bind {A B} (m : ST (glue S) A) (f : A -> ST (glue S) B) M u R Q :
  gspec m M u R -> (forall a M' u', R a M' u' -> gspec (f a) M' u' Q) -> gspec (bind m f) M u Q.
Proof.
  intros Hm Hf h Hh Ho. destruct (Hm h Hh Ho) as (a & h1 & M1 & u1 & E1 & Hh1 & Ho1 & HR).
  destruct (Hf a M1 u1 HR h1 Hh1 Ho1) as (b & h2 & M2 & u2 & E2 & ?).
  exists b, h2, M2, u2. by rewrite (bind_ok _ _ _ _ _ E1).
Qed.

Lemma gspec_conseq {A} (m : ST (glue S) A) M u (Q Q' : A -> memory -> (ptr -> Z) -> Prop) :
  gspec m M u Q -> (forall a M' u', Q a M' u' -> Q' a M' u') -> gspec m M u Q'.
Proof. intros Hm HQ h Hh Ho. destruct (Hm h Hh Ho) as (a & h1 & M1 & u1 & ? & ? & ? & ?). eauto 10. Qed.

Lemma gspec_host {A} (m : ST S A) M u R (Q : A -> memory -> (ptr -> Z) -> Prop) :
  hspec m u R -> (forall a u', R a u' -> Q a M u') -> gspec (in_host m) M u Q.
Proof.
  intros Hm HQ h Hh Ho. destruct (Hm h Hh Ho) as (a & h' & u' & E & Hh' & Ho' & HR).
  exists a, h', M, u'. unfold in_host. simpl. rewrite E. simpl. split_and!; auto.
Qed.

Lemma gspec_host_bind {A B} (m : ST S A) (f : A -> ST (glue S) B) M u R Q :
  hspec m u R -> (forall a u', R a u' -> gspec (f a) M u' Q) -> gspec (bind (in_host m) f) M u Q.
Proof.
  intros Hm Hf. eapply gspec_bind; [apply (gspec_host _ _ _ _ (fun a M' u' => M' = M /\ R a u')) with (1 := Hm); auto |].
  intros a ? u' [-> HR]. auto.
Qed.

Lemma gspec_mem {A B} (g : memory -> result (A * memory)) (f : A -> ST (glue S) B) a M M' u Q :
  g M = Ok (a, M') -> gspec (f a) M' u Q -> gspec (bind (in_mem g) f) M u Q.
Proof. intros E Hf h Hh Ho. unfold bind, in_mem. simpl. rewrite E. simpl. by apply Hf. Qed.

Lemma gspec_cell {B} line l o (f : option ptr -> ST (glue S) B) M u Q :
  cells M !! l = Some o -> gspec (f o) M u Q -> gspec (bind (cell line l) f) M u Q.
Proof. intros E. apply gspec_mem. by rewrite E. Qed.

Lemma gspec_bio {B} line b v (f : bio -> ST (glue S) B) M u Q :
  bios M !! b = Some v -> gspec (f v) M u Q -> gspec (bind (get_bio line b) f) M u Q.
Proof. intros E. apply gspec_mem. by rewrite E. Qed.

Lemma gspec_page {B} line pg o (f : option ptr -> ST (glue S) B) M u Q :
  pages M !! pg = Some o -> gspec (f o) M u Q -> gspec (bind (get_page line pg) f) M u Q.
Proof. intros E. apply gspec_mem. by rewrite E. Qed.

Lemma gspec_then {B} g (k : ST (glue S) B) M u Q : gspec k (g M) u Q -> gspec (change g;; k) M u Q.
Proof. intros Hk. by apply (gspec_mem _ _ tt _ (g M)). Qed.

Lemma gspec_change g M u (Q : unit -> memory -> (ptr -> Z) -> Prop) : Q tt (g M) u -> gspec (change g) M u Q.
Proof. intros HQ h Hh Ho. by exists tt, h, (g M), u. Qed.

(** An operation: from a balanced memory to a balanced one. *)
Definition good M : unit -> memory -> (ptr -> Z) -> Prop := fun _ M' u' => balanced M' u' /\ frames M M'.

Lemma good_intro M M' u' : (forall p, u' p = holders M' p) -> mem_ok M' -> frames M M' -> good M tt M' u'.
Proof. intros H1 H2 H3. by split; [split |]. Qed.

(** *** The building blocks *)

Lemma balanced_held M u l o : balanced M u -> cells M !! l = Some o -> held o u.
Proof. intros [Hb _] Hl p ->. rewrite Hb. pose proof (cell_held M l _ p Hl) as Hc. rewrite one_eq in Hc. lia. Qed.

Lemma add_current_spec line l cur id M u o t :
  balanced M u -> cells M !! l = Some o -> cells M !! TaskCauses cur = Some t ->
  gspec (add_current line l cur id) M u (fun _ M' u' => exists o', M' = M <| cells ::= <[l := o']> |> /\ balanced M' u').
Proof.
  intros Hb Hl Ht. unfold add_current, current. eapply gspec_cell; [done |].
  eapply gspec_bind; [eapply gspec_cell; [done | by apply (gspec_ret _ _ _ (fun a M' u' => a = Task t id /\ M' = M /\ u' = u))] |].
  intros ? ? ? (-> & -> & ->). eapply gspec_host_bind.
  { apply hspec_kernel, cause_list_add_spec; by eapply balanced_held. }
  intros r u' [_ Hu]. apply gspec_then, gspec_ret. exists (snd r). split; [done |].
  split; [|by apply mem_ok_set, Hb]. intros p. rewrite Hu, (holders_set _ _ _ _ _ Hl), (ba_refs _ _ Hb). lia.
Qed.

Lemma set_type_spec line l type M u o :
  balanced M u -> cells M !! l = Some o -> gspec (set_type line l type) M u (fun _ M' u' => M' = M /\ u' = u).
Proof.
  intros Hb Hl. unfold set_type. eapply gspec_cell; [done |].
  eapply gspec_host; [by apply hspec_kernel, type_spec; eapply balanced_held |]. by intros _ ? ->.
Qed.

Lemma put_cell_spec line l M u o :
  balanced M u -> cells M !! l = Some o ->
  gspec (put line l) M u (fun _ M' u' => M' = M /\ forall p, u' p = holders M p - one o p).
Proof.
  intros Hb Hl. unfold put. eapply gspec_cell; [done |].
  eapply gspec_host; [by apply put_spec; eapply balanced_held |]. cbv beta. intros _ u' Hu. split; [done |].
  intros p. by rewrite Hu, (ba_refs _ _ Hb).
Qed.

(** [causes = new_cause_list()] where [old] pointers to be counted no more have been
    given back. *)
Lemma renew_cell_spec l M u (old : option ptr) :
  (forall p, u p = holders M p - one old p) -> mem_ok M ->
  match cells M !! l with Some o => o = old | None => old = None end -> page_of M l \/ cells M !! l = None ->
  gspec (renew l) M u (good M).
Proof.
  intros Hu Hm Hl Hp. unfold renew. eapply gspec_host_bind; [apply hspec_kernel, new_spec |].
  cbv beta. intros o u1 Hu1. apply gspec_change, good_intro.
  - intros p. rewrite Hu1, Hu. destruct (cells M !! l) as [x|] eqn:El; subst.
    + rewrite (holders_set _ _ _ _ _ El). lia.
    + rewrite (holders_new _ _ _ _ El), one_none. lia.
  - by apply mem_ok_set.
  - destruct Hp; [by apply frames_set | by apply frames_new].
Qed.

(** Giving back what a cell has, and then the cell. *)
Lemma put_drop_spec line l M u o :
  balanced M u -> cells M !! l = Some o -> is_locked l = false -> gspec (put line l;; drop_cell l) M u (good M).
Proof.
  intros Hb Hl Hn. eapply gspec_bind; [by apply put_cell_spec |]. intros _ ? u' [-> Hu].
  apply gspec_change, good_intro; [|by apply mem_ok_drop, Hb | by apply frames_drop].
  intros p. by rewrite Hu, (holders_drop _ _ _ _ Hl).
Qed.

(** The scheduler hears of a dirty page. *)
Lemma dirty_hook_spec l size cur id inode pos added M u o t :
  balanced M u -> cells M !! l = Some o -> cells M !! TaskCauses cur = Some t ->
  gspec (dirty_hook l size cur id inode pos added) M u (fun _ M' u' => M' = M /\ u' = u).
Proof.
  intros Hb Hl Ht. unfold dirty_hook. eapply gspec_cell; [done |]. intros h Hh Ho. unfold bind at 1, in_host at 1, gets.
  cbn [rbind g_host g_mem fst snd]. destruct (inode_queue inode h) as [q|] eqn:Eq; [|by exists tt, h, M, u].
  destruct o as [p|]; [|by exists tt, h, M, u]. destruct (negb _); [|by exists tt, h, M, u].
  destruct (owned_lookup _ _ p Ho) as (c & Hc & _); [by apply (balanced_held _ _ _ _ Hb Hl) |].
  rewrite (bind_ok _ _ _ c (Glue h M)) by (unfold in_host; cbn [g_host g_mem]; by rewrite (in_kernel_read _ _ _ _ Hc)).
  rewrite (bind_ok _ _ _ (Task t id) (Glue h M)) by (unfold current, cell, in_mem, bind; cbn [g_host g_mem]; by rewrite Ht).
  destruct (host_dirty h inode q p c (Task t id) pos size Hh Eq Hc) as (h' & E & Hh' & Hs).
  exists tt, h', M, u. unfold in_host. cbn [g_host g_mem]. rewrite E. split_and!; auto. by eapply owned_same.
Qed.

(** Adding a cause, setting the type and telling the scheduler: what both file systems do. *)
Lemma dirty_spec ln1 ln2 l size cur id inode pos M u o t :
  balanced M u -> cells M !! l = Some o -> cells M !! TaskCauses cur = Some t -> l <> TaskCauses cur -> page_of M l ->
  gspec (let! cause_added := add_current ln1 l cur id in
         set_type ln2 l SPLIT_DATA;; dirty_hook l size cur id inode pos cause_added) M u
    (fun _ M' u' => exists o', M' = M <| cells ::= <[l := o']> |> /\ balanced M' u' /\ frames M M').
Proof.
  intros Hb Hl Ht Hne Hp. eapply gspec_bind; [by eapply add_current_spec |]. cbv beta. intros added ? u1 (o' & -> & Hb1).
  assert (El : cells (M <| cells ::= <[l := o']> |>) !! l = Some o') by apply lookup_insert_eq.
  assert (Et : cells (M <| cells ::= <[l := o']> |>) !! TaskCauses cur = Some t) by (simpl; by rewrite lookup_insert_ne).
  eapply gspec_bind; [by eapply set_type_spec |]. intros _ ? ? [-> ->].
  eapply gspec_conseq; [by eapply dirty_hook_spec |]. intros _ ? ? [-> ->]. exists o'. split_and!; auto.
  by apply frames_set.
Qed.

End Specs.
