(* ===== verification/BuffersOps.v ===== *)
(** * Cause lists in the kernel: the operations

    Each operation of Buffers.v, called when the objects it works on are there, runs
    to its end and leaves every pointer counted. *)

From S2P Require Import Prelude CInt Kernel CauseTags CauseRefs Buffers BuffersInv.

Section Ops.
Context {S : Type} {H : Host S} {FH : FsHost S} {HO : HostOk S} {FO : FsHostOk S}.
Implicit Types M : memory.

(** A field [causes] that is there. *)
Definition has (l : loc) M : Prop := is_Some (cells M !! l).

Definition room (u : ptr -> Z) : Prop := forall p, u p < REF_MAX.

(** ** Buffers *)

Lemma has_set l l' o M : has l M -> has l (M <| cells ::= <[l' := o]> |>).
Proof. intros Hl. unfold has. simpl. rewrite lookup_insert. case_decide; [done | exact Hl]. Qed.

Lemma commit_write_spec bhs b_size cur id inode pos M u :
  balanced M u -> (forall bh, bh ∈ bhs -> has (BufferCauses bh) M) -> has (TaskCauses cur) M ->
  gspec (__block_commit_write bhs b_size cur id inode pos) M u (good M).
Proof.
  unfold __block_commit_write. revert M u. induction bhs as [|bh bhs IH]; intros M u Hb Hbh [t Ht]; cbn [for_each].
  { apply gspec_ret. split; [done | reflexivity]. }
  destruct (Hbh bh ltac:(left)) as [o Ho]. eapply gspec_bind; [by eapply dirty_spec |].
  cbv beta. intros _ ? u1 (o' & -> & Hb1 & Hf). eapply gspec_conseq; [apply IH |].
  - exact Hb1.
  - intros bh' Hin. apply has_set, Hbh. by right.
  - apply has_set. by eexists.
  - intros [] M2 u2 [Hb2 Hf2]. split; [done |]. by etransitivity.
Qed.

Lemma move_to_bio_spec line max_sectors bh b_size bi M u v :
  balanced M u -> room u -> max_sectors < 0x10000000 -> has (BufferCauses bh) M -> bios M !! bi = Some v ->
  gspec (move_to_bio line max_sectors bh b_size bi) M u (good M).
Proof.
  intros Hb Hr Hms [o Ho] Hv. unfold move_to_bio. eapply gspec_cell; [done |]. eapply gspec_bio; [done |].
  eapply gspec_host_bind.
  { apply move_spec; [done | by eapply (mo_cll _ (ba_mem _ _ Hb)) | | done].
    intros p. unfold balance. rewrite (ba_refs _ _ Hb). pose proof (cell_bio_held _ _ _ _ _ p Ho Hv). lia. }
  cbv beta. intros r u1 (Hn & Hok & Hu). apply gspec_then, gspec_change, good_intro.
  - intros p. rewrite (holders_bio _ _ v) by done. rewrite (holders_set _ _ _ _ _ Ho), Hn, one_none.
    specialize (Hu p). unfold balance in Hu. rewrite (ba_refs _ _ Hb) in Hu. lia.
  - by apply mem_ok_bio, mem_ok_set, Hb.
  - etransitivity; [by apply (frames_set _ (BufferCauses bh)) | apply frames_bios].
Qed.

Lemma free_buffer_spec bh M u :
  balanced M u -> has (BufferCauses bh) M -> gspec (free_buffer_head bh) M u (good M).
Proof.
  intros Hb [o Ho]. unfold free_buffer_head. eapply gspec_bind; [by eapply put_cell_spec |]. cbv beta.
  intros _ ? u1 [-> Hu]. apply gspec_then, gspec_change, good_intro.
  - intros p. rewrite (holders_drop _ _ None) by apply lookup_insert_eq.
    rewrite (holders_set _ _ _ _ _ Ho), Hu, one_none. lia.
  - by apply mem_ok_drop, mem_ok_set, Hb.
  - etransitivity; [by apply (frames_set _ (BufferCauses bh)) | by apply frames_drop].
Qed.

(** A field that begins as NULL. *)
Lemma null_cell_spec l M u :
  balanced M u -> cells M !! l = None -> good M tt (M <| cells ::= <[l := None]> |>) u.
Proof.
  intros Hb Hl. apply good_intro; [|by apply mem_ok_set, Hb | by apply frames_new].
  intros p. rewrite (holders_new _ _ _ _ Hl), one_none, (ba_refs _ _ Hb). lia.
Qed.

Lemma alloc_buffer_spec bh M u :
  balanced M u -> cells M !! BufferCauses bh = None -> gspec (alloc_buffer_head bh) M u (good M).
Proof.
  intros Hb Hl. unfold alloc_buffer_head. apply gspec_then. eapply gspec_cell; [apply lookup_insert_eq |].
  apply gspec_ret. by apply null_cell_spec.
Qed.

(** ** The journal *)

Lemma add_type_spec ln1 ln2 l type cur id M u :
  balanced M u -> has l M -> has (TaskCauses cur) M -> page_of M l ->
  gspec (add_current ln1 l cur id;; set_type ln2 l type) M u (good M).
Proof.
  intros Hb [o Ho] [t Ht] Hp. eapply gspec_bind; [by eapply add_current_spec |]. cbv beta.
  intros _ ? u1 (o' & -> & Hb1). eapply gspec_conseq; [eapply set_type_spec; [done | apply lookup_insert_eq] |].
  intros [] ? ? [-> ->]. split; [done |]. by apply frames_set.
Qed.

Lemma dirty_metadata_spec t jh cur id M u :
  balanced M u -> has (TransactionCauses t) M -> has (JournalHeadCauses jh) M -> has (TaskCauses cur) M ->
  gspec (jbd2_journal_dirty_metadata t jh cur id) M u (good M).
Proof.
  intros Hb [ot Ht] [oj Hj] [c Hc]. unfold jbd2_journal_dirty_metadata.
  eapply gspec_bind; [by eapply add_current_spec |]. cbv beta. intros _ ? u1 (o1 & -> & Hb1).
  eapply gspec_bind; [eapply add_current_spec; [done | |] |]; [simpl; by rewrite lookup_insert_ne.. |].
  cbv beta. intros _ ? u2 (o2 & -> & Hb2). apply gspec_ret. split; [done |].
  etransitivity; by apply frames_set.
Qed.

(** A second pointer to the list that [from] points to. *)
Lemma get_cell_spec {B} line from (f : option ptr -> ST (glue S) B) M u o Q :
  balanced M u -> room u -> cells M !! from = Some o ->
  (forall u', (forall p, u' p = holders M p + one o p) -> gspec (f o) M u' Q) ->
  gspec (let! causes := cell line from in let! q := in_host (in_kernel (get_cause_list causes)) in f q) M u Q.
Proof.
  intros Hb Hr Hl Hf. eapply gspec_cell; [done |]. eapply gspec_host_bind.
  { apply hspec_kernel, get_spec. intros p E. split; [by eapply balanced_held | apply Hr]. }
  cbv beta. intros q u1 [-> Hu]. apply Hf. intros p. by rewrite Hu, (ba_refs _ _ Hb).
Qed.

Lemma share_spec line from to M u :
  balanced M u -> room u -> has from M -> has to M -> page_of M to -> gspec (share line from to) M u (good M).
Proof.
  intros Hb Hr [o Ho] [old Hold] Hp. unfold share. eapply get_cell_spec; [done.. |]. intros u1 Hu.
  eapply gspec_cell; [done |]. apply gspec_then, gspec_change, good_intro.
  - intros p. rewrite holders_lose, (holders_set _ _ _ _ _ Hold), Hu. lia.
  - by apply mem_ok_lose, mem_ok_set, Hb.
  - etransitivity; [by apply frames_set | apply frames_lose].
Qed.

Lemma commit_begin_spec cur t M u :
  balanced M u -> room u -> has (TransactionCauses t) M -> cells M !! CommitCauses cur = None ->
  gspec (commit_begin cur t) M u (good M).
Proof.
  intros Hb Hr [o Ho] Hc. unfold commit_begin. eapply get_cell_spec; [done.. |]. intros u1 Hu. apply gspec_then.
  assert (Hb1 : balanced (M <| cells ::= <[CommitCauses cur := o]> |>) u1).
  { split; [|by apply mem_ok_set, Hb]. intros p. by rewrite Hu, (holders_new _ _ _ _ Hc). }
  eapply gspec_conseq; [eapply set_type_spec; [done | apply lookup_insert_eq] |].
  intros [] ? ? [-> ->]. split; [done |]. by apply frames_new.
Qed.

Lemma flush_descriptor_spec cause_list bh M u :
  balanced M u -> room u -> has (BufferCauses bh) M -> (forall l, cause_list = Some l -> has l M) ->
  gspec (flush_descriptor cause_list bh) M u (good M).
Proof.
  intros Hb Hr [old Ho] Hc. destruct cause_list as [l|]; [apply share_spec; auto; by eexists |]. cbn [flush_descriptor].
  eapply gspec_cell; [done |]. apply gspec_then, gspec_change, good_intro.
  - intros p. rewrite holders_lose, (holders_set _ _ _ _ _ Ho), one_none, (ba_refs _ _ Hb). lia.
  - by apply mem_ok_lose, mem_ok_set, Hb.
  - etransitivity; [by apply (frames_set _ (BufferCauses bh)) | apply frames_lose].
Qed.

(** ** Write-back of ext4 *)

Lemma proxy_begin_spec cur M u :
  balanced M u -> cells M !! TaskCauses cur = Some None -> gspec (proxy_begin cur) M u (good M).
Proof.
  intros Hb Hc. unfold proxy_begin. eapply gspec_cell; [done |].
  apply (renew_cell_spec _ _ _ None); [|apply Hb | by rewrite Hc | by left].
  intros p. rewrite one_none, (ba_refs _ _ Hb). lia.
Qed.

Lemma add_bh_to_extent_spec cur bh M u :
  balanced M u -> has (TaskCauses cur) M -> has (BufferCauses bh) M -> gspec (mpage_add_bh_to_extent cur bh) M u (good M).
Proof.
  intros Hb [c Hc] [o Ho]. unfold mpage_add_bh_to_extent. eapply gspec_cell; [done |].
  destruct c as [x|]; [|apply gspec_ret; split; [done | reflexivity]]. eapply gspec_cell; [done |].
  eapply gspec_host_bind; [apply hspec_kernel, copy_spec; by eapply balanced_held |].
  intros r u1 [_ Hu]. apply gspec_change, good_intro; [|by apply mem_ok_set, Hb | by apply frames_set].
  intros p. rewrite Hu, (holders_set _ _ _ _ _ Hc), (ba_refs _ _ Hb). lia.
Qed.

Lemma map_extent_spec cur M u :
  balanced M u -> has (TaskCauses cur) M -> gspec (mpage_map_and_submit_extent cur) M u (good M).
Proof.
  intros Hb [c Hc]. unfold mpage_map_and_submit_extent. eapply gspec_bind; [by eapply put_cell_spec |]. cbv beta.
  intros _ ? u1 [-> Hu]. apply (renew_cell_spec _ _ _ c); [done | apply Hb | by rewrite Hc | by left].
Qed.

Lemma proxy_end_spec cur M u :
  balanced M u -> has (TaskCauses cur) M -> gspec (proxy_end cur) M u (good M).
Proof.
  intros Hb [c Hc]. unfold proxy_end. eapply gspec_bind; [by eapply put_cell_spec |]. cbv beta.
  intros _ ? u1 [-> Hu]. apply gspec_change, good_intro; [|by apply mem_ok_set, Hb | by apply frames_set].
  intros p. rewrite Hu, (holders_set _ _ _ _ _ Hc), one_none. lia.
Qed.

(** ** Bios *)

Lemma bio_alloc_spec bi M u : balanced M u -> bios M !! bi = None -> gspec (bio_alloc bi) M u (good M).
Proof.
  intros Hb Hn. apply gspec_change, good_intro; [|by apply mem_ok_bio, Hb | apply frames_bios].
  intros p. rewrite (holders_bio_new _ _ _ _ Hn), (ba_refs _ _ Hb). simpl. lia.
Qed.

Lemma bio_free_spec bi M u v : balanced M u -> bios M !! bi = Some v -> gspec (bio_free bi) M u (good M).
Proof.
  intros Hb Hv. unfold bio_free. eapply gspec_bio; [done |]. eapply gspec_host_bind.
  { apply del_cll_spec. intros p. rewrite (ba_refs _ _ Hb). by eapply bio_held. }
  cbv beta. intros _ u1 Hu. apply gspec_change, good_intro; [|apply mem_ok_bio_drop, Hb | apply frames_bios].
  intros p. by rewrite Hu, (holders_bio_drop _ _ _ _ Hv), (ba_refs _ _ Hb).
Qed.

Lemma zeroout_spec max_sectors bi szs M u :
  balanced M u -> max_sectors < 0x10000000 -> is_Some (bios M !! bi) ->
  gspec (issue_zeroout max_sectors bi szs) M u (good M).
Proof.
  intros Hb Hms. unfold issue_zeroout. revert M u Hb. induction szs as [|sz szs IH]; intros M u Hb [v Hv]; cbn [for_each].
  { apply gspec_ret. split; [done | reflexivity]. }
  apply (gspec_bind _ _ _ _ (fun _ M' u' => good M tt M' u' /\ is_Some (bios M' !! bi))).
  - eapply gspec_bio; [done |]. eapply gspec_host_bind.
    { apply zero_spec; [done | by eapply (mo_cll _ (ba_mem _ _ Hb)) |].
      intros p. unfold balance. rewrite (ba_refs _ _ Hb). pose proof (bio_held _ _ _ p Hv). lia. }
    cbv beta. intros v' u1 [Hok Hu]. apply gspec_change. split; [|simpl; rewrite lookup_insert_eq; by eexists].
    apply good_intro; [|by apply mem_ok_bio, Hb | apply frames_bios].
    intros p. rewrite (holders_bio _ _ _ _ _ Hv). specialize (Hu p). unfold balance in Hu. rewrite (ba_refs _ _ Hb) in Hu. lia.
  - intros _ M1 u1 [[Hb1 Hf1] Hv1]. eapply gspec_conseq; [by apply IH |]. intros [] M2 u2 [Hb2 Hf2].
    split; [done |]. by etransitivity.
Qed.

(** ** Btrfs *)

Lemma page_init_spec pg M u : balanced M u -> gspec (page_init pg) M u (good M).
Proof.
  intros Hb. apply gspec_change, good_intro.
  - intros p. rewrite (ba_refs _ _ Hb). done.
  - destruct (ba_mem _ _ Hb) as [H1 H2]. split; simpl; [done |]. intros pg' l. rewrite lookup_insert.
    case_decide; [done | eauto].
  - split; [by exists [] |]. intros l o Hl Ho. split; [done |]. intros pg'. simpl. rewrite lookup_insert.
    case_decide; [done | apply Ho].
Qed.

Lemma not_orphan M pg l : pages M !! pg = Some (Some l) -> ~ orphan M l.
Proof. intros Hp Ho. by apply (Ho pg). Qed.

(** The cell of a page gets a list if it has none. *)
Lemma fill_spec l pg M u o :
  balanced M u -> pages M !! pg = Some (Some l) -> cells M !! LockedCauses l = Some o ->
  gspec (match o with None => renew (LockedCauses l) | Some _ => ret tt end) M u
    (fun _ M' u' => exists o', M' = M <| cells ::= <[LockedCauses l := o']> |> /\ balanced M' u').
Proof.
  intros Hb Hp Ho. destruct o as [x|].
  - apply gspec_ret. exists (Some x). split; [|done]. destruct M as [cs ps bs ls]. simpl in *. f_equal.
    symmetry. by apply insert_id.
  - unfold renew. eapply gspec_host_bind; [apply hspec_kernel, new_spec |]. cbv beta. intros o u1 Hu.
    apply gspec_change. exists o. split; [done |]. split; [|by apply mem_ok_set, Hb].
    intros p. rewrite Hu, (holders_set _ _ _ _ _ Ho), one_none, (ba_refs _ _ Hb). lia.
Qed.

(** The next [kmalloc] succeeds. *)
Definition memory_left (h : S) : bool := w_alloc (k_world (ker h)) (w_nalloc (k_world (ker h))).

Lemma host_kmalloc h M :
  in_host (in_kernel (in_world kmalloc)) (Glue h M) =
  Ok (memory_left h, Glue (set_ker ((ker h) <| k_world ::= alloc_step |>) h) M).
Proof. done. Qed.

(** A page that has a [struct cause_list_locked] needs no memory for one, *)
Lemma prepare_old_page_spec fresh pg l M u :
  balanced M u -> pages M !! pg = Some (Some l) -> gspec (prepare_page fresh pg) M u (good M).
Proof.
  intros Hb Hp. unfold prepare_page. eapply gspec_page; [done |].
  destruct (mo_pages _ (ba_mem _ _ Hb) _ _ Hp) as [c Hc]. eapply gspec_cell; [done |].
  eapply gspec_conseq; [by eapply fill_spec |]. cbv beta. intros [] ? u1 (o' & -> & Hb1). split; [done |].
  apply frames_set. by eapply not_orphan.
Qed.

(** one that has none gets one, *)
Lemma give_page_spec fresh pg M u :
  balanced M u -> pages M !! pg = Some None -> cells M !! LockedCauses fresh = None ->
  gspec (change (fun m => m <| pages ::= <[pg := Some fresh]> |>);; renew (LockedCauses fresh)) M u (good M).
Proof.
  intros Hb Hp Hf. apply gspec_then. unfold renew.
  eapply gspec_host_bind; [apply hspec_kernel, new_spec |]. cbv beta. intros o u1 Hu. apply gspec_change.
  destruct (ba_mem _ _ Hb) as [H1 H2]. apply good_intro.
  - intros p. rewrite holders_new by done. rewrite Hu, (ba_refs _ _ Hb). done.
  - split; simpl; [done |]. intros pg' l. rewrite !lookup_insert.
    destruct (decide (pg = pg')); [intros [= <-]; by rewrite decide_True |]. intros Hl. case_decide; [done | eauto].
  - split; [by exists [] |]. intros l c Hl Ho. simpl.
    assert (Hne : l <> fresh) by (intros ->; congruence). split; [rewrite lookup_insert_ne by congruence; done |].
    intros pg'. simpl. rewrite lookup_insert. case_decide; [congruence | apply Ho].
Qed.

(** and so each page is prepared, as long as there is memory. *)
Lemma prepare_page_run fresh pg M u h :
  balanced M u -> is_Some (pages M !! pg) -> cells M !! LockedCauses fresh = None ->
  host_inv h -> owned (ker h) u -> (pages M !! pg = Some None -> memory_left h = true) ->
  exists a h' M' u', prepare_page fresh pg (Glue h M) = Ok (a, Glue h' M') /\
    host_inv h' /\ owned (ker h') u' /\ good M a M' u'.
Proof.
  intros Hb [[l|] Hp] Hf Hh Ho He; [by apply (prepare_old_page_spec fresh pg l M u) |].
  unfold prepare_page. rewrite (bind_ok _ _ _ None (Glue h M)) by (unfold get_page, in_mem; simpl; by rewrite Hp).
  erewrite bind_ok by apply host_kmalloc. rewrite (He Hp). unfold bind at 1, lift. simpl.
  destruct (hspec_kernel _ _ _ (kspec_kmalloc u) h Hh Ho) as (a & h1 & u1 & E & Hh1 & Ho1 & ->).
  unfold in_kernel, zoom, in_world in E. injection E as _ <-. by apply (give_page_spec fresh pg M u).
Qed.

Lemma prepare_page_short fresh pg h M :
  pages M !! pg = Some None -> memory_left h = false -> prepare_page fresh pg (Glue h M) = Fault (BUG 100).
Proof.
  intros Hp He. unfold prepare_page. rewrite (bind_ok _ _ _ None (Glue h M)) by (unfold get_page, in_mem; simpl; by rewrite Hp).
  erewrite bind_ok by apply host_kmalloc. by rewrite He.
Qed.

Lemma add_to_causes_spec pg cur id inode pos M u :
  balanced M u -> is_Some (pages M !! pg) -> has (TaskCauses cur) M ->
  gspec (add_to_causes pg cur id inode pos) M u (good M).
Proof.
  intros Hb [o Hp] [t Ht]. unfold add_to_causes. eapply gspec_page; [done |].
  destruct o as [l|]; [|apply gspec_ret; split; [done | reflexivity]].
  destruct (mo_pages _ (ba_mem _ _ Hb) _ _ Hp) as [c Hc]. eapply gspec_cell; [done |].
  eapply gspec_bind; [by eapply fill_spec |]. cbv beta. intros _ ? u1 (o' & -> & Hb1).
  eapply gspec_conseq; [eapply dirty_spec; [done | apply lookup_insert_eq | | done | by eapply not_orphan] |].
  - simpl. by rewrite lookup_insert_ne.
  - cbv beta. intros [] ? u2 (o2 & -> & Hb2 & Hf). split; [done |]. etransitivity; [|exact Hf].
    apply frames_set. by eapply not_orphan.
Qed.

(** Nothing happened, or the page has no causes any more. *)
Lemma copy_to_bio_spec max_sectors pg bi page_size M u v :
  balanced M u -> room u -> max_sectors < 0x10000000 -> is_Some (pages M !! pg) -> bios M !! bi = Some v ->
  gspec (copy_causes_page_to_bio max_sectors pg bi page_size) M u (fun _ M' u' => good M tt M' u' /\ pages M' = pages M /\
    (forall b, is_Some (bios M' !! b) -> is_Some (bios M !! b)) /\
    (u' = u \/ exists l, pages M !! pg = Some (Some l) /\ cells M' !! LockedCauses l = Some None) /\
    (forall l p x, pages M !! pg = Some (Some l) -> cells M !! LockedCauses l = Some (Some p) -> bi_cll v = Some x ->
      cells M' !! LockedCauses l = Some None /\ exists v' x', bios M' !! bi = Some v' /\ bi_cll v' = Some x' /\ extends x (Some p) x')).
Proof.
  intros Hb Hr Hms [o Hp] Hv. unfold copy_causes_page_to_bio. eapply gspec_page; [done |].
  assert (Hskip : forall Q : Prop, Q -> good M tt M u /\ pages M = pages M /\
    (forall b, is_Some (bios M !! b) -> is_Some (bios M !! b)) /\
    (u = u \/ exists l, pages M !! pg = Some (Some l) /\ cells M !! LockedCauses l = Some None) /\ Q).
  { intros Q HQ. split; [by split |]. auto. }
  destruct o as [l|]; [|apply gspec_ret, Hskip; congruence].
  destruct (mo_pages _ (ba_mem _ _ Hb) _ _ Hp) as [c Hc]. eapply gspec_cell; [done |].
  destruct c as [p0|]; [|apply gspec_ret, Hskip; congruence]. eapply gspec_bio; [done |].
  assert (Hcb : forall p, one (Some p0) p + cll_refs (bi_cll v) p <= u p).
  { intros p. rewrite (ba_refs _ _ Hb). by eapply cell_bio_held. }
  assert (H0 : 0 < u p0).
  { specialize (Hcb p0). rewrite one_eq in Hcb. pose proof (cll_refs_nonneg (bi_cll v) p0). lia. }
  apply (gspec_bind _ _ _ _ (fun o M' u' => M' = M /\ cll_ok o /\
    (forall p, u' p - cll_refs o p = u p - cll_refs (bi_cll v) p /\ (0 < u p -> u' p = u p)) /\ (bi_cll v <> None -> o = bi_cll v))).
  { pose proof (mo_cll _ (ba_mem _ _ Hb) _ _ Hv) as Hok. destruct (bi_cll v) as [x|]; [by apply gspec_ret |].
    eapply gspec_host; [apply (need_cll_spec _ None); [apply shiftr_small; lia | done] |].
    cbv beta. intros o u' [H1 H2]. by split_and!. }
  cbv beta. intros o1 ? u1 (-> & Ho1 & Hu1 & Hsame). destruct (Hu1 p0) as [_ Hk0]. specialize (Hk0 H0).
  eapply gspec_host_bind; [apply hspec_kernel, kspec_read; lia |]. intros c ? ->.
  eapply gspec_host_bind; [apply hspec_kernel; by apply kspec_write |]. intros _ ? ->.
  assert (Hb1 : forall p, one (Some p0) p <= balance u1 o1 p).
  { intros p. unfold balance. rewrite (proj1 (Hu1 p)). specialize (Hcb p). lia. }
  eapply gspec_host_bind.
  { apply hspec_kernel, cll_add_opt_spec; [done | |].
    - intros p. specialize (Hb1 p). pose proof (one_range (Some p0) p). lia.
    - intros p [= <-]. rewrite Hk0. split; [done | apply Hr]. }
  cbv beta. intros o2 u2 (Ho2 & Hu2 & Hx2). eapply gspec_host_bind.
  { apply put_spec. intros p [= <-]. specialize (Hb1 p0). rewrite <- Hu2, one_eq in Hb1. unfold balance in Hb1.
    pose proof (cll_refs_nonneg o2 p0). lia. }
  cbv beta. intros _ u3 Hu3. apply gspec_then, gspec_change. split; [apply good_intro |].
  - intros p. rewrite (holders_set _ _ (Some p0)) by done. rewrite (holders_bio _ _ _ _ _ Hv), Hu3, one_none.
    simpl. specialize (Hu2 p). unfold balance in Hu2. destruct (Hu1 p) as [E1 _]. rewrite (ba_refs _ _ Hb) in E1. lia.
  - by apply mem_ok_set, mem_ok_bio, Hb.
  - etransitivity; [apply frames_bios |]. apply frames_set. by eapply not_orphan.
  - split; [done |]. split; [|split; [right; exists l; split; [done |]; simpl; apply lookup_insert_eq |]].
    + intros b. simpl. rewrite lookup_insert. case_decide; [subst; by eexists | done].
    + intros l' p x Hl' Hp' Hx. rewrite Hp in Hl'. injection Hl' as <-. rewrite Hc in Hp'. injection Hp' as <-.
      simpl. rewrite !lookup_insert_eq. split; [done |]. destruct (Hx2 x) as (x' & -> & He); [|by eexists _, x'].
      rewrite <- Hx. apply Hsame. by rewrite Hx.
Qed.

(** A page whose causes have gone has nothing to give. *)
Lemma copy_none_spec max_sectors pg bi page_size l M u :
  balanced M u -> pages M !! pg = Some (Some l) -> cells M !! LockedCauses l = Some None ->
  gspec (copy_causes_page_to_bio max_sectors pg bi page_size) M u (fun _ M' u' => M' = M /\ u' = u).
Proof.
  intros Hb Hp Hl. unfold copy_causes_page_to_bio. eapply gspec_page; [done |]. eapply gspec_cell; [done |]. by apply gspec_ret.
Qed.

Lemma submit_extent_page_spec max_sectors joins old new pg page_size M u :
  balanced M u -> room u -> max_sectors < 0x10000000 -> is_Some (pages M !! pg) ->
  (forall bi, old = Some bi -> is_Some (bios M !! bi)) -> (forall bi, new = Some bi -> bios M !! bi = None) ->
  gspec (submit_extent_page max_sectors joins old new pg page_size) M u (fun _ M' u' => good M tt M' u').
Proof.
  intros Hb Hr Hms Hp Hold Hnew. unfold submit_extent_page.
  apply (gspec_bind _ _ _ _ (fun _ M' u' => good M tt M' u' /\ pages M' = pages M /\
    (forall bi, new = Some bi -> bios M' !! bi = None) /\
    (u' = u \/ exists l, pages M !! pg = Some (Some l) /\ cells M' !! LockedCauses l = Some None))).
  { destruct old as [bi|]; [|apply gspec_ret; split_and!; auto; by split].
    destruct (Hold bi eq_refl) as [v Hv]. eapply gspec_bind.
    - apply (copy_to_bio_spec max_sectors pg bi page_size M u v Hb Hr Hms Hp Hv).
    - cbv beta. intros _ M1 u1 (Hg & Epg & Hbi & Hc & _). apply gspec_ret. split_and!; auto.
      intros b Eb. specialize (Hnew b Eb). destruct (bios M1 !! b) eqn:E; [|done].
      assert (is_Some (bios M !! b)) as [? ?] by (apply Hbi; by eexists). congruence. }
  intros fin M1 u1 ([Hb1 Hf1] & Epg & Hn1 & Hc). destruct fin; [by apply gspec_ret |].
  destruct new as [bi|]; [|by apply gspec_ret]. specialize (Hn1 bi eq_refl).
  assert (Hb2 : good M1 tt (M1 <| bios ::= <[bi := Bio 0 0 None]> |>) u1).
  { apply good_intro; [|by apply mem_ok_bio, Hb1 | apply frames_bios].
    intros p. rewrite (holders_bio_new _ _ _ _ Hn1), (ba_refs _ _ Hb1). simpl. lia. }
  unfold bio_alloc, set_bio. apply gspec_then. destruct Hb2 as [Hb2 Hf2].
  assert (Hf12 : frames M (M1 <| bios ::= <[bi := Bio 0 0 None]> |>)) by (by etransitivity).
  destruct Hc as [->|(l & Hl & Hcl)].
  - eapply gspec_bind.
    + eapply copy_to_bio_spec; [exact Hb2 | done | done | by rewrite <- Epg in Hp | apply lookup_insert_eq].
    + cbv beta. intros _ M3 u3 ([Hb3 Hf3] & _). apply gspec_ret. split; [done |]. by etransitivity.
  - eapply gspec_bind; [eapply copy_none_spec; [exact Hb2 | simpl; by rewrite Epg | done] |].
    intros _ ? ? [-> ->]. apply gspec_ret. by split.
Qed.

(** The page does not join the bio that is being filled, but its causes do. *)
Lemma astray_spec max_sectors old new pg page_size M u l p v x :
  balanced M u -> room u -> max_sectors < 0x10000000 -> bios M !! new = None ->
  pages M !! pg = Some (Some l) -> cells M !! LockedCauses l = Some (Some p) ->
  bios M !! old = Some v -> bi_cll v = Some x ->
  gspec (submit_extent_page max_sectors false (Some old) (Some new) pg page_size) M u (fun r M' u' =>
    r = Some new /\ bios M' !! new = Some (Bio 0 0 None) /\
    exists v' x', bios M' !! old = Some v' /\ bi_cll v' = Some x' /\ extends x (Some p) x').
Proof.
  intros Hb Hr Hms Hnew Hp Hl Hv Hx. unfold submit_extent_page.
  apply (gspec_bind _ _ _ _ (fun fin M' u' => fin = false /\ balanced M' u' /\ pages M' = pages M /\
    bios M' !! new = None /\ cells M' !! LockedCauses l = Some None /\
    exists v' x', bios M' !! old = Some v' /\ bi_cll v' = Some x' /\ extends x (Some p) x')).
  - eapply gspec_bind; [by eapply copy_to_bio_spec; eauto |]. cbv beta.
    intros _ M1 u1 ([Hb1 _] & Epg & Hbi & _ & Hgo). destruct (Hgo l p x Hp Hl Hx) as [Hc1 Ho1].
    apply gspec_ret. split_and!; auto. destruct (bios M1 !! new) eqn:E; [|done].
    destruct (Hbi new ltac:(by eexists)) as [? ?]. congruence.
  - intros ? M1 u1 (-> & Hb1 & Epg & Hn1 & Hc1 & v' & x' & Hv' & Hx' & He). unfold bio_alloc, set_bio. apply gspec_then.
    eapply gspec_bind; [eapply copy_none_spec; [| simpl; by rewrite Epg | done] |].
    + split; [|by apply mem_ok_bio, Hb1]. intros q. rewrite (holders_bio_new _ _ _ _ Hn1), (ba_refs _ _ Hb1). simpl. lia.
    + intros _ ? ? [-> ->]. apply gspec_ret. simpl. rewrite lookup_insert_eq. split_and!; auto.
      exists v', x'. rewrite lookup_insert_ne by congruence. auto.
Qed.

End Ops.
