(* ===== verification/BuffersRuns.v ===== *)
(** * Cause lists in the kernel: runs

    Any sequence of the operations of Buffers.v, with the scheduler at work in between.
    No cause list is used after it was freed, none is freed while there is a pointer to it, and
    none stays behind that nothing points to. *)

From S2P Require Import Prelude CInt Kernel CauseTags CauseRefs Buffers BuffersInv BuffersOps.

Inductive op :=
  | Fork (parent child : ptr)
  | Exit (task : ptr)
  | AllocBuffer (bh : ptr)
  | FreeBuffer (bh : ptr)
  | CommitWrite (bhs : list ptr) (b_size : Z) (cur : ptr) (id : Z) (inode : ptr) (pos : Z)
  | BlockCommitWrite (bhs : list ptr) (b_size : Z) (cur : ptr) (id : Z) (inode : ptr)
  | SubmitBh (write : bool) (max_sectors : Z) (bh : ptr) (b_size : Z) (bi : ptr)
  | IoSubmitAddBh (max_sectors : Z) (bh : ptr) (b_size : Z) (bi : ptr)
  | GetCreateAccess (bh cur : ptr) (id : Z)
  | GetTransaction (t : ptr)
  | FreeTransaction (t : ptr)
  | DirtyMetadata (t jh cur : ptr) (id : Z)
  | AddJournalHead (jh : ptr)
  | FreeJournalHead (jh : ptr)
  | CommitBegin (cur t : ptr)
  | CommitRecord (cur bh : ptr)
  | FlushDescriptor (committer : option ptr) (bh : ptr)
  | CommitEnd (cur : ptr)
  | ProxyBegin (cur : ptr)
  | AddBhToExtent (cur bh : ptr)
  | MapExtent (cur : ptr)
  | ProxyEnd (cur : ptr)
  | BioAlloc (bi : ptr)
  | BioFree (bi : ptr)
  | Zeroout (max_sectors : Z) (bi : ptr) (szs : list Z)
  | PageInit (pg : ptr)
  | PreparePage (fresh pg : ptr)
  | AddToCauses (pg cur : ptr) (id : Z) (inode : ptr) (pos : Z)
  | SubmitExtentPage (max_sectors : Z) (joins : bool) (old new : option ptr) (pg : ptr) (page_size : Z).

Section Runs.
Context {S : Type} {H : Host S} {FH : FsHost S} {HO : HostOk S} {FO : FsHostOk S}.

Definition run_op (o : op) : ST (glue S) unit :=
  match o with
  | Fork parent child => set_cell (TaskCauses child) None
  | Exit task => drop_cell (TaskCauses task)
  | AllocBuffer bh => alloc_buffer_head bh
  | FreeBuffer bh => free_buffer_head bh
  | CommitWrite bhs b_size cur id inode pos => __block_commit_write bhs b_size cur id inode pos
  | BlockCommitWrite bhs b_size cur id inode => block_commit_write bhs b_size cur id inode
  | SubmitBh write ms bh b_size bi => submit_bh write ms bh b_size bi
  | IoSubmitAddBh ms bh b_size bi => io_submit_add_bh ms bh b_size bi
  | GetCreateAccess bh cur id => __ext4_journal_get_create_access bh cur id
  | GetTransaction t => jbd2_get_transaction t
  | FreeTransaction t => jbd2_journal_free_transaction t
  | DirtyMetadata t jh cur id => jbd2_journal_dirty_metadata t jh cur id
  | AddJournalHead jh => journal_add_journal_head jh
  | FreeJournalHead jh => journal_free_journal_head jh
  | CommitBegin cur t => commit_begin cur t
  | CommitRecord cur bh => journal_submit_commit_record cur bh
  | FlushDescriptor committer bh => flush_descriptor (CommitCauses <$> committer) bh
  | CommitEnd cur => commit_end cur
  | ProxyBegin cur => proxy_begin cur
  | AddBhToExtent cur bh => mpage_add_bh_to_extent cur bh
  | MapExtent cur => mpage_map_and_submit_extent cur
  | ProxyEnd cur => proxy_end cur
  | BioAlloc bi => bio_alloc bi
  | BioFree bi => bio_free bi
  | Zeroout ms bi szs => issue_zeroout ms bi szs
  | PageInit pg => page_init pg
  | PreparePage fresh pg => prepare_page fresh pg
  | AddToCauses pg cur id inode pos => add_to_causes pg cur id inode pos
  | SubmitExtentPage ms joins old new pg page_size => submit_extent_page ms joins old new pg page_size;; ret tt
  end.

(** What the kernel around the patches promises: an object that is used is there and one that is made is new; a
    task that forks or ends, or begins to write pages back, is not in the middle of it. *)
Definition ready (o : op) (M : memory) : Prop :=
  match o with
  | Fork parent child => cells M !! TaskCauses parent = Some None /\ cells M !! TaskCauses child = None
  | Exit task => cells M !! TaskCauses task = Some None
  | AllocBuffer bh => cells M !! BufferCauses bh = None
  | FreeBuffer bh => has (BufferCauses bh) M
  | CommitWrite bhs _ cur _ _ _ | BlockCommitWrite bhs _ cur _ _ =>
      Forall (fun bh => has (BufferCauses bh) M) bhs /\ has (TaskCauses cur) M
  | SubmitBh _ ms bh _ bi | IoSubmitAddBh ms bh _ bi =>
      ms < 0x10000000 /\ has (BufferCauses bh) M /\ is_Some (bios M !! bi)
  | GetCreateAccess bh cur _ => has (BufferCauses bh) M /\ has (TaskCauses cur) M
  | GetTransaction t => cells M !! TransactionCauses t = None
  | FreeTransaction t => has (TransactionCauses t) M
  | DirtyMetadata t jh cur _ => has (TransactionCauses t) M /\ has (JournalHeadCauses jh) M /\ has (TaskCauses cur) M
  | AddJournalHead jh => cells M !! JournalHeadCauses jh = None
  | FreeJournalHead jh => has (JournalHeadCauses jh) M
  | CommitBegin cur t => has (TransactionCauses t) M /\ cells M !! CommitCauses cur = None
  | CommitRecord cur bh => has (CommitCauses cur) M /\ has (BufferCauses bh) M
  | FlushDescriptor committer bh =>
      match committer with Some cur => has (CommitCauses cur) M | None => True end /\ has (BufferCauses bh) M
  | CommitEnd cur => has (CommitCauses cur) M
  | ProxyBegin cur => cells M !! TaskCauses cur = Some None
  | AddBhToExtent cur bh => has (TaskCauses cur) M /\ has (BufferCauses bh) M
  | MapExtent cur | ProxyEnd cur => has (TaskCauses cur) M
  | BioAlloc bi => bios M !! bi = None
  | BioFree bi => is_Some (bios M !! bi)
  | Zeroout ms bi _ => ms < 0x10000000 /\ is_Some (bios M !! bi)
  | PageInit _ => True
  | PreparePage fresh pg => is_Some (pages M !! pg) /\ cells M !! LockedCauses fresh = None
  | AddToCauses pg cur _ _ _ => is_Some (pages M !! pg) /\ has (TaskCauses cur) M
  | SubmitExtentPage ms _ old new pg _ => ms < 0x10000000 /\ is_Some (pages M !! pg) /\
      match old with Some bi => is_Some (bios M !! bi) | None => True end /\
      match new with Some bi => bios M !! bi = None | None => True end
  end.

#[export] Instance ready_dec o M : Decision (ready o M).
Proof.
  destruct o as [| | | | | | | | | | | | | | | |[?|] ?| | | | | | | | | | | |? ? [?|] [?|] ? ?]; simpl; unfold has; apply _.
Defined.

(** No count is about to overflow. *)
Definition roomy (g : glue S) : Prop := forall p, holders (g_mem g) p < REF_MAX.

(** The memory that an operation cannot do without: that of the [struct cause_list_locked] of a page.  All else that is
    allocated may fail. *)
Definition enough (o : op) (g : glue S) : Prop :=
  match o with PreparePage _ pg => pages (g_mem g) !! pg = Some None -> memory_left (g_host g) = true | _ => True end.

#[export] Instance enough_dec o g : Decision (enough o g).
Proof. destruct o; simpl; apply _. Defined.

Lemma op_short o g : ~ enough o g -> run_op o g = Fault (BUG 100).
Proof.
  intros He. destruct o; try by exfalso; apply He. destruct g as [h M]. simpl in *.
  destruct (decide (pages M !! pg = Some None)) as [Hp|Hp]; [|by exfalso; apply He].
  apply prepare_page_short; [done |]. destruct (memory_left h); [by exfalso; apply He | done].
Qed.

Lemma op_enough o g g' : run_op o g = Ok (tt, g') -> enough o g.
Proof. intros E. destruct (decide (enough o g)) as [|Hn]; [done |]. rewrite (op_short o g Hn) in E. done. Qed.

Definition prepares (o : op) : bool := match o with PreparePage _ _ => true | _ => false end.

Lemma op_spec o M u : prepares o = false -> balanced M u -> room u -> ready o M -> gspec (run_op o) M u (good M).
Proof.
  intros Hn Hb Hr Ho. destruct o; simpl in Ho; simpl; try discriminate Hn.
  - apply gspec_change, null_cell_spec; [done | apply Ho].
  - apply gspec_change, good_intro; [|by apply mem_ok_drop, Hb | by apply frames_drop].
    intros p. rewrite (holders_drop _ _ _ _ Ho), one_none, (ba_refs _ _ Hb). lia.
  - by apply alloc_buffer_spec.
  - by apply free_buffer_spec.
  - destruct Ho as [Hbh ?]. apply commit_write_spec; auto. by apply list.Forall_forall.
  - destruct Ho as [Hbh ?]. apply commit_write_spec; auto. by apply list.Forall_forall.
  - destruct Ho as (? & ? & [v ?]). destruct write; [by eapply move_to_bio_spec | apply gspec_ret; by split].
  - destruct Ho as (? & ? & [v ?]). by eapply move_to_bio_spec.
  - destruct Ho. by apply add_type_spec.
  - apply (renew_cell_spec _ _ _ None); [|apply Hb | by rewrite Ho | by right].
    intros p. rewrite one_none, (ba_refs _ _ Hb). lia.
  - destruct Ho. by eapply put_drop_spec.
  - destruct Ho as (? & ? & ?). by apply dirty_metadata_spec.
  - by apply gspec_change, null_cell_spec.
  - destruct Ho. by eapply put_drop_spec.
  - destruct Ho. by apply commit_begin_spec.
  - destruct Ho. by apply share_spec.
  - destruct Ho as [Hc ?]. apply flush_descriptor_spec; auto. intros l. destruct committer; by intros [= <-].
  - destruct Ho. by eapply put_drop_spec.
  - by apply proxy_begin_spec.
  - destruct Ho. by apply add_bh_to_extent_spec.
  - by apply map_extent_spec.
  - by apply proxy_end_spec.
  - by apply bio_alloc_spec.
  - destruct Ho. by eapply bio_free_spec.
  - destruct Ho. by apply zeroout_spec.
  - by apply page_init_spec.
  - destruct Ho. by apply add_to_causes_spec.
  - destruct Ho as (? & ? & ? & ?). eapply gspec_bind.
    { apply submit_extent_page_spec; auto; by intros bi ->. }
    intros a M' u' HG. by apply gspec_ret.
Qed.

(** ** Runs *)

Inductive gstep : glue S -> glue S -> Prop :=
  | step_op o g g' : ready o (g_mem g) -> roomy g -> run_op o g = Ok (tt, g') -> gstep g g'
  | step_sched g h' :                       (* another entry point of the scheduler *)
      host_inv h' -> same_refs (ker (g_host g)) (ker h') -> gstep g (Glue h' (g_mem g)).

(** At first there is the task that all others are forked from, and no cause list. *)
Definition boot_memory (init : ptr) : memory := Memory {[ TaskCauses init := None ]} ∅ ∅ [].

Inductive greach : glue S -> Prop :=
  | gr_boot h init : host_inv h -> k_causes (ker h) = ∅ -> greach (Glue h (boot_memory init))
  | gr_step g g' : greach g -> gstep g g' -> greach g'.

Definition ginv (g : glue S) : Prop :=
  host_inv (g_host g) /\ owned (ker (g_host g)) (holders (g_mem g)) /\ mem_ok (g_mem g).

Lemma ginv_balanced g : ginv g -> balanced (g_mem g) (holders (g_mem g)).
Proof. by intros (_ & _ & Hm). Qed.

Lemma op_run o g :
  ginv g -> ready o (g_mem g) -> roomy g -> enough o g ->
  exists g', run_op o g = Ok (tt, g') /\ ginv g' /\ frames (g_mem g) (g_mem g').
Proof.
  intros Hg Hr Hm He. pose proof Hg as (Hh & Ho & Hok). destruct g as [h M]. simpl in *.
  assert (Hrun : exists a h' M' u', run_op o (Glue h M) = Ok (a, Glue h' M') /\ host_inv h' /\ owned (ker h') u' /\ good M a M' u').
  { destruct (prepares o) eqn:Ep; [|by apply (op_spec o M (holders M) Ep (ginv_balanced _ Hg) Hm Hr)].
    destruct o; try discriminate Ep. destruct Hr. by apply (prepare_page_run fresh pg M (holders M) h (ginv_balanced _ Hg)). }
  destruct Hrun as ([] & h' & M' & u' & E & Hh' & Ho' & [Hb Hok'] & Hf).
  exists (Glue h' M'). split; [done |]. split; [|done]. split_and!; auto. simpl.
  eapply owned_ext; [exact Ho' | done | done |]. intros p. by rewrite Hb.
Qed.

Lemma step_inv g g' : ginv g -> gstep g g' -> ginv g' /\ frames (g_mem g) (g_mem g').
Proof.
  intros Hg Hs. destruct Hs as [o g g' Hr Hm E|g h' Hh' Hk].
  - destruct (op_run o g Hg Hr Hm (op_enough _ _ _ E)) as (g1 & E1 & Hg1 & Hf1). rewrite E in E1. by injection E1 as <-.
  - destruct Hg as (Hh & Ho & Hok). split; [|reflexivity]. split_and!; auto. by eapply owned_same.
Qed.

Lemma boot_holders init p : holders (boot_memory init) p = 0.
Proof.
  unfold holders, boot_memory, cell_refs, bio_refs, refs_in. simpl.
  rewrite msum_empty, <- insert_empty, msum_insert, msum_empty, one_none by done. lia.
Qed.

Lemma greach_inv g : greach g -> ginv g.
Proof.
  induction 1 as [h init Hh Hk|g g' _ IH Hs]; [|by destruct (step_inv _ _ IH Hs)].
  split_and!; [done | | done]. simpl. split; intros p; rewrite Hk, lookup_empty; [apply boot_holders | by intros []].
Qed.

(** C9: no dangling cause list: in every run of the kernel with the patches, an operation of the
    buffer layer, the journal, the two file systems or the block layer on cause lists, on objects that are there, on a disk
    whose requests have less than 2^28 sectors, and with no count at the greatest int, runs to its end and the run can go
    on, whichever allocations fail: it does not read or free a list that has been freed, and no BUG_ON fires;
    with one exception: btrfs's [prepare_pages] on a page that needs a
    [struct cause_list_locked] for which there is no memory always ends in its BUG_ON. *)
Theorem causes_no_fault o g :
  greach g -> ready o (g_mem g) -> roomy g ->
  if decide (enough o g) then exists g', run_op o g = Ok (tt, g') /\ greach g' else run_op o g = Fault (BUG 100).
Proof.
  intros Hg Hr Hm. destruct (decide (enough o g)) as [He|He]; [|by apply op_short].
  destruct (op_run o g (greach_inv _ Hg) Hr Hm He) as (g' & E & _). exists g'. split; [done |].
  eapply gr_step; [done |]. by eapply step_op.
Qed.

(** C10: every reference is counted and every count is a reference: in every run, the
    count of a cause list is the number of pointers to it in buffers, pages, bios, transactions,
    journal heads, tasks and running commits, and those overwritten in the journal; and
    a list to which there is no pointer has been freed. *)
Theorem causes_counted_exactly g p :
  greach g ->
  match k_causes (ker (g_host g)) !! p with
  | Some c => refcount c = holders (g_mem g) p /\ 0 < holders (g_mem g) p
  | None => holders (g_mem g) p = 0
  end.
Proof.
  intros Hg. destruct (greach_inv _ Hg) as (_ & Ho & _). pose proof (ow_refs _ _ Ho p) as Hp.
  destruct (_ !! p); [|done]. destruct Hp. split; [done | lia].
Qed.

(** *** Pages of btrfs *)

Inductive gsteps : glue S -> glue S -> Prop :=
  | gs_nil g : gsteps g g
  | gs_cons g1 g2 g3 : gstep g1 g2 -> gsteps g2 g3 -> gsteps g1 g3.

Lemma steps_inv g g' : ginv g -> gsteps g g' -> ginv g' /\ frames (g_mem g) (g_mem g').
Proof.
  intros Hg Hs. revert Hg. induction Hs as [g|g1 g2 g3 Hs _ IH]; intros Hg; [by split |].
  destruct (step_inv _ _ Hg Hs) as [Hg2 Hf2]. destruct (IH Hg2) as [Hg3 Hf3]. split; [done |]. by etransitivity.
Qed.

(** C40: causes of a page that is recycled are never freed: when the page cache takes a
    page that still has causes (it was written and then truncated, say) and makes a new
    page of it, [page->locked_causes = NULL] drops the only pointer to them; they and the
    [struct cause_list_locked] are there ever after, whatever happens. *)
Theorem recycled_page_leaks g g1 g2 pg l p :
  greach g -> roomy g -> pages (g_mem g) !! pg = Some (Some l) ->
  (forall pg', pages (g_mem g) !! pg' = Some (Some l) -> pg' = pg) ->
  cells (g_mem g) !! LockedCauses l = Some (Some p) ->
  run_op (PageInit pg) g = Ok (tt, g1) -> gsteps g1 g2 ->
  cells (g_mem g2) !! LockedCauses l = Some (Some p) /\ orphan (g_mem g2) l /\
  is_Some (k_causes (ker (g_host g2)) !! p).
Proof.
  intros Hg Hm Hp Hu Hc E Hs. destruct (op_run (PageInit pg) g (greach_inv _ Hg) I Hm I) as (g1' & E1 & Hg1 & _).
  rewrite E in E1. injection E1 as <-. injection E as <-.
  destruct (steps_inv _ _ Hg1 Hs) as [(_ & Ho2 & _) [_ Hf]].
  destruct (Hf l (Some p)) as [Hc2 Horph]; [done | |].
  - intros pg'. simpl. rewrite lookup_insert. case_decide as Hne; [done |]. intros E. by rewrite (Hu pg' E) in Hne.
  - split_and!; auto. pose proof (ow_refs _ _ Ho2 p) as Hr. pose proof (cell_held _ _ _ p Hc2) as Hh. rewrite one_eq in Hh.
    destruct (_ !! p); [by eexists | lia].
Qed.

(** C39: causes that go astray: when a page of btrfs cannot join the bio that is being filled (it
    is not next to it on the disk, say), [submit_extent_page] has given the causes of the page to that
    bio before it finds out; the bio that is then made for the page has no causes. *)
Theorem extent_causes_go_astray g max_sectors old new pg page_size l p v x :
  greach g -> roomy g -> ready (SubmitExtentPage max_sectors false (Some old) (Some new) pg page_size) (g_mem g) ->
  pages (g_mem g) !! pg = Some (Some l) -> cells (g_mem g) !! LockedCauses l = Some (Some p) ->
  bios (g_mem g) !! old = Some v -> bi_cll v = Some x -> cll_item_count x < cll_item_capacity x ->
  exists g', submit_extent_page max_sectors false (Some old) (Some new) pg page_size g = Ok (Some new, g') /\
    bios (g_mem g') !! new = Some (Bio 0 0 None) /\
    exists v' x', bios (g_mem g') !! old = Some v' /\ bi_cll v' = Some x' /\
      cll_item_count x' = cll_item_count x + 1 /\ cll_items x' !! Z.to_nat (cll_item_count x) = Some (Some p).
Proof.
  intros Hg Hm (Hms & _ & _ & Hn) Hp Hl Hv Hx Hlt. pose proof (greach_inv _ Hg) as Hi.
  pose proof (ginv_balanced _ Hi) as Hb. destruct Hi as (Hh & Ho & _). destruct g as [h M]. simpl in *.
  destruct (astray_spec max_sectors old new pg page_size M (holders M) l p v x Hb Hm Hms Hn Hp Hl Hv Hx h Hh Ho)
    as (r & h' & M' & u' & E & _ & _ & -> & Hnew & v' & x' & Hv' & Hx' & He).
  exists (Glue h' M'). split_and!; auto. exists v', x'. destruct He as [He1 He2]; [done | done |]. auto.
Qed.

End Runs.

(** ** Example: a kernel without scheduler hooks *)

#[export] Instance plain_host : Host kernel := {|
  ker k := k; set_ker k _ := k; queue_sched_uniq _ _ := 1000; elevator_causes_free_fn _ _ := None |}.
#[export] Instance plain_fs : FsHost kernel := {|
  inode_queue _ _ := Some 1%positive; elevator_causes_dirty_fn _ _ := None |}.

#[export] Instance plain_ok : HostOk kernel.
Proof.
  refine {| host_inv _ := True |}; try done.
  intros k p c _ Hc. exists k. split; [|done]. unfold notify. destruct (callback_q c); [|done].
  unfold bind, gets. by destruct (_ =? _).
Defined.

#[export] Instance plain_fs_ok : FsHostOk kernel.
Proof.
  split. intros k inode q p c task pos size _ _ Hc. unfold tell_scheduler. destruct (callback_q c).
  - exists k. done.
  - eexists. split; [reflexivity |]. split; [done |]. split; [done |]. simpl.
    apply map_eq. intros x. rewrite !lookup_fmap, lookup_alter. case_decide; subst; [|done]. simpl in Hc. by rewrite Hc.
Qed.

(** Running operations one after the other, as long as they are ready and there is room. *)
Definition low_counts (k : kernel) : Prop := map_Forall (fun _ c => refcount c < REF_MAX) (k_causes k).

Fixpoint run_ops {S} {H : Host S} {FH : FsHost S} (os : list op) (g : glue S) : option (glue S) :=
  match os with
  | [] => Some g
  | o :: os =>
      if decide (ready o (g_mem g) /\ low_counts (ker (g_host g))) then
        match run_op o g with Ok (_, g') => run_ops os g' | Fault _ => None end
      else None
  end.

Section RunOps.
Context {S : Type} {H : Host S} {FH : FsHost S} {HO : HostOk S} {FO : FsHostOk S}.

Lemma low_roomy (g : glue S) : ginv g -> low_counts (ker (g_host g)) -> roomy g.
Proof.
  intros (_ & Ho & _) Hl p. pose proof (ow_refs _ _ Ho p) as Hp. destruct (_ !! p) as [c|] eqn:E.
  - destruct Hp as [<- _]. by apply (Hl p).
  - rewrite Hp. unfold REF_MAX. lia.
Qed.

Lemma run_ops_reach os (g g' : glue S) : greach g -> run_ops os g = Some g' -> greach g' /\ gsteps g g'.
Proof.
  revert g. induction os as [|o os IH]; intros g Hg; cbn [run_ops]; [intros [= <-]; split; [done | constructor] |].
  case_decide as Hd; [|done]. destruct Hd as [Hr Hl]. destruct (run_op o g) as [[[] g1]|] eqn:E; [|done]. intros E'.
  assert (Hs : gstep g g1) by (eapply step_op; eauto; apply low_roomy; auto; by apply greach_inv).
  destruct (IH g1 (gr_step _ _ Hg Hs) E') as [Hg' Hss]. split; [done |]. by eapply gs_cons.
Qed.
End RunOps.

Definition ex_boot : glue kernel := Glue (Kern ex_world ∅ 1 0 0 0 0 []) (boot_memory 1).
Lemma ex_boot_reach : greach ex_boot.
Proof. by apply gr_boot. Qed.

(** A write to a buffer, a metadata block and a commit, and a page of btrfs. *)
Definition ex_ops : list op :=
  [AllocBuffer 1; CommitWrite [1%positive] 1024 1 7 9 0; BioAlloc 1; SubmitBh true 1024 1 1024 1;
   GetTransaction 1; AddJournalHead 1; DirtyMetadata 1 1 1 7; CommitBegin 1 1; CommitRecord 1 1;
   PageInit 1; PreparePage 1 1; AddToCauses 1 1 7 9 0].
Definition ex_run : glue kernel := default ex_boot (run_ops ex_ops ex_boot).

Lemma default_reach os d (g : glue kernel) :
  greach g -> match run_ops os g with Some _ => true | None => false end = true -> greach (default d (run_ops os g)).
Proof. intros Hg. destruct (run_ops os g) eqn:E; [|done]. intros _. by eapply run_ops_reach. Qed.

Lemma ex_run_reach : greach ex_run.
Proof. apply default_reach; [apply ex_boot_reach |]. vm_compute. reflexivity. Qed.

Lemma ex_run_roomy : roomy ex_run.
Proof. apply low_roomy; [apply greach_inv, ex_run_reach |]. apply (bool_decide_unpack _). vm_compute. exact I. Qed.

(** A page that needs a struct, and no memory left for it. *)
Definition no_memory (g : glue kernel) : glue kernel :=
  Glue ((g_host g) <| k_world ::= fun w => w <| w_alloc := fun _ => false |> |>) (g_mem g).
Lemma no_memory_reach g : greach g -> greach (no_memory g).
Proof. intros Hg. eapply gr_step; [exact Hg |]. by apply step_sched. Qed.

Definition ex_fresh : glue kernel := match run_op (PageInit 2) ex_run with Ok (_, g) => g | Fault _ => ex_run end.
Definition ex_short : glue kernel := no_memory ex_fresh.

Lemma ex_short_reach : greach ex_short.
Proof.
  apply no_memory_reach. eapply gr_step; [apply ex_run_reach |].
  eapply (step_op (PageInit 2)); [done | apply ex_run_roomy | reflexivity].
Qed.

Lemma ex_short_roomy : roomy ex_short.
Proof. apply low_roomy; [apply greach_inv, ex_short_reach |]. apply (bool_decide_unpack _). vm_compute. exact I. Qed.

Lemma causes_no_fault_witness :
  (exists g', run_op (SubmitBh true 1024 1 1024 1) ex_run = Ok (tt, g') /\ greach g') /\
  run_op (PreparePage 2 2) ex_short = Fault (BUG 100).
Proof.
  split.
  - apply (causes_no_fault (SubmitBh true 1024 1 1024 1) ex_run ex_run_reach); [|apply ex_run_roomy].
    apply (bool_decide_unpack _). vm_compute. exact I.
  - apply (causes_no_fault (PreparePage 2 2) ex_short ex_short_reach); [|apply ex_short_roomy].
    apply (bool_decide_unpack _). vm_compute. exact I.
Defined.

Lemma causes_counted_exactly_witness :
  exists c, k_causes (g_host ex_run) !! 3%positive = Some c /\ refcount c = holders (g_mem ex_run) 3 /\ refcount c = 3.
Proof.
  pose proof (causes_counted_exactly ex_run 3 ex_run_reach) as Hc. change (ker (g_host ex_run)) with (g_host ex_run) in Hc.
  assert (E : refcount <$> k_causes (g_host ex_run) !! 3%positive = Some 3) by (vm_compute; reflexivity).
  destruct (k_causes (g_host ex_run) !! 3%positive) as [c|]; [|discriminate E].
  exists c. injection E as E. split; [reflexivity |]. split; [apply Hc | exact E].
Defined.

Lemma ex_page : pages (g_mem ex_run) = {[ 1%positive := Some 1%positive ]}.
Proof. vm_compute. reflexivity. Qed.
Lemma ex_page_causes : cells (g_mem ex_run) !! LockedCauses 1 = Some (Some 5%positive).
Proof. vm_compute. reflexivity. Qed.

(** The page is recycled, and then all the rest is freed. *)
Definition ex_recycled : glue kernel :=
  match run_op (PageInit 1) ex_run with Ok (_, g) => g | Fault _ => ex_run end.
Definition ex_end : list op :=
  [CommitEnd 1; FreeTransaction 1; FreeJournalHead 1; FreeBuffer 1; BioFree 1; Exit 1].
Definition ex_freed : glue kernel := default ex_recycled (run_ops ex_end ex_recycled).

Lemma ex_recycled_run : run_op (PageInit 1) ex_run = Ok (tt, ex_recycled).
Proof. reflexivity. Qed.

Lemma default_steps os d (g : glue kernel) :
  greach g -> match run_ops os g with Some _ => true | None => false end = true -> gsteps g (default d (run_ops os g)).
Proof. intros Hg. destruct (run_ops os g) eqn:E; [|done]. intros _. by eapply run_ops_reach. Qed.

Lemma ex_recycled_reach : greach ex_recycled.
Proof. eapply gr_step; [apply ex_run_reach |]. eapply (step_op (PageInit 1)); [done | apply ex_run_roomy | apply ex_recycled_run]. Qed.

Lemma ex_freed_steps : gsteps ex_recycled ex_freed.
Proof. apply default_steps; [apply ex_recycled_reach |]. vm_compute. reflexivity. Qed.

Lemma recycled_page_leaks_witness :
  is_Some (k_causes (g_host ex_freed) !! 5%positive) /\ size (k_causes (g_host ex_freed)) = 1%nat.
Proof.
  split; [|vm_compute; reflexivity].
  apply (recycled_page_leaks ex_run ex_recycled ex_freed 1 1 5 ex_run_reach ex_run_roomy).
  - rewrite ex_page. reflexivity.
  - intros pg'. rewrite ex_page. intros Hl. apply lookup_singleton_Some in Hl. destruct Hl as [<- _]. reflexivity.
  - apply ex_page_causes.
  - apply ex_recycled_run.
  - apply ex_freed_steps.
Defined.

Lemma extent_causes_go_astray_witness :
  exists g', submit_extent_page 1024 false (Some 1%positive) (Some 2%positive) 1 4096 ex_run = Ok (Some 2%positive, g') /\
    bios (g_mem g') !! 2%positive = Some (Bio 0 0 None).
Proof.
  assert (Hb : (match bios (g_mem ex_run) !! 1%positive with
                | Some (Bio _ _ (Some x)) => cll_item_count x <? cll_item_capacity x | _ => false end) = true)
    by (vm_compute; reflexivity).
  destruct (bios (g_mem ex_run) !! 1%positive) as [v|] eqn:Ev; [|discriminate Hb].
  destruct v as [s z [x|]]; [|discriminate Hb].
  destruct (extent_causes_go_astray ex_run 1024 1 2 1 4096 1 5 (Bio s z (Some x)) x) as (g' & E & Hn & _).
  - apply ex_run_reach.
  - apply ex_run_roomy.
  - apply (bool_decide_unpack _). vm_compute. exact I.
  - rewrite ex_page. reflexivity.
  - apply ex_page_causes.
  - exact Ev.
  - reflexivity.
  - by apply Z.ltb_lt.
  - exists g'. exact (conj E Hn).
Defined.
