(* ===== verification/BuffersFit.v ===== *)
(** * Cause lists in the kernel: sizes, and what the operations leave alone

    The tags that a scheduler finds on a request are in order (as [env_wf] of Tags.v
    says) because of what the operations of Buffers.v do: every list counts its items, no list
    and no bio is larger than a request may be, and the entries of a bio are
    there.  Beyond that an operation changes no bio but those it is about, and no work item.

    The largest piece of a file that a cause list stands for is a page; a bio has at most
    [MAX_ITEMS] of them. *)

From S2P Require Import Prelude Partial CInt Kernel IoBatch CauseTags CauseRefs Buffers BuffersInv BuffersRuns.

Definition PAGE : Z := 4096.
Definition MAX_ITEMS : Z := 0x40000.
Definition MAX_SECTORS : Z := 0x80000.

(** ** The heap of cause lists *)

Definition list_fits (c : cause_list) : Prop := causes_wf c /\ 0 <= cl_size c <= MAX_IO.

(** Every list fits, those of [small] are no larger than a page, and [works] are the work items. *)
Record heap_fits (works : list (option ptr)) (small : ptr -> Prop) (k : kernel) : Prop := {
  hf_lists : forall p c, k_causes k !! p = Some c -> list_fits c;
  hf_small : forall p c, k_causes k !! p = Some c -> small p -> cl_size c <= PAGE;
  hf_works : k_works k = works;
}.

Definition none : ptr -> Prop := fun _ => False.

(** The list of a bio. *)
Record cll_fits (l : cause_list_list) : Prop := {
  cf_shape : cll_shape l;
  cf_capacity : cll_item_capacity l <= MAX_ITEMS;
  cf_size : 0 <= cll_size l <= PAGE * cll_item_count l;
  cf_there : Forall is_Some (cll_used l);
}.
Definition bio_fits (v : bio) : Prop := forall l, bi_cll v = Some l -> cll_fits l.

Section Heap.
Context (works : list (option ptr)) (small : ptr -> Prop).
Abbreviation fits := (heap_fits works small).

Lemma fits_same k k' : fits k -> k_causes k' = k_causes k -> k_works k' = k_works k -> fits k'.
Proof. intros [H1 H2 H3] E1 E2. split; rewrite ?E1, ?E2; auto. Qed.

Lemma fits_insert k k' p c :
  fits k -> k_causes k' = <[p := c]> (k_causes k) -> k_works k' = k_works k ->
  list_fits c -> (small p -> cl_size c <= PAGE) -> fits k'.
Proof.
  intros [H1 H2 H3] E1 E2 Hc Hs. split; rewrite ?E2; auto; intros q d; rewrite E1, lookup_insert;
    case_decide; subst; intros; simplify_eq; eauto.
Qed.

(** How a list may change. *)
Definition fit_change (f : cause_list -> cause_list) : Prop :=
  (forall c, list_fits c -> list_fits (f c)) /\ forall c, cl_size c <= PAGE -> cl_size (f c) <= PAGE.

Lemma fits_alter k p f :
  fits k -> (forall c, list_fits c -> list_fits (f c)) -> (small p -> forall c, cl_size c <= PAGE -> cl_size (f c) <= PAGE) ->
  fits (k <| k_causes ::= alter f p |>).
Proof.
  intros [H1 H2 H3] Hf Hs. split; simpl; auto; intros q c; rewrite lookup_alter;
    (case_decide as E; [subst q; destruct (k_causes k !! p) as [d|] eqn:Ed; simpl; [|done]; intros [= <-] | eauto]).
  - by apply Hf, (H1 p).
  - intros Hp. apply Hs; eauto.
Qed.

Lemma stable_write p f : fit_change f -> stable fits (write_causes p f).
Proof.
  intros [Hf Hs]. apply stable_modify. intros k Hk. by apply fits_alter.
Qed.

Lemma fit_change_size n : 0 <= n <= PAGE -> fit_change (fun c => c <| cl_size := u64 n |>).
Proof.
  unfold PAGE. intros Hn. split; [intros c [[Hi Hc] Hs]; split; [by split |] | intros c _]; simpl;
    rewrite u64_small by (unfold is_u64; lia); unfold MAX_IO, PAGE; lia.
Qed.

Lemma stable_read line p : stable fits (read_causes line p).
Proof. apply stable_reads. intros k a k'. unfold read_causes. by case_match; intros; simplify_eq. Qed.
Lemma stable_kmalloc : stable fits (in_world kmalloc).
Proof. intros k a k' Hk [= <- <-]. by eapply fits_same. Qed.
Lemma stable_counter f :
  (forall k, k_causes (f k) = k_causes k /\ k_works (f k) = k_works k) -> stable fits (modify f).
Proof. intros Hf. apply stable_modify. intros k Hk. destruct (Hf k). by eapply fits_same. Qed.

Lemma stable_new : stable fits __new_cause_list.
Proof.
  intros k a k' Hk E. destruct (new_run k) as (o & k1 & E1 & _ & Ho). rewrite E in E1. injection E1 as <- <-.
  assert (Ew : k_works k' = k_works k).
  { revert E. unfold __new_cause_list, bind, in_world, zoom, kmalloc. simpl. destruct (w_alloc _ _); by intros [= _ <-]. }
  revert E. unfold __new_cause_list, bind, in_world, zoom, kmalloc. simpl. destruct (w_alloc _ _); intros [= _ <-].
  - eapply (fits_insert k); [done | reflexivity | done | |]; [|by unfold PAGE].
    split; [split; [constructor | done] |]. simpl. unfold MAX_IO. lia.
  - by eapply fits_same.
Qed.

Lemma stable_get cl : stable fits (get_cause_list cl).
Proof.
  unfold get_cause_list. destruct cl as [p|]; [|apply stable_ret]. apply stable_bind; [apply stable_read |]. intros ?.
  apply stable_bind; [|intros; apply stable_ret]. apply stable_write. split; [by intros c [[? ?] ?] | done].
Qed.

Lemma stable_set_type cl type : stable fits (set_cause_list_type cl type).
Proof.
  unfold set_cause_list_type. destruct cl as [p|]; [|apply stable_ret]. apply stable_bind; [apply stable_read |]. intros ?.
  apply stable_write. split; [by intros c [[? ?] ?] | done].
Qed.

Lemma stable_add cl id : stable fits (__cause_list_add cl id).
Proof.
  destruct cl as [p|]; [|apply stable_ret]. intros k rv k' Hk E.
  destruct (k_causes k !! p) as [c|] eqn:Ec.
  2: { revert E. unfold __cause_list_add, bind, read_causes. by rewrite Ec. }
  destruct (__cause_list_add_run k p c id Ec) as (rv1 & k1 & E1 & _ & _ & Hcase). rewrite E in E1. injection E1 as <- <-.
  assert (Ew : k_works k' = k_works k).
  { revert E. unfold __cause_list_add, bind, read_causes. rewrite Ec. destruct (existsb _ _); simpl; [by intros [= _ <-] |].
    destruct (w_alloc _ _); simpl; by intros [= _ <-]. }
  destruct Hcase as [(_ & Hn & Ek)|(_ & Ek & _)]; [|by eapply fits_same].
  eapply fits_insert; [done | exact Ek | done | |].
  - destruct (hf_lists _ _ _ Hk p c Ec). split; [by apply add_item_wf | done].
  - intros Hs. by apply (hf_small _ _ _ Hk p c Ec).
Qed.

Lemma stable_copy from to : stable fits (cause_list_copy from to).
Proof.
  unfold cause_list_copy. apply stable_bind; [destruct to; [apply stable_ret | apply stable_new] |]. intros o.
  destruct from as [f|]; [|apply stable_ret]. destruct o as [u|]; [|apply stable_ret].
  apply stable_bind; [apply stable_read |]. intros c.
  apply stable_bind; [|intros; apply stable_ret]. apply stable_for_acc. intros b x.
  apply stable_bind; [apply stable_add | intros; apply stable_ret].
Qed.

Lemma stable_cause_list_add cl task : stable fits (cause_list_add cl task).
Proof.
  unfold cause_list_add. apply stable_bind; [destruct cl; [apply stable_ret | apply stable_new] |]. intros o.
  destruct (task_causes task); [apply stable_copy |]. apply stable_bind; [apply stable_add | intros; apply stable_ret].
Qed.

Lemma partial_new_cll cap :
  cap <= MAX_ITEMS -> partial fits (new_cause_list_list cap) (fun o k => fits k /\ forall l, o = Some l -> cll_fits l).
Proof.
  intros Hcap. destruct (Z.ltb_spec cap 0) as [Hneg|Hpos].
  { unfold new_cause_list_list. destruct (Z.ltb_spec cap 0); [by apply partial_ret | lia]. }
  eapply partial_eq; [intros k; apply new_cll_eq; unfold MAX_ITEMS in *; lia |].
  eapply partial_bind; [apply stable_kmalloc |]. intros ok. eapply partial_bind; [apply stable_new |]. intros o.
  assert (Hnone : stable fits (modify (fun k => match o with Some u => k <| k_causes ::= delete u |> | None => k end))).
  { apply stable_modify. intros k Hk. destruct o as [u|]; [|done]. destruct Hk as [H1 H2 H3].
    split; simpl; auto; intros p c [_ Hc]%lookup_delete_Some; eauto. }
  destruct ok, o as [u|]; [|(eapply partial_bind; [exact Hnone |]; intros ?; by apply partial_ret)..].
  apply partial_ret. intros k Hk. split; [done |]. intros l [= <-]. unfold MAX_ITEMS in *. split; simpl; [|done | lia | constructor].
  split; simpl; [by eexists | rewrite length_replicate; lia | lia | lia].
Qed.
End Heap.

Lemma fits_weaken works (sm sm' : ptr -> Prop) k : heap_fits works sm k -> (forall p, sm' p -> sm p) -> heap_fits works sm' k.
Proof. intros [H1 H2 H3] Hs. split; eauto. Qed.

Lemma used_snoc (l : cause_list_list) n items' q :
  cll_shape l -> array_set n (cll_items l) (cll_item_count l) (Some q) = Ok items' -> cll_item_count l < cll_item_capacity l ->
  Forall is_Some (cll_used l) ->
  Forall is_Some (take (Z.to_nat (cll_item_count l + 1)) items') /\ length items' = length (cll_items l).
Proof.
  intros [_ Ha Hc _] E Hlt Hall. unfold array_set in E. case_decide as Hd; [|done]. injection E as <-.
  split; [|apply length_insert]. rewrite Z2Nat.inj_add by lia. replace (Z.to_nat 1) with 1%nat by lia. rewrite Nat.add_1_r.
  rewrite (take_S_r _ _ (Some q)) by (apply list_lookup_insert_eq; lia).
  rewrite take_insert_ge by lia. apply Forall_app. split; [exact Hall |]. repeat constructor. by eexists.
Qed.

(** What is left of the bio's list but its unique causes. *)
Definition same_entries (l l' : cause_list_list) : Prop := exists u, l' = l <| uniq_causes := u |>.

Lemma partial_lift {S A} (P : S -> Prop) (r : result A) : partial P (lift r) (fun a s => P s /\ r = Ok a).
Proof. intros s a s' Hs. unfold lift. destruct r; [by intros [= <- <-] | done]. Qed.

Lemma partial_read works sm line p :
  partial (heap_fits works sm) (read_causes line p)
    (fun c k => heap_fits works sm k /\ list_fits c /\ (sm p -> cl_size c <= PAGE)).
Proof.
  intros k c k' Hk. unfold read_causes. destruct (k_causes k !! p) eqn:E; [|done]. intros [= <- <-].
  split; [done |]. split; [by eapply hf_lists | intros; by eapply hf_small].
Qed.

Lemma partial_get works sm p :
  partial (heap_fits works sm) (get_cause_list (Some p)) (fun q k => heap_fits works sm k /\ q = Some p).
Proof.
  intros k q k' Hk E. split; [by eapply stable_get |]. revert E. unfold get_cause_list, bind, read_causes.
  destruct (k_causes k !! p); [by intros [= <- _] | done].
Qed.

(** The list after an entry was added. *)
Lemma cll_fits_snoc l l1 items' c q u n :
  cll_fits l -> same_entries l l1 -> cll_item_count l <> cll_item_capacity l -> list_fits c -> cl_size c <= PAGE ->
  array_set n (cll_items l1) (cll_item_count l1) (Some q) = Ok items' -> uniq_causes l1 = Some u ->
  let l' := l1 <| cll_items := items' |> <| cll_item_count ::= fun n => s32 (n + 1) |>
               <| cll_size ::= fun n => u64 (n + cl_size c) |> in
  cll_fits l' /\ 0 <= cll_size l' <= MAX_IO.
Proof.
  intros [Hs Hcap Hsz Hall] [u1 ->] Hne [_ Hc] Hp E Hu l'. simpl in E, Hu. pose proof Hs as [_ Ha Hc' _].
  destruct (used_snoc l n items' q Hs E ltac:(lia) Hall) as [Hall' Hlen].
  unfold PAGE, MAX_ITEMS, MAX_IO in *.
  assert (E1 : s32 (cll_item_count l + 1) = cll_item_count l + 1) by (apply s32_small; unfold is_s32; lia).
  assert (E2 : u64 (cll_size l + cl_size c) = cll_size l + cl_size c) by (apply u64_small; unfold is_u64; lia).
  split; [split | ]; simpl; rewrite ?E1, ?E2; unfold MAX_ITEMS, PAGE; try lia.
  - split; simpl; rewrite ?E1; [by exists u; rewrite Hu | by rewrite Hlen | lia | lia].
  - unfold cll_used. simpl. by rewrite E1.
Qed.

(** Adding a list that is no larger than a page to a bio. *)
Lemma partial_cll_add works o p :
  (forall l, o = Some l -> cll_fits l) ->
  partial (heap_fits works (eq p)) (cause_list_list_add o (Some p))
    (fun o' k => heap_fits works none k /\ forall l, o' = Some l -> cll_fits l).
Proof.
  intros Ho. unfold cause_list_list_add. destruct o as [l|].
  2: { apply partial_ret. intros k Hk. split; [by eapply fits_weaken | done]. }
  specialize (Ho l eq_refl). destruct (Z.eqb_spec (cll_item_count l) (cll_item_capacity l)) as [|Hne].
  { apply partial_ret. intros k Hk. split; [by eapply fits_weaken | by intros ? [= <-]]. }
  eapply partial_bind.
  { instantiate (1 := fun _ => heap_fits works (eq p)). destruct (_ =? 0); [apply stable_ret |].
    apply stable_bind; [apply stable_lift | intros; apply stable_ret]. }
  intros differs. eapply partial_bind.
  { instantiate (1 := fun l1 k => heap_fits works (eq p) k /\ same_entries l l1). destruct differs.
    - eapply partial_bind; [apply stable_copy |]. intros r. apply partial_ret. intros k Hk. split; [done |]. by eexists.
    - apply partial_ret. intros k Hk. split; [done |]. exists (uniq_causes l). by destruct l. }
  intros l1. apply partial_pure. intros Hl1.
  eapply partial_bind; [apply (partial_get works (eq p)) |]. intros q. apply partial_pure. intros ->.
  eapply partial_bind; [apply partial_lift |]. intros items'. apply partial_pure. intros Hset.
  eapply partial_bind; [apply partial_read |]. intros c. apply partial_pure. intros [Hc Hsmall].
  eapply partial_bind; [apply partial_lift |]. intros u. apply partial_pure. intros Hu. simpl in Hu.
  assert (Hu' : uniq_causes l1 = Some u) by (revert Hu; unfold deref; destruct (uniq_causes l1); congruence).
  pose proof (cll_fits_snoc l l1 items' c p u 384 Ho Hl1 Hne Hc (Hsmall eq_refl) Hset Hu') as [Hfit Hsize].
  eapply partial_bind; [apply (stable_read works (eq p)) |]. intros cu. eapply (partial_bind _ _ _ (fun _ => heap_fits works none)).
  - intros k x k' Hk [= _ <-]. apply (fits_alter works none); [by eapply fits_weaken | |done].
    intros d [[Hd1 Hd2] _]. split; [by split | exact Hsize].
  - intros _. apply partial_ret. intros k Hk. split; [done |]. intros ? [= <-]. exact Hfit.
Qed.

(** ** With the scheduler *)

(** [I] is about the cause lists, which fit, and about things that the hooks of the scheduler do not
    change. *)
Class Obliging {S : Type} {H : Host S} {FH : FsHost S} (works : list (option ptr)) (I : S -> Prop) := {
  ob_ker : forall k s, ker (set_ker k s) = k;
  ob_fits : forall s, I s -> heap_fits works none (ker s);
  ob_set : forall s k, I s -> heap_fits works none k -> I (set_ker k s);
  ob_free : forall q fn p s, elevator_causes_free_fn q s = Some fn -> stable I (fn p);
  ob_dirty : forall q fn p task inode pos s,
    elevator_causes_dirty_fn q s = Some fn -> stable I (fn p task inode pos);
}.

Section Host.
Context {S : Type} {H : Host S} {FH : FsHost S} {works : list (option ptr)} {I : S -> Prop} {OB : Obliging works I}.

(** [I], with the lists of [sm] no larger than a page. *)
Definition with_small (sm : ptr -> Prop) (s : S) : Prop := I s /\ heap_fits works sm (ker s).

Lemma with_none (s : S) : I s -> with_small none s.
Proof. intros Hs. split; [done |]. by eapply ob_fits. Qed.

Lemma partial_in_kernel {A} (m : ST kernel A) sm sm' (Q : A -> Prop) :
  partial (heap_fits works sm) m (fun a k => heap_fits works sm' k /\ Q a) ->
  partial (with_small sm) (in_kernel m) (fun a s => with_small sm' s /\ Q a).
Proof.
  intros Hm. eapply partial_zoom; [exact Hm | by intros s [_ Hs] |]. intros a s k [Hs _] [Hk HQ].
  split; [|done]. split; [|by rewrite ob_ker]. apply ob_set; [done |]. by eapply fits_weaken.
Qed.

Lemma stable_in_kernel {A} (m : ST kernel A) : stable (heap_fits works none) m -> stable I (in_kernel m).
Proof.
  intros Hm. eapply partial_zoom; [exact Hm | by apply ob_fits |]. intros a s k Hs Hk. by apply ob_set.
Qed.

Lemma stable_get_host {A B} (f : S -> A) (m : A -> ST S B) : (forall s, stable I (m (f s))) -> stable I (bind (gets f) m).
Proof. intros Hm s b s' Hs E. exact (Hm s s b s' Hs E). Qed.

Lemma stable_put_cause_list cl : stable I (put_cause_list cl).
Proof.
  destruct cl as [p|]; [|apply stable_ret]. unfold put_cause_list.
  apply stable_bind; [apply stable_in_kernel, stable_read |]. intros c.
  apply stable_bind; [apply stable_in_kernel, stable_write; split; [by intros ? [[? ?] ?] | done] |]. intros _.
  destruct (_ =? 0); [|apply stable_ret]. unfold free_cause_list.
  apply stable_bind; [apply stable_in_kernel, stable_read |]. intros c'. apply stable_bind.
  - destruct (callback_q c') as [q|]; [|apply stable_ret]. apply stable_get_host. intros s0.
    destruct (_ =? _); [|apply stable_ret]. apply stable_get_host. intros s1.
    destruct (elevator_causes_free_fn q s1) eqn:E; [by eapply ob_free | apply stable_ret].
  - intros _. apply stable_bind; [apply stable_in_kernel, stable_read |]. intros c''.
    apply stable_in_kernel, stable_modify. intros k [H1 H2 H3].
    split; simpl; auto; intros x d [_ Hd]%lookup_delete_Some; eauto.
Qed.

Lemma stable_tell c p q size task inode pos :
  0 <= size <= PAGE -> stable I (tell_scheduler c p q size task inode pos).
Proof.
  intros Hsz. unfold tell_scheduler. apply stable_bind.
  - destruct (callback_q c); [apply stable_ret |]. apply stable_get_host. intros s.
    apply stable_in_kernel, stable_write. destruct (fit_change_size size Hsz) as [H1 H2]. split.
    + intros d [[? ?] Hd]. destruct (H1 d) as [_ Hs]; [by split | split; [by split | exact Hs]].
    + intros d Hd. by apply (H2 d).
  - intros _. apply stable_get_host. intros s. destruct (elevator_causes_dirty_fn q s) eqn:E; [|apply stable_ret].
    apply stable_bind; [apply stable_in_kernel, stable_read |]. intros d. apply stable_get_host. intros s'.
    destruct (_ =? _); [by eapply ob_dirty | apply stable_ret].
Qed.

Lemma stable_del_cll o : stable I (del_cause_list_list o).
Proof.
  destruct o as [l|]; [|apply stable_ret]. apply stable_bind; [apply stable_for_each; intros | intros _]; apply stable_put_cause_list.
Qed.

(** The list of a bio, which is made when it is first needed. *)
Lemma partial_bio_cll cap o sm :
  cap <= MAX_ITEMS -> (forall l, o = Some l -> cll_fits l) ->
  partial (with_small sm) (match o with None => in_kernel (new_cause_list_list cap) | Some _ => ret o end)
    (fun o' s => with_small sm s /\ forall l, o' = Some l -> cll_fits l).
Proof.
  intros Hcap Ho. destruct o as [l|]; [by apply partial_ret |]. apply partial_in_kernel. by apply partial_new_cll.
Qed.

Lemma fits_write_size sm p n k a k' :
  0 <= n <= PAGE -> heap_fits works sm k -> write_causes p (fun c => c <| cl_size := u64 n |>) k = Ok (a, k') ->
  heap_fits works (eq p) k'.
Proof.
  intros Hn Hk E. pose proof (stable_write works sm p _ (fit_change_size n Hn) k a k' Hk E) as [G1 _ G3]. split; auto.
  injection E as _ <-. intros q c Hc <-. simpl in Hc. rewrite lookup_alter_eq in Hc.
  destruct (k_causes k !! p); [|done]. injection Hc as <-. simpl. unfold PAGE in *. rewrite u64_small by (unfold is_u64; lia). lia.
Qed.

(** The size of a list is set and the list added to a bio. *)
Lemma partial_size_add o p n {B} (f : option cause_list_list -> ST S B) Q :
  0 <= n <= PAGE -> (forall l, o = Some l -> cll_fits l) ->
  (forall o', (forall l, o' = Some l -> cll_fits l) -> partial I (f o') Q) ->
  partial (with_small none) (in_kernel (write_causes p (fun c => c <| cl_size := u64 n |>));;
                    let! o' := in_kernel (cause_list_list_add o (Some p)) in f o') Q.
Proof.
  intros Hn Ho Hf. apply (partial_bind _ _ _ (fun _ s => with_small (eq p) s /\ True)).
  - apply partial_in_kernel. intros k a k' Hk E. split; [|done]. by eapply fits_write_size.
  - intros _. eapply partial_bind.
    + eapply partial_conseq; [apply partial_in_kernel, (partial_cll_add works o p Ho) | by intros s [? _] |]. intros a s Hs. exact Hs.
    + intros o'. apply partial_pure. intros Ho'. eapply partial_conseq; [by apply Hf | by intros s [? _] | done].
Qed.

Lemma partial_move max_sectors cl n b :
  max_sectors <= MAX_SECTORS -> 0 <= n <= PAGE -> bio_fits b ->
  partial I (move_causes_bh_to_bio max_sectors cl n b) (fun r s => I s /\ bio_fits (snd r)).
Proof.
  intros Hm Hn Hb. unfold move_causes_bh_to_bio. destruct cl as [p|]; [|by apply partial_ret].
  eapply partial_bind.
  { eapply partial_conseq; [apply (partial_bio_cll (Z.shiftr max_sectors 3) (bi_cll b) none); [|exact Hb] | by apply with_none |].
    - unfold MAX_SECTORS, MAX_ITEMS in *. rewrite Z.shiftr_div_pow2 by lia. apply Z.div_le_upper_bound; lia.
    - intros o s Ho. exact Ho. }
  intros o. apply partial_pure. intros Ho. eapply (partial_bind _ _ _ (fun _ s => with_small none s /\ True)).
  { apply partial_in_kernel. eapply partial_conseq; [apply stable_read | intros k Hk; exact Hk | by split]. }
  intros c. eapply partial_conseq; [apply (partial_size_add o p n); [done | done |] | by intros s [? _] | intros a s Hs; exact Hs].
  intros o' Ho'. eapply partial_bind; [apply stable_put_cause_list |]. intros x. by apply partial_ret.
Qed.

Lemma partial_zero max_sectors n b :
  max_sectors <= MAX_SECTORS -> 0 <= n <= PAGE -> bio_fits b ->
  partial I (add_causes_zero_to_bio max_sectors b n) (fun v s => I s /\ bio_fits v).
Proof.
  intros Hm Hn Hb. unfold add_causes_zero_to_bio. eapply partial_bind.
  { eapply partial_conseq; [apply (partial_bio_cll (Z.shiftr max_sectors 3) (bi_cll b) none); [|exact Hb] | by apply with_none |].
    - unfold MAX_SECTORS, MAX_ITEMS in *. rewrite Z.shiftr_div_pow2 by lia. apply Z.div_le_upper_bound; lia.
    - intros o s Ho. exact Ho. }
  intros o. apply partial_pure. intros Ho. destruct o as [l|]; [|by apply partial_ret; intros s [? _]].
  eapply (partial_bind _ _ _ (fun _ s => with_small none s /\ True)).
  { apply partial_in_kernel. eapply partial_conseq; [apply stable_new | intros k Hk; exact Hk | by split]. }
  intros cl. destruct cl as [p|]; [|by apply partial_ret; intros s [[? _] _]].
  eapply (partial_bind _ _ _ (fun _ s => with_small none s /\ True)).
  { eapply partial_conseq; [apply partial_in_kernel | by intros s [? _] | intros a s Hs; exact Hs].
    eapply partial_conseq; [apply stable_set_type | intros k Hk; exact Hk | by split]. }
  intros x. eapply partial_conseq; [apply (partial_size_add (Some l) p n); [done | done |] | by intros s [? _] | intros a s Hs; exact Hs].
  intros o' Ho'. eapply partial_bind; [apply stable_put_cause_list |]. intros y. by apply partial_ret.
Qed.
End Host.

(** ** The operations *)

(** The bios that an operation is about, *)
Definition touched (o : op) : list ptr :=
  match o with
  | SubmitBh _ _ _ _ bi | IoSubmitAddBh _ _ _ bi | BioAlloc bi | BioFree bi | Zeroout _ bi _ => [bi]
  | SubmitExtentPage _ _ old new _ _ => option_list old ++ option_list new
  | _ => []
  end.

(** and what the kernel promises of the sizes. *)
Definition page_sized (n : Z) : Prop := 0 <= n <= PAGE.
Definition sizes_ok (o : op) : Prop :=
  match o with
  | CommitWrite _ b_size _ _ _ _ | BlockCommitWrite _ b_size _ _ _ => page_sized b_size
  | SubmitBh _ ms _ b_size _ | IoSubmitAddBh ms _ b_size _ => ms <= MAX_SECTORS /\ page_sized b_size
  | Zeroout ms _ szs => ms <= MAX_SECTORS /\ Forall (fun sz => page_sized (Z.shiftl sz 9)) szs
  | SubmitExtentPage ms _ _ _ _ page_size => ms <= MAX_SECTORS /\ page_sized page_size
  | _ => True
  end.

Section Ops.
Context {S : Type} {H : Host S} {FH : FsHost S} {works : list (option ptr)} {I : S -> Prop} {OB : Obliging works I}.
Context (T : list ptr) (B : gmap ptr bio).

(** The bios fit, and those that are not in [T] are those of [B]. *)
Record fit_glue (g : glue S) : Prop := {
  fg_host : I (g_host g);
  fg_bios : forall bi v, bios (g_mem g) !! bi = Some v -> bio_fits v;
  fg_kept : forall bi, bi ∉ T -> bios (g_mem g) !! bi = B !! bi;
}.

Lemma stable_in_host {A} (m : ST S A) : stable I m -> stable fit_glue (in_host m).
Proof.
  intros Hm [h M] a g' [H1 H2 H3]. unfold in_host. simpl in *. destruct (m h) as [[b h']|] eqn:E; [|done].
  intros [= <- <-]. split; auto. simpl. by eapply Hm.
Qed.

Lemma partial_in_host {A} (m : ST S A) (Q : A -> Prop) :
  partial I m (fun a s => I s /\ Q a) -> partial fit_glue (in_host m) (fun a g => fit_glue g /\ Q a).
Proof.
  intros Hm [h M] a g' [H1 H2 H3]. unfold in_host. simpl in *. destruct (m h) as [[b h']|] eqn:E; [|done].
  intros [= <- <-]. destruct (Hm h b h' H1 E). done.
Qed.

Lemma stable_kernel {A} (m : ST kernel A) : stable (heap_fits works none) m -> stable fit_glue (in_host (in_kernel m)).
Proof. intros Hm. apply stable_in_host. by apply stable_in_kernel. Qed.

Lemma stable_cell line l : stable fit_glue (cell line l).
Proof. intros [h M] a g' Hg. unfold cell, in_mem. simpl. destruct (cells M !! l); [by intros [= <- <-] | done]. Qed.
Lemma stable_get_page line pg : stable fit_glue (get_page line pg).
Proof. intros [h M] a g' Hg. unfold get_page, in_mem. simpl. destruct (pages M !! pg); [by intros [= <- <-] | done]. Qed.
Lemma stable_change f : (forall M, bios (f M) = bios M) -> stable fit_glue (change f).
Proof. intros Hf [h M] a g' [H1 H2 H3] [= <- <-]. simpl in *. split; simpl; rewrite ?Hf; auto. Qed.

Lemma partial_get_bio line bi : partial fit_glue (get_bio line bi) (fun v g => fit_glue g /\ bio_fits v).
Proof.
  intros [h M] v g' Hg. unfold get_bio, in_mem. simpl. destruct (bios M !! bi) eqn:E; [|done].
  intros [= <- <-]. split; [done |]. by eapply fg_bios.
Qed.

Lemma stable_set_bio bi v : bi ∈ T -> bio_fits v -> stable fit_glue (set_bio bi v).
Proof.
  intros HT Hv [h M] a g' [H1 H2 H3] [= <- <-]. split; simpl in *; auto.
  - intros bi' v'. rewrite lookup_insert. case_decide; [by intros [= <-] | eauto].
  - intros bi' Hn. rewrite lookup_insert_ne; [auto |]. by intros ->.
Qed.

#[local] Hint Resolve stable_ret stable_lift stable_cell stable_get_page stable_new stable_get stable_set_type stable_copy
  stable_cause_list_add stable_read stable_kmalloc stable_kernel stable_in_host stable_put_cause_list stable_del_cll : fit.
#[local] Hint Extern 1 (partial _ (change _) _) => apply stable_change; done : fit.
#[local] Hint Extern 1 (partial _ (set_cell _ _) _) => apply stable_change; done : fit.
#[local] Hint Extern 1 (partial _ (drop_cell _) _) => apply stable_change; done : fit.
Ltac fit := repeat first [solve [eauto 3 with fit nocore] | stable_step].

Ltac head t := match t with ?f _ => head f | _ => t end.

Lemma stable_add_current line l cur id : stable fit_glue (add_current line l cur id).
Proof. unfold add_current, current. fit. Qed.
Lemma stable_set_type_at line l type : stable fit_glue (set_type line l type).
Proof. unfold set_type. fit. Qed.
Lemma stable_put_at line l : stable fit_glue (put line l).
Proof. unfold put. fit. Qed.
Lemma stable_renew l : stable fit_glue (renew l).
Proof. unfold renew. fit. Qed.
Lemma stable_share line from to : stable fit_glue (share line from to).
Proof. unfold share. fit. Qed.
#[local] Hint Resolve stable_add_current stable_set_type_at stable_put_at stable_renew stable_share : fit.

Lemma stable_dirty_hook l size cur id inode pos added :
  page_sized size -> stable fit_glue (dirty_hook l size cur id inode pos added).
Proof.
  intros Hs. unfold dirty_hook, current. fit.
  - apply stable_in_host, stable_gets.
  - by apply stable_in_host, stable_tell.
Qed.

Lemma stable_dirty_buffer bh b_size cur id inode pos :
  page_sized b_size -> stable fit_glue (dirty_buffer bh b_size cur id inode pos).
Proof. intros Hs. unfold dirty_buffer. fit. by apply stable_dirty_hook. Qed.

Lemma stable_move_to_bio line ms bh b_size bi :
  ms <= MAX_SECTORS -> page_sized b_size -> bi ∈ T -> stable fit_glue (move_to_bio line ms bh b_size bi).
Proof.
  intros Hm Hs HT. unfold move_to_bio. apply stable_bind; [apply stable_cell |]. intros cl.
  eapply partial_bind; [apply partial_get_bio |]. intros v. apply partial_pure. intros Hv.
  eapply partial_bind; [by apply partial_in_host, partial_move |]. intros r. apply partial_pure. intros Hr.
  apply stable_bind; [by apply stable_change |]. intros _. by apply stable_set_bio.
Qed.

Lemma stable_zeroout ms bi szs :
  ms <= MAX_SECTORS -> Forall (fun sz => page_sized (Z.shiftl sz 9)) szs -> bi ∈ T -> stable fit_glue (issue_zeroout ms bi szs).
Proof.
  intros Hm Hs HT. apply stable_for_each. intros sz Hin. rewrite list.Forall_forall in Hs.
  eapply partial_bind; [apply partial_get_bio |]. intros v. apply partial_pure. intros Hv.
  eapply partial_bind; [apply partial_in_host, partial_zero; [done | by apply Hs | done] |]. intros r. apply partial_pure. intros Hr.
  by apply stable_set_bio.
Qed.

Lemma stable_bio_alloc bi : bi ∈ T -> stable fit_glue (bio_alloc bi).
Proof. intros HT. by apply stable_set_bio. Qed.

Lemma stable_bio_free bi : bi ∈ T -> stable fit_glue (bio_free bi).
Proof.
  intros HT. unfold bio_free. eapply partial_bind; [apply partial_get_bio |]. intros v. apply partial_pure. intros Hv.
  apply stable_bind; [apply stable_in_host, stable_del_cll |]. intros _ [h M] a g' [H1 H2 H3] [= <- <-]. split; simpl in *; auto.
  - intros bi' v' [_ Hv']%lookup_delete_Some. eauto.
  - intros bi' Hn. rewrite lookup_delete_ne; [auto |]. by intros ->.
Qed.

Definition glue_small (sm : ptr -> Prop) (g : glue S) : Prop := fit_glue g /\ heap_fits works sm (ker (g_host g)).

Lemma partial_host_kernel {A} (m : ST kernel A) sm sm' (Q : A -> Prop) :
  partial (heap_fits works sm) m (fun a k => heap_fits works sm' k /\ Q a) ->
  partial (glue_small sm) (in_host (in_kernel m)) (fun a g => glue_small sm' g /\ Q a).
Proof.
  intros Hm [h M] a g' [[H1 H2 H3] Hk]. unfold in_host. simpl in *. destruct (in_kernel m h) as [[b h']|] eqn:E; [|done].
  intros [= <- <-]. destruct (partial_in_kernel m sm sm' Q Hm h b h') as [[? ?] ?]; [by split | done |]. done.
Qed.

Lemma partial_host_stable {A} (m : ST kernel A) sm :
  stable (heap_fits works sm) m -> partial (glue_small sm) (in_host (in_kernel m)) (fun _ => glue_small sm).
Proof.
  intros Hm. eapply partial_conseq; [apply (partial_host_kernel m sm sm (fun _ => True)) | done | by intros a g [? _]].
  eapply partial_conseq; [exact Hm | done | done].
Qed.

Lemma partial_page_cll cap v :
  cap <= MAX_ITEMS -> bio_fits v ->
  partial (glue_small none) (match bi_cll v with None => in_host (in_kernel (new_cause_list_list cap)) | Some _ => ret (bi_cll v) end)
    (fun o g => glue_small none g /\ forall l, o = Some l -> cll_fits l).
Proof.
  intros Hc Hv. unfold bio_fits in Hv. destruct (bi_cll v) as [l|]; [by apply partial_ret |].
  apply partial_host_kernel. by apply partial_new_cll.
Qed.

Lemma stable_copy_page ms pg bi page_size :
  ms <= MAX_SECTORS -> page_sized page_size -> bi ∈ T -> stable fit_glue (copy_causes_page_to_bio ms pg bi page_size).
Proof.
  intros Hm Hs HT. unfold copy_causes_page_to_bio. apply stable_bind; [apply stable_get_page |]. intros [l|]; [|apply stable_ret].
  apply stable_bind; [apply stable_cell |]. intros [p|]; [|apply stable_ret].
  eapply partial_bind; [apply partial_get_bio |]. intros v. apply partial_pure. intros Hv.
  eapply partial_bind.
  { eapply partial_conseq; [apply (partial_page_cll (Z.shiftr ms 1) v); [|done] | | intros o g Hg; exact Hg].
    - unfold MAX_SECTORS, MAX_ITEMS in *. rewrite Z.shiftr_div_pow2 by lia. apply Z.div_le_upper_bound; lia.
    - intros g Hg. split; [done |]. apply ob_fits, Hg. }
  intros o. apply partial_pure. intros Ho. eapply partial_bind; [apply partial_host_stable, stable_read |]. intros c.
  eapply partial_bind; [apply (partial_host_kernel _ none (eq p) (fun _ => True)) |].
  { intros k a k' Hk E. split; [|done]. by eapply fits_write_size. }
  intros u. apply partial_pure. intros _. eapply partial_bind; [apply partial_host_kernel, (partial_cll_add works o p Ho) |].
  intros o'. apply partial_pure. intros Ho'.
  eapply partial_conseq; [|intros g [Hg _]; exact Hg | intros a g Hg; exact Hg].
  apply stable_bind; [apply stable_in_host, stable_put_cause_list |]. intros _.
  apply stable_bind; [by apply stable_set_bio |]. intros _. by apply stable_change.
Qed.

Lemma stable_submit_extent_page ms joins old new pg page_size :
  ms <= MAX_SECTORS -> page_sized page_size -> (forall bi, old = Some bi \/ new = Some bi -> bi ∈ T) ->
  stable fit_glue (submit_extent_page ms joins old new pg page_size).
Proof.
  intros Hm Hs HT. unfold submit_extent_page. apply stable_bind.
  - destruct old as [bi|]; [|apply stable_ret]. apply stable_bind; [|intros; apply stable_ret].
    apply stable_copy_page; auto.
  - intros []; [apply stable_ret |]. destruct new as [bi|]; [|apply stable_ret].
    apply stable_bind; [apply stable_bio_alloc; auto |]. intros _.
    apply stable_bind; [apply stable_copy_page; auto | intros; apply stable_ret].
Qed.

(** Every operation keeps the sizes in order, and leaves the other bios and the work items alone. *)
Lemma op_fits o : sizes_ok o -> (forall bi, bi ∈ touched o -> bi ∈ T) -> stable fit_glue (run_op o).
Proof.
  intros Hs HT. assert (HT1 : forall bi, touched o = [bi] -> bi ∈ T) by (intros bi E; apply HT; rewrite E; left).
  destruct o as [| | | |bhs b_size cur id ino pos|bhs b_size cur id ino|write ms bh b_size bi|ms bh b_size bi| | | | | | | | | | | | | |
    |bi|bi|ms bi szs| | |pg cur id ino pos|ms joins old new pg sz];
    simpl in Hs, HT, HT1 |- *;
    try solve [match goal with |- partial _ ?m _ => let f := head m in unfold f end; fit].
  - apply stable_for_each. intros. by apply stable_dirty_buffer.
  - apply stable_for_each. intros. by apply stable_dirty_buffer.
  - destruct write; [|apply stable_ret]. destruct Hs. apply stable_move_to_bio; auto.
  - destruct Hs. apply stable_move_to_bio; auto.
  - apply stable_bio_alloc; auto.
  - apply stable_bio_free; auto.
  - destruct Hs. apply stable_zeroout; auto.
  - unfold add_to_causes. fit. by apply stable_dirty_hook.
  - destruct Hs. apply stable_bind; [|intros; apply stable_ret]. apply stable_submit_extent_page; auto.
    intros bi [-> | ->]; apply HT, elem_of_app; [left | right]; simpl; left.
Qed.
End Ops.

(** ** Tags in order *)

Lemma refs_in_elem l (p : ptr) : Some p ∈ l -> 0 < refs_in l p.
Proof.
  induction l as [|o l IH]; [by intros ?%elem_of_nil |]. unfold refs_in in *. simpl. intros [<- | Hin]%elem_of_cons.
  - rewrite one_eq. pose proof (refs_in_nonneg l p). unfold refs_in in *. lia.
  - pose proof (one_range o p). specialize (IH Hin). lia.
Qed.

(** The cause lists of a bio in memory are there. *)
Lemma bio_lists_there k M bi b l :
  owned k (holders M) -> bios M !! bi = Some b -> bio_fits b -> bi_cll b = Some l ->
  (exists u, uniq_causes l = Some u /\ is_Some (k_causes k !! u)) /\ 0 <= cll_item_count l <= MAX_ITEMS /\
  cll_item_count l <= Z.of_nat (length (cll_items l)) /\
  forall i, 0 <= i < cll_item_count l -> exists p, cll_items l !! Z.to_nat i = Some (Some p) /\ is_Some (k_causes k !! p).
Proof.
  intros Ho Hb Hf Hl. destruct (Hf l Hl) as [[[u Hu] Ha Hc _] Hcap _ Hall].
  assert (Hthere : forall p, 0 < holders M p -> is_Some (k_causes k !! p)).
  { intros p Hp. destruct (owned_lookup _ _ p Ho Hp) as (c & Hpc & _). by exists c. }
  pose proof (fun p => bio_held M bi b p Hb) as Hheld. rewrite Hl in Hheld. simpl in Hheld.
  split_and!; try lia.
  - exists u. split; [done |]. apply Hthere. specialize (Hheld u). rewrite Hu, one_eq in Hheld.
    pose proof (refs_in_nonneg (cll_used l) u). lia.
  - intros i Hi. destruct (lookup_lt_is_Some_2 (cll_items l) (Z.to_nat i)) as [o Hio]; [lia |].
    assert (Hin : o ∈ cll_used l).
    { unfold cll_used. apply list_elem_of_lookup. exists (Z.to_nat i). by rewrite lookup_take_lt by lia. }
    rewrite list.Forall_forall in Hall. destruct (Hall o Hin) as [p ->]. exists p. split; [done |].
    apply Hthere. specialize (Hheld p). pose proof (refs_in_elem _ _ Hin). pose proof (one_range (uniq_causes l) p). lia.
Qed.

(** Bios of the memory, with sectors that a disk has. *)
Definition linked (M : memory) (bs : list ptr) (l : list bio) : Prop :=
  Forall2 (fun bi b => bios M !! bi = Some b /\ 0 <= bi_sector b < 0x4000000000000) bs l.

Lemma linked_mono M M' bs l :
  linked M bs l -> (forall bi, bi ∈ bs -> bios M' !! bi = bios M !! bi) -> linked M' bs l.
Proof.
  intros Hl. induction Hl as [|bi b bs l [Hb Hs] _ IH]; intros Hm; constructor.
  - by rewrite Hm by left.
  - apply IH. intros bi' Hin. apply Hm. by right.
Qed.

Lemma linked_in M bs l b : linked M bs l -> b ∈ l -> exists bi, bios M !! bi = Some b /\ 0 <= bi_sector b < 0x4000000000000.
Proof.
  intros Hl Hb. apply list_elem_of_lookup in Hb as [i Hi].
  destruct (Forall2_lookup_r _ _ _ _ _ Hl Hi) as (bi & _ & H). by exists bi.
Qed.

Lemma alter_known {A} (m : gmap ptr A) f p x : m !! p = Some x -> alter f p m = <[p := f x]> m.
Proof. intros Hp. apply map_eq. intros i. rewrite lookup_alter, lookup_insert. case_decide; [subst i; by rewrite Hp | done]. Qed.
