(* ===== verification/StackLib.v ===== *)
(** * What the machines with a scheduler share

    How a scheduler may change cause lists without touching their counts and sizes, and the references
    of requests and work items, which the memory of Buffers.v keeps in [lost]. *)

From S2P Require Import Prelude Partial CInt Kernel CauseTags CauseRefs Buffers BuffersInv BuffersRuns BuffersFit.

(** ** Changes of cause lists *)

(** A change of a cause list that is neither counted nor sized. *)
Record mild (f : cause_list -> cause_list) : Prop := {
  ml_refs : forall c, refcount (f c) = refcount c;
  ml_items : forall c, items (f c) = items c /\ item_count (f c) = item_count c;
  ml_size : forall c, cl_size (f c) = cl_size c;
}.

#[export] Instance same_refs_preorder : PreOrder same_refs.
Proof. split; [by split |]. intros k1 k2 k3 [N1 R1] [N2 R2]. split; congruence. Qed.

Lemma same_refs_alter k p f :
  (forall c, refcount (f c) = refcount c) -> same_refs k (k <| k_causes ::= alter f p |>).
Proof.
  intros Hf. split; [done |]. simpl. apply map_eq. intros q. rewrite !lookup_fmap, lookup_alter.
  case_decide; [subst q | done]. destruct (k_causes k !! p); simpl; [by rewrite Hf | done].
Qed.

Lemma stable_same_read k line p : stable (eq k) (read_causes line p).
Proof. apply stable_reads. intros k' a k1. unfold read_causes. by case_match; intros; simplify_eq. Qed.

Lemma add_works cl id k rv k' : __cause_list_add cl id k = Ok (rv, k') -> k_works k' = k_works k.
Proof.
  destruct cl as [p|]; [|by intros [= _ <-]]. unfold __cause_list_add, bind, read_causes.
  destruct (k_causes k !! p) as [c|]; [|done]. destruct (existsb _ _); simpl; [by intros [= _ <-] |].
  destruct (w_alloc _ _); simpl; by intros [= _ <-].
Qed.

Lemma add_refs cl id k rv k' : __cause_list_add cl id k = Ok (rv, k') -> same_refs k k'.
Proof.
  destruct cl as [p|]; [|by intros [= _ <-]]. destruct (k_causes k !! p) as [c|] eqn:Ec.
  2: { unfold __cause_list_add, bind, read_causes. by rewrite Ec. }
  intros E. destruct (__cause_list_add_run k p c id Ec) as (rv1 & k1 & E1 & Hn & _ & Hcase). rewrite E in E1. injection E1 as <- <-.
  split; [done |]. destruct Hcase as [(_ & _ & ->)|(_ & -> & _)]; [|done].
  rewrite fmap_insert. apply insert_id. by rewrite lookup_fmap, Ec.
Qed.

Lemma stable_both {S A} (P Q : S -> Prop) (m : ST S A) : stable P m -> stable Q m -> stable (fun s => P s /\ Q s) m.
Proof. intros HP HQ s a s' [H1 H2] E. split; [by eapply HP | by eapply HQ]. Qed.

(** ** The references that are not in the cells *)

(** One pointer to the list [cl] is gone. *)
Fixpoint drop_ref (cl : option ptr) (l : list (option ptr)) : list (option ptr) :=
  match l with [] => [] | x :: l => if decide (x = cl) then l else x :: drop_ref cl l end.

Lemma lost_held M p : refs_in (lost M) p <= holders M p.
Proof.
  unfold holders, cell_refs, bio_refs.
  pose proof (msum_nonneg (fun o => one o p) (cells M) (one_nonneg p)).
  pose proof (msum_nonneg (fun b => cll_refs (bi_cll b) p) (bios M) (fun b => cll_refs_nonneg (bi_cll b) p)). lia.
Qed.

Lemma owned_after_new k o k' M :
  owned k (holders M) -> __new_cause_list k = Ok (o, k') -> owned k' (holders (M <| lost ::= cons o |>)).
Proof.
  intros Ho E. destruct (new_run k) as (o1 & k1 & E1 & _ & Hn). rewrite E in E1. injection E1 as <- <-. destruct o as [p|].
  - destruct Hn as (-> & Hn & c & Hc & Ek). eapply owned_ext; [by eapply (owned_new k k' (holders M)) | done | done |].
    intros p. apply holders_lose.
  - destruct Hn as [Ek Hn]. eapply owned_ext; [exact Ho | done | done |]. intros p. rewrite holders_lose, one_none. lia.
Qed.

(** [put_cause_list_safe] makes a work item, if there is memory for it. *)
Lemma put_safe_run cl k :
  exists k', put_cause_list_safe cl k = Ok (tt, k') /\ k_causes k' = k_causes k /\ k_next k' = k_next k /\
    (k_works k' = k_works k \/ k_works k' = k_works k ++ [cl]).
Proof.
  unfold put_cause_list_safe, bind, in_world, zoom, kmalloc. simpl.
  destruct (w_alloc _ _); eexists; (split; [reflexivity |]); split_and!; auto.
Qed.

Lemma drop_ref_refs cl l p :
  (forall q, cl = Some q -> 0 < refs_in l q) -> refs_in (drop_ref cl l) p = refs_in l p - one cl p.
Proof.
  destruct cl as [q|]; intros Hq.
  - specialize (Hq q eq_refl). induction l as [|o l IH]; [by unfold refs_in in Hq |]. simpl. unfold refs_in in *. simpl in *.
    case_decide as Hd; [subst o; lia |]. simpl. rewrite IH; [lia |].
    assert (one o q = 0) by (unfold one; by rewrite decide_False). lia.
  - rewrite one_none. clear Hq. induction l as [|o l IH]; [done |]. simpl. unfold refs_in in *. simpl.
    case_decide; [subst o; rewrite one_none; lia |]. simpl. lia.
Qed.

Lemma holders_drop_ref M cl p :
  (forall q, cl = Some q -> 0 < refs_in (lost M) q) -> holders (M <| lost ::= drop_ref cl |>) p = holders M p - one cl p.
Proof. intros Hq. unfold holders. simpl. rewrite drop_ref_refs by done. lia. Qed.

(** ** Deciding what the kernel promises of sizes *)

#[export] Instance page_sized_dec n : Decision (page_sized n).
Proof. unfold page_sized. apply _. Defined.
#[export] Instance sizes_ok_dec o : Decision (sizes_ok o).
Proof. destruct o; simpl; apply _. Defined.
