(* ===== verification/Tags.v ===== *)
(** * Requests whose tags are in order

    What the block layer promises of the cause lists of a request when it hands the
    request to a scheduler, stated once for the request types of the schedulers: the
    class [Tagged] gives the bios of a request and its own cause list. *)

From S2P Require Import Prelude CInt Kernel DiskSim IoBatch CauseTags.

(** ** Tags of a bio *)

(** A bio whose tags are in order. *)
Record bio_ok (k : kernel) (b : bio) : Prop := {
  bo_sector : 0 <= bi_sector b < 0x4000000000000;
  bo_cll : forall l, bi_cll b = Some l ->
    (exists u, uniq_causes l = Some u /\ is_Some (k_causes k !! u)) /\
    0 <= cll_item_count l <= 0x40000000 /\
    cll_item_count l <= Z.of_nat (length (cll_items l)) /\
    (forall i, 0 <= i < cll_item_count l ->
       exists p, cll_items l !! Z.to_nat i = Some (Some p) /\ is_Some (k_causes k !! p));
}.

(** Two kernels with the same cause lists. *)
Definition same_causes (k k' : kernel) : Prop :=
  k_causes k' = k_causes k /\ k_next k' = k_next k.

Lemma bio_ok_dom k k' b :
  bio_ok k b -> (forall p, is_Some (k_causes k !! p) -> is_Some (k_causes k' !! p)) -> bio_ok k' b.
Proof.
  intros [Hs Hc] Hd. split; [done |]. intros l Hl.
  destruct (Hc l Hl) as ((u & Hu & Hus) & Hn & Hlen & Hi). split_and!; eauto; try lia.
  intros i Hb. destruct (Hi i Hb) as (p & Hp & Hps). eauto.
Qed.

Class Tagged (R : Type) := { tag_bios : R -> list bio; tag_causes : R -> option ptr }.

Section Tagged.
Context {request : Type} {T : Tagged request}.

Record request_ok (k : kernel) (r : request) : Prop := {
  ro_bios : Forall (bio_ok k) (tag_bios r);
  ro_causes : forall p, tag_causes r = Some p -> is_Some (k_causes k !! p);
}.

Record env_wf (k : kernel) (rs : gmap ptr request) : Prop := {
  ew_kernel : kernel_wf k;
  ew_sizes : forall p c, k_causes k !! p = Some c -> 0 <= cl_size c <= MAX_IO;
  ew_rqs : forall rq r, rs !! rq = Some r -> request_ok k r;
}.

Lemma request_ok_dom k k' r :
  request_ok k r -> (forall p, is_Some (k_causes k !! p) -> is_Some (k_causes k' !! p)) ->
  request_ok k' r.
Proof.
  intros [Hb Hc] Hd. split; [|eauto].
  eapply Forall_mono; [|exact Hb]. intros b Hbo. by eapply bio_ok_dom.
Qed.

Lemma env_wf_same k k' rs : env_wf k rs -> same_causes k k' -> env_wf k' rs.
Proof.
  intros [Hk Hs Hr] [E1 E2]. split.
  - by eapply kernel_wf_same.
  - by rewrite E1.
  - intros rq r Hrq. eapply request_ok_dom; eauto. by rewrite E1.
Qed.

(** A request may get another cause list. *)
Lemma env_wf_tag k rs rq r r' :
  env_wf k rs -> rs !! rq = Some r -> tag_bios r' = tag_bios r ->
  (forall p, tag_causes r' = Some p -> is_Some (k_causes k !! p)) -> env_wf k (<[rq := r']> rs).
Proof.
  intros [Hk Hs Hr] Hrq E1 E2. split; auto. intros q x. rewrite lookup_insert. case_decide; [|apply Hr].
  intros [= <-]. destruct (Hr rq r Hrq) as [H1 H2]. split; [by rewrite E1 | done].
Qed.

(** A request may change as long as it keeps its tags. *)
Lemma env_wf_put k rs rq r r' :
  env_wf k rs -> rs !! rq = Some r -> tag_bios r' = tag_bios r -> tag_causes r' = tag_causes r ->
  env_wf k (<[rq := r']> rs).
Proof.
  intros He Hrq E1 E2. apply (env_wf_tag _ _ _ r); auto. rewrite E2. apply (ew_rqs _ _ He rq r Hrq).
Qed.

Lemma env_wf_write k p f rs :
  env_wf k rs -> (forall c, causes_wf c -> causes_wf (f c)) ->
  (forall c, cl_size (f c) = cl_size c) ->
  env_wf (k <| k_causes ::= alter f p |>) rs.
Proof.
  intros [[Hc Hn] Hs Hr] Hf Hsz.
  assert (Hl : forall q c, alter f p (k_causes k) !! q = Some c ->
     exists c0, k_causes k !! q = Some c0 /\ (c = c0 \/ c = f c0)).
  { intros q c Hq. destruct (decide (p = q)) as [->|Hne].
    - rewrite lookup_alter_eq in Hq. destruct (k_causes k !! q); simplify_eq/=; eauto.
    - rewrite lookup_alter_ne in Hq by done. eauto. }
  split; [split | |]; simpl.
  - intros q c (c0 & Hq & [->| ->])%Hl; eauto.
  - intros q c (c0 & Hq & _)%Hl; eauto.
  - intros q c (c0 & Hq & [->| ->])%Hl; rewrite ?Hsz; eauto.
  - intros rq r Hrq. eapply request_ok_dom; [by apply (Hr rq) |]. simpl. intros q [c Hq].
    destruct (decide (p = q)) as [->|Hne].
    + rewrite lookup_alter_eq, Hq. by eexists.
    + rewrite lookup_alter_ne by done. by eexists.
Qed.

(** Adding an account to the cause list of a request. *)
Lemma cause_list_add_env k rs r cur :
  env_wf k rs -> request_ok k r ->
  exists rv k', __cause_list_add (tag_causes r) cur k = Ok (rv, k') /\ env_wf k' rs /\
    (forall q, is_Some (k_causes k !! q) -> is_Some (k_causes k' !! q)) /\
    w_alloc (k_world k') = w_alloc (k_world k).
Proof.
  intros He Hrq. destruct (tag_causes r) as [p|] eqn:Ep; [|by exists 0, k].
  destruct (ro_causes _ _ Hrq p Ep) as [c Hc].
  destruct (__cause_list_add_run k p c cur Hc) as (rv & k' & E & Hn & Hal & Hcase).
  exists rv, k'. split; [done |].
  assert (Hdom : forall p, is_Some (k_causes k !! p) -> is_Some (k_causes k' !! p)).
  { intros q Hqs. destruct Hcase as [(_ & _ & ->)|(_ & -> & _)]; [|done].
    rewrite lookup_insert. case_decide; [by eexists | done]. }
  split; [|done]. destruct He as [Hk Hs Hrqs]. split.
  - destruct Hcase as [(_ & Hnin & Ek)|(_ & Ek & _)]; [|by eapply kernel_wf_same].
    eapply kernel_wf_insert; eauto. apply add_item_wf; [|done]. by apply (kernel_causes _ Hk p).
  - intros q d. destruct Hcase as [(_ & _ & ->)|(_ & -> & _)]; [|apply Hs].
    rewrite lookup_insert. case_decide; [intros [= <-]; exact (Hs p c Hc) | apply Hs].
  - intros rq r' Hr'. eapply request_ok_dom; eauto.
Qed.

(** A fresh cause list. *)
Lemma new_cause_list_env k rs p k' :
  env_wf k rs -> __new_cause_list k = Ok (p, k') ->
  env_wf k' rs /\ (forall q, is_Some (k_causes k !! q) -> is_Some (k_causes k' !! q)) /\
  (forall q, p = Some q -> is_Some (k_causes k' !! q)) /\ w_alloc (k_world k') = w_alloc (k_world k).
Proof.
  intros He. destruct (He) as [[Hc Hn] Hs Hr].
  unfold __new_cause_list, bind, in_world, zoom, kmalloc. simpl.
  destruct (w_alloc _ _); simpl; intros [= <- <-].
  2: { split; [by eapply env_wf_same; [exact He | split] | done]. }
  set (c := CauseList _ _ _ _ _ _ _ _ _). simpl.
  assert (Hdom : forall q, is_Some (k_causes k !! q) ->
    is_Some ((<[k_next k := c]> (k_causes k)) !! q)).
  { intros q Hq. rewrite lookup_insert. case_decide; [by eexists | done]. }
  split; [split; [split | |] | split; [done |]]; simpl.
  - intros q d. rewrite lookup_insert. case_decide; [intros [= <-]; split; [constructor | done] | eauto].
  - intros q d. rewrite lookup_insert. case_decide; [intros; lia |]. intros Hd%Hn. lia.
  - intros q d. rewrite lookup_insert. case_decide; [intros [= <-] | eauto].
    unfold MAX_IO. simpl. lia.
  - intros rq r Hrq. eapply request_ok_dom; eauto.
  - split; [|done]. intros q [= <-]. rewrite lookup_insert_eq. by eexists.
Qed.

Lemma new_cause_list_total k : exists p k', __new_cause_list k = Ok (p, k').
Proof.
  unfold __new_cause_list, bind, in_world, zoom, kmalloc. simpl. destruct (w_alloc _ _); by eexists _, _.
Qed.

End Tagged.
