(* ===== verification/RequestTags.v ===== *)
(** * Requests made of bios

    What ties the requests of a scheduler to the memory of Buffers.v, whichever the scheduler: each
    request has its bios and a cause list of its own, whose references are in [lost].  The tags of
    requests that are tied so are in order ([env_wf] of Tags.v), and stay tied when requests come and
    go, get bios and lose them, and when the file systems and the work queue run. *)

From S2P Require Import Prelude Partial CInt Kernel DiskSim IoBatch CauseTags CauseRefs Tags Buffers BuffersInv BuffersRuns BuffersFit StackLib.

(** The bios of each request, and its cause list. *)
Abbreviation tag_map := (gmap ptr (list bio * option ptr)).

(** A bio that a request has. *)
Definition has_bio (b : gmap ptr (list ptr)) (bi : ptr) : Prop := exists rq bs, b !! rq = Some bs /\ bi ∈ bs.

(** All of them. *)
Definition flying (b : gmap ptr (list ptr)) : list ptr := concat (snd <$> map_to_list b).

Lemma flying_spec b bi : bi ∉ flying b -> ~ has_bio b bi.
Proof.
  intros Hn (rq & bs & Hb & Hin). apply Hn. unfold flying. apply list_elem_of_In, in_concat. exists bs. split.
  - apply list_elem_of_In, list_elem_of_fmap. exists (rq, bs). split; [done |]. by apply elem_of_map_to_list.
  - by apply list_elem_of_In.
Qed.

(** [b] has the addresses of the bios of each request. *)
Record requests_ok (k : kernel) (M : memory) (b : gmap ptr (list ptr)) (t : tag_map) : Prop := {
  rk_owned : owned k (holders M);
  rk_mem : mem_ok M;
  rk_fits : heap_fits (k_works k) none k;
  rk_bios : forall bi v, bios M !! bi = Some v -> bio_fits v;
  rk_link : forall rq l cl, t !! rq = Some (l, cl) -> exists bs, b !! rq = Some bs /\ linked M bs l;
  rk_own : forall p, msum (fun x => one (snd x) p) t + refs_in (k_works k) p <= refs_in (lost M) p;
}.

(** ** The tags are in order *)

Lemma rk_held k M b t p : requests_ok k M b t -> 0 < holders M p -> is_Some (k_causes k !! p).
Proof. intros Hx Hp. destruct (owned_lookup _ _ p (rk_owned _ _ _ _ Hx) Hp) as (c & Hc & _). by exists c. Qed.

Lemma rk_bio_ok k M b t bi v :
  requests_ok k M b t -> bios M !! bi = Some v -> 0 <= bi_sector v < 0x4000000000000 -> bio_ok k v.
Proof.
  intros Hx Hb Hs. split; [done |]. intros l Hl.
  destruct (bio_lists_there _ _ bi v l (rk_owned _ _ _ _ Hx) Hb (rk_bios _ _ _ _ Hx bi v Hb) Hl) as (H1 & H2 & H3 & H4).
  unfold MAX_ITEMS in H2. split_and!; [done | lia | lia | done | done].
Qed.

Lemma rk_env {R} {T : Tagged R} k M b (rs : gmap ptr R) :
  requests_ok k M b ((fun r => (tag_bios r, tag_causes r)) <$> rs) -> env_wf k rs.
Proof.
  intros Hx. split; [split | |].
  - intros p c Hc. apply (hf_lists _ _ _ (rk_fits _ _ _ _ Hx) p c Hc).
  - intros p c Hc. apply (ow_next _ _ (rk_owned _ _ _ _ Hx)). by exists c.
  - intros p c Hc. apply (hf_lists _ _ _ (rk_fits _ _ _ _ Hx) p c Hc).
  - intros rq r Hr. set (t := (fun r => (tag_bios r, tag_causes r)) <$> rs) in *.
    assert (Ht : t !! rq = Some (tag_bios r, tag_causes r)) by (unfold t; by rewrite lookup_fmap, Hr). split.
    + destruct (rk_link _ _ _ _ Hx _ _ _ Ht) as (bs & _ & Hl). apply list.Forall_forall. intros v Hv.
      destruct (linked_in _ _ _ _ Hl Hv) as (bi & Hbi & Hs). by eapply rk_bio_ok.
    + intros p E. eapply rk_held; [exact Hx |]. pose proof (rk_own _ _ _ _ Hx p) as Hp. pose proof (lost_held M p).
      pose proof (msum_lookup (fun x : list bio * option ptr => one (snd x) p) _ _ _ (fun x => one_nonneg p (snd x)) Ht) as Hm.
      simpl in Hm. rewrite E, one_eq in Hm. pose proof (refs_in_nonneg (k_works k) p). lia.
Qed.

(** ** What keeps the requests tied *)

(** At first there are none. *)
Lemma rk_boot k init : k_causes k = ∅ -> k_works k = [] -> requests_ok k (boot_memory init) ∅ ∅.
Proof.
  intros Ek Ew. split; rewrite ?Ew; try done.
  - split; intros p; rewrite Ek, lookup_empty; [apply boot_holders | by intros []].
  - split; rewrite ?Ek; done.
Qed.

(** The scheduler has written into cause lists. *)
Lemma rk_written k k' M b t :
  requests_ok k M b t -> same_refs k k' -> k_works k' = k_works k -> heap_fits (k_works k) none k' -> requests_ok k' M b t.
Proof. intros [H1 H2 H3 H4 H5 H6] Hr Hw Hf. split; rewrite ?Hw; try done. by eapply owned_same. Qed.

(** The file systems have run. *)
Lemma rk_fs k k' M M' b t new :
  requests_ok k M b t -> owned k' (holders M') -> mem_ok M' -> heap_fits (k_works k) none k' ->
  (forall bi v, bios M' !! bi = Some v -> bio_fits v) -> (forall bi, has_bio b bi -> bios M' !! bi = bios M !! bi) ->
  lost M' = new ++ lost M -> requests_ok k' M' b t.
Proof.
  intros [H1 H2 H3 H4 H5 H6] Ho Hm Hf Hb Hk El. pose proof (hf_works _ _ _ Hf) as Ew. split; rewrite ?Ew; try done.
  - intros rq l cl Ht. destruct (H5 rq l cl Ht) as (bs & Hbs & Hl). exists bs. split; [done |].
    eapply linked_mono; [exact Hl |]. intros bi Hbi. apply Hk. by exists rq, bs.
  - intros p. rewrite El, refs_in_app. specialize (H6 p). pose proof (refs_in_nonneg new p). lia.
Qed.

(** A request is made, with a cause list of its own. *)
Lemma rk_new k k' M b t rq o :
  requests_ok k M b t -> t !! rq = None -> __new_cause_list k = Ok (o, k') ->
  requests_ok k' (M <| lost ::= cons o |>) (<[rq := []]> b) (<[rq := ([], o)]> t).
Proof.
  intros [H1 H2 H3 H4 H5 H6] Ht E. assert (Hf : heap_fits (k_works k) none k') by (eapply stable_new; [exact H3 | exact E]).
  pose proof (hf_works _ _ _ Hf) as Ew. split; rewrite ?Ew; try done.
  - by eapply owned_after_new.
  - by apply mem_ok_lose.
  - intros rq' l cl. rewrite !lookup_insert. case_decide; [|apply H5]. intros [= <- <-]. exists []. split; [done | constructor].
  - intros p. rewrite msum_insert by done. simpl. specialize (H6 p). unfold refs_in in *. simpl. lia.
Qed.

(** A request of a scheduler that gives it no cause list. *)
Lemma rk_bare k M b t rq : requests_ok k M b t -> t !! rq = None -> requests_ok k M (<[rq := []]> b) (<[rq := ([], None)]> t).
Proof.
  intros [H1 H2 H3 H4 H5 H6] Ht. split; try done.
  - intros rq' l cl. rewrite !lookup_insert. case_decide; [|apply H5]. intros [= <- <-]. exists []. split; [done | constructor].
  - intros p. rewrite msum_insert by done. simpl. specialize (H6 p). rewrite one_none. lia.
Qed.

(** A bio joins a request, at the front or at the back; its place on the disk is known then. *)
Definition join_bio {A} (front : bool) (x : A) (l : list A) : list A := if front then x :: l else l ++ [x].

Lemma rk_add k M b t rq l cl bs bi v sector size front :
  let v' := v <| bi_sector := sector |> <| bi_size := size |> in
  requests_ok k M b t -> t !! rq = Some (l, cl) -> b !! rq = Some bs -> bios M !! bi = Some v -> ~ has_bio b bi ->
  0 <= sector < 0x4000000000000 ->
  requests_ok k (M <| bios ::= <[bi := v']> |>) (<[rq := join_bio front bi bs]> b) (<[rq := (join_bio front v' l, cl)]> t).
Proof.
  intros v' [H1 H2 H3 H4 H5 H6] Ht Hbs Hv Hfl Hsec. set (M' := M <| bios ::= <[bi := v']> |>).
  assert (Hold : forall rq' bs' l', b !! rq' = Some bs' -> linked M bs' l' -> linked M' bs' l').
  { intros rq' bs' l' Hb' Hl. eapply linked_mono; [exact Hl |]. intros bi' Hbi'. simpl. rewrite lookup_insert_ne; [done |].
    intros ->. apply Hfl. by exists rq', bs'. }
  split; try done.
  - eapply owned_ext; [exact H1 | done | done |]. intros p. unfold M'. rewrite (holders_bio M bi v _ p Hv). simpl. lia.
  - apply mem_ok_bio; [apply (mo_cll _ H2 bi v Hv) | done].
  - intros bi' w. simpl. rewrite lookup_insert. case_decide; [intros [= <-]; exact (H4 bi v Hv) | apply H4].
  - intros rq' l' cl'. rewrite !lookup_insert. case_decide as Hd.
    + intros [= <- <-]. exists (join_bio front bi bs). split; [done |]. destruct (H5 rq l cl Ht) as (bs1 & Hb1 & Hl). rewrite Hbs in Hb1. injection Hb1 as <-.
      specialize (Hold rq _ l Hbs Hl).
      assert (Hnew : bios M' !! bi = Some v' /\ 0 <= bi_sector v' < 0x4000000000000) by (simpl; by rewrite lookup_insert_eq).
      unfold join_bio, linked in *. destruct front; [by constructor |]. apply Forall2_app; [done |]. constructor; [done | constructor].
    + intros Ht'. destruct (H5 rq' l' cl' Ht') as (bs' & Hb' & Hl). exists bs'. split; [done | by eapply Hold].
  - intros p. rewrite (msum_update _ _ _ _ _ Ht). specialize (H6 p). simpl. lia.
Qed.

(** A request has other bios of the memory. *)
Lemma rk_chain k M b t rq l cl l' bs' :
  requests_ok k M b t -> t !! rq = Some (l, cl) -> linked M bs' l' ->
  requests_ok k M (<[rq := bs']> b) (<[rq := (l', cl)]> t).
Proof.
  intros [H1 H2 H3 H4 H5 H6] Ht Hl. split; try done.
  - intros rq' l1 cl1. rewrite !lookup_insert. case_decide; [intros [= <- <-]; eauto | apply H5].
  - intros p. rewrite (msum_update _ _ _ _ _ Ht). specialize (H6 p). simpl. lia.
Qed.

(** A request goes; the work queue puts its cause list, if there was memory for the work item. *)
Lemma rk_free k k' M b t rq l cl :
  requests_ok k M b t -> t !! rq = Some (l, cl) -> k_causes k' = k_causes k -> k_next k' = k_next k ->
  k_works k' = k_works k \/ k_works k' = k_works k ++ [cl] -> requests_ok k' M (delete rq b) (delete rq t).
Proof.
  intros [H1 H2 H3 H4 H5 H6] Ht Ek En Ew. split; try done.
  - by eapply owned_ext.
  - destruct H3 as [F1 F2 _]. split; rewrite ?Ek; done.
  - intros rq' l' cl' [Hne Ht']%lookup_delete_Some. rewrite lookup_delete_ne by done. by apply (H5 rq' l' cl').
  - intros p. rewrite (msum_delete _ _ _ _ Ht). specialize (H6 p). simpl.
    destruct Ew as [-> | ->]; [pose proof (one_range cl p); lia |]. rewrite refs_in_app. unfold refs_in at 2. simpl. lia.
Qed.

(** The work item that is next holds a reference, *)
Lemma rk_work_held k M b t cl ws q :
  requests_ok k M b t -> k_works k = cl :: ws -> cl = Some q -> 0 < refs_in (lost M) q.
Proof.
  intros [H1 H2 H3 H4 H5 H6] Ew ->. specialize (H6 q). rewrite Ew in H6. unfold refs_in in *. simpl in H6. rewrite one_eq in H6.
  pose proof (refs_in_nonneg ws q). unfold refs_in in *.
  pose proof (msum_nonneg (fun x : list bio * option ptr => one (snd x) q) t (fun x => one_nonneg q (snd x))). lia.
Qed.

(** which is given back when the item has run. *)
Lemma rk_work k k' M b t cl ws u :
  requests_ok k M b t -> k_works k = cl :: ws -> owned k' u -> (forall p, u p = holders M p - one cl p) ->
  heap_fits ws none k' -> requests_ok k' (M <| lost ::= drop_ref cl |>) b t.
Proof.
  intros Hx Ew Ho Hu Hf. pose proof (fun q => rk_work_held _ _ _ _ _ _ q Hx Ew) as Hpos. destruct Hx as [H1 H2 H3 H4 H5 H6].
  pose proof (hf_works _ _ _ Hf) as Ew'. split; rewrite ?Ew'; try done.
  - eapply owned_ext; [exact Ho | done | done |]. intros p. rewrite Hu. by apply holders_drop_ref.
  - by destruct H2.
  - intros p. simpl. rewrite drop_ref_refs by done. specialize (H6 p). rewrite Ew in H6. unfold refs_in in *. simpl in H6. lia.
Qed.
