(* ===== verification/Queue.v ===== *)
(** * Request queues (src/modules/queue.h)

    A FIFO of requests with the time of its last pop; a request is named by its
    address. *)

From S2P Require Import Prelude CInt Kernel.

Record queue := Queue {
  q_reqs : list ptr;       (* requests *)
  q_count : Z;             (* number of requests *)
  q_rw : Z;                (* 0: read, 1: write *)
  lastpop : timespec;
}.
#[export] Instance eta_queue : Eta queue := fun q =>
  Queue (q_reqs q) (q_count q) (q_rw q) (lastpop q).

Definition queue_init (rw : Z) : queue := Queue [] 0 rw (Timespec 0 0).

Definition queue_push (q : queue) (rq : ptr) : queue :=
  q <| q_reqs ::= fun l => l ++ [rq] |> <| q_count ::= fun n => s32 (n + 1) |>.

(** The request popped, if any, and the queue after; the clock is read only when
    there is a request. *)
Definition queue_pop (q : queue) : ST world (option ptr * queue) :=
  match q_reqs q with
  | [] => ret (None, q)
  | rq :: rest =>
      let! now := getnstimeofday in
      ret (Some rq, q <| q_reqs := rest |> <| q_count ::= fun n => s32 (n - 1) |>
                      <| lastpop := now |>)
  end.

Definition queue_pop_elapsed_us (q : queue) : ST world Z :=
  let! ts := getnstimeofday in
  if tv_sec ts >? s64 (tv_sec (lastpop q) + 2) then ret 1000000
  else
    let elapsed := u64 (s64 ((tv_sec ts - tv_sec (lastpop q)) * 1000000)) in
    let elapsed := u64 (elapsed + c_div (tv_nsec ts) 1000) in
    let elapsed := u64 (elapsed - c_div (tv_nsec (lastpop q)) 1000) in
    ret elapsed.

Definition queue_del (q : queue) (rq : ptr) : queue :=
  q <| q_reqs ::= filter (fun r => r <> rq) |> <| q_count ::= fun n => s32 (n - 1) |>.

(** The count of a queue is the number of its requests. *)
Definition queue_wf (q : queue) : Prop :=
  q_count q = s32 (Z.of_nat (length (q_reqs q))) /\ NoDup (q_reqs q).

Lemma queue_init_wf rw : queue_wf (queue_init rw).
Proof. split; [done | constructor]. Qed.

Lemma queue_push_wf q rq : queue_wf q -> rq ∉ q_reqs q -> queue_wf (queue_push q rq).
Proof.
  intros [Hc Hn] Hrq. split; simpl.
  - rewrite Hc, s32_add_l, length_app. simpl. f_equal. lia.
  - apply list.NoDup_app. split; [done |]. split; [|apply NoDup_singleton].
    intros x Hx ->%list_elem_of_singleton. done.
Qed.

Lemma queue_pop_run q w :
  exists o q' w', queue_pop q w = Ok ((o, q'), w') /\
    w_clock w' = w_clock w /\ w_alloc w' = w_alloc w /\ w_junk w' = w_junk w /\
    w_jiffies w' = w_jiffies w /\ q_rw q' = q_rw q /\
    match o with
    | None => q_reqs q = [] /\ q' = q
    | Some rq => q_reqs q = rq :: q_reqs q' /\ (queue_wf q -> queue_wf q')
    end.
Proof.
  unfold queue_pop. destruct (q_reqs q) as [|rq rest] eqn:E.
  { exists None, q, w. auto 10. }
  exists (Some rq). eexists _, _. split; [done |]. simpl. split_and!; auto.
  intros [Hc Hn]. rewrite E in Hc, Hn. simpl in Hc. split; simpl.
  - rewrite Hc, s32_sub_l. f_equal. lia.
  - by apply list.NoDup_cons in Hn as [_ Hn].
Qed.

Lemma filter_ne_length (l : list ptr) rq :
  NoDup l -> rq ∈ l -> S (length (filter (fun r => r <> rq) l)) = length l.
Proof.
  induction 1 as [|x l Hx Hl IH]; [by intros ?%elem_of_nil |].
  intros [->|Hin]%elem_of_cons.
  - rewrite filter_cons_False by auto. simpl. f_equal. f_equal.
    induction l as [|y l IHl]; [done |]. rewrite filter_cons_True.
    + simpl. f_equal. apply IHl; [by apply not_elem_of_cons in Hx as [_ Hx] | |].
      * by apply list.NoDup_cons in Hl as [_ Hl].
      * intros Hin. destruct Hx. by right.
    + intros ->. apply Hx. left.
  - rewrite filter_cons_True by (by intros ->). simpl. f_equal. by apply IH.
Qed.

Lemma queue_del_wf q rq : queue_wf q -> rq ∈ q_reqs q -> queue_wf (queue_del q rq).
Proof.
  intros [Hc Hn] Hin. split; simpl; [|by apply NoDup_filter].
  rewrite Hc, s32_sub_l, <- (filter_ne_length _ rq) by done. f_equal. lia.
Qed.

(** The time since the last pop is exact up to the rounding of both times
    to microseconds, as long as the clock moved on by less than three seconds; in
    particular the result can exceed the second that the comment in queue.h
    promises. *)
Theorem queue_pop_elapsed_exact q w :
  let ts := w_clock w (w_tick w) in
  ts_normal ts -> ts_normal (lastpop q) -> ts_ns (lastpop q) + 1000 <= ts_ns ts ->
  tv_sec ts <= tv_sec (lastpop q) + 2 -> 0 <= tv_sec (lastpop q) < 0x100000000 ->
  exists us w', queue_pop_elapsed_us q w = Ok (us, w') /\
    Z.abs (us * 1000 - (ts_ns ts - ts_ns (lastpop q))) < 1000 /\ 0 <= us < 3000000.
Proof.
  intros ts [Hn1 Hn2] [Hl1 Hl2] Hle Hsec Hb. unfold queue_pop_elapsed_us.
  rewrite (bind_ok _ _ w ts (clock_step w)) by done.
  unfold ts_ns, NSEC_PER_SEC in *.
  rewrite (s64_small (_ + 2)) by (unfold is_s64; lia).
  destruct (Z.gtb_spec (tv_sec ts) (tv_sec (lastpop q) + 2)); [lia |].
  unfold c_div. rewrite !Z.quot_div_nonneg by lia.
  pose proof (Z.div_mod (tv_nsec ts) 1000). pose proof (Z.mod_pos_bound (tv_nsec ts) 1000).
  pose proof (Z.div_mod (tv_nsec (lastpop q)) 1000).
  pose proof (Z.mod_pos_bound (tv_nsec (lastpop q)) 1000).
  eexists _, _. split; [done |].
  rewrite (s64_small (_ * 1000000)) by (unfold is_s64; lia).
  rewrite (u64_small ((_ - _) * 1000000)) by (unfold is_u64; lia).
  rewrite (u64_small (_ * 1000000 + _)) by (unfold is_u64; lia).
  rewrite u64_small by (unfold is_u64; lia). lia.
Qed.

Lemma queue_pop_elapsed_exact_witness :
  let q := (queue_init 0) <| lastpop := Timespec 98 5000 |> in
  let w := World (fun _ => Timespec 100 0) (fun _ => 0) (fun _ => true) (fun _ => 0) 0 0 in
  exists us w', queue_pop_elapsed_us q w = Ok (us, w') /\ Z.abs (us * 1000 - 1999995000) < 1000.
Proof.
  intros q w. destruct (queue_pop_elapsed_exact q w) as (us & w' & E & H & _).
  - by vm_compute.
  - by vm_compute.
  - by vm_compute.
  - by vm_compute.
  - simpl. lia.
  - exists us, w'. split; [exact E | exact H].
Defined.
