(* ===== verification/IoctlHelper.v ===== *)
(** * Registry of disks (src/modules/ioctl_helper.h, ioctl_helper.c)

    The list of request queues whose scheduler takes settings from the ioctl
    device, and the parser of the messages written to it.  A queue is named by its
    address. *)

From Stdlib Require Import Ascii String DecimalString DecimalZ.
From S2P Require Import Prelude CInt Kernel.

(** [disk_info_list]: the [q] of each [disk_info], in list order. *)
Abbreviation disk_list := (list ptr).

(** Returns 1 if the entry cannot be allocated. *)
Definition ioctl_helper_register_disk (alloc_ok : bool) (disks : disk_list) (q : ptr)
    : Z * disk_list :=
  if negb alloc_ok then (1, disks) else (0, disks ++ [q]).

(** Removes the first entry of the queue; [BUG_ON(1)] if there is none. *)
Fixpoint ioctl_helper_unregister_disk (disks : disk_list) (q : ptr) : result disk_list :=
  match disks with
  | [] => Fault (BUG 108)
  | d :: disks' =>
      if decide (d = q) then Ok disks'
      else let? rest := ioctl_helper_unregister_disk disks' q in Ok (d :: rest)
  end.

Definition ioctl_helper_init : disk_list := [].

Definition ioctl_helper_cleanup (disks : disk_list) : result unit :=
  bug_on 119 (match disks with [] => false | _ => true end).

(** ** The message "<id> <field> <value>" *)

(** kstrtol of the kernel on a decimal number; [None] is an error code. *)
Class StrFns := { kstrtol : string -> option Z }.

(** A number the way the callers print it. *)
Definition dec (z : Z) : string := NilEmpty.string_of_int (Z.to_int z).

(** What the parser relies on: a printed [long] is read back. *)
Class StrOk (F : StrFns) : Prop := { kstrtol_dec : forall z, is_s64 z -> kstrtol (dec z) = Some z }.

#[export] Instance ref_str : StrFns := {|
  kstrtol s := option_map Z.of_int (NilEmpty.int_of_string s)
|}.

Section Ioctl.
Context {F : StrFns}.

Definition NUL : ascii := Ascii.zero.
Definition SPACE : ascii := " "%char.

(** [strpbrk(msg + i, " ")]: the index of the first blank from index [i] on, and
    [None] if the string ends before.  The loop runs past the end of an array that
    has neither. *)
Fixpoint strpbrk (line : Z) (l : list ascii) : result (option nat) :=
  match l with
  | [] => Fault (OutOfBounds line)
  | c :: l' =>
      if decide (c = NUL) then Ok None
      else if decide (c = SPACE) then Ok (Some O)
      else let? r := strpbrk line l' in Ok (option_map S r)
  end.

(** The string that starts in the array, up to its NUL.  An array without one may be
    read past its end: [kstrtol] stops before only if a character is not a digit,
    which counts as an access out of bounds here all the same. *)
Fixpoint c_string (line : Z) (l : list ascii) : result string :=
  match l with
  | [] => Fault (OutOfBounds line)
  | c :: l' => if decide (c = NUL) then Ok EmptyString
               else let? s := c_string line l' in Ok (String c s)
  end.

(** What a message asks for. *)
Inductive command :=
  | SetAccount (val : Z)                       (* account_id of the caller *)
  | KvSetAll (id : Z) (key : string) (val : Z).

(** The parser of [device_ioctl]: [Ok None] is the return of -1.  [junk_id] and
    [junk_val] are the contents of the local variables, which a failing [kstrtol]
    leaves as they are. *)
Definition device_parse (junk_id junk_val : Z) (msg : list ascii) : result (option command) :=
  let? e := strpbrk 45 msg in
  match e with
  | None => Ok None
  | Some e =>
      let msg := <[e := NUL]> msg in
      let? id := c_string 51 msg in
      let id := default junk_id (kstrtol id) in
      let start := drop (S e) msg in
      let? e := strpbrk 53 start in
      match e with
      | None => Ok None
      | Some e =>
          let start := <[e := NUL]> start in
          let? field := c_string 59 start in
          let? val := c_string 62 (drop (S e) start) in
          let val := default junk_val (kstrtol val) in
          if String.eqb field "set-account" then Ok (Some (SetAccount (s32 val)))
          else Ok (Some (KvSetAll (s32 id) field val))
      end
  end.

(** [kv_set_all]: the setting goes to every disk of the registry. *)
Definition kv_set_all {St} (kv_set : ptr -> Z -> string -> Z -> ST St unit)
    (disks : disk_list) (id : Z) (key : string) (val : Z) : ST St unit :=
  for_each disks (fun q => kv_set q id key val).

(** [device_ioctl]; [set_account] is [atomic_set(&current->account_id, val)]. *)
Definition device_ioctl {St} (kv_set : ptr -> Z -> string -> Z -> ST St unit)
    (set_account : Z -> ST St unit) (disks : disk_list)
    (junk_id junk_val : Z) (msg : list ascii) : ST St Z :=
  let! c := lift (device_parse junk_id junk_val msg) in
  match c with
  | None => ret (-1)
  | Some (SetAccount val) => set_account val;; ret 100
  | Some (KvSetAll id key val) => kv_set_all kv_set disks id key val;; ret 100
  end.

End Ioctl.

(** ** Printing and parsing *)

(** [sprintf(buf, "%d %s %ld", id, field, val)] into a buffer of 100 bytes, the
    rest of which is zero. *)
Definition message (id : Z) (field : string) (val : Z) : list ascii :=
  let text := list_ascii_of_string (dec id) ++ SPACE ::
              list_ascii_of_string field ++ SPACE :: list_ascii_of_string (dec val) in
  text ++ replicate (100 - length text) NUL.

Definition word (s : string) : Prop :=
  Forall (fun c => c <> NUL /\ c <> SPACE) (list_ascii_of_string s).
#[export] Instance word_dec s : Decision (word s).
Proof. unfold word. apply _. Defined.

#[export] Instance ref_str_ok : StrOk ref_str.
Proof. split. intros z _. simpl. unfold dec. rewrite NilEmpty.isi. simpl. by rewrite of_to. Qed.

Lemma dec_word z : word (dec z).
Proof.
  assert (H : forall d, word (NilEmpty.string_of_uint d)).
  { induction d; simpl; constructor; done. }
  unfold dec, NilEmpty.string_of_int. destruct (Z.to_int z); [apply H |]. by constructor; [|apply H].
Qed.

Lemma strpbrk_word line s l :
  word s -> strpbrk line (list_ascii_of_string s ++ SPACE :: l)
            = Ok (Some (length (list_ascii_of_string s))).
Proof.
  unfold word. induction (list_ascii_of_string s) as [|c cs IH]; intros Hw; simpl; [done |].
  inversion_clear Hw as [|? ? [H1 H2] Hw']. rewrite !decide_False by done. by rewrite IH.
Qed.

Lemma c_string_word line s l :
  word s -> c_string line (list_ascii_of_string s ++ NUL :: l) = Ok s.
Proof.
  unfold word. induction s as [|c s IH]; intros Hw; simpl; [done |].
  inversion_clear Hw as [|? ? [H1 H2] Hw']. rewrite decide_False by done. by rewrite IH.
Qed.

(** Cutting a text at its first blank. *)
Lemma cut_blank s l :
  <[length (list_ascii_of_string s) := NUL]> (list_ascii_of_string s ++ SPACE :: l)
  = list_ascii_of_string s ++ NUL :: l.
Proof. rewrite <- (Nat.add_0_r (length _)), insert_app_r. done. Qed.

Lemma drop_word s l c :
  drop (S (length (list_ascii_of_string s))) (list_ascii_of_string s ++ c :: l) = l.
Proof. rewrite <- Nat.add_1_r, drop_app_add. done. Qed.

Lemma length_chars s : length (list_ascii_of_string s) = String.length s.
Proof. induction s; simpl; congruence. Qed.

Section Facts.
Context {F : StrFns} {FO : StrOk F}.

Lemma device_parse_message id field val j1 j2 n :
  is_s32 id -> is_s64 val -> word field ->
  device_parse j1 j2 (list_ascii_of_string (dec id) ++ SPACE :: list_ascii_of_string field ++
                      SPACE :: list_ascii_of_string (dec val) ++ replicate (S n) NUL)
  = Ok (Some (if String.eqb field "set-account" then SetAccount (s32 val)
              else KvSetAll id field val)).
Proof.
  intros Hid Hval Hw. unfold device_parse.
  rewrite strpbrk_word by apply dec_word. cbn [rbind].
  rewrite cut_blank, c_string_word by apply dec_word. cbn [rbind].
  rewrite drop_word, strpbrk_word by done. cbn [rbind].
  rewrite cut_blank, c_string_word by done. cbn [rbind].
  rewrite drop_word. simpl (replicate _ _). rewrite c_string_word by apply dec_word. cbn [rbind].
  rewrite !kstrtol_dec by (unfold is_s32, is_s64 in *; lia). simpl.
  rewrite (s32_small id) by done. by destruct (String.eqb field "set-account").
Qed.

(** C30: a message printed as "<id> <field> <value>" that fits the buffer with its
    terminator is read back exactly: the account of the caller is set, or the
    setting is handed to every disk of the registry with the number, the key and
    the value that were printed, and the call returns 100. *)
Theorem device_ioctl_roundtrip {St} (kv_set : ptr -> Z -> string -> Z -> ST St unit)
    set_account disks j1 j2 id field val s :
  is_s32 id -> is_s64 val -> word field ->
  (String.length (dec id) + String.length field + String.length (dec val) + 2 < 100)%nat ->
  device_ioctl kv_set set_account disks j1 j2 (message id field val) s =
  (if String.eqb field "set-account" then set_account (s32 val);; ret 100
   else kv_set_all kv_set disks id field val;; ret 100) s.
Proof.
  intros Hid Hval Hw Hlen. unfold device_ioctl, message.
  rewrite !length_app, !length_cons, !length_app, !length_cons.
  rewrite !length_chars.
  destruct (100 - _)%nat as [|n] eqn:E; [lia |].
  rewrite <- !app_assoc, <- !app_comm_cons, <- app_assoc.
  rewrite <- app_comm_cons, device_parse_message by done.
  unfold bind at 1, lift. by destruct (String.eqb field "set-account").
Qed.

(** A buffer full of text without a blank is read past its end: nothing of the
    parser stops at the 100 bytes that were copied. *)
Theorem device_ioctl_overread {St} (kv_set : ptr -> Z -> string -> Z -> ST St unit)
    set_account disks j1 j2 msg s :
  Forall (fun c => c <> NUL /\ c <> SPACE) msg ->
  device_ioctl kv_set set_account disks j1 j2 msg s = Fault (OutOfBounds 45).
Proof.
  intros H. assert (E : strpbrk 45 msg = Fault (OutOfBounds 45)).
  { induction H as [|c l [H1 H2] _ IH]; simpl; [done |].
    rewrite !decide_False by done. by rewrite IH. }
  unfold device_ioctl, bind, lift, device_parse. by rewrite E.
Qed.
End Facts.

(** A registry of two disks that log what they are told. *)
Definition log_set (q : ptr) (id : Z) (key : string) (val : Z) : ST (list (ptr * Z * string * Z)) unit :=
  modify (cons (q, id, key, val)).

Lemma device_ioctl_roundtrip_witness :
  device_ioctl log_set (fun _ => ret tt) [1; 2]%positive 77 88 (message 123 "rate" (-100)) []
  = Ok (100, [(2%positive, 123, "rate", -100); (1%positive, 123, "rate", -100)]).
Proof.
  rewrite (device_ioctl_roundtrip log_set (fun _ => ret tt) [1; 2]%positive 77 88 123 "rate" (-100) []).
  - reflexivity.
  - vm_compute. split; congruence.
  - vm_compute. split; congruence.
  - apply (bool_decide_unpack _). vm_compute. exact I.
  - apply (bool_decide_unpack _). vm_compute. exact I.
Defined.

Lemma device_ioctl_overread_witness :
  device_ioctl log_set (fun _ => ret tt) [1; 2]%positive 77 88 (replicate 100 "1"%char) []
  = Fault (OutOfBounds 45).
Proof.
  apply (device_ioctl_overread log_set (fun _ => ret tt) [1; 2]%positive 77 88 (replicate 100 "1"%char) []).
  apply (bool_decide_unpack _). vm_compute. exact I.
Defined.
