(* ===== verification/Registry.v ===== *)
(** * A scheduler and the registry of disks

    The life of a scheduler on a queue, from [elevator_init_fn], which registers the disk in ioctl_helper.c and
    does not look whether that worked, to [elevator_exit_fn], which takes the disk out again.  Meanwhile the schedulers of
    other queues come and go. *)

From S2P Require Import Prelude CInt Kernel IoctlHelper.

(** What the schedulers of other queues do to the registry. *)
Inductive others (q : ptr) : disk_list -> disk_list -> Prop :=
  | others_none disks : others q disks disks
  | others_register ok q' disks disks' :
      q' <> q -> others q (snd (ioctl_helper_register_disk ok disks q')) disks' -> others q disks disks'
  | others_unregister q' disks disks1 disks' :
      q' <> q -> ioctl_helper_unregister_disk disks q' = Ok disks1 -> others q disks1 disks' -> others q disks disks'.

(** The entries of a queue. *)
Abbreviation entries q disks := (filter (fun d => d = q) disks).

Lemma entries_register ok q q' disks :
  q' <> q -> entries q (snd (ioctl_helper_register_disk ok disks q')) = entries q disks.
Proof.
  intros Hne. destruct ok; simpl; [|done]. rewrite filter_app, filter_cons_False by done. by rewrite filter_nil, app_nil_r.
Qed.

Lemma entries_unregister q q' disks disks' :
  q' <> q -> ioctl_helper_unregister_disk disks q' = Ok disks' -> entries q disks' = entries q disks.
Proof.
  intros Hne. revert disks'. induction disks as [|d disks IH]; intros disks'; simpl; [done |].
  case_decide as Hd; [intros [= <-]; subst; by rewrite filter_cons_False |].
  destruct (ioctl_helper_unregister_disk disks q') as [rest|]; [|done]. intros [= <-].
  rewrite !filter_cons. case_decide; by rewrite (IH rest).
Qed.

Lemma entries_others q disks disks' : others q disks disks' -> entries q disks' = entries q disks.
Proof.
  induction 1 as [disks|ok q' disks disks' Hne _ IH|q' disks disks1 disks' Hne E _ IH]; [done | |]; rewrite IH.
  - by apply entries_register.
  - by eapply entries_unregister.
Qed.

Lemma entries_absent q (disks : disk_list) : q ∉ disks -> entries q disks = [].
Proof. intros Hn. apply elem_of_nil_inv. intros x [-> Hx]%list_elem_of_filter. done. Qed.

(** A queue with one entry is taken out, one with none is a bug. *)
Lemma unregister_entry q (disks : disk_list) :
  entries q disks = [q] -> exists disks', ioctl_helper_unregister_disk disks q = Ok disks' /\ q ∉ disks'.
Proof.
  induction disks as [|d disks IH]; [done |]. simpl. rewrite filter_cons. case_decide as Hd.
  - intros [= _ E]. exists disks. split; [done |]. intros Hin. apply (elem_of_nil q).
    rewrite <- E. by apply list_elem_of_filter.
  - intros E. destruct (IH E) as (rest & -> & Hn). exists (d :: rest). split; [done |].
    intros [->|?]%elem_of_cons; done.
Qed.

Lemma unregister_none q (disks : disk_list) : entries q disks = [] -> ioctl_helper_unregister_disk disks q = Fault (BUG 108).
Proof.
  induction disks as [|d disks IH]; [done |]. simpl. rewrite filter_cons. case_decide; [done |]. intros E. by rewrite IH.
Qed.

Section Life.
Context {M : Type} (q : ptr).
(** [boot disks reg x disks']: setting up with the registry [disks] leads to [x] and [disks'];
    [reg] tells whether there was memory for the entry of the disk. *)
Context (boot : disk_list -> bool -> M -> disk_list -> Prop) (step : M -> M -> Prop).

(** Before it is set up, the queue has no entry. *)
Inductive life (reg : bool) : M -> disk_list -> Prop :=
  | life_boot disks x disks' : q ∉ disks -> boot disks reg x disks' -> life reg x disks'
  | life_step x x' disks : life reg x disks -> step x x' -> life reg x' disks
  | life_others x disks disks' : life reg x disks -> others q disks disks' -> life reg x disks'.

Hypothesis boot_registers : forall disks reg x disks', boot disks reg x disks' ->
  disks' = snd (ioctl_helper_register_disk reg disks q).

Lemma life_entries reg x disks : life reg x disks -> entries q disks = if reg then [q] else [].
Proof.
  induction 1 as [disks x disks' Hn Hb|x x' disks _ IH _|x disks disks' _ IH Ho]; [|done|].
  - rewrite (boot_registers _ _ _ _ Hb). destruct reg; simpl; [|by apply entries_absent].
    rewrite filter_app, entries_absent by done. by rewrite filter_cons_True.
  - by rewrite (entries_others _ _ _ Ho).
Qed.

(** Only if the registration worked can the disk be taken out. *)
Lemma life_unregister reg x disks :
  life reg x disks ->
  if reg then exists disks', ioctl_helper_unregister_disk disks q = Ok disks' /\ q ∉ disks'
  else ioctl_helper_unregister_disk disks q = Fault (BUG 108).
Proof.
  intros Hl. pose proof (life_entries _ _ _ Hl) as He. destruct reg; [by apply unregister_entry | by apply unregister_none].
Qed.

Lemma life_keeps (P : M -> Prop) :
  (forall disks reg x disks', boot disks reg x disks' -> P x) -> (forall x x', P x -> step x x' -> P x') ->
  forall reg x disks, life reg x disks -> P x.
Proof. intros Hb Hs reg x disks Hl. induction Hl; eauto. Qed.
End Life.
