(* ===== verification/Modules.v ===== *)
(** * Loading and unloading the schedulers (the module_init and module_exit functions of
    tbucket.c, acct_afq_sched.c and split_deadline_sched.c)

    Each of the three modules is linked with its own copy of ioctl_helper.c (src/modules/Makefile):
    its own list of disks, and the same device number.  Loading a module is a sequence of
    statements, between which others may select an elevator that has been registered. *)

From Stdlib Require Import String.
From S2P Require Import Prelude CInt Kernel IoctlHelper.

Inductive sched := TokenBucket | ActuallyFair | SplitDeadline.
#[export] Instance sched_eq_dec : EqDecision sched.
Proof. solve_decision. Defined.

(** The names of the elevators. *)
Definition elevator_name (m : sched) : string :=
  match m with TokenBucket => "tb" | ActuallyFair => "afq" | SplitDeadline => "new_sysdeadline" end.

Definition IOCTL_MAJOR : Z := 437.
Definition EBUSY : Z := 16.

(** ** Functions of the kernel (fs/char_dev.c, block/elevator.c) *)

(** [owner]: the module whose [fops] a device number has; [listed]: the elevators that can be selected. *)
Class RegFns := {
  registry : Type;
  owner : registry -> Z -> option sched;
  listed : registry -> list sched;
  register_chrdev : Z -> sched -> registry -> Z * registry;
  unregister_chrdev : Z -> registry -> registry;
  elv_register : sched -> registry -> registry;
  elv_unregister : sched -> registry -> registry;
}.

(** A device number has one owner; the elevators are a list of their own. *)
Class RegOk (R : RegFns) : Prop := {
  register_free : forall major m k, owner k major = None ->
    exists k', register_chrdev major m k = (0, k') /\ owner k' major = Some m /\ listed k' = listed k;
  register_busy : forall major m m' k, owner k major = Some m' ->
    exists rv, rv <> 0 /\ register_chrdev major m k = (rv, k);
  unregister_owner : forall major k, owner (unregister_chrdev major k) major = None;
  unregister_listed : forall major k, listed (unregister_chrdev major k) = listed k;
  elv_register_owner : forall m k major, owner (elv_register m k) major = owner k major;
  elv_register_listed : forall m k, listed (elv_register m k) = listed k ++ [m];
  elv_unregister_owner : forall m k major, owner (elv_unregister m k) major = owner k major;
  elv_unregister_listed : forall m k, listed (elv_unregister m k) = filter (fun x => x <> m) (listed k);
}.

Section Modules.
Context {R : RegFns} {RO : RegOk R}.

Record mods := Mods {
  reg : registry;
  disk_info_list : sched -> option disk_list;  (* None before it is initialised *)
}.
#[local] Instance eta_mods : Eta mods := fun s => Mods (reg s) (disk_info_list s).
Definition elevators (s : mods) : list sched := listed (reg s).
Definition device (s : mods) : option sched := owner (reg s) IOCTL_MAJOR.

Definition in_reg (f : registry -> registry) : ST mods unit := modify (fun s => s <| reg ::= f |>).

(** ** A module's copy of ioctl_helper.c *)

Definition set_disks (m : sched) (l : option disk_list) : ST mods unit :=
  modify (fun s => s <| disk_info_list ::= fun f x => if decide (x = m) then l else f x |>).
Definition get_disks (line : Z) (m : sched) : ST mods disk_list :=
  let! l := gets (fun s => disk_info_list s m) in lift (deref line l).

Definition helper_init (m : sched) (maj : Z) : ST mods Z :=
  set_disks m (Some ioctl_helper_init);;
  let! r := gets (fun s => register_chrdev maj m (reg s)) in
  in_reg (fun _ => snd r);;
  ret (fst r).

Definition helper_cleanup (m : sched) : ST mods unit :=
  let! l := get_disks 119 m in
  lift (ioctl_helper_cleanup l);;
  in_reg (unregister_chrdev IOCTL_MAJOR).

(** What selecting the elevator for the queue [q] does with it ([tbucket_init_queue] and
    its likes), and what taking it off does. *)
Definition register_disk (m : sched) (alloc_ok : bool) (q : ptr) : ST mods Z :=
  let! l := get_disks 89 m in
  let r := ioctl_helper_register_disk alloc_ok l q in
  set_disks m (Some (snd r));;
  ret (fst r).
Definition unregister_disk (m : sched) (q : ptr) : ST mods unit :=
  let! l := get_disks 99 m in
  let! l := lift (ioctl_helper_unregister_disk l q) in
  set_disks m (Some l).

(** ** module_init and module_exit *)

(** The statements of the initialisation, in order. *)
Definition tbucket_init : list (ST mods unit) :=
  [in_reg (elv_register TokenBucket);
   let! rv := helper_init TokenBucket IOCTL_MAJOR in lift (bug_on 983 (negb (rv =? 0)))].
Definition basic_sched_init : list (ST mods unit) :=
  [helper_init ActuallyFair IOCTL_MAJOR;; ret tt;        (* WARN_ON(rv) *)
   in_reg (elv_register ActuallyFair)].
Definition deadline_init : list (ST mods unit) :=
  [helper_init SplitDeadline IOCTL_MAJOR;; ret tt;
   in_reg (elv_register SplitDeadline)].
Definition module_init (m : sched) : list (ST mods unit) :=
  match m with TokenBucket => tbucket_init | ActuallyFair => basic_sched_init | SplitDeadline => deadline_init end.

(** The statements of the exit functions, in order. *)
Definition tbucket_exit : list (ST mods unit) := [helper_cleanup TokenBucket; in_reg (elv_unregister TokenBucket)].
Definition basic_sched_exit : list (ST mods unit) := [helper_cleanup ActuallyFair; in_reg (elv_unregister ActuallyFair)].
Definition deadline_exit : list (ST mods unit) := [helper_cleanup SplitDeadline; in_reg (elv_unregister SplitDeadline)].
Definition module_exit (m : sched) : list (ST mods unit) :=
  match m with TokenBucket => tbucket_exit | ActuallyFair => basic_sched_exit | SplitDeadline => deadline_exit end.

(** insmod and rmmod without anybody in between. *)
Definition load (m : sched) : ST mods unit := for_each (module_init m) (fun stmt => stmt).
Definition unload (m : sched) : ST mods unit := for_each (module_exit m) (fun stmt => stmt).

(** ** A module alone *)

(** What loading does: on its own, *)
Lemma load_run m s :
  device s = None ->
  exists s', load m s = Ok (tt, s') /\ device s' = Some m /\ elevators s' = elevators s ++ [m] /\
    disk_info_list s' = fun x => if decide (x = m) then Some [] else disk_info_list s x.
Proof.
  intros Hd. destruct s as [k l]. unfold device, elevators in *. simpl in *.
  destruct (register_free IOCTL_MAJOR m k Hd) as (k1 & E1 & Ho1 & Hl1).
  assert (Hd' : owner (elv_register m k) IOCTL_MAJOR = None) by (by rewrite elv_register_owner).
  destruct (register_free IOCTL_MAJOR m _ Hd') as (k2 & E2 & Ho2 & Hl2). rewrite elv_register_listed in Hl2.
  assert (Hk1 : owner (elv_register m k1) IOCTL_MAJOR = Some m /\ listed (elv_register m k1) = listed k ++ [m])
    by (by rewrite elv_register_owner, elv_register_listed, Hl1).
  destruct Hk1 as [Hk1 Hk2].
  unfold load, module_init, tbucket_init, basic_sched_init, deadline_init, helper_init, set_disks, in_reg.
  destruct m; unfold for_each, bind, modify, gets, lift, ret; cbn; rewrite ?E1, ?E2; cbn; (eexists; split; [reflexivity |]); by split_and!.
Qed.

(** and when another module has the device: the token-bucket scheduler stops the kernel, the other two
    go on without. *)
Lemma load_second m m' s :
  device s = Some m' ->
  if decide (m = TokenBucket) then load m s = Fault (BUG 983)
  else exists s', load m s = Ok (tt, s') /\ device s' = Some m' /\ elevators s' = elevators s ++ [m] /\
    disk_info_list s' = fun x => if decide (x = m) then Some [] else disk_info_list s x.
Proof.
  intros Hd. destruct s as [k l]. unfold device, elevators in *. simpl in *.
  destruct (register_busy IOCTL_MAJOR m m' k Hd) as (rv & Hrv & E1).
  assert (Hd' : owner (elv_register m k) IOCTL_MAJOR = Some m') by (by rewrite elv_register_owner).
  destruct (register_busy IOCTL_MAJOR m m' _ Hd') as (rv2 & Hrv2 & E2).
  unfold load, module_init, tbucket_init, basic_sched_init, deadline_init, helper_init, set_disks, in_reg.
  destruct m; unfold for_each, bind, modify, gets, lift, ret; cbn; rewrite ?E1, ?E2; cbn.
  - by rewrite (proj2 (Z.eqb_neq rv2 0) Hrv2).
  - eexists. split; [reflexivity |]. split_and!; [done | apply elv_register_listed | done].
  - eexists. split; [reflexivity |]. split_and!; [done | apply elv_register_listed | done].
Qed.

Lemma unload_run m s :
  disk_info_list s m = Some [] ->
  exists s', unload m s = Ok (tt, s') /\ device s' = None /\ elevators s' = filter (fun x => x <> m) (elevators s) /\
    disk_info_list s' = disk_info_list s.
Proof.
  intros Hd. destruct s as [k l]. unfold device, elevators. simpl in *.
  destruct m; unfold unload, module_exit, tbucket_exit, basic_sched_exit, deadline_exit, helper_cleanup, get_disks, for_each, bind, gets;
    cbn; rewrite Hd; cbn; (eexists; split; [reflexivity |]); simpl;
    rewrite elv_unregister_owner, elv_unregister_listed, unregister_owner, unregister_listed; done.
Qed.

(** A module alone: while it is loaded the device has its functions; and when
    it has been unloaded neither its device nor its elevator is there any more. *)
Theorem module_owns_device m s :
  device s = None -> m ∉ elevators s ->
  exists s', load m s = Ok (tt, s') /\ device s' = Some m /\ m ∈ elevators s' /\
    exists s'', unload m s' = Ok (tt, s'') /\ device s'' = None /\ elevators s'' = elevators s.
Proof.
  intros Hc He. destruct (load_run m s Hc) as (s' & E & Hd & Hl & Hi). exists s'. split_and!; auto; [rewrite Hl; set_solver |].
  destruct (unload_run m s') as (s'' & E' & Hd' & Hl' & _); [rewrite Hi; by rewrite decide_True |].
  exists s''. split_and!; auto. rewrite Hl', Hl.
  rewrite filter_app, filter_cons_False, filter_nil, app_nil_r by (intros Hm; by apply Hm).
  clear -He. induction (elevators s) as [|x e IH]; [done |]. rewrite filter_cons_True by set_solver. f_equal. apply IH. set_solver.
Qed.

(** Two modules do not get along: loading a second one either stops the kernel (the
    token-bucket scheduler) or succeeds without its device; and unloading the second
    one takes the device away from the first one, which is still loaded. *)
Theorem second_module_takes_device m m' s :
  device s = None -> m <> m' ->
  exists s1, load m s = Ok (tt, s1) /\
    if decide (m' = TokenBucket) then load m' s1 = Fault (BUG 983)
    else exists s2 s3, load m' s1 = Ok (tt, s2) /\ device s2 = Some m /\
      unload m' s2 = Ok (tt, s3) /\ device s3 = None /\ m ∈ elevators s3.
Proof.
  intros Hc Hne. destruct (load_run m s Hc) as (s1 & E1 & Hd1 & Hl1 & Hi1). exists s1. split; [done |].
  pose proof (load_second m' m s1 Hd1) as H2. case_decide as Hm'; [done |]. destruct H2 as (s2 & E2 & Hd2 & Hl2 & Hi2).
  destruct (unload_run m' s2) as (s3 & E3 & Hd3 & Hl3 & _); [rewrite Hi2; by rewrite decide_True |].
  exists s2, s3. split_and!; auto. rewrite Hl3. apply list_elem_of_filter. split; [done |]. rewrite Hl2, Hl1. set_solver.
Qed.

(** ** Loading and unloading while others work *)

(** How many statements of module_init or of module_exit have run. *)
Inductive stage := Loading (n : nat) | Unloading (n : nat).

Record msys := MSys {
  ms : mods;
  pc : sched -> option stage;           (* None while the module is not in memory *)
  used : list (sched * ptr);            (* the queues that run a scheduler *)
}.
#[local] Instance eta_msys : Eta msys := fun s => MSys (ms s) (pc s) (used s).
Definition set_pc (m : sched) (n : option stage) (s : msys) : msys :=
  s <| pc ::= fun f x => if decide (x = m) then n else f x |>.

(** [try_module_get]: a module that is being unloaded gives no references; one that is being loaded does. *)
Definition module_is_live (m : sched) (s : msys) : Prop := exists n, pc s m = Some (Loading n).

(** The memory of a module, and with it its list of disks, is new each time it is loaded.  [rmmod]
    refuses a module that is in use; from then on it gives no references, and the statements of
    its exit function run, with others in between. *)
Inductive mstep : msys -> msys -> Prop :=
  | m_insmod m a s : pc s m = None -> set_disks m None (ms s) = Ok (tt, a) ->
      mstep s (set_pc m (Some (Loading 0)) (s <| ms := a |>))
  | m_statement m n stmt a s : pc s m = Some (Loading n) -> module_init m !! n = Some stmt ->
      stmt (ms s) = Ok (tt, a) -> mstep s (set_pc m (Some (Loading (S n))) (s <| ms := a |>))
  | m_select m q ok rv a s : m ∈ elevators (ms s) -> module_is_live m s -> register_disk m ok q (ms s) = Ok (rv, a) ->
      mstep s (s <| ms := a |> <| used ::= cons (m, q) |>)
  | m_deselect m q a s : (m, q) ∈ used s -> unregister_disk m q (ms s) = Ok (tt, a) ->
      mstep s (s <| ms := a |> <| used ::= filter (fun x => x <> (m, q)) |>)
  | m_rmmod m s : pc s m = Some (Loading (length (module_init m))) -> (forall q, (m, q) ∉ used s) ->
      mstep s (set_pc m (Some (Unloading 0)) s)
  | m_exit_statement m n stmt a s : pc s m = Some (Unloading n) -> module_exit m !! n = Some stmt ->
      stmt (ms s) = Ok (tt, a) -> mstep s (set_pc m (Some (Unloading (S n))) (s <| ms := a |>))
  | m_free m s : pc s m = Some (Unloading (length (module_exit m))) -> mstep s (set_pc m None s).

Inductive mreach : msys -> Prop :=
  | mr_boot k : listed k = [] -> mreach (MSys (Mods k (fun _ => None)) (fun _ => None) [])
  | mr_step s s' : mreach s -> mstep s s' -> mreach s'.

(** The two modules that set up their registry first: their elevator is registered only while the registry is there. *)
Definition ready (m : sched) (s : msys) : Prop :=
  match pc s m with
  | None | Some (Loading 0) => m ∉ elevators (ms s)
  | Some (Loading _) | Some (Unloading (0 | 1)) => is_Some (disk_info_list (ms s) m)
  | Some (Unloading _) => m ∉ elevators (ms s)
  end.

(** A statement that keeps the registry of [m] if it is there and does not register its elevator. *)
Definition keeps_ready (m : sched) (s a : mods) : Prop :=
  (is_Some (disk_info_list s m) -> is_Some (disk_info_list a m)) /\ (m ∈ elevators a -> m ∈ elevators s).

Lemma ready_keeps m s s' : ready m s -> pc s' m = pc s m -> keeps_ready m (ms s) (ms s') -> ready m s'.
Proof.
  unfold ready. intros Hr -> [Hd He]. destruct (pc s m) as [[[|n]|[|[|n]]]|]; auto.
Qed.

Lemma helper_init_run x maj s :
  exists rv s', helper_init x maj s = Ok (rv, s') /\ (maj = IOCTL_MAJOR -> elevators s' = elevators s) /\
    disk_info_list s' = fun y => if decide (y = x) then Some [] else disk_info_list s y.
Proof.
  unfold helper_init, bind, set_disks, modify, gets, in_reg. simpl. eexists _, _. split; [reflexivity |]. split; [|done].
  intros ->. unfold elevators. simpl. destruct (owner (reg s) IOCTL_MAJOR) eqn:Eo.
  - by destruct (register_busy IOCTL_MAJOR x s0 (reg s) Eo) as (rv & _ & ->).
  - by destruct (register_free IOCTL_MAJOR x (reg s) Eo) as (k' & -> & _ & ?).
Qed.

(** A statement initialises the registry of the module or registers its elevator. *)
Lemma stmt_cases x n stmt s a :
  module_init x !! n = Some stmt -> stmt s = Ok (tt, a) ->
  (elevators a = elevators s /\ disk_info_list a = fun y => if decide (y = x) then Some [] else disk_info_list s y) \/
  (elevators a = elevators s ++ [x] /\ disk_info_list a = disk_info_list s /\ (x <> TokenBucket -> exists k, n = S k)).
Proof.
  destruct (helper_init_run x IOCTL_MAJOR s) as (rv & s' & E & He & Hd). specialize (He eq_refl).
  assert (Hreg : forall a, in_reg (elv_register x) s = Ok (tt, a) -> elevators a = elevators s ++ [x] /\ disk_info_list a = disk_info_list s).
  { intros a' [= <-]. split; [apply elv_register_listed | done]. }
  destruct x, n as [|[|n]]; simpl; try done; intros [= <-] Hs.
  - right. by destruct (Hreg a Hs).
  - rewrite (bind_ok _ _ _ _ _ E) in Hs. left. unfold lift, bug_on in Hs. destruct (negb _); [done |]. by injection Hs as <-.
  - rewrite (bind_ok _ _ _ _ _ E) in Hs. left. by injection Hs as <-.
  - right. destruct (Hreg a Hs). split_and!; eauto.
  - rewrite (bind_ok _ _ _ _ _ E) in Hs. left. by injection Hs as <-.
  - right. destruct (Hreg a Hs). split_and!; eauto.
Qed.

(** The exit functions: the first statement gives up the device and keeps the list of disks, the second
    takes the elevator off. *)
Lemma exit_stmt_cases x n stmt s a :
  module_exit x !! n = Some stmt -> stmt s = Ok (tt, a) ->
  disk_info_list a = disk_info_list s /\
  (n = 0%nat /\ elevators a = elevators s \/ n = 1%nat /\ elevators a = filter (fun y => y <> x) (elevators s)).
Proof.
  assert (Hc : helper_cleanup x s = Ok (tt, a) -> disk_info_list a = disk_info_list s /\ elevators a = elevators s).
  { unfold helper_cleanup, get_disks, bind, gets, lift. destruct (deref 119 _) as [l|]; simpl; [|done].
    destruct (ioctl_helper_cleanup l) as [[]|]; simpl; [|done]. intros [= <-]. split; [done |]. apply unregister_listed. }
  assert (He : in_reg (elv_unregister x) s = Ok (tt, a) ->
    disk_info_list a = disk_info_list s /\ elevators a = filter (fun y => y <> x) (elevators s)).
  { intros [= <-]. split; [done |]. apply elv_unregister_listed. }
  intros Hl Hs. assert (Hn : n = 0%nat /\ stmt = helper_cleanup x \/ n = 1%nat /\ stmt = in_reg (elv_unregister x)).
  { by destruct x, n as [|[|n]]; simpl in Hl; try done; injection Hl as <-; auto. }
  destruct Hn as [[-> ->]|[-> ->]]; [destruct (Hc Hs) | destruct (He Hs)]; auto.
Qed.

Lemma ready_stmt m x n stmt s a :
  m <> TokenBucket -> ready m s -> pc s x = Some (Loading n) -> module_init x !! n = Some stmt -> stmt (ms s) = Ok (tt, a) ->
  ready m (set_pc x (Some (Loading (S n))) (s <| ms := a |>)).
Proof.
  intros Hm Hr Hp Hl Hs. pose proof (stmt_cases _ _ _ _ _ Hl Hs) as Hc. destruct (decide (m = x)) as [<-|Hx].
  - unfold ready in *. simpl. rewrite Hp in Hr. rewrite decide_True by done.
    destruct Hc as [[_ Hd]|(_ & Hd & Hn)]; rewrite Hd; [rewrite decide_True by done; by eexists |].
    destruct (Hn Hm) as [k ->]. done.
  - apply (ready_keeps m s); [done | simpl; by rewrite decide_False |]. unfold keeps_ready. simpl.
    destruct Hc as [[He Hd]|(He & Hd & _)]; rewrite He, Hd; [by rewrite decide_False |].
    split; [done |]. intros [?| ->%list_elem_of_singleton]%elem_of_app; done.
Qed.

Lemma ready_exit_stmt m x n stmt s a :
  ready m s -> pc s x = Some (Unloading n) -> module_exit x !! n = Some stmt -> stmt (ms s) = Ok (tt, a) ->
  ready m (set_pc x (Some (Unloading (S n))) (s <| ms := a |>)).
Proof.
  intros Hr Hp Hl Hs. destruct (exit_stmt_cases _ _ _ _ _ Hl Hs) as [Hd Hc]. destruct (decide (m = x)) as [<-|Hx].
  - unfold ready in *. simpl. rewrite Hp in Hr. rewrite decide_True by done.
    destruct Hc as [[-> He]|[-> He]]; [by rewrite Hd |]. rewrite He. by intros [? _]%list_elem_of_filter.
  - apply (ready_keeps m s); [done | simpl; by rewrite decide_False |]. unfold keeps_ready. simpl. rewrite Hd.
    split; [done |]. destruct Hc as [[_ ->]|[_ ->]]; [done |]. by intros [_ ?]%list_elem_of_filter.
Qed.

(** A stage of [x] that asks no more of [x] than the one before. *)
Lemma ready_stage m x st s :
  ready m s -> (m = x -> ready m (set_pc x st s)) -> ready m (set_pc x st s).
Proof.
  intros Hr Hx. destruct (decide (m = x)) as [E|E]; [auto |]. apply (ready_keeps m s); [done | simpl; by rewrite decide_False | by split].
Qed.

Lemma mreach_ready m s : mreach s -> m <> TokenBucket -> ready m s.
Proof.
  intros Hreach Hm. induction Hreach as [k Hk|s s' _ IH Hs].
  { unfold ready, elevators. simpl. rewrite Hk. apply not_elem_of_nil. }
  destruct Hs as [x a s Hp Hs|x n stmt a s Hp Hl Hs|x q ok rv a s Hx _ Hs|x q a s Hx Hs|x s Hp Hu|x n stmt a s Hp Hl Hs|x s Hp].
  - injection Hs as <-. destruct (decide (m = x)) as [<-|Hx].
    + unfold ready in *. simpl. rewrite Hp in IH. by rewrite decide_True.
    + apply (ready_keeps m s); [done | simpl; by rewrite decide_False |]. unfold keeps_ready. simpl. by rewrite decide_False.
  - by eapply ready_stmt.
  - apply (ready_keeps m s); [done.. |]. revert Hs. unfold register_disk, get_disks, bind, gets, keeps_ready.
    destruct (disk_info_list (ms s) x); simpl; [|done]. intros [= _ <-]. simpl. case_decide; [by split; [intros _; eexists |] | by split].
  - apply (ready_keeps m s); [done.. |]. revert Hs. unfold unregister_disk, get_disks, bind, gets, keeps_ready.
    destruct (disk_info_list (ms s) x) as [l|]; simpl; [|done]. unfold lift. destruct (ioctl_helper_unregister_disk l q); [|done].
    intros [= <-]. simpl. case_decide; [by split; [intros _; eexists |] | by split].
  - apply ready_stage; [done |]. intros <-. unfold ready in *. simpl. rewrite Hp in IH. rewrite decide_True by done. by destruct m.
  - by eapply ready_exit_stmt.
  - apply ready_stage; [done |]. intros <-. unfold ready in *. simpl. rewrite Hp in IH. rewrite decide_True by done. by destruct m.
Qed.

(** C28: an elevator can be selected as long as it is registered: in every run in which modules are loaded,
    unloaded and loaded again, one statement at a time, and schedulers are selected and taken off in between, at
    any moment, also between the statements of an exit function, selecting the actually fair or the
    split-deadline scheduler finds its registry of disks initialised. *)
Theorem selectable_elevator_works m q ok s :
  mreach s -> m <> TokenBucket -> m ∈ elevators (ms s) -> exists rv a, register_disk m ok q (ms s) = Ok (rv, a).
Proof.
  intros Hr Hm He. assert (Hd : is_Some (disk_info_list (ms s) m)).
  { pose proof (mreach_ready m s Hr Hm) as H. unfold ready in H. by destruct (pc s m) as [[[|n]|[|[|n]]]|]. }
  destruct Hd as [l Hl]. unfold register_disk, get_disks, bind, gets. rewrite Hl. by eexists _, _.
Qed.

(** The token-bucket scheduler can be selected too early: it registers its elevator
    before it initialises the registry, and whoever selects it in between adds a disk to a list whose
    head is NULL. *)
Theorem tbucket_selectable_too_early q k :
  listed k = [] ->
  exists s, mreach s /\ TokenBucket ∈ elevators (ms s) /\ register_disk TokenBucket true q (ms s) = Fault (NullDeref 89).
Proof.
  intros Hk. set (f := fun x => if decide (x = TokenBucket) then None else None : option disk_list).
  set (s0 := MSys (Mods k (fun _ => None)) (fun _ => None) []).
  set (s1 := set_pc TokenBucket (Some (Loading 0)) (s0 <| ms := Mods k f |>)).
  set (a := Mods (elv_register TokenBucket k) f).
  exists (set_pc TokenBucket (Some (Loading 1)) (s1 <| ms := a |>)). split; [|split; [|reflexivity]].
  - eapply mr_step; [eapply mr_step; [by apply (mr_boot k) | by apply (m_insmod TokenBucket (Mods k f) s0)] |].
    by eapply (m_statement TokenBucket 0 _ a s1).
  - unfold elevators. simpl. rewrite elv_register_listed. set_solver.
Qed.

End Modules.

(** ** An implementation of the registries, and examples *)

#[export] Instance ref_reg : RegFns := {|
  registry := gmap Z sched * list sched;
  owner k major := fst k !! major;
  listed k := snd k;
  register_chrdev major m k := match fst k !! major with Some _ => (- EBUSY, k) | None => (0, (<[major := m]> (fst k), snd k)) end;
  unregister_chrdev major k := (delete major (fst k), snd k);
  elv_register m k := (fst k, snd k ++ [m]);
  elv_unregister m k := (fst k, filter (fun x => x <> m) (snd k));
|}.
#[export] Instance ref_reg_ok : RegOk ref_reg.
Proof.
  split; simpl; try done.
  - intros major m k Hk. rewrite Hk. eexists. split; [reflexivity |]. simpl. by rewrite lookup_insert_eq.
  - intros major m m' k Hk. rewrite Hk. by exists (- EBUSY).
  - intros major k. apply lookup_delete_eq.
Qed.

Definition fresh_reg : @registry ref_reg := ((∅ : gmap Z sched), ([] : list sched)).
Definition fresh_mods : mods := Mods fresh_reg (fun _ => None).

Lemma module_owns_device_witness :
  exists s', load ActuallyFair fresh_mods = Ok (tt, s') /\ device s' = Some ActuallyFair.
Proof.
  destruct (module_owns_device ActuallyFair fresh_mods) as (s' & E & Hc & _).
  - reflexivity.
  - apply not_elem_of_nil.
  - exists s'. exact (conj E Hc).
Defined.

Lemma second_module_takes_device_witness :
  exists s1, load ActuallyFair fresh_mods = Ok (tt, s1) /\ exists s2 s3, load SplitDeadline s1 = Ok (tt, s2) /\
    unload SplitDeadline s2 = Ok (tt, s3) /\ device s3 = None.
Proof.
  destruct (second_module_takes_device ActuallyFair SplitDeadline fresh_mods) as (s1 & E1 & H).
  - reflexivity.
  - discriminate.
  - exists s1. split; [exact E1 |]. destruct H as (s2 & s3 & E2 & _ & E3 & Hc & _). exists s2, s3. exact (conj E2 (conj E3 Hc)).
Defined.

(** The split-deadline scheduler has been loaded, and is being unloaded: its device is gone already, its elevator
    is still registered. *)
Lemma selectable_elevator_works_witness :
  exists s rv a, mreach s /\ pc s SplitDeadline = Some (Unloading 1) /\ register_disk SplitDeadline true 3 (ms s) = Ok (rv, a).
Proof.
  set (s0 := MSys fresh_mods (fun _ => None) []).
  set (f := fun x : sched => if decide (x = SplitDeadline) then (None : option disk_list) else None).
  set (k := ((<[IOCTL_MAJOR := SplitDeadline]> ∅, []) : @registry ref_reg)).
  set (d := fun x => if decide (x = SplitDeadline) then Some ([] : disk_list) else f x).
  set (s1 := set_pc SplitDeadline (Some (Loading 0)) (MSys (Mods fresh_reg f) (pc s0) [])).
  set (s2 := set_pc SplitDeadline (Some (Loading 1)) (MSys (Mods k d) (pc s1) [])).
  set (k2 := elv_register SplitDeadline k).
  set (s3 := set_pc SplitDeadline (Some (Loading 2)) (MSys (Mods k2 d) (pc s2) [])).
  set (s4 := set_pc SplitDeadline (Some (Unloading 0)) s3).
  set (k3 := unregister_chrdev IOCTL_MAJOR k2).
  set (s5 := set_pc SplitDeadline (Some (Unloading 1)) (MSys (Mods k3 d) (pc s4) [])).
  assert (H3 : mreach s3).
  { eapply mr_step; [eapply mr_step; [eapply mr_step; [apply (mr_boot fresh_reg); reflexivity |] |] |].
    - apply (m_insmod SplitDeadline (Mods fresh_reg f) s0); reflexivity.
    - eapply (m_statement SplitDeadline 0 _ (Mods k d) s1); reflexivity.
    - eapply (m_statement SplitDeadline 1 _ (Mods k2 d) s2); reflexivity. }
  assert (H5 : mreach s5).
  { eapply mr_step; [eapply mr_step; [exact H3 |] |].
    - apply (m_rmmod SplitDeadline s3); [reflexivity | intros q; apply not_elem_of_nil].
    - eapply (m_exit_statement SplitDeadline 0 _ (Mods k3 d) s4); reflexivity. }
  destruct (selectable_elevator_works SplitDeadline 3 true s5) as (rv & b & E).
  - exact H5.
  - discriminate.
  - left.
  - exists s5, rv, b. exact (conj H5 (conj eq_refl E)).
Defined.

Lemma tbucket_selectable_too_early_witness :
  exists s, mreach s /\ register_disk TokenBucket true 3 (ms s) = Fault (NullDeref 89).
Proof.
  destruct (tbucket_selectable_too_early 3 fresh_reg) as (s & Hs & _ & E); [reflexivity |]. exists s. exact (conj Hs E).
Defined.
