(* ===== verification/RbTree.v ===== *)
(** * Red-black trees of the kernel (linux/rbtree.h)

    The trees the schedulers keep requests and pending work in.  The code of this
    repository walks down the trees itself to insert and to find; rebalancing,
    erasing and stepping to a neighbour are functions of the kernel: the class
    [RbFns], of which the code relies on the laws of [RbOk].  What a tree means is
    its entries in order. *)

From S2P Require Import Prelude.

Inductive tree (A : Type) := Leaf | Node (l : tree A) (x : A) (r : tree A).
Arguments Leaf {A}.
Arguments Node {A} l x r.

Fixpoint inorder {A} (t : tree A) : list A :=
  match t with Leaf => [] | Node l x r => inorder l ++ x :: inorder r end.

(** The entry after, and the entry before, [x] in a list. *)
Fixpoint succ_in {A} `{EqDecision A} (x : A) (l : list A) : option A :=
  match l with
  | [] => None
  | y :: l' => if decide (x = y) then head l' else succ_in x l'
  end.
Definition pred_in {A} `{EqDecision A} (x : A) (l : list A) : option A := succ_in x (rev l).

Class RbFns := {
  rb_insert_color : forall {A : Type}, tree A -> tree A;
  rb_erase : forall {A : Type} `{EqDecision A}, A -> tree A -> tree A;
  rb_first : forall {A : Type}, tree A -> option A;
  rb_last : forall {A : Type}, tree A -> option A;
  rb_next : forall {A : Type} `{EqDecision A}, A -> tree A -> option A;
  rb_prev : forall {A : Type} `{EqDecision A}, A -> tree A -> option A;
}.

Class RbOk (R : RbFns) : Prop := {
  rb_insert_color_inorder : forall A (t : tree A), inorder (rb_insert_color t) = inorder t;
  rb_erase_inorder : forall A `{EqDecision A} (x : A) t,
    inorder (rb_erase x t) = filter (fun y => y <> x) (inorder t);
  rb_first_inorder : forall A (t : tree A), rb_first t = head (inorder t);
  rb_last_inorder : forall A (t : tree A), rb_last t = last (inorder t);
  rb_next_inorder : forall A `{EqDecision A} (x : A) t, rb_next x t = succ_in x (inorder t);
  rb_prev_inorder : forall A `{EqDecision A} (x : A) t, rb_prev x t = pred_in x (inorder t);
}.

(** ** An implementation: trees that are lists *)

Fixpoint spine {A} (l : list A) : tree A :=
  match l with [] => Leaf | x :: l' => Node Leaf x (spine l') end.

Lemma spine_inorder {A} (l : list A) : inorder (spine l) = l.
Proof. induction l as [|x l IH]; simpl; [done | by rewrite IH]. Qed.

#[export] Instance ref_rb : RbFns := {|
  rb_insert_color A t := t;
  rb_erase A _ x t := spine (filter (fun y => y <> x) (inorder t));
  rb_first A t := head (inorder t);
  rb_last A t := last (inorder t);
  rb_next A _ x t := succ_in x (inorder t);
  rb_prev A _ x t := pred_in x (inorder t);
|}.

#[export] Instance ref_rb_ok : RbOk ref_rb.
Proof. split; intros; simpl; auto using spine_inorder. Qed.

(** ** Lists in the order of a key *)

Section Keyed.
Context {A : Type} (key : A -> Z).

Definition key_le (x y : A) : Prop := key x <= key y.

(** Insertion after the entries of the same key. *)
Fixpoint insert_key (x : A) (l : list A) : list A :=
  match l with
  | [] => [x]
  | y :: l' => if key x <? key y then x :: l else y :: insert_key x l'
  end.

Lemma insert_key_perm x l : Permutation (insert_key x l) (x :: l).
Proof.
  induction l as [|y l IH]; simpl; [done |]. destruct (_ <? _); [done |].
  rewrite IH. apply perm_swap.
Qed.

Lemma insert_key_sorted x l :
  StronglySorted key_le l -> StronglySorted key_le (insert_key x l).
Proof.
  induction 1 as [|y l Hl IH Hy]; simpl; [repeat constructor |].
  destruct (Z.ltb_spec (key x) (key y)) as [H|H].
  - repeat constructor; auto; [unfold key_le; lia |].
    eapply Forall_mono; [|exact Hy]. unfold key_le. intros z Hz. lia.
  - constructor; [done |]. rewrite insert_key_perm. by constructor.
Qed.

Lemma insert_key_app_l x l1 y l2 :
  key x < key y -> insert_key x (l1 ++ y :: l2) = insert_key x l1 ++ y :: l2.
Proof.
  intros H. induction l1 as [|z l1 IH]; simpl.
  - destruct (Z.ltb_spec (key x) (key y)); [done | lia].
  - destruct (_ <? _); [done | by rewrite IH].
Qed.

Lemma insert_key_app_r x l1 y l2 :
  Forall (fun z => key z <= key x) l1 -> key y <= key x ->
  insert_key x (l1 ++ y :: l2) = l1 ++ y :: insert_key x l2.
Proof.
  intros H Hy. induction H as [|z l1 Hz _ IH]; simpl.
  - destruct (Z.ltb_spec (key x) (key y)); [lia | done].
  - destruct (Z.ltb_spec (key x) (key z)); [lia | by rewrite IH].
Qed.

Lemma sorted_app_inv l1 y l2 :
  StronglySorted key_le (l1 ++ y :: l2) ->
  StronglySorted key_le l1 /\ StronglySorted key_le l2 /\
  Forall (fun z => key z <= key y) l1 /\ Forall (fun z => key y <= key z) l2.
Proof.
  induction l1 as [|x l1 IH]; simpl; intros H; inversion_clear H as [|? ? H1 H2].
  - split_and!; auto; constructor.
  - destruct (IH H1) as (I1 & I2 & I3 & I4). apply Forall_app in H2 as [H2 H3].
    inversion_clear H3. split_and!; auto; constructor; auto.
Qed.

Lemma sorted_filter (P : A -> Prop) `{!forall x, Decision (P x)} l :
  StronglySorted key_le l -> StronglySorted key_le (filter P l).
Proof.
  induction 1 as [|x l Hl IH Hx]; [constructor |]. rewrite filter_cons.
  destruct (decide (P x)); [|done]. constructor; [done |].
  rewrite list.Forall_forall in *. intros y [_ Hy]%list_elem_of_filter. auto.
Qed.

End Keyed.
