(* ===== verification/ExpireRb.v ===== *)
(** * Trees in the order of expiry (src/modules/expire_rb.c, io_work_expire_rb.c)

    The same code twice: for requests, by the expiry time kept in
    [rq->csd.llist.next], and for pending work, by [io_work->expire].  The key is an
    argument here; both are [unsigned long]. *)

From S2P Require Import Prelude CInt RbTree.

Section Tree.
Context {R : RbFns} {A : Type} `{EqDecision A} (expire_of : A -> Z).

(** The loop down to the place of the new node, and [rb_link_node]: left if it
    expires earlier, and otherwise right. *)
Fixpoint link_node (x : A) (t : tree A) : tree A :=
  match t with
  | Leaf => Node Leaf x Leaf
  | Node l y r =>
      if expire_of x <? expire_of y then Node (link_node x l) y r
      else Node l y (link_node x r)
  end.

Definition rb_add (t : tree A) (x : A) : tree A := rb_insert_color (link_node x t).

(** [BUG_ON(RB_EMPTY_NODE(node))] fires if the node is in no tree; the nodes of the
    callers are in this tree or in none. *)
Definition rb_del (line : Z) (t : tree A) (x : A) : result (tree A) :=
  if decide (x ∈ inorder t) then Ok (rb_erase x t) else Fault (BUG line).

Fixpoint rb_find (t : tree A) (expire : Z) : option A :=
  match t with
  | Leaf => None
  | Node l y r =>
      if expire <? expire_of y then rb_find l expire
      else if expire >? expire_of y then rb_find r expire
      else Some y
  end.

(** The loop of the dump functions: the entries it visits, from [x] on. *)
Fixpoint walk (fuel : nat) (t : tree A) (x : option A) : list A :=
  match fuel, x with
  | S fuel, Some x => x :: walk fuel t (rb_next x t)
  | _, _ => []
  end.
End Tree.

(** The two instances. *)

Section Instances.
Context {R : RbFns} {A : Type} `{EqDecision A}.

Definition expire_rb_add (expire_of : A -> Z) := rb_add expire_of.
Definition expire_rb_del := rb_del (A := A) 35.
Definition expire_rb_find (expire_of : A -> Z) := rb_find expire_of.
Definition expire_rb_first_request (root : tree A) : option A := rb_first root.
Definition expire_rb_last_request (root : tree A) : option A := rb_last root.
Definition expire_rb_prev_request (root : tree A) (rq : A) : option A := rb_prev rq root.
Definition expire_rb_next_request (root : tree A) (rq : A) : option A := rb_next rq root.
Definition dump_expire_rb_tree (fuel : nat) (root : tree A) : list A :=
  walk fuel root (expire_rb_first_request root).

Definition io_work_expire_rb_add (expire_of : A -> Z) := rb_add expire_of.
Definition io_work_expire_rb_del := rb_del (A := A) 27.
Definition io_work_expire_rb_find (expire_of : A -> Z) := rb_find expire_of.
Definition io_work_expire_rb_first_work (root : tree A) : option A := rb_first root.
Definition io_work_expire_rb_last_work (root : tree A) : option A := rb_last root.
Definition io_work_expire_rb_prev_work (root : tree A) (w : A) : option A := rb_prev w root.
Definition io_work_expire_rb_next_work (root : tree A) (w : A) : option A := rb_next w root.
Definition dump_io_work_expire_rb_tree (fuel : nat) (root : tree A) : list A :=
  walk fuel root (io_work_expire_rb_first_work root).
End Instances.

Section Facts.
Context {R : RbFns} {RO : RbOk R} {A : Type} `{EqDecision A} (expire_of : A -> Z).

Abbreviation sorted t := (StronglySorted (key_le expire_of) (inorder t)).

Lemma link_node_inorder x t :
  sorted t -> inorder (link_node expire_of x t) = insert_key expire_of x (inorder t).
Proof.
  induction t as [|l IHl y r IHr]; simpl; [done |]. intros Hs.
  destruct (sorted_app_inv _ _ _ _ Hs) as (Hl & Hr & Hly & Hry).
  destruct (Z.ltb_spec (expire_of x) (expire_of y)) as [H|H]; simpl.
  - by rewrite IHl, insert_key_app_l.
  - rewrite IHr, insert_key_app_r; auto.
    eapply Forall_mono; [|exact Hly]. simpl. intros z Hz. lia.
Qed.

Lemma rb_add_inorder x t :
  sorted t -> inorder (rb_add expire_of t x) = insert_key expire_of x (inorder t).
Proof. intros Hs. unfold rb_add. rewrite rb_insert_color_inorder. by apply link_node_inorder. Qed.

Lemma rb_find_spec t e :
  sorted t ->
  match rb_find expire_of t e with
  | Some x => x ∈ inorder t /\ expire_of x = e
  | None => forall x, x ∈ inorder t -> expire_of x <> e
  end.
Proof.
  induction t as [|l IHl y r IHr]; simpl; intros Hs; [by intros x ?%elem_of_nil |].
  destruct (sorted_app_inv _ _ _ _ Hs) as (Hl & Hr & Hly & Hry).
  rewrite list.Forall_forall in Hly, Hry.
  destruct (Z.ltb_spec e (expire_of y)) as [H|H]; [|destruct (Z.gtb_spec e (expire_of y)) as [H'|H']].
  - specialize (IHl Hl). destruct (rb_find _ l e) as [x|].
    + destruct IHl. split; [|done]. apply elem_of_app. by left.
    + intros x [Hx|[->|Hx]%elem_of_cons]%elem_of_app; [auto | lia |]. specialize (Hry x Hx). simpl in *. lia.
  - specialize (IHr Hr). destruct (rb_find _ r e) as [x|].
    + destruct IHr. split; [|done]. apply elem_of_app. right. by right.
    + intros x [Hx|[->|Hx]%elem_of_cons]%elem_of_app; [| lia | auto].
      specialize (Hly x Hx). simpl in *. lia.
  - split; [|lia]. apply elem_of_app. right. left.
Qed.

Lemma succ_in_app (l1 l2 : list A) x :
  x ∉ l1 -> succ_in x (l1 ++ x :: l2) = head l2.
Proof.
  intros Hn. induction l1 as [|y l1 IH]; simpl; [by rewrite decide_True |].
  apply not_elem_of_cons in Hn as [Hne Hn]. rewrite decide_False by done. by apply IH.
Qed.

Lemma walk_inorder (t : tree A) (l1 l2 : list A) n :
  NoDup (inorder t) -> inorder t = l1 ++ l2 -> (length l2 <= n)%nat -> walk n t (head l2) = l2.
Proof.
  intros Hnd. revert l1 l2. induction n as [|n IH]; intros l1 l2 E Hn.
  { destruct l2; simpl in *; [done | lia]. }
  destruct l2 as [|x l2]; simpl; [done |]. f_equal. simpl in Hn.
  rewrite rb_next_inorder, E, succ_in_app.
  - apply (IH (l1 ++ [x])); [by rewrite <- app_assoc | lia].
  - rewrite E in Hnd. apply list.NoDup_app in Hnd as (_ & Hd & _). intros Hin. apply (Hd x Hin). left.
Qed.

Lemma filter_not_in (x : A) (l : list A) : x ∉ l -> filter (fun y => y <> x) l = l.
Proof.
  induction l as [|y l IH]; [done |]. intros [Hne Hl]%not_elem_of_cons.
  rewrite filter_cons_True by congruence. by rewrite IH.
Qed.

Lemma filter_insert_key (x : A) (l : list A) :
  x ∉ l -> filter (fun y => y <> x) (insert_key expire_of x l) = l.
Proof.
  induction l as [|y l IH]; simpl; intros Hn.
  { rewrite filter_cons_False by tauto. done. }
  apply not_elem_of_cons in Hn as [Hne Hn]. destruct (expire_of x <? expire_of y).
  - rewrite filter_cons_False by tauto. apply filter_not_in. by apply not_elem_of_cons.
  - rewrite filter_cons_True by congruence. by rewrite IH.
Qed.

(** A tree in the order of expiry stays one: adding an entry puts it behind
    the entries that expire no later and in front of the others, so that entries of
    the same expiry stay in the order they were added; deleting takes it out again;
    both keep the order, whatever rebalancing does. *)
Theorem expire_rb_add_del (t : tree A) (x : A) :
  sorted t -> x ∉ inorder t ->
  inorder (expire_rb_add expire_of t x) = insert_key expire_of x (inorder t) /\
  sorted (expire_rb_add expire_of t x) /\
  exists t', expire_rb_del (expire_rb_add expire_of t x) x = Ok t' /\ inorder t' = inorder t.
Proof.
  intros Hs Hn. unfold expire_rb_add, expire_rb_del, rb_del. rewrite rb_add_inorder by done.
  split; [done |]. split; [by apply insert_key_sorted |].
  rewrite decide_True by (rewrite insert_key_perm; left). eexists. split; [done |].
  rewrite rb_erase_inorder, rb_add_inorder by done.
  by apply filter_insert_key.
Qed.

(** Looking an expiry time up finds an entry of that time if there is one,
    the first entry of the tree is one that expires first, and following the
    successors from there visits all entries in their order. *)
Theorem expire_rb_search (t : tree A) (e : Z) :
  sorted t -> NoDup (inorder t) ->
  match expire_rb_find expire_of t e with
  | Some x => x ∈ inorder t /\ expire_of x = e
  | None => forall x, x ∈ inorder t -> expire_of x <> e
  end /\
  (forall x, expire_rb_first_request t = Some x ->
     x ∈ inorder t /\ forall y, y ∈ inorder t -> expire_of x <= expire_of y) /\
  dump_expire_rb_tree (length (inorder t)) t = inorder t.
Proof.
  intros Hs Hnd. split; [by apply rb_find_spec |]. split.
  - intros x. unfold expire_rb_first_request. rewrite rb_first_inorder.
    destruct (inorder t) as [|y l]; [done |]. intros [= <-]. split; [left |].
    inversion_clear Hs as [|? ? _ Hy]. rewrite list.Forall_forall in Hy.
    intros z [->|Hz]%elem_of_cons; [lia | by apply Hy].
  - unfold dump_expire_rb_tree, expire_rb_first_request. rewrite rb_first_inorder.
    by apply (walk_inorder t [] (inorder t)).
Qed.

End Facts.

(** Requests by their name, two of which expire at 30. *)
Definition ex_expire (x : nat) : Z := if (x =? 1)%nat then 10 else if (x <? 4)%nat then 30 else 50.
Definition ex_tree : tree nat := Node (Node Leaf 1%nat Leaf) 2%nat (Node Leaf 4%nat Leaf).

Lemma ex_tree_sorted : StronglySorted (key_le ex_expire) (inorder ex_tree).
Proof. simpl. repeat (apply SSorted_cons || apply SSorted_nil || constructor); unfold key_le; vm_compute; congruence. Qed.

Lemma expire_rb_add_del_witness :
  inorder (expire_rb_add ex_expire ex_tree 3%nat) = [1; 2; 3; 4]%nat /\
  exists t', expire_rb_del (expire_rb_add ex_expire ex_tree 3%nat) 3%nat = Ok t' /\
             inorder t' = [1; 2; 4]%nat.
Proof.
  destruct (expire_rb_add_del ex_expire ex_tree 3%nat) as (H1 & _ & H2).
  - exact ex_tree_sorted.
  - apply (bool_decide_unpack _). vm_compute. reflexivity.
  - split; [exact H1 | exact H2].
Defined.

Lemma expire_rb_search_witness :
  expire_rb_find ex_expire ex_tree 30 = Some 2%nat /\ expire_rb_find ex_expire ex_tree 31 = None /\
  dump_expire_rb_tree 3 ex_tree = [1; 2; 4]%nat.
Proof.
  split; [reflexivity |]. split; [reflexivity |].
  apply (expire_rb_search ex_expire ex_tree 30).
  - exact ex_tree_sorted.
  - apply (bool_decide_unpack _). vm_compute. reflexivity.
Defined.
