(* ===== verification/Jiffies.v ===== *)
(** * Jiffies (linux/jiffies.h)

    The tick counter the expiry times are kept in, an [unsigned long] that wraps.
    Its rate and its conversions are a matter of how the kernel is built: the class
    [JiffyFns]; comparing two times is a macro of the header. *)

From S2P Require Import Prelude CInt.

Class JiffyFns := {
  HZ : Z;
  msecs_to_jiffies : Z -> Z;
  jiffies_to_msecs : Z -> Z;
}.

Class JiffyOk (J : JiffyFns) : Prop := {
  HZ_range : 0 < HZ <= 10000;
  msecs_to_jiffies_pos : forall m, 0 <= m -> 0 <= msecs_to_jiffies m;
}.

#[export] Instance ref_jiffies : JiffyFns := {|
  HZ := 250;
  msecs_to_jiffies m := (m + 3) / 4;
  jiffies_to_msecs j := j * 4;
|}.
#[export] Instance ref_jiffies_ok : JiffyOk ref_jiffies.
Proof. split; simpl; [lia |]. intros m Hm. apply Z.div_pos; lia. Qed.

(** [time_after(a, b)]: [(long)((b) - (a)) < 0]. *)
Definition time_after (a b : Z) : bool := s64 (u64 (b - a)) <? 0.
Definition time_before (a b : Z) : bool := time_after b a.

(** Times less than half of the range apart are compared as they are, whether the
    counter wraps in between or not. *)
Lemma time_after_near a b :
  is_s64 (a - b) -> a - b <> -0x8000000000000000 ->
  time_after (u64 a) (u64 b) = (b <? a).
Proof.
  intros H Hm. unfold time_after. rewrite s64_u64.
  destruct (u64_cong a) as [k ->], (u64_cong b) as [k' ->].
  replace (b + k' * 0x10000000000000000 - (a + k * 0x10000000000000000))
    with (b - a + (k' - k) * 0x10000000000000000) by lia.
  rewrite s64_shift, s64_small by (unfold is_s64 in *; lia).
  destruct (Z.ltb_spec (b - a) 0), (Z.ltb_spec b a); lia || done.
Qed.
