(* ===== verification/SplitAccount.v ===== *)
(** * Account database (src/modules/split_account.h, split_account.c)

    The accounts of the split schedulers: a table from the account id to its record,
    filled on demand.  An account is named by its address in the heap. *)

From S2P Require Import Prelude CInt Kernel DiskSim IoBatch HashTable Jiffies.

Definition KB : Z := 1024.
Definition MB : Z := 1024 * KB.
Definition BATCH_SIZE : Z := 64.
Definition BATCH_BYTE_CAP : Z := 32 * MB.

(** An [io_work] is embedded in the descriptor of a system call, which is named by
    its address, or in that of a request, which is named by the request. *)
Inductive io_ref :=
  | OfCall (desc : ptr)
  | OfReq (rq : ptr).
#[export] Instance io_ref_eq_dec : EqDecision io_ref.
Proof. solve_decision. Defined.

Record account := Account {
  account_id : Z;
  (* stats *)
  num_read_req : Z;
  num_write_req : Z;
  num_write_call : Z;
  num_write_passed : Z;
  num_write_blocked : Z;
  num_fsync_call : Z;
  set_vio_to_global_min : Z;
  (* scheduler specific *)
  ioprio : Z;
  io_work_list_head : list io_ref;
  vio_counter : Z;
  estimate : Z;
  batch_estimate : Z;
  vio_reset : Z;
  seq_counter : Z;
  last_sector : Z;
  last_end_request : Z;
  slice_begin : Z;
  slice_end : Z;
  read_expire : Z;
  write_expire : Z;
  fsync_expire : Z;
  dirty_pages : Z;
  sim_batch : io_batch;
}.
#[export] Instance eta_account : Eta account := fun a =>
  Account (account_id a) (num_read_req a) (num_write_req a) (num_write_call a)
    (num_write_passed a) (num_write_blocked a) (num_fsync_call a) (set_vio_to_global_min a)
    (ioprio a) (io_work_list_head a) (vio_counter a) (estimate a) (batch_estimate a)
    (vio_reset a) (seq_counter a) (last_sector a) (last_end_request a) (slice_begin a)
    (slice_end a) (read_expire a) (write_expire a) (fsync_expire a) (dirty_pages a)
    (sim_batch a).

(** The heap of accounts and the table [accounts] of [struct acct_hash]. *)
Record acct_hash := AcctHash { a_heap : list account; a_table : list (list nat) }.
#[export] Instance eta_acct_hash : Eta acct_hash := fun h => AcctHash (a_heap h) (a_table h).

Definition init_acct_hash (h : acct_hash) : acct_hash := h <| a_table := hash_init |>.

Section Accounts.
Context {K : KernelFns} {J : JiffyFns}.

(** Fresh memory for the array of a batch. *)
Definition junk_reqs (w : world) : list IORequest :=
  (fun i => MkIORequest (s64 (w_junk w (2 * i))) (s32 (w_junk w (2 * i + 1))))
    <$> seq 0 (Z.to_nat BATCH_SIZE).

(** [iobatch_new(BATCH_SIZE, BATCH_BYTE_CAP)]. *)
Definition sim_batch_new : ST world (option io_batch) :=
  let! batch_ok := kmalloc in
  let! reqs_ok := kmalloc in
  let! junk := gets junk_reqs in
  ret (iobatch_new batch_ok reqs_ok junk BATCH_SIZE BATCH_BYTE_CAP).

(** [None] if memory is short. *)
Definition new_account (id : Z) : ST world (option account) :=
  let! ok := kmalloc in
  if negb ok then ret None
  else
    let! b := sim_batch_new in
    match b with
    | None => ret None
    | Some b =>
        let! jiffies := read_jiffies in
        ret (Some {| account_id := id; num_read_req := 0; num_write_req := 0;
                     num_write_call := 0; num_write_passed := 0; num_write_blocked := 0;
                     num_fsync_call := 0; set_vio_to_global_min := 0; ioprio := 0;
                     io_work_list_head := []; vio_counter := 0; estimate := 0;
                     batch_estimate := 0; vio_reset := 0; seq_counter := 0; last_sector := 0;
                     last_end_request := jiffies; slice_begin := 0; slice_end := 0;
                     read_expire := c_div HZ 2; write_expire := 5 * HZ;
                     fsync_expire := 5 * HZ; dirty_pages := 0; sim_batch := b |})
    end.

Definition id_of (h : acct_hash) (p : nat) : Z :=
  match a_heap h !! p with Some a => account_id a | None => -1 end.

(** The search loop of [get_account]. *)
Definition find_account (h : acct_hash) (id : Z) : option nat :=
  hash_search (a_table h) id (fun p => id_of h p =? id).

(** The account goes to the next address of the heap. *)
Definition add_account (h : acct_hash) (a : account) : acct_hash :=
  h <| a_heap ::= fun l => l ++ [a] |>
    <| a_table ::= fun ht => hash_add ht (length (a_heap h)) (account_id a) |>.

(** NULL if the account is new and memory is short. *)
Definition get_account (id : Z) : ST (acct_hash * world) (option nat) :=
  let! h := gets fst in
  match find_account h id with
  | Some p => ret (Some p)
  | None =>
      let! a := zoom snd (fun w s => (fst s, w)) (new_account id) in
      match a with
      | Some a => modify (fun s => (add_account (fst s) a, snd s));; ret (Some (length (a_heap h)))
      | None => ret None
      end
  end.

(** Every account is taken off the table. *)
Definition free_accounts (h : acct_hash) : acct_hash :=
  foldl (fun h p => h <| a_table ::= fun ht => hash_del ht p |>) h (hash_nodes (a_table h)).

End Accounts.

(** ** The database as a map *)

Section Facts.
Context {K : KernelFns} {KO : KernelOk K} {J : JiffyFns}.

Record accts_wf (h : acct_hash) : Prop := {
  ah_table : ht_wf (id_of h) (a_table h);
  ah_nodes : Permutation (hash_nodes (a_table h)) (seq 0 (length (a_heap h)));
  ah_ids : NoDup (account_id <$> a_heap h);
  ah_batches : Forall (fun a => batch_wf (sim_batch a)) (a_heap h);
}.

Lemma accts_wf_init : accts_wf (init_acct_hash (AcctHash [] [])).
Proof.
  split; [apply hash_init_wf | | constructor | constructor].
  change (hash_nodes hash_init ≡ₚ @nil nat). by rewrite hash_init_nodes.
Qed.

Lemma in_nodes h p : accts_wf h -> p ∈ hash_nodes (a_table h) <-> exists a, a_heap h !! p = Some a.
Proof.
  intros Hw. rewrite (ah_nodes _ Hw), elem_of_seq.
  change (exists a, a_heap h !! p = Some a) with (is_Some (a_heap h !! p)).
  rewrite lookup_lt_is_Some. lia.
Qed.

(** Looking an id up is looking for it among the accounts. *)
Lemma find_account_spec h id :
  accts_wf h ->
  match find_account h id with
  | Some p => exists a, a_heap h !! p = Some a /\ account_id a = id
  | None => forall p a, a_heap h !! p = Some a -> account_id a <> id
  end.
Proof.
  intros Hw. unfold find_account. destruct (hash_search _ _ _) as [p|] eqn:E.
  - apply hash_search_some in E as [Hn Hid]. apply in_nodes in Hn as [a Ha]; [|done].
    exists a. split; [done |]. unfold id_of in Hid. by rewrite Ha in Hid.
  - intros p a Ha Hid. eapply (hash_search_none (id_of h)); [apply Hw | exact E | |].
    + apply (in_nodes h p Hw). eauto.
    + unfold id_of. by rewrite Ha.
Qed.

Lemma acct_new_run id w :
  exists o w', new_account id w = Ok (o, w') /\
    match o with
    | Some a => account_id a = id /\ batch_wf (sim_batch a) /\
                read_expire a = c_div HZ 2 /\ fsync_expire a = 5 * HZ
    | None => exists n, w_alloc w n = false
    end.
Proof.
  unfold new_account, sim_batch_new, read_jiffies, bind, kmalloc, gets, ret. simpl.
  destruct (w_alloc w (w_nalloc w)) eqn:E1; simpl; [|eexists None, _; eauto].
  destruct (w_alloc w (S (w_nalloc w))) eqn:E2; [|eexists None, _; eauto].
  destruct (w_alloc w (S (S (w_nalloc w)))) eqn:E3; [|eexists None, _; eauto].
  match goal with |- context [iobatch_new true true ?j ?c ?b] =>
    destruct (iobatch_new_wf j c b) as (nb & Hb & Hw & _); [done | done | done |] end.
  rewrite Hb. eexists (Some _), _. done.
Qed.

Lemma add_account_wf h a :
  accts_wf h -> batch_wf (sim_batch a) ->
  (forall p b, a_heap h !! p = Some b -> account_id b <> account_id a) ->
  accts_wf (add_account h a).
Proof.
  intros [Ht Hn Hi Hb] Hw Hnew. set (n := length (a_heap h)).
  assert (Hid : forall p, p ∈ hash_nodes (a_table h) -> id_of (add_account h a) p = id_of h p).
  { intros p Hp. rewrite Hn in Hp. apply elem_of_seq in Hp. unfold id_of. simpl.
    by rewrite lookup_app_l by lia. }
  assert (Hidn : id_of (add_account h a) n = account_id a).
  { unfold id_of, n. simpl. by rewrite lookup_app_r, Nat.sub_diag by lia. }
  assert (Ht' : ht_wf (id_of (add_account h a)) (a_table h)).
  { destruct Ht as [Hl Hf]. split; [done |]. intros i c m Hi' Hm. rewrite Hid; [eauto |].
    apply elem_of_hash_nodes. eauto. }
  split.
  - simpl. fold n. rewrite <- Hidn. by apply hash_add_wf.
  - simpl. fold n. rewrite <- Hidn at 1. rewrite hash_add_nodes, Hn by done.
    rewrite length_app, Nat.add_1_r, seq_S. simpl. apply Permutation_cons_append.
  - simpl. rewrite fmap_app. apply list.NoDup_app. split; [done |]. split; [|apply NoDup_singleton].
    intros x (b & -> & Hb')%list_elem_of_fmap Hx. apply list_elem_of_singleton in Hx.
    apply list_elem_of_lookup in Hb' as [p Hp]. by apply (Hnew p b).
  - simpl. apply Forall_app. split; [done |]. by apply Forall_singleton.
Qed.

Lemma acct_get_run id h w :
  accts_wf h ->
  exists o h' w', get_account id (h, w) = Ok (o, (h', w')) /\ accts_wf h' /\
    match o with
    | Some p => exists a, a_heap h' !! p = Some a /\ account_id a = id /\
        (forall q b, a_heap h !! q = Some b -> a_heap h' !! q = Some b) /\
        (h' = h \/ (h' = add_account h a /\ fsync_expire a = 5 * HZ /\ read_expire a = c_div HZ 2)) /\
        (forall w2, get_account id (h', w2) = Ok (Some p, (h', w2)))
    | None => h' = h /\ (forall q b, a_heap h !! q = Some b -> account_id b <> id) /\
              exists n, w_alloc w n = false
    end.
Proof.
  intros Hw. pose proof (find_account_spec h id Hw) as Hf.
  unfold get_account at 1, bind at 1, gets at 1. cbn [fst].
  destruct (find_account h id) as [p|] eqn:Ef.
  - destruct Hf as (a & Ha & Hid). exists (Some p), h, w. split_and!; [done | done |].
    exists a. split_and!; auto. intros w2. unfold get_account, bind, gets. simpl. by rewrite Ef.
  - destruct (acct_new_run id w) as (o & w' & E & Ho).
    unfold bind, zoom. cbn [snd fst]. rewrite E. destruct o as [a|].
    2: { exists None, h, w'. split_and!; auto. }
    destruct Ho as (Hid & Hb & Hr & Hs).
    assert (Hw' : accts_wf (add_account h a)).
    { apply add_account_wf; auto. intros p b Hp. rewrite Hid. by eapply Hf. }
    assert (Hl : a_heap (add_account h a) !! length (a_heap h) = Some a).
    { simpl. by rewrite lookup_app_r, Nat.sub_diag by lia. }
    eexists (Some _), (add_account h a), w'. split_and!; [done | done |]. exists a. split_and!; auto.
    + intros q b Hq. simpl. by apply lookup_app_l_Some.
    + intros w2. pose proof (find_account_spec _ id Hw') as Hf'.
      unfold get_account, bind, gets. cbn [fst].
      destruct (find_account (add_account h a) id) as [p|].
      * destruct Hf' as (b & Hp & Hidb). unfold ret. do 3 f_equal.
        eapply (NoDup_lookup (account_id <$> a_heap (add_account h a)) _ _ id); [apply Hw' | |].
        -- rewrite list_lookup_fmap, Hp. simpl. by rewrite Hidb.
        -- rewrite list_lookup_fmap, Hl. simpl. by rewrite Hid.
      * by destruct (Hf' _ _ Hl).
Qed.

(** Changing an account that keeps its id. *)
Lemma accts_wf_put h p a a' :
  accts_wf h -> a_heap h !! p = Some a -> account_id a' = account_id a -> batch_wf (sim_batch a') ->
  accts_wf (h <| a_heap ::= <[p := a']> |>).
Proof.
  intros [[Hl Ht] Hn Hi Hb] Ha Hid Hw.
  assert (E : forall q, id_of (h <| a_heap ::= <[p := a']> |>) q = id_of h q).
  { intros q. unfold id_of. simpl. rewrite list_lookup_insert. case_decide as Hd; [|done].
    destruct Hd as [-> _]. by rewrite Ha. }
  split; simpl.
  - split; [done |]. intros i c m Hi' Hm. rewrite E. eauto.
  - by rewrite length_insert.
  - rewrite list_fmap_insert, list_insert_id; [done |]. by rewrite list_lookup_fmap, Ha, Hid.
  - apply Forall_insert; auto.
Qed.

(** What the database needs of its accounts: their ids and their batches. *)
Lemma accts_wf_ext h h' :
  accts_wf h -> a_table h' = a_table h ->
  (fun a => (account_id a, sim_batch a)) <$> a_heap h' =
  (fun a => (account_id a, sim_batch a)) <$> a_heap h -> accts_wf h'.
Proof.
  intros [[Hl Ht] Hn Hi Hb] Et Eh.
  assert (Ei : account_id <$> a_heap h' = account_id <$> a_heap h).
  { apply (f_equal (fmap fst)) in Eh. by rewrite <- !list_fmap_compose in Eh. }
  assert (Eb : sim_batch <$> a_heap h' = sim_batch <$> a_heap h).
  { apply (f_equal (fmap snd)) in Eh. by rewrite <- !list_fmap_compose in Eh. }
  assert (E : forall q, id_of h' q = id_of h q).
  { intros q. apply (f_equal (lookup q)) in Ei. rewrite !list_lookup_fmap in Ei. unfold id_of.
    destruct (a_heap h' !! q), (a_heap h !! q); simplify_eq/=; congruence. }
  split; rewrite ?Et.
  - split; [done |]. intros i c m Hi' Hm. rewrite E. eauto.
  - rewrite Hn. by rewrite <- (length_fmap account_id (a_heap h)), <- Ei, length_fmap.
  - by rewrite Ei.
  - by eapply (Forall_field sim_batch).
Qed.

(** An account as [new_account] makes it. *)
Record fresh_acct (a : account) : Prop := {
  fa_works : io_work_list_head a = [];
  fa_vio : vio_counter a = 0;
  fa_prio : ioprio a = 0;
  fa_room : batch_fullb (sim_batch a) = false;
}.

(** With memory there is always an account, and if it is a new one then a fresh one. *)
Lemma acct_get_alloc id h w :
  accts_wf h -> (forall n, w_alloc w n = true) ->
  exists p a h' w', get_account id (h, w) = Ok (Some p, (h', w')) /\ accts_wf h' /\
    w_alloc w' = w_alloc w /\ a_heap h' !! p = Some a /\ account_id a = id /\
    (h' = h \/ (h' = add_account h a /\ fresh_acct a)).
Proof.
  intros Hw Ha. pose proof (find_account_spec h id Hw) as Hf.
  unfold get_account, bind at 1, gets at 1. cbn [fst].
  destruct (find_account h id) as [p|] eqn:Ef.
  { destruct Hf as (a & Hp & Hid). exists p, a, h, w. auto 7. }
  assert (E : exists a w', new_account id w = Ok (Some a, w') /\ w_alloc w' = w_alloc w /\
    account_id a = id /\ batch_wf (sim_batch a) /\ fresh_acct a).
  { unfold new_account, sim_batch_new, read_jiffies, bind, kmalloc, gets, ret. simpl. rewrite Ha. simpl. rewrite !Ha.
    match goal with |- context [iobatch_new true true ?j ?c ?b] =>
      destruct (iobatch_new_wf j c b) as (nb & Hb & Hbw & Hbf); [done | done | done |] end.
    rewrite Hb. eexists _, _. split; [done |]. by split_and!. }
  destruct E as (a & w' & E & Hw' & Hid & Hb & Hfr).
  unfold bind, zoom. cbn [snd fst]. rewrite E.
  exists (length (a_heap h)), a, (add_account h a), w'. split_and!; auto.
  - apply add_account_wf; auto. intros p b Hp. rewrite Hid. by eapply Hf.
  - simpl. by rewrite lookup_app_r, Nat.sub_diag by lia.
Qed.

(** The database of accounts is a map filled on demand.  Asking for an id
    returns the account of that id, the one there was or else a new one with the
    default settings, and leaves all other accounts alone; NULL is returned only for
    a new id and only if an allocation failed, and changes nothing. *)
Theorem get_account_on_demand id h w :
  accts_wf h ->
  exists o h' w', get_account id (h, w) = Ok (o, (h', w')) /\ accts_wf h' /\
    match o with
    | Some p => exists a, a_heap h' !! p = Some a /\ account_id a = id /\
        (forall q b, a_heap h !! q = Some b -> a_heap h' !! q = Some b) /\
        (h' = h \/ (h' = add_account h a /\ fsync_expire a = 5 * HZ /\ read_expire a = c_div HZ 2)) /\
        (forall w2, get_account id (h', w2) = Ok (Some p, (h', w2)))
    | None => h' = h /\ (forall q b, a_heap h !! q = Some b -> account_id b <> id) /\
              exists n, w_alloc w n = false
    end.
Proof. apply acct_get_run. Qed.

(** A freed database has no account left to find. *)
Lemma free_accounts_empty h id : accts_wf h -> find_account (free_accounts h) id = None.
Proof.
  intros Hw. assert (Hn : forall p, p ∉ hash_nodes (a_table (free_accounts h))).
  { unfold free_accounts. intros p.
    assert (G : forall l g, (p ∈ hash_nodes (a_table g) -> p ∈ l) ->
      p ∉ hash_nodes (a_table (foldl (fun h p => h <| a_table ::= fun ht => hash_del ht p |>) g l))).
    { induction l as [|q l IH]; intros g Hg; simpl; [by intros ?%Hg%elem_of_nil |].
      apply IH. simpl. intros [Hp Hne]%hash_del_nodes. apply Hg in Hp.
      by apply elem_of_cons in Hp as [->|]. }
    by apply G. }
  unfold find_account. destruct (hash_search _ _ _) as [p|] eqn:E; [|done].
  apply hash_search_some in E as [Hp _]. by destruct (Hn p).
Qed.

End Facts.

(** A world in which every allocation succeeds. *)
Definition ex_world : world :=
  World (fun _ => Timespec 0 0) (fun n => Z.of_nat n) (fun _ => true) (fun _ => 0) 0 0.

Lemma get_account_on_demand_witness :
  exists h w, get_account 7 (init_acct_hash (AcctHash [] []), ex_world) = Ok (Some 0%nat, (h, w)) /\
              account_id <$> a_heap h = [7].
Proof.
  destruct (get_account_on_demand 7 _ ex_world accts_wf_init) as (o & h & w & E & _ & Ho).
  assert (Eo : o = Some 0%nat /\ account_id <$> a_heap h = [7]).
  { clear Ho. revert E. vm_compute. intros [= <- <- <-]. split; reflexivity. }
  exists h, w. destruct Eo as [<- Eh]. exact (conj E Eh).
Defined.
