(* ===== verification/SplitSched.v ===== *)
(** * Shared scheduler code (src/modules/split_sched.h, split_sched.c)

    Descriptors of the system calls and requests a split scheduler decides about,
    and the two hooks that attach a descriptor and a cause list to a request. *)

From S2P Require Import Prelude CInt Kernel CauseTags.

Definition ENOMEM : Z := 12.

(** [enum SPLIT_SCHED_IO_TYPE] *)
Inductive io_type :=
  | SCHED_SYS_WRITE
  | SCHED_SYS_FSYNC
  | SCHED_SYS_MKDIR
  | SCHED_READ_REQ
  | SCHED_WRITE_REQ.
#[export] Instance io_type_eq_dec : EqDecision io_type.
Proof. solve_decision. Defined.

(** [list] and [rb_node] of a fresh [io_work] are in no list and no tree. *)
Record io_work := IoWork { iow_type : io_type; iow_expire : Z }.

(** [do_gettimeofday]: the clock in microseconds. *)
Record timeval := Timeval { tv_s : Z; tv_us : Z }.
Definition do_gettimeofday : ST world timeval :=
  let! t := getnstimeofday in ret (Timeval (tv_sec t) (c_div (tv_nsec t) 1000)).

(** The milliseconds of a timeval. *)
Definition tv_ms (t : timeval) : Z := tv_s t * 1000 + c_div (tv_us t) 1000.

Record wrdesc := WrDesc {
  w_acct : option nat; w_file : ptr; w_count : Z; w_pos : Z; w_io_work : io_work;
  w_time : timeval; w_owner_batch : option ptr; w_ret : Z }.
#[export] Instance eta_wrdesc : Eta wrdesc := fun d =>
  WrDesc (w_acct d) (w_file d) (w_count d) (w_pos d) (w_io_work d) (w_time d) (w_owner_batch d)
    (w_ret d).
Record fsync_desc := FsyncDesc {
  f_acct : option nat; f_file : ptr; f_datasync : Z; f_io_work : io_work;
  f_time : timeval; f_owner_batch : option ptr; f_ret : Z; f_dirty_pages : Z }.
#[export] Instance eta_fsync_desc : Eta fsync_desc := fun d =>
  FsyncDesc (f_acct d) (f_file d) (f_datasync d) (f_io_work d) (f_time d) (f_owner_batch d)
    (f_ret d) (f_dirty_pages d).
Record mkdir_desc := MkdirDesc {
  m_acct : option nat; m_dir : ptr; m_dentry : ptr; m_mode : Z; m_ret : Z;
  m_io_work : io_work; m_time : timeval; m_owner_batch : option ptr }.
#[export] Instance eta_mkdir_desc : Eta mkdir_desc := fun d =>
  MkdirDesc (m_acct d) (m_dir d) (m_dentry d) (m_mode d) (m_ret d) (m_io_work d) (m_time d)
    (m_owner_batch d).
Record req_desc := ReqDesc {
  r_acct : option nat; r_io_work : io_work; r_rq : ptr; r_q : ptr; r_owner_batch : option ptr }.
#[export] Instance eta_req_desc : Eta req_desc := fun d =>
  ReqDesc (r_acct d) (r_io_work d) (r_rq d) (r_q d) (r_owner_batch d).

(** [completion]s and the pointer [sic], which nothing sets, are left out. *)

(** The descriptor, or the error [-ENOMEM] as a value of the right. *)
Definition get_fsync_desc (file : ptr) (datasync : Z) : ST world (fsync_desc + Z) :=
  let! ok := kmalloc in
  if negb ok then ret (inr (- ENOMEM))
  else
    let! now := do_gettimeofday in
    ret (inl {| f_acct := None; f_file := file; f_datasync := datasync;
                f_io_work := IoWork SCHED_SYS_FSYNC 0; f_time := now;
                f_owner_batch := None; f_ret := 0; f_dirty_pages := 0 |}).

Definition get_mkdir_desc (dir dentry : ptr) (mode : Z) : ST world (mkdir_desc + Z) :=
  let! ok := kmalloc in
  if negb ok then ret (inr (- ENOMEM))
  else
    let! now := do_gettimeofday in
    ret (inl {| m_acct := None; m_dir := dir; m_dentry := dentry; m_mode := mode; m_ret := 0;
                m_io_work := IoWork SCHED_SYS_MKDIR 0; m_time := now; m_owner_batch := None |}).

Definition get_wrdesc (file : ptr) (count pos : Z) : ST world (wrdesc + Z) :=
  let! ok := kmalloc in
  if negb ok then ret (inr (- ENOMEM))
  else
    let! now := do_gettimeofday in
    ret (inl {| w_acct := None; w_file := file; w_count := count; w_pos := pos;
                w_io_work := IoWork SCHED_SYS_WRITE 0; w_time := now;
                w_owner_batch := None; w_ret := 0 |}).

(** [is_write] is [rq->cmd_flags & REQ_WRITE]. *)
Definition get_req_desc (q rq : ptr) (is_write : bool) : ST world (req_desc + Z) :=
  let! ok := kmalloc in
  if negb ok then ret (inr (- ENOMEM))
  else ret (inl {| r_acct := None; r_rq := rq; r_q := q; r_owner_batch := None;
                   r_io_work := IoWork (if is_write then SCHED_WRITE_REQ else SCHED_READ_REQ) 0 |}).

(** The private pointers [elv.priv] of a request, beside the kernel. *)
Record rq_state := RqState {
  rs_kern : kernel;
  priv0 : option req_desc;      (* the descriptor *)
  priv1 : option ptr;           (* RQ_CAUSES *)
}.
#[export] Instance eta_rq_state : Eta rq_state := fun s => RqState (rs_kern s) (priv0 s) (priv1 s).
Definition in_rs {A} (m : ST kernel A) : ST rq_state A :=
  zoom rs_kern (fun k s => s <| rs_kern := k |>) m.

(** Returns 1 if there is no memory for the descriptor. *)
Definition split_set_request (q rq : ptr) (is_write : bool) : ST rq_state Z :=
  let! d := in_rs (in_world (get_req_desc q rq is_write)) in
  match d with
  | inr _ => ret 1
  | inl d =>
      modify (fun s => s <| priv0 := Some d |>);;
      let! causes := in_rs __new_cause_list in
      modify (fun s => s <| priv1 := causes |>);;
      ret 0
  end.

Definition split_put_request : ST rq_state unit :=
  modify (fun s => s <| priv0 := None |>);;
  let! causes := gets priv1 in
  in_rs (put_cause_list_safe causes).

(** The cause lists of this module have no queue to call back. *)
#[export] Instance rq_host : Host rq_state := {|
  ker := rs_kern;
  set_ker k s := s <| rs_kern := k |>;
  queue_sched_uniq _ _ := 0;
  elevator_causes_free_fn _ _ := None;
|}.

(** How setting up a request ends: with its descriptor and a fresh cause list, or
    without a descriptor and nothing allocated. *)
Lemma split_set_request_run q rq is_write s :
  exists rv s', split_set_request q rq is_write s = Ok (rv, s') /\
    ((rv = 1 /\ priv0 s' = priv0 s /\ priv1 s' = priv1 s /\ k_causes (rs_kern s') = k_causes (rs_kern s)) \/
     (rv = 0 /\ is_Some (priv0 s') /\
      match priv1 s' with
      | Some p => p = k_next (rs_kern s) /\
          exists c, k_causes (rs_kern s') = <[p := c]> (k_causes (rs_kern s)) /\ refcount c = 1 /\
                    callback_q c = None /\ items c = []
      | None => k_causes (rs_kern s') = k_causes (rs_kern s)
      end /\ k_works (rs_kern s') = k_works (rs_kern s))).
Proof.
  unfold split_set_request, get_req_desc, in_rs, in_world, zoom, bind, kmalloc, ret. simpl.
  destruct (w_alloc _ _); simpl; [|eexists _, _; split; [done |]; left; done].
  unfold __new_cause_list, in_world, zoom, bind, kmalloc, gets, modify, ret. simpl.
  destruct (w_alloc _ _); simpl; eexists _, _; (split; [done |]); right; split_and!; simpl; eauto.
  split; [done |]. eexists. done.
Qed.

(** Nothing of a request is left behind: after it was set up, put, and the
    deferred work ran, its descriptor is gone, the heap of cause lists is what it was
    before, and as many cause lists were freed as were allocated, unless the work
    item itself could not be allocated. *)
Theorem split_request_no_leak q rq is_write s :
  k_works (rs_kern s) = [] -> k_causes (rs_kern s) !! k_next (rs_kern s) = None ->
  (forall n, w_alloc (k_world (rs_kern s)) n = true) ->
  exists s', (split_set_request q rq is_write;; split_put_request;; do_put_cause_list_work) s = Ok (tt, s') /\
    priv0 s' = None /\ k_causes (rs_kern s') = k_causes (rs_kern s) /\ k_works (rs_kern s') = [] /\
    cause_list_alloc (rs_kern s') = s32 (cause_list_alloc (rs_kern s) + 1) /\
    cause_list_free (rs_kern s') = s32 (cause_list_free (rs_kern s) + 1) /\
    cause_item_alloc (rs_kern s') = cause_item_alloc (rs_kern s) /\
    cause_item_free (rs_kern s') = s32 (cause_item_free (rs_kern s)).
Proof.
  intros Hw Hf Ha. destruct s as [k d c]. simpl in *.
  unfold split_set_request, get_req_desc, split_put_request, put_cause_list_safe, do_put_cause_list_work,
    __new_cause_list, in_rs, in_world, zoom, bind, kmalloc, gets, modify, ret. simpl.
  repeat (rewrite Ha; simpl). rewrite Hw. simpl.
  unfold put_cause_list, free_cause_list, in_kernel, read_causes, write_causes, zoom, bind, gets, modify, ret.
  simpl. repeat (rewrite ?lookup_insert_eq, ?lookup_alter_eq; simpl).
  eexists. split; [reflexivity |]. simpl. split_and!; auto.
  - apply map_eq. intros i.
    destruct (decide (i = k_next k)) as [->|Hne].
    + by rewrite lookup_delete_eq.
    + by rewrite lookup_delete_ne, lookup_alter_ne, lookup_insert_ne by done.
  - f_equal. lia.
Qed.

Definition ex_kernel : kernel :=
  Kern (World (fun _ => Timespec 0 0) (fun _ => 0) (fun _ => true) (fun _ => 0) 0 0)
    ∅ 1%positive 0 0 0 0 [].

Lemma split_request_no_leak_witness :
  exists s', (split_set_request 1 2 true;; split_put_request;; do_put_cause_list_work)
               (RqState ex_kernel None None) = Ok (tt, s') /\ k_causes (rs_kern s') = ∅.
Proof.
  destruct (split_request_no_leak 1 2 true (RqState ex_kernel None None)) as (s' & E & _ & Hc & _).
  - reflexivity.
  - reflexivity.
  - reflexivity.
  - exists s'. exact (conj E Hc).
Defined.
