(* ===== verification/TBucket.v ===== *)
(** * Token-bucket scheduler (src/modules/tbucket.c): state and handlers

    Each account has a bucket of tokens: [credit] flows in at [rate] per second
    up to [limit], [estimate] is charged when pages are dirtied and [used] when the
    disk model prices a batch of I/O.  Requests wait in two queues per account, and
    the queues take turns.

    An account is named by its index in [td_heap], the accounts allocated so far
    (they are freed only with the scheduler); a queue by its account and its
    direction. *)

From S2P Require Import Prelude CInt Kernel DiskSim IoBatch HashTable CauseTags Queue IoctlHelper.

Definition DEFAULT_ACCOUNT : Z := 0.
Definition DISPATCH_CAP : Z := 0.
Definition PG_SIZE : Z := 4096.
Definition BATCH_SIZE : Z := 64.
Definition BATCH_BYTE_CAP : Z := 32 * (1024 * 1024).
Definition INSANE_CAP : Z := 1000.
Definition ANTICIPATION_US : Z := 10000.
Definition RUN_SIZE_LIMIT : Z := 10 * (1024 * 1024).
Definition READ : Z := 0.
Definition WRITE : Z := 1.
Definition ENOMEM : Z := 12.

(** A queue of an account: [true] for its [wqueue], [false] for its [rqueue]. *)
Abbreviation qref := (nat * bool)%type.

Record account := Account {
  acct_id : Z;
  rqueue : queue;
  wqueue : queue;
  rate : Z;
  limit : Z;
  credit : Z;          (* income *)
  estimate : Z;        (* memory *)
  used : Z;            (* disk time *)
  used_raw : Z;        (* disk byte *)
  lost : Z;            (* income lost due to limit *)
  sane : Z;
  insane : list Z;     (* insane[INSANE_CAP] *)
  last_update : timespec;
  batch : io_batch;
  batch_estimate : Z;
}.
#[export] Instance eta_account : Eta account := fun a =>
  Account (acct_id a) (rqueue a) (wqueue a) (rate a) (limit a) (credit a) (estimate a)
    (used a) (used_raw a) (lost a) (sane a) (insane a) (last_update a) (batch a)
    (batch_estimate a).

Record tb_stats := Stats {
  last_queue : option qref;
  queue_runs : Z;
  disk_writes : Z;
  disk_reads : Z;
  disk_norm : Z;
  io_batches : Z;
  io_batch_add_seq : Z;
  io_batch_add_tot : Z;
  dispatch_declined_no_work : Z;
  dispatch_declined_throttle : Z;
  start_sleep : timespec;
  sleep_time : timespec;
}.
#[export] Instance eta_stats : Eta tb_stats := fun s =>
  Stats (last_queue s) (queue_runs s) (disk_writes s) (disk_reads s) (disk_norm s)
    (io_batches s) (io_batch_add_seq s) (io_batch_add_tot s) (dispatch_declined_no_work s)
    (dispatch_declined_throttle s) (start_sleep s) (sleep_time s).

Record tbucket_data := TData {
  td_heap : list account;
  accounts_hash : list (list nat);
  accounts : list nat;
  queues : list qref;
  queues_count : Z;
  dispatch_nudger : option Z;   (* expiry of the timer, if it is pending *)
  dispatched : Z;
  td_batch : io_batch;
  run_serve_size : Z;
  stats : tb_stats;
}.
#[export] Instance eta_td : Eta tbucket_data := fun t =>
  TData (td_heap t) (accounts_hash t) (accounts t) (queues t) (queues_count t)
    (dispatch_nudger t) (dispatched t) (td_batch t) (run_serve_size t) (stats t).

(** The fields of [struct request] in use; [RQ_CAUSES] and [RQ_QUEUE] are the
    two private pointers. *)
Record request := Rq {
  rq_data_dir : Z;
  blk_rq_pos : Z;
  blk_rq_bytes : Z;
  rq_bio : list bio;          (* the chain of bios, by bi_next *)
  RQ_CAUSES : option ptr;
  RQ_QUEUE : option qref;
}.
#[export] Instance eta_request : Eta request := fun r =>
  Rq (rq_data_dir r) (blk_rq_pos r) (blk_rq_bytes r) (rq_bio r) (RQ_CAUSES r) (RQ_QUEUE r).

(** The state a handler runs on: the request queue with its elevator data, the
    requests, the inodes ([i_private1] of each) and the rest of the kernel. *)
Record tb := TB {
  kern : kernel;
  rqs : gmap ptr request;
  inodes : gmap ptr Z;
  dispatch_list : list ptr;     (* what was handed to the device queue *)
  q_sched_uniq : Z;
  q_live : bool;                (* is elevator_data set? *)
  td : tbucket_data;
}.
#[export] Instance eta_tb : Eta tb := fun s =>
  TB (kern s) (rqs s) (inodes s) (dispatch_list s) (q_sched_uniq s) (q_live s) (td s).

(** ** Access to the state *)

Definition in_kern {A} (m : ST kernel A) : ST tb A :=
  zoom kern (fun k s => s <| kern := k |>) m.
Definition in_clock {A} (m : ST world A) : ST tb A := in_kern (in_world m).
Definition upd_td (f : tbucket_data -> tbucket_data) : ST tb unit :=
  modify (fun s => s <| td ::= f |>).
Definition upd_stats (f : tb_stats -> tb_stats) : ST tb unit :=
  upd_td (fun t => t <| stats ::= f |>).

Definition acct (line : Z) (p : nat) : ST tb account := fun s =>
  match td_heap (td s) !! p with Some a => Ok (a, s) | None => Fault (NullDeref line) end.
Definition upd_acct (p : nat) (f : account -> account) : ST tb unit :=
  upd_td (fun t => t <| td_heap ::= alter f p |>).

Definition get_rq (line : Z) (rq : ptr) : ST tb request := fun s =>
  match rqs s !! rq with Some r => Ok (r, s) | None => Fault (NullDeref line) end.
Definition upd_rq (rq : ptr) (f : request -> request) : ST tb unit :=
  modify (fun s => s <| rqs ::= alter f rq |>).

(** [queue_to_account] is the first component of a [qref]. *)
Definition queue_to_account (q : qref) : nat := fst q.
Definition queue_of (q : qref) (a : account) : queue := if snd q then wqueue a else rqueue a.
Definition set_queue (q : qref) (v : queue) (a : account) : account :=
  if snd q then a <| wqueue := v |> else a <| rqueue := v |>.

(** ** Token counts *)

Definition count (a : account) : Z := s64 (credit a - s64 (estimate a + used a)).

Definition saturate_counts (a : account) : account :=
  let diff := s64 (count a - limit a) in
  if diff >? 0
  then a <| credit ::= fun c => s64 (c - diff) |> <| lost ::= fun l => s64 (l + diff) |>
  else a.

(** Two loops bring the nanoseconds into [0, NSEC_PER_SEC); the fuel is the
    number of turns they need. *)
Fixpoint normalize_up (fuel : nat) (ts : timespec) : timespec :=
  match fuel with
  | O => ts
  | S fuel => if tv_nsec ts <? 0
              then normalize_up fuel (Timespec (s64 (tv_sec ts - 1)) (s64 (tv_nsec ts + NSEC_PER_SEC)))
              else ts
  end.
Fixpoint normalize_down (fuel : nat) (ts : timespec) : timespec :=
  match fuel with
  | O => ts
  | S fuel => if tv_nsec ts >=? NSEC_PER_SEC
              then normalize_down fuel (Timespec (s64 (tv_sec ts + 1)) (s64 (tv_nsec ts - NSEC_PER_SEC)))
              else ts
  end.
Definition normalize_fuel (ts : timespec) : nat := S (Z.to_nat (Z.abs (tv_nsec ts) / NSEC_PER_SEC)).
Definition normalize_timespec (ts : timespec) : timespec :=
  let ts := normalize_up (normalize_fuel ts) ts in
  normalize_down (normalize_fuel ts) ts.

Definition estimate_wait_usecs (a : account) : Z :=
  Z.max (u64 (safe_div (s64 (- count a * 1000000)) (rate a))) 100.

Section Handlers.
Context {K : KernelFns}.

(** The amount that flows in until [now]. *)
Definition refresh_inc (a : account) (now : timespec) : Z :=
  let update := timespec_sub now (last_update a) in
  let usecs := u64 (s64 (tv_sec update * USEC_PER_SEC) + c_div (tv_nsec update) NSEC_PER_USEC) in
  s64 (u64 (usecs * u64 (rate a)) / 1000000).

Definition refresh_count (p : nat) : ST tb unit :=
  let! now := in_clock getnstimeofday in
  let! a := acct 359 p in
  let inc := refresh_inc a now in
  lift (bug_on 363 (inc <? 0));;
  if inc >? 0
  then upd_acct p (fun a => (saturate_counts (a <| credit ::= fun c => s64 (c + inc) |>))
                              <| last_update := now |>)
  else ret tt.

(** ** Accounts *)

(** Fresh memory for the array of a batch. *)
Definition junk_reqs (w : world) : list IORequest :=
  (fun i => MkIORequest (s64 (w_junk w (2 * i))) (s32 (w_junk w (2 * i + 1))))
    <$> seq 0 (Z.to_nat BATCH_SIZE).

Definition iobatch_alloc : ST world (option io_batch) :=
  let! batch_ok := kmalloc in
  let! reqs_ok := kmalloc in
  let! junk := gets junk_reqs in
  ret (iobatch_new batch_ok reqs_ok junk BATCH_SIZE BATCH_BYTE_CAP).

Definition new_account (account_id : Z) : ST world (option account) :=
  let! ok := kmalloc in
  if negb ok then ret None
  else
    let! b := iobatch_alloc in
    match b with
    | None => ret None
    | Some b =>
        let! now := getnstimeofday in
        ret (Some {| acct_id := account_id; rqueue := queue_init 0; wqueue := queue_init 1;
                     rate := 0; limit := 0; credit := 0; estimate := 0; used := 0;
                     used_raw := 0; lost := 0; sane := 0;
                     insane := replicate (Z.to_nat INSANE_CAP) 0;
                     last_update := now; batch := b; batch_estimate := 0 |})
    end.

(** The account goes to the next address of the heap. *)
Definition add_account (t : tbucket_data) (a : account) : tbucket_data :=
  let p := length (td_heap t) in
  t <| td_heap ::= fun h => h ++ [a] |>
    <| accounts_hash ::= fun ht => hash_add ht p (acct_id a) |>
    <| accounts ::= fun l => l ++ [p] |>
    <| queues ::= fun l => l ++ [(p, false); (p, true)] |>
    <| queues_count ::= fun n => s32 (n + 2) |>.

Definition id_of (t : tbucket_data) (p : nat) : Z :=
  match td_heap t !! p with Some a => acct_id a | None => -1 end.

Definition find_account (t : tbucket_data) (account_id : Z) : option nat :=
  hash_search (accounts_hash t) account_id (fun p => id_of t p =? account_id).

Definition get_account (account_id : Z) : ST tb nat :=
  let! t := gets td in
  match find_account t account_id with
  | Some p => ret p
  | None =>
      let! a := in_clock (new_account account_id) in
      match a with
      | Some a =>
          let! p := gets (fun s => length (td_heap (td s))) in
          upd_td (fun t => add_account t a);;
          ret p
      | None =>
          match find_account t DEFAULT_ACCOUNT with
          | Some p => ret p
          | None => lift (Fault (BUG 205))
          end
      end
  end.

(** [free_accounts]: every account is taken off the list and the table. *)
Definition free_accounts (t : tbucket_data) : tbucket_data :=
  foldl (fun t p => t <| accounts ::= filter (fun q => q <> p) |>
                      <| accounts_hash ::= fun ht => hash_del ht p |>) t (accounts t).

(** ** Causes of a request *)

Definition causes_set_cost (p : ptr) (c : Z) : ST kernel unit :=
  write_causes p (fun cl => cl <| cl_private := c |>).

Definition bio_uniq_causes (r : request) (b : bio) : option ptr :=
  match bi_cll b with
  | Some l => match uniq_causes l with Some u => Some u | None => RQ_CAUSES r end
  | None => RQ_CAUSES r
  end.

(** The inner loop of [get_one_cause]; [inl] is the early return. *)
Fixpoint one_cause (rv : Z) (ids : list Z) : Z + Z :=
  match ids with
  | [] => inr rv
  | i :: ids' =>
      if negb (rv =? DEFAULT_ACCOUNT) && negb (rv =? i) then inl DEFAULT_ACCOUNT
      else one_cause i ids'
  end.

Fixpoint one_cause_bios (r : request) (rv : Z) (bios : list bio) : ST kernel Z :=
  match bios with
  | [] => ret rv
  | b :: bios' =>
      match bio_uniq_causes r b with
      | None => one_cause_bios r rv bios'
      | Some p =>
          let! c := read_causes 331 p in
          match one_cause rv (items c) with
          | inl early => ret early
          | inr rv => one_cause_bios r rv bios'
          end
      end
  end.

Definition get_one_cause (r : request) : ST kernel Z :=
  one_cause_bios r DEFAULT_ACCOUNT (rq_bio r).

(** ** Charging for I/O *)

(** Adds the I/O to the batch of one of its causes; [full] is the flag of the
    loop. *)
Definition batch_cause (c : cause_list) (off : Z) (full : bool) (account_id : Z) : ST tb bool :=
  let size := s32 (cl_size c) in
  let causes_cost := s32 (cl_private c) in
  let! p := get_account account_id in
  let! a := acct 407 p in
  let! r := lift (iobatch_add_request (batch a) off size) in
  upd_acct p (fun a => a <| batch := snd r |>);;
  let! f := lift (iobatch_full (snd r)) in
  (* amount we have already charged for req being added to batch *)
  upd_acct p (fun a => a <| batch_estimate ::= fun e =>
                u64 (e + safe_div causes_cost (item_count c)) |>);;
  ret (full || f).

(** The charge of one account when the batches are settled: based on the disk
    model, with the estimate refunded. *)
Definition charge_account (combined_cost summed_cost : Z) (p : nat) : ST tb unit :=
  let! a := acct 425 p in
  let! r := lift (iobatch_get_cost (batch a)) in
  let basic_charge := fst r in
  let adjusted_charge := u64 (safe_div (u64 (combined_cost * basic_charge)) summed_cost) in
  upd_acct p (fun a => a <| batch := snd r |>
    <| used ::= fun u => s64 (u + adjusted_charge) |>
    <| used_raw ::= fun u => s64 (u + batch_estimate a) |>
    <| estimate ::= fun e => s64 (e - batch_estimate a) |>);;
  upd_acct p saturate_counts;;
  upd_acct p (fun a => a <| batch_estimate := 0 |> <| batch ::= iobatch_clear |>).

(** The block run when a batch is full. *)
Definition settle_batches : ST tb unit :=
  let! t := gets td in
  let! r := lift (iobatch_get_cost (td_batch t)) in
  let combined_cost := fst r in
  upd_td (fun t => t <| td_batch := iobatch_clear (snd r) |>);;
  upd_stats (fun s => s <| disk_norm ::= fun n => u64 (n + combined_cost) |>
                        <| io_batches ::= fun n => s64 (n + 1) |>);;
  let! l := gets (fun s => accounts (td s)) in
  let! summed_cost := for_acc l 0 (fun summed p =>
    let! a := acct 421 p in
    let! r := lift (iobatch_get_cost (batch a)) in
    upd_acct p (fun a => a <| batch := snd r |>);;
    ret (u64 (summed + fst r))) in
  for_each l (charge_account combined_cost summed_cost).

Definition do_disk_accounting (causes : ptr) (off : Z) : ST tb unit :=
  let! c := in_kern (read_causes 384 causes) in
  let size := s32 (cl_size c) in
  (* update global batch and account batches *)
  let! t := gets td in
  let! r := lift (iobatch_add_request (td_batch t) off size) in
  upd_td (fun t => t <| td_batch := snd r |>);;
  let! full := lift (iobatch_full (snd r)) in
  (if negb (fst r =? 0)
   then upd_stats (fun s => s <| io_batch_add_seq ::= fun n => s64 (n + 1) |>) else ret tt);;
  upd_stats (fun s => s <| io_batch_add_tot ::= fun n => s64 (n + 1) |>);;
  let! full := for_acc (items c) full (batch_cause c off) in
  if full then settle_batches else ret tt.

Definition account_for_causes (causes : ptr) (off size : Z) : ST tb unit :=
  let! c := in_kern (read_causes 446 causes) in
  (match callback_q c with
   | Some _ => in_kern (write_causes causes (fun c => c <| callback_q := None |>))
   | None =>
       if item_count c >? 0 then
         in_kern (causes_set_cost causes (s64 size));;
         let amt := s32 (safe_div size (item_count c)) in
         for_each (items c) (fun account_id =>
           let! p := get_account account_id in
           upd_acct p (fun a => a <| estimate ::= fun e => s64 (e + amt) |>);;
           upd_acct p saturate_counts)
       else ret tt
   end);;
  do_disk_accounting causes off.

(** The test [bio->cll && bio->cll->uniq_causes->item_count]. *)
Definition bio_tagged (b : bio) : ST tb bool :=
  match bi_cll b with
  | None => ret false
  | Some l =>
      let! u := lift (deref 483 (uniq_causes l)) in
      let! cu := in_kern (read_causes 483 u) in
      ret (negb (item_count cu =? 0))
  end.

(** One turn of the loop over the cause lists of a bio; returns the next offset. *)
Definition account_for_item (l : cause_list_list) (off i : Z) : ST tb Z :=
  let! slot := lift (array_get 485 (cll_items l) i) in
  let! causes := lift (deref 486 slot) in
  let! c := in_kern (read_causes 486 causes) in
  account_for_causes causes off (cl_size c);;
  let! c := in_kern (read_causes 487 causes) in
  ret (s64 (off + cl_size c)).

Definition account_for_bio (r : request) (b : bio) : ST tb unit :=
  let off := s64 (u64 (bi_sector b * 512)) in
  let! tagged := bio_tagged b in
  (match bi_cll b, tagged with
   | Some l, true => for_acc (seqZ 0 (cll_item_count l)) off (account_for_item l);; ret tt
   | _, _ =>
       match RQ_CAUSES r with
       | Some causes => account_for_causes causes off (bi_size b)
       | None => ret tt
       end
   end);;
  if rq_data_dir r =? WRITE
  then upd_stats (fun s => s <| disk_writes ::= fun n => u64 (n + bi_size b) |>)
  else upd_stats (fun s => s <| disk_reads ::= fun n => u64 (n + bi_size b) |>).

Definition account_for_req (r : request) : ST tb unit :=
  for_each (rq_bio r) (account_for_bio r).

(** ** Dispatch *)

Definition dispatch_sort (q : qref) (rq : ptr) : ST tb unit :=
  let! r := get_rq 527 rq in
  account_for_req r;;
  upd_td (fun t => t <| run_serve_size ::= fun n => s64 (n + blk_rq_bytes r) |>);;
  modify (fun s => s <| dispatch_list ::= fun l =>
    elv_dispatch_sort (fun p => match rqs s !! p with Some r => blk_rq_pos r | None => 0 end) l rq |>);;
  upd_td (fun t => t <| dispatched ::= fun n => s32 (n + 1) |>);;
  let! st := gets (fun s => stats (td s)) in
  (if bool_decide (last_queue st = Some q) then ret tt
   else upd_stats (fun s => s <| queue_runs ::= fun n => s64 (n + 1) |> <| last_queue := Some q |>));;
  if tv_sec (start_sleep st) =? 0 then ret tt
  else
    let! now := in_clock getnstimeofday in
    upd_stats (fun s =>
      s <| sleep_time := normalize_timespec
             (Timespec (s64 (tv_sec (sleep_time s) + (tv_sec now - tv_sec (start_sleep s))))
                       (s64 (tv_nsec (sleep_time s) + (tv_nsec now - tv_nsec (start_sleep s))))) |>
        <| start_sleep ::= fun t => t <| tv_sec := 0 |> |>).

(** [queue_pop] on a queue of an account. *)
Definition pop_queue (q : qref) : ST tb (option ptr) :=
  let! a := acct 588 (queue_to_account q) in
  let! r := in_clock (queue_pop (queue_of q a)) in
  upd_acct (queue_to_account q) (set_queue q (snd r));;
  ret (fst r).

(** [while ((rq = queue_pop(queue)) != NULL)]; the fuel is the length of the
    queue, and one turn to find it empty. *)
Fixpoint drain_queue (fuel : nat) (q : qref) (rv : Z) : ST tb Z :=
  match fuel with
  | O => ret rv
  | S fuel =>
      let! o := pop_queue q in
      match o with
      | None => ret rv
      | Some rq => dispatch_sort q rq;; drain_queue fuel q (s32 (rv + 1))
      end
  end.

(** Accounts made while the loop runs have empty queues at the end of the list:
    visiting them would do nothing. *)
Definition tbucket_dispatch_force : ST tb Z :=
  let! l := gets (fun s => queues (td s)) in
  for_acc l 0 (fun rv q =>
    let! a := acct 556 (queue_to_account q) in
    drain_queue (S (length (q_reqs (queue_of q a)))) q rv).

(** The loop of [tbucket_dispatch]: [None] if a request was dispatched, and
    otherwise [min_usecs_to_wait]. *)
Fixpoint dispatch_loop (n : nat) (min_usecs : Z) (have_switched : bool) : ST tb (option Z) :=
  match n with
  | O => ret (Some min_usecs)
  | S n =>
      let! t := gets td in
      match queues t with
      | [] => lift (Fault (NullDeref 582))
      | q :: rest =>
          let p := queue_to_account q in
          refresh_count p;;
          let switch_queue min_usecs :=
            upd_td (fun t => t <| run_serve_size := 0 |> <| queues := rest ++ [q] |>);;
            dispatch_loop n min_usecs true in
          if run_serve_size t >=? RUN_SIZE_LIMIT then switch_queue min_usecs
          else
            let! a := acct 587 p in
            let not_ready :=
              let! a := acct 607 p in
              if q_count (queue_of q a) >? 0 then
                let usecs := estimate_wait_usecs a in
                switch_queue (if (min_usecs =? 0) || (usecs <? min_usecs) then usecs else min_usecs)
              else switch_queue min_usecs in
            if negb (q_rw (queue_of q a) =? 0) || (rate a <=? 0) || (count a >? 0) then
              let! o := pop_queue q in
              match o with
              | Some rq => dispatch_sort q rq;; ret None
              | None =>
                  if negb have_switched then
                    let! a := acct 594 p in
                    let! pop_elapsed_us := in_clock (queue_pop_elapsed_us (queue_of q a)) in
                    if pop_elapsed_us <? ANTICIPATION_US
                    then ret (Some (ANTICIPATION_US - pop_elapsed_us))
                    else not_ready
                  else not_ready
              end
            else not_ready
      end
  end.

Definition tbucket_dispatch (force : bool) : ST tb Z :=
  if force then tbucket_dispatch_force
  else
    let! t := gets td in
    if (DISPATCH_CAP >? 0) && (dispatched t >=? DISPATCH_CAP) then ret 0
    else
      let! r := dispatch_loop (Z.to_nat (queues_count t)) 0 false in
      match r with
      | None => ret 1
      | Some min_usecs =>
          (if min_usecs >? 0 then
             let! j := in_clock read_jiffies in
             let jiffy_wait := u64 (j + usecs_to_jiffies (u32 (Z.max min_usecs 100))) in
             upd_td (fun t => t <| dispatch_nudger := None |>);;
             upd_td (fun t => t <| dispatch_nudger := Some jiffy_wait |>);;
             upd_stats (fun s => s <| dispatch_declined_throttle ::= fun n => s64 (n + 1) |>)
           else
             upd_stats (fun s => s <| dispatch_declined_no_work ::= fun n => s64 (n + 1) |>));;
          upd_stats (fun s => s <| last_queue := None |>);;
          let! st := gets (fun s => stats (td s)) in
          (if tv_sec (start_sleep st) =? 0 then
             let! now := in_clock getnstimeofday in
             upd_stats (fun s => s <| start_sleep := now |>)
           else ret tt);;
          ret 0
      end.

(** ** Requests *)

Definition tbucket_merge_request (rq next : ptr) : ST tb unit :=
  let! r := get_rq 374 rq in
  let! q := lift (deref 374 (RQ_QUEUE r)) in
  upd_acct (queue_to_account q) (fun a => set_queue q (queue_del (queue_of q a) rq) a).

Definition tbucket_set_request (rq : ptr) : ST tb Z :=
  let! p := in_kern __new_cause_list in
  upd_rq rq (fun r => r <| RQ_CAUSES := p |>);;
  ret 0.

Definition tbucket_put_request (rq : ptr) : ST tb unit :=
  let! r := get_rq 648 rq in
  in_kern (put_cause_list_safe (RQ_CAUSES r)).

(** [WARN_ON2(x)] is [WARN_ON(x); if(x) warn = __LINE__]: two statements. *)
Definition warn_on2 (line : Z) (x : bool) (warn : Z) : Z := if x then line else warn.

Definition sanity_check_causes (c : cause_list) (warn : Z) : Z :=
  if negb (cl_type c =? SPLIT_ZERO) then
    let warn := warn_on2 668 (negb (cl_size c =? PG_SIZE)) warn in
    (* the guard on the type covers only the first statement of the macro *)
    warn_on2 672 (item_count c =? 0) warn
  else warn.

Definition sanity_check_bio (r : request) (warn : Z) (b : bio) : ST kernel Z :=
  let warn := warn_on2 659
    (match bi_cll b with Some _ => true | None => false end && (rq_data_dir r =? READ)) warn in
  match bi_cll b with
  | Some l =>
      if rq_data_dir r =? WRITE then
        let! acc := for_acc (seqZ 0 (cll_item_count l)) (warn, 0, 0) (fun acc i =>
          let '(warn, cl_count, cl_bytes) := acc in
          let! slot := lift (array_get 666 (cll_items l) i) in
          let! p := lift (deref 667 slot) in
          let! c := read_causes 667 p in
          ret (sanity_check_causes c warn, s32 (cl_count + 1), s32 (cl_bytes + cl_size c))) in
        let '(warn, cl_count, cl_bytes) := acc in
        let warn := warn_on2 677 (negb (cll_size l =? bi_size b)) warn in
        let warn := warn_on2 683 (negb (cl_count =? cll_item_count l)) warn in
        ret (warn_on2 684 (negb (u64 cl_bytes =? cll_size l)) warn)
      else ret warn
  | None => ret warn
  end.

Definition request_sanity_check (r : request) : ST kernel Z :=
  let warn := warn_on2 656 (match rq_bio r with [] => true | _ => false end) 0 in
  for_acc (rq_bio r) warn (sanity_check_bio r).

(** Recording that a request is sane or not. *)
Definition count_sanity (p : nat) (warn : Z) : ST tb unit :=
  if warn =? 0 then upd_acct p (fun a => a <| sane ::= fun n => s64 (n + 1) |>)
  else
    let i := if warn >=? INSANE_CAP then 0 else warn in
    let! a := acct 703 p in
    let! n := lift (array_get 703 (insane a) i) in
    let! insane' := lift (array_set 703 (insane a) i (s64 (n + 1))) in
    upd_acct p (fun a => a <| insane := insane' |>).

(** [cur] is the account id of the current task. *)
Definition tbucket_add_request (cur : Z) (rq : ptr) : ST tb unit :=
  let! r := get_rq 695 rq in
  let! warn := in_kern (request_sanity_check r) in
  in_kern (__cause_list_add (RQ_CAUSES r) cur);;
  let! id := in_kern (get_one_cause r) in
  let! p := get_account id in
  count_sanity p warn;;
  let q := (p, negb (rq_data_dir r =? 0)) in
  upd_rq rq (fun r => r <| RQ_QUEUE := Some q |>);;
  upd_acct p (fun a => set_queue q (queue_push (queue_of q a) rq) a).

Definition tbucket_completed_request (rq : ptr) : ST tb unit :=
  upd_td (fun t => t <| dispatched ::= fun n => s32 (n - 1) |>).

Definition tbucket_kv_set (id : Z) (key : string) (val : Z) : ST tb unit :=
  if String.eqb key "debug" then ret tt
  else if id =? 0 then ret tt
  else
    let! p := get_account id in
    let! a := acct 740 p in
    if acct_id a =? id then
      if String.eqb key "rate" then
        upd_acct p (fun a => a <| rate := val |>);; upd_acct p saturate_counts
      else if String.eqb key "limit" then
        upd_acct p (fun a => a <| limit := val |>);; upd_acct p saturate_counts
      else if String.eqb key "count" then
        upd_acct p (fun a => a <| credit ::= fun c => s64 (c + s64 (val - count a)) |>);;
        upd_acct p saturate_counts
      else ret tt
    else ret tt.

(** ** Hooks of the file systems *)

(** [new_id] is the account id of the task that dirties the page. *)
Definition tbucket_causes_dirty (causes : ptr) (new_id : Z) (inode : ptr) (pos : Z) : ST tb unit :=
  let! c := in_kern (read_causes 901 causes) in
  let! s := gets (fun s => s) in
  let! ipos := lift (deref 905 (inodes s !! inode)) in
  let! tot_cost :=
    (if cl_private c <=? 0 then
       let tot_cost := s64 (seek_time pos ipos + cl_size c) in
       in_kern (causes_set_cost causes tot_cost);; ret tot_cost
     else ret (cl_private c)) in
  modify (fun s => s <| inodes ::= <[inode := s64 (pos + cl_size c)]> |>);;
  for_each (items c) (fun account_id =>
    let! p := get_account account_id in
    let! a := acct 913 p in
    let charge := s32 (safe_div tot_cost (item_count c)) in
    let charge := if negb (acct_id a =? new_id)
                  then s32 (charge - safe_div tot_cost (s32 (item_count c - 1))) else charge in
    upd_acct p (fun a => a <| estimate ::= fun e => s64 (e + charge) |>);;
    upd_acct p saturate_counts).

Definition tbucket_causes_free (causes : ptr) : ST tb unit :=
  let! c := in_kern (read_causes 927 causes) in
  for_each (items c) (fun account_id =>
    let! p := get_account account_id in
    let refund := s32 (safe_div (cl_size c) (item_count c)) in
    upd_acct p (fun a => a <| estimate ::= fun e => s64 (e - refund) |>);;
    upd_acct p saturate_counts).

(** ** System calls *)

(** If we are short on tokens, how long to sleep: the deadline of the sleep, if
    there is one. *)
Definition maybe_sleep (cur sched_uniq : Z) : ST tb (option timespec) :=
  let! ts := in_clock getnstimeofday in
  let! s := gets (fun s => s) in
  if negb (q_sched_uniq s =? sched_uniq) then ret None
  else if negb (q_live s) then ret None
  else
    let! p := get_account cur in
    refresh_count p;;
    let! a := acct 842 p in
    if (count a <? 0) && (rate a >? 0) then
      let usecs := Z.min (estimate_wait_usecs a) (5 * 1000000) in
      ret (Some (timespec_add_ns ts (u64 (usecs * NSEC_PER_USEC))))
    else ret None.

(** [while (maybe_sleep(q, sched_uniq));] of the write and create entries.
    [others] is what the other threads do while the n-th sleep lasts; the fuel
    bounds the number of sleeps, and [None] means it ran out. *)
Fixpoint tbucket_write_entry (fuel : nat) (others : timespec -> ST tb unit)
    (cur sched_uniq : Z) : ST tb (option Z) :=
  match fuel with
  | O => ret None
  | S fuel =>
      let! sleepy := maybe_sleep cur sched_uniq in
      match sleepy with
      | None => ret (Some 0)
      | Some until => others until;; tbucket_write_entry fuel others cur sched_uniq
      end
  end.

Definition tbucket_create_entry := tbucket_write_entry.

Definition tbucket_fsync_entry : ST tb Z := ret 0.

(** ** Setting up and tearing down *)

(** [elevator_alloc] and the allocation of the struct come first; on failure
    nothing of the scheduler is left.  The disk list is that of ioctl_helper.c. *)
Definition tbucket_init_queue (q : ptr) (disks : disk_list)
    : ST world (Z * option tbucket_data * disk_list) :=
  let! eq_ok := kmalloc in
  if negb eq_ok then ret (- ENOMEM, None, disks)
  else
    let! td_ok := kmalloc in
    let! default_account := new_account DEFAULT_ACCOUNT in
    let! b := iobatch_alloc in
    match td_ok, default_account, b with
    | true, Some a, Some b =>
        let zero := Timespec 0 0 in
        let t := {| td_heap := []; accounts_hash := hash_init; accounts := []; queues := [];
                    queues_count := 0; dispatch_nudger := None; dispatched := 0;
                    td_batch := b; run_serve_size := 0;
                    stats := Stats None 0 0 0 0 0 0 0 0 0 zero zero |} in
        let! di_ok := kmalloc in
        ret (0, Some (add_account t a), snd (ioctl_helper_register_disk di_ok disks q))
    | _, _, _ => ret (- ENOMEM, None, disks)
    end.

Definition tbucket_exit_queue (q : ptr) (t : tbucket_data) (disks : disk_list)
    : result (tbucket_data * disk_list) :=
  let? disks := ioctl_helper_unregister_disk disks q in
  Ok ((free_accounts t) <| dispatch_nudger := None |>, disks).

End Handlers.
