(* ===== verification/TBucketTokens.v ===== *)
(** * Token-bucket scheduler: the arithmetic of tokens

    The functions of tbucket.c and queue.h that compute with tokens and times, in
    the range where no [long] overflows: [acct_range] bounds the fields of an
    account by [2^60], far above any number of bytes a disk moves. *)

From S2P Require Import Prelude CInt Kernel DiskSim IoBatch HashTable CauseTags Queue IoctlHelper TBucket.

(** ** States after small steps

    What the elementary accesses of the handlers return, and the states they
    leave: [put_acct p a s] is [s] with the account at [p] replaced, [tick s] is [s]
    after one more reading of the clock, and [now_of s] is what that shows. *)

Definition put_acct (p : nat) (a : account) (s : tb) : tb :=
  s <| td ::= fun t => t <| td_heap ::= <[p := a]> |> |>.
Definition tick (s : tb) : tb := s <| kern ::= fun k => k <| k_world ::= clock_step |> |>.
Definition now_of (s : tb) : timespec := w_clock (k_world (kern s)) (w_tick (k_world (kern s))).

Lemma acct_run line s p a : td_heap (td s) !! p = Some a -> acct line p s = Ok (a, s).
Proof. intros Ha. unfold acct. by rewrite Ha. Qed.

Lemma upd_acct_run s p a f :
  td_heap (td s) !! p = Some a -> upd_acct p f s = Ok (tt, put_acct p (f a) s).
Proof.
  intros Ha. unfold upd_acct, upd_td, modify, put_acct, upd, update_field.
  by rewrite (list_alter_insert f _ _ _ Ha).
Qed.

Lemma put_acct_id s p a : td_heap (td s) !! p = Some a -> put_acct p a s = s.
Proof.
  intros Ha. unfold put_acct, upd, update_field. rewrite list_insert_id by done.
  destruct s as [? ? ? ? ? ? t]. by destruct t.
Qed.

Lemma put_acct_lookup s p a a' :
  td_heap (td s) !! p = Some a -> td_heap (td (put_acct p a' s)) !! p = Some a'.
Proof. intros Ha. apply list_lookup_insert_eq. by apply lookup_lt_Some in Ha. Qed.

Lemma put_acct_lookup_ne s p q a :
  p <> q -> td_heap (td (put_acct p a s)) !! q = td_heap (td s) !! q.
Proof. intros H. by apply list_lookup_insert_ne. Qed.

Lemma put_acct_put s p a b : put_acct p b (put_acct p a s) = put_acct p b s.
Proof. unfold put_acct, upd, update_field. cbn. by rewrite list_insert_insert_eq. Qed.

Definition small (x : Z) : Prop := -0x1000000000000000 <= x <= 0x1000000000000000.

Record acct_range (a : account) : Prop := {
  range_credit : small (credit a);
  range_estimate : small (estimate a);
  range_used : small (used a);
  range_lost : small (lost a);
  range_limit : small (limit a);
}.

(** The tokens an account has. *)
Definition tokens (a : account) : Z := credit a - (estimate a + used a).

Lemma count_tokens a : acct_range a -> count a = tokens a.
Proof.
  intros [H1 H2 H3 _ _]. unfold count, tokens, small in *.
  rewrite s64_sub_r. apply s64_small. unfold is_s64. lia.
Qed.

(** ** Saturation *)

Lemma saturate_counts_cases a :
  acct_range a ->
  tokens (saturate_counts a) = Z.min (tokens a) (limit a) /\
  credit (saturate_counts a) = credit a - Z.max 0 (tokens a - limit a) /\
  lost (saturate_counts a) = lost a + Z.max 0 (tokens a - limit a).
Proof.
  intros Hr. pose proof (count_tokens a Hr) as Hc. unfold saturate_counts. rewrite Hc.
  destruct Hr as [H1 H2 H3 H4 H5]. unfold tokens, small in *.
  rewrite s64_small by (unfold is_s64; lia).
  destruct (Z.gtb_spec (credit a - (estimate a + used a) - limit a) 0); simpl.
  - rewrite !s64_small by (unfold is_s64; lia). lia.
  - lia.
Qed.

(** Fields that saturation leaves alone. *)
Lemma saturate_counts_frame a :
  acct_id (saturate_counts a) = acct_id a /\ rqueue (saturate_counts a) = rqueue a /\
  wqueue (saturate_counts a) = wqueue a /\ rate (saturate_counts a) = rate a /\
  limit (saturate_counts a) = limit a /\ estimate (saturate_counts a) = estimate a /\
  used (saturate_counts a) = used a /\ used_raw (saturate_counts a) = used_raw a /\
  insane (saturate_counts a) = insane a /\ last_update (saturate_counts a) = last_update a /\
  batch (saturate_counts a) = batch a /\ batch_estimate (saturate_counts a) = batch_estimate a.
Proof. unfold saturate_counts. destruct (_ >? _); simpl; auto 15. Qed.

(** Saturation caps the tokens of an account at its limit and keeps the
    books: the account ends with the smaller of its tokens and its limit, what it
    loses is added to [lost], and [credit + lost], [estimate], [used] and the
    limit are unchanged. *)
Theorem saturate_counts_caps a :
  acct_range a ->
  count (saturate_counts a) = Z.min (count a) (limit a) /\
  credit (saturate_counts a) + lost (saturate_counts a) = credit a + lost a /\
  lost a <= lost (saturate_counts a) /\
  estimate (saturate_counts a) = estimate a /\ used (saturate_counts a) = used a /\
  limit (saturate_counts a) = limit a /\
  saturate_counts (saturate_counts a) = saturate_counts a.
Proof.
  intros Hr. pose proof (saturate_counts_cases a Hr) as (Ht & Hc & Hl).
  pose proof (saturate_counts_frame a) as (_ & _ & _ & _ & Hlim & Hest & Hus & _).
  assert (Hc' : count (saturate_counts a) = Z.min (count a) (limit a)).
  { rewrite (count_tokens a Hr), <- Ht. unfold count, tokens in *. rewrite Hest, Hus in *.
    destruct Hr. unfold small in *. rewrite s64_sub_r. apply s64_small. unfold is_s64. lia. }
  split_and!; auto; try lia.
  unfold saturate_counts at 1. rewrite Hc', Hlim. destruct Hr. unfold small in *.
  assert (Hd : s64 (Z.min (count a) (limit a) - limit a) <= 0).
  { pose proof (s64_range (credit a - s64 (estimate a + used a))) as Hcr. fold (count a) in Hcr.
    unfold is_s64 in Hcr. destruct (Z.min_spec (count a) (limit a)) as [[? ->]|[? ->]].
    - destruct (decide (-0x8000000000000000 <= count a - limit a)).
      + rewrite s64_small; unfold is_s64; lia.
      + rewrite count_tokens in * by (split; unfold small; lia). unfold tokens in *. lia.
    - by rewrite Z.sub_diag. }
  destruct (Z.gtb_spec (s64 (Z.min (count a) (limit a) - limit a)) 0); [lia | done].
Qed.

(** ** Income *)

Section Income.
Context {K : KernelFns} {KO : KernelOk K}.

(** [BUG_ON(inc < 0)] cannot fire: the quotient of an [unsigned long] by a
    million is a non-negative [long]. *)
Lemma refresh_inc_nonneg a now : 0 <= refresh_inc a now.
Proof.
  unfold refresh_inc.
  match goal with |- context [u64 ?x / _] => pose proof (u64_range x) as Hx; set (y := u64 x) in * end.
  unfold is_u64 in Hx. assert (0 <= y / 1000000 < 0x8000000000000000).
  { split; [apply Z.div_pos; lia | apply Z.div_lt_upper_bound; lia]. }
  rewrite s64_small; unfold is_s64; lia.
Qed.

(** Microseconds between two instants, rounded down. *)
Definition elapsed_us (now last : timespec) : Z := (ts_ns now - ts_ns last) / 1000.

Lemma refresh_inc_exact a now :
  ts_normal now -> ts_normal (last_update a) -> ts_ns (last_update a) <= ts_ns now ->
  0 <= rate a -> elapsed_us now (last_update a) * rate a < 0x8000000000000000 ->
  elapsed_us now (last_update a) < 0x10000000000000 ->
  rate a < 0x8000000000000000 ->
  refresh_inc a now = elapsed_us now (last_update a) * rate a / 1000000.
Proof.
  intros Hn Hl Hle Hr Hov Hel Hrb. unfold refresh_inc.
  destruct (timespec_sub_ns now (last_update a) Hn Hl) as [[Hn1 Hn2] Hd].
  set (u := timespec_sub now (last_update a)) in *.
  assert (Hus : tv_sec u * USEC_PER_SEC + c_div (tv_nsec u) NSEC_PER_USEC
                = elapsed_us now (last_update a)).
  { unfold elapsed_us, c_div. rewrite <- Hd. unfold ts_ns, USEC_PER_SEC, NSEC_PER_USEC, NSEC_PER_SEC in *.
    rewrite Z.quot_div_nonneg by lia.
    replace (tv_sec u * 1000000000 + tv_nsec u) with (tv_nsec u + tv_sec u * 1000000 * 1000) by lia.
    rewrite Z.div_add by lia. lia. }
  assert (0 <= elapsed_us now (last_update a)) by (apply Z.div_pos; lia).
  assert (0 <= c_div (tv_nsec u) NSEC_PER_USEC < 1000000).
  { unfold c_div, NSEC_PER_USEC, NSEC_PER_SEC in *. rewrite Z.quot_div_nonneg by lia.
    split; [apply Z.div_pos; lia | apply Z.div_lt_upper_bound; lia]. }
  rewrite (s64_small (tv_sec u * _)) by (unfold is_s64; lia).
  rewrite Hus. rewrite (u64_small (rate a)) by (unfold is_u64; lia).
  rewrite (u64_small (elapsed_us _ _)) by (unfold is_u64; lia).
  rewrite u64_small by (unfold is_u64; nia).
  apply s64_small. unfold is_s64.
  assert (0 <= elapsed_us now (last_update a) * rate a) by nia.
  split; [|apply Z.div_lt_upper_bound; lia].
  assert (0 <= elapsed_us now (last_update a) * rate a / 1000000) by (apply Z.div_pos; lia). lia.
Qed.

(** What a refresh at time [now] makes of an account. *)
Definition refreshed (now : timespec) (a : account) : account :=
  if refresh_inc a now >? 0
  then (saturate_counts (a <| credit ::= fun c => s64 (c + refresh_inc a now) |>)) <| last_update := now |>
  else a.

(** The whole effect of [refresh_count]. *)
Lemma refresh_count_run s p a :
  td_heap (td s) !! p = Some a ->
  refresh_count p s = Ok (tt, put_acct p (refreshed (now_of s) a) (tick s)).
Proof.
  intros Ha. unfold refresh_count.
  rewrite (bind_ok _ _ s (now_of s) (tick s)) by done.
  assert (Ha' : td_heap (td (tick s)) !! p = Some a) by done.
  rewrite (bind_ok _ _ _ _ _ (acct_run _ _ _ _ Ha')).
  unfold bug_on, lift, bind. pose proof (refresh_inc_nonneg a (now_of s)).
  destruct (Z.ltb_spec (refresh_inc a (now_of s)) 0); [lia |].
  unfold refreshed. destruct (refresh_inc a (now_of s) >? 0).
  - by rewrite (upd_acct_run _ _ _ _ Ha').
  - by rewrite (put_acct_id _ _ _ Ha').
Qed.

(** A refresh pays the income that is due: it does not die, and an account
    of rate [r] that was last paid at [last_update] receives
    [elapsed_us * r / 1000000] tokens, capped by its limit; when that is not yet a
    whole token nothing is paid and the time keeps counting. *)
Theorem refresh_count_pays s p a :
  let now := now_of s in
  let inc := elapsed_us now (last_update a) * rate a / 1000000 in
  td_heap (td s) !! p = Some a -> acct_range a -> 0 <= rate a < 0x8000000000000000 ->
  ts_normal now -> ts_normal (last_update a) -> ts_ns (last_update a) <= ts_ns now ->
  elapsed_us now (last_update a) < 0x10000000000000 ->
  inc < 0x1000000000000000 -> elapsed_us now (last_update a) * rate a < 0x8000000000000000 ->
  exists s' a', refresh_count p s = Ok (tt, s') /\ td_heap (td s') !! p = Some a' /\
    ((0 < inc /\ last_update a' = now /\ count a' = Z.min (count a + inc) (limit a) /\
      credit a' + lost a' = credit a + lost a + inc) \/
     (inc = 0 /\ a' = a)).
Proof.
  intros now inc Ha Hr Hrate Hn Hl Hle Hel Hinc Hov.
  rewrite (refresh_count_run s p a Ha). eexists _, (refreshed now a). split; [done |].
  split; [by eapply put_acct_lookup |].
  assert (E : refresh_inc a now = inc) by (apply refresh_inc_exact; auto; lia).
  unfold refreshed. rewrite E. pose proof (refresh_inc_nonneg a now) as Hnn. rewrite E in Hnn.
  destruct (Z.gtb_spec inc 0) as [Hp|Hp]; [left | right; split; [lia | done]].
  split; [done |]. split; [done |].
  set (b := a <| credit ::= fun c => s64 (c + inc) |>).
  assert (Hcr : credit b = credit a + inc).
  { simpl. destruct Hr. unfold small in *. apply s64_small. unfold is_s64. lia. }
  pose proof (count_tokens a Hr) as Hct. destruct Hr as [H1 H2 H3 H4 H5]. unfold small in *.
  unfold saturate_counts. fold b.
  assert (Hcb : count b = tokens b).
  { unfold count, tokens. rewrite s64_sub_r. apply s64_small. rewrite Hcr. simpl.
    unfold is_s64. lia. }
  rewrite Hcb. unfold tokens in *. rewrite Hcr in *. change (estimate b) with (estimate a) in *.
  change (used b) with (used a) in *. change (limit b) with (limit a).
  rewrite (s64_small (_ - limit a)) by (unfold is_s64; lia).
  destruct (Z.gtb_spec (credit a + inc - (estimate a + used a) - limit a) 0);
    unfold count; simpl; rewrite (s64_small (credit a + inc)) in * by (unfold is_s64; lia);
    rewrite ?s64_sub_r; rewrite !s64_small by (unfold is_s64; rewrite ?s64_small; unfold is_s64; lia);
    rewrite ?s64_small by (unfold is_s64; lia); unfold count in Hct; lia.
Qed.

End Income.

(** ** Waiting for tokens *)

(** C31: the wait computed for an account in debt is long enough and no longer:
    it is at least 100us; the income of that time leaves a debt of at most one
    token plus the income of one microsecond; and unless it is the minimum of
    100us the income of that time does not exceed the debt. *)
Theorem estimate_wait_pays_back a :
  acct_range a -> -0x10000000000 <= count a < 0 -> 0 < rate a < 0x8000000000000000 ->
  let w := estimate_wait_usecs a in
  100 <= w /\ - (rate a / 1000000 + 1) <= count a + w * rate a / 1000000 /\
  (w = 100 \/ count a + w * rate a / 1000000 <= 0).
Proof.
  intros Hr Hc Hrate w. unfold w, estimate_wait_usecs.
  rewrite (s64_small (- count a * 1000000)) by (unfold is_s64; lia).
  rewrite safe_div_pos by lia.
  set (d := - count a * 1000000). set (r := rate a) in *.
  assert (Hq : 0 <= d / r <= d).
  { split; [apply Z.div_pos; lia | apply Z.div_le_upper_bound; nia]. }
  rewrite u64_small by (unfold is_u64; lia).
  pose proof (Z.mul_div_le d r) as Hle. pose proof (Z.mul_succ_div_gt d r) as Hgt.
  split; [lia |]. split.
  - assert (Hm : d - r < Z.max (d / r) 100 * r) by nia.
    apply Z.le_trans with (count a + (d - r) / 1000000);
      [| apply Z.add_le_mono_l, Z.div_le_mono; lia].
    unfold d in *. pose proof (Z.div_mod r 1000000). pose proof (Z.mod_pos_bound r 1000000).
    assert (- count a - (r / 1000000 + 1) <= (- count a * 1000000 - r) / 1000000)
      by (apply Z.div_le_lower_bound; lia). lia.
  - destruct (Z.max_spec (d / r) 100) as [[? ->]|[? ->]]; [by left | right].
    assert (d / r * r / 1000000 <= - count a) by (apply Z.div_le_upper_bound; unfold d in *; lia).
    lia.
Qed.

(** ** Normalising times *)

Lemma normalize_up_spec fuel ts :
  small (tv_sec ts) -> small (tv_nsec ts) -> (Z.of_nat fuel < 0x1000000000000000) ->
  - tv_nsec ts <= Z.of_nat fuel * NSEC_PER_SEC ->
  ts_ns (normalize_up fuel ts) = ts_ns ts /\ 0 <= tv_nsec (normalize_up fuel ts) /\
  (tv_nsec (normalize_up fuel ts) < NSEC_PER_SEC \/ normalize_up fuel ts = ts) /\
  Z.abs (tv_sec (normalize_up fuel ts)) <= Z.abs (tv_sec ts) + Z.of_nat fuel.
Proof.
  assert (Hgen : forall fuel ts B, -0x3000000000000000 <= tv_sec ts - Z.of_nat fuel ->
    tv_sec ts <= 0x3000000000000000 -> B = NSEC_PER_SEC -> small (tv_nsec ts) ->
    - tv_nsec ts <= Z.of_nat fuel * B ->
    ts_ns (normalize_up fuel ts) = ts_ns ts /\ 0 <= tv_nsec (normalize_up fuel ts) /\
    (tv_nsec (normalize_up fuel ts) < B \/ normalize_up fuel ts = ts) /\
    Z.abs (tv_sec (normalize_up fuel ts)) <= Z.abs (tv_sec ts) + Z.of_nat fuel).
  { clear fuel ts. induction fuel as [|fuel IH]; intros ts B H1 H2 -> H4 H5; simpl.
    { split_and!; auto; lia. }
    unfold small, NSEC_PER_SEC in *.
    destruct (Z.ltb_spec (tv_nsec ts) 0) as [Hneg|Hpos]; [|split_and!; auto; lia].
    rewrite !s64_small by (unfold is_s64, NSEC_PER_SEC; lia).
    destruct (IH (Timespec (tv_sec ts - 1) (tv_nsec ts + NSEC_PER_SEC)) NSEC_PER_SEC)
      as (E1 & E2 & E3 & E4); unfold NSEC_PER_SEC in *; simpl; try lia.
    rewrite E1. unfold ts_ns, NSEC_PER_SEC in *; simpl in *. split; [lia |]. split; [done |].
    split; [|lia]. left. destruct E3 as [|E3]; [done |]. rewrite E3. simpl. lia. }
  intros H1 H2 H3 H4. unfold small in H1. apply Hgen; auto; lia.
Qed.

Lemma normalize_down_spec fuel ts :
  0 <= tv_nsec ts -> small (tv_nsec ts) ->
  -0x3000000000000000 <= tv_sec ts -> tv_sec ts + Z.of_nat fuel <= 0x3000000000000000 ->
  tv_nsec ts < (Z.of_nat fuel + 1) * NSEC_PER_SEC ->
  ts_ns (normalize_down fuel ts) = ts_ns ts /\ ts_normal (normalize_down fuel ts).
Proof.
  revert ts. induction fuel as [|fuel IH]; intros ts H1 H2 H3 H4 H5; simpl.
  { split; [done |]. unfold ts_normal. lia. }
  unfold small, NSEC_PER_SEC in *.
  destruct (Z.geb_spec (tv_nsec ts) 1000000000) as [Hge|Hlt];
    [|split; [done |]; unfold ts_normal, NSEC_PER_SEC; lia].
  rewrite !s64_small by (unfold is_s64; lia).
  destruct (IH (Timespec (tv_sec ts + 1) (tv_nsec ts - 1000000000))) as [E1 E2];
    simpl; try lia.
  split; [|done]. rewrite E1. unfold ts_ns, NSEC_PER_SEC. simpl. lia.
Qed.

(** [normalize_timespec] terminates with a normalised time that denotes
    the same instant. *)
Theorem normalize_timespec_same ts :
  small (tv_sec ts) -> small (tv_nsec ts) ->
  ts_normal (normalize_timespec ts) /\ ts_ns (normalize_timespec ts) = ts_ns ts.
Proof.
  intros Hs Hn. unfold normalize_timespec.
  assert (Hf : forall x, small x -> Z.of_nat (S (Z.to_nat (Z.abs x / NSEC_PER_SEC))) <= 0x100000000
    /\ Z.abs x < Z.of_nat (S (Z.to_nat (Z.abs x / NSEC_PER_SEC))) * NSEC_PER_SEC).
  { intros x Hx. unfold small, NSEC_PER_SEC in *.
    pose proof (Z.div_mod (Z.abs x) 1000000000). pose proof (Z.mod_pos_bound (Z.abs x) 1000000000).
    assert (0 <= Z.abs x / 1000000000 <= 1152921505) by
      (split; [apply Z.div_pos; lia | apply Z.div_le_upper_bound; lia]). lia. }
  unfold normalize_fuel at 2. destruct (Hf _ Hn) as [Hf1 Hf2].
  destruct (normalize_up_spec (S (Z.to_nat (Z.abs (tv_nsec ts) / NSEC_PER_SEC))) ts)
    as (E1 & E2 & E3 & E4); auto; try lia.
  set (u := normalize_up _ _) in *.
  assert (Hu : small (tv_nsec u)).
  { unfold small, NSEC_PER_SEC in *. destruct E3 as [|E3]; [lia |]. rewrite E3. done. }
  unfold normalize_fuel. destruct (Hf _ Hu) as [Hg1 Hg2]. unfold small in *.
  destruct (normalize_down_spec (S (Z.to_nat (Z.abs (tv_nsec u) / NSEC_PER_SEC))) u)
    as [D1 D2]; auto; [lia | lia | unfold NSEC_PER_SEC in *; lia |].
  split; [done |]. by rewrite D1.
Qed.

(** ** The account a request is queued under *)

Lemma one_cause_app rv l1 l2 :
  one_cause rv (l1 ++ l2) =
  match one_cause rv l1 with inl e => inl e | inr rv => one_cause rv l2 end.
Proof.
  revert rv. induction l1 as [|i l1 IH]; intros rv; simpl; [done |].
  destruct (_ && _); [done | apply IH].
Qed.

(** If the loop runs to its end, every account seen is the default one or the
    one returned. *)
Lemma one_cause_inr rv l v :
  one_cause rv l = inr v ->
  (rv = DEFAULT_ACCOUNT \/ rv = v) /\ forall i, i ∈ l -> i = DEFAULT_ACCOUNT \/ i = v.
Proof.
  revert rv. induction l as [|i l IH]; intros rv; simpl.
  { intros [= ->]. split; [by right |]. by intros ? ?%elem_of_nil. }
  destruct (Z.eqb_spec rv DEFAULT_ACCOUNT) as [->|H0]; simpl.
  - intros [Hi Hl]%IH. split; [by left |]. intros j [->|Hj]%elem_of_cons; auto.
  - destruct (Z.eqb_spec rv i) as [->|H1]; simpl; [|done].
    intros [Hi Hl]%IH. split; [auto |]. intros j [->|Hj]%elem_of_cons; auto.
Qed.

Lemma one_cause_inl rv l v : one_cause rv l = inl v -> v = DEFAULT_ACCOUNT.
Proof.
  revert rv. induction l as [|i l IH]; intros rv; simpl; [done |].
  destruct (_ && _); [by intros [= <-] | apply IH].
Qed.

Lemma one_cause_same a l : (forall i, i ∈ l -> i = a) -> l <> [] ->
  forall rv, rv = DEFAULT_ACCOUNT \/ rv = a -> one_cause rv l = inr a.
Proof.
  induction l as [|i l IH]; intros Hl Hne rv Hrv; simpl; [done |].
  assert (i = a) as -> by (apply Hl; left).
  replace (negb (rv =? DEFAULT_ACCOUNT) && negb (rv =? a)) with false by
    (destruct Hrv as [->| ->]; [by rewrite Z.eqb_refl | by rewrite Z.eqb_refl, andb_false_r]).
  destruct l as [|j l]; [done |]. apply IH; auto. intros k Hk. apply Hl. by right.
Qed.

(** [bio_ids k r bios ids]: [ids] are the accounts named by the causes of the
    bios, in the order the loop meets them. *)
Inductive bio_ids (k : kernel) (r : request) : list bio -> list Z -> Prop :=
  | bio_ids_nil : bio_ids k r [] []
  | bio_ids_none b bios ids :
      bio_uniq_causes r b = None -> bio_ids k r bios ids -> bio_ids k r (b :: bios) ids
  | bio_ids_some b bios p c ids :
      bio_uniq_causes r b = Some p -> k_causes k !! p = Some c ->
      bio_ids k r bios ids -> bio_ids k r (b :: bios) (items c ++ ids).

Lemma one_cause_bios_run k r bios ids rv :
  bio_ids k r bios ids ->
  one_cause_bios r rv bios k =
  Ok (match one_cause rv ids with inl v => v | inr v => v end, k).
Proof.
  intros H. revert rv. induction H as [|b bios ids Hb _ IH|b bios p c ids Hb Hp _ IH]; intros rv; simpl.
  - done.
  - by rewrite Hb, IH.
  - rewrite Hb, (bind_ok _ _ k c k) by (unfold read_causes; by rewrite Hp).
    rewrite one_cause_app. destruct (one_cause rv (items c)); [done | apply IH].
Qed.

(** A request is charged to one account only if that is fair: with a single
    cause it is queued under that account, without causes or with two accounts of
    which neither is the default one it goes to the default account. *)
Theorem get_one_cause_spec k r ids :
  bio_ids k r (rq_bio r) ids ->
  exists v, get_one_cause r k = Ok (v, k) /\
    (ids = [] -> v = DEFAULT_ACCOUNT) /\
    (forall a, ids <> [] -> (forall i, i ∈ ids -> i = a) -> v = a) /\
    (forall i j, i ∈ ids -> j ∈ ids -> i <> j -> i <> DEFAULT_ACCOUNT -> j <> DEFAULT_ACCOUNT ->
       v = DEFAULT_ACCOUNT) /\
    (v <> DEFAULT_ACCOUNT -> v ∈ ids).
Proof.
  intros Hids. unfold get_one_cause. rewrite (one_cause_bios_run k r _ ids) by done.
  destruct (one_cause DEFAULT_ACCOUNT ids) as [v|v] eqn:E; eexists; (split; [done |]).
  - apply one_cause_inl in E as E'. subst v. split_and!; auto; [|done].
    intros a Hne Ha. rewrite (one_cause_same a) in E; auto. done.
  - split_and!.
    + intros ->. by injection E.
    + intros a Hne Ha. rewrite (one_cause_same a) in E; auto. congruence.
    + intros i j Hi Hj Hij H0i H0j. apply one_cause_inr in E as [_ Hl].
      destruct (Hl i Hi), (Hl j Hj); congruence.
    + intros Hv. assert (Hg : forall l rv, one_cause rv l = inr v -> v = rv \/ v ∈ l).
      { clear. induction l as [|i l IH]; intros rv; simpl; [intros [= ->]; auto |].
        destruct (_ && _); [done |]. intros [->|Hin]%IH; right; [left | by right]. }
      apply Hg in E as [|]; [done | done].
Qed.
