(* ===== verification/TBucketInv.v ===== *)
(** * Token-bucket scheduler: the invariant

    [tb_inv0] says that the data structures of the scheduler are well formed: the
    account table, the list of accounts and the ring of queues name the same
    accounts, ids are unique, the default account exists, every queued request
    knows its queue, every batch keeps its books.  [tb_inv] adds that no batch is
    full, which holds between handlers. *)

From S2P Require Import Prelude CInt Kernel DiskSim IoBatch HashTable CauseTags Tags Queue IoctlHelper.
From S2P Require Import TBucket TBucketTokens.

Record acct_wf (a : account) : Prop := {
  aw_rqueue : queue_wf (rqueue a);
  aw_wqueue : queue_wf (wqueue a);
  aw_rrw : q_rw (rqueue a) = 0;
  aw_wrw : q_rw (wqueue a) = 1;
  aw_batch : batch_wf (batch a);
  aw_insane : Z.of_nat (length (insane a)) = INSANE_CAP;
}.

(** The queues of the accounts 0 .. n-1, in the order of their creation. *)
Definition all_queues (n : nat) : list qref :=
  flat_map (fun p => [(p, false); (p, true)]) (seq 0 n).

#[export] Instance tagged_request : Tagged request := {| tag_bios := rq_bio; tag_causes := RQ_CAUSES |}.

Section Inv.
Context {K : KernelFns}.

Record td_wf (t : tbucket_data) : Prop := {
  tw_accounts : accounts t = seq 0 (length (td_heap t));
  tw_hash : ht_wf (id_of t) (accounts_hash t);
  tw_nodes : Permutation (hash_nodes (accounts_hash t)) (accounts t);
  tw_ids : NoDup (acct_id <$> td_heap t);
  tw_default : exists p a, td_heap t !! p = Some a /\ acct_id a = DEFAULT_ACCOUNT;
  tw_queues : Permutation (queues t) (all_queues (length (td_heap t)));
  tw_count : queues_count t = s32 (Z.of_nat (length (queues t)));
  tw_accts : Forall acct_wf (td_heap t);
  tw_batch : batch_wf (td_batch t);
}.

(** Every queued request exists and points back to its queue. *)
Definition queued_ok (t : tbucket_data) (rs : gmap ptr request) : Prop :=
  forall p a w rq, td_heap t !! p = Some a -> rq ∈ q_reqs (queue_of (p, w) a) ->
    exists r, rs !! rq = Some r /\ RQ_QUEUE r = Some (p, w).

Record tb_inv0 (s : tb) : Prop := {
  inv_td : td_wf (td s);
  inv_env : env_wf (kern s) (rqs s);
  inv_queued : queued_ok (td s) (rqs s);
}.

(** No batch is full. *)
Definition roomy (t : tbucket_data) : Prop :=
  batch_fullb (td_batch t) = false /\ Forall (fun a => batch_fullb (batch a) = false) (td_heap t).

Definition tb_inv (s : tb) : Prop := tb_inv0 s /\ roomy (td s).

(** ** Environment changes that matter to nobody *)

Lemma inv0_kern s k' :
  tb_inv0 s -> same_causes (kern s) k' -> tb_inv0 (s <| kern := k' |>).
Proof. intros [Ht He Hq] Hk. split; auto. by eapply env_wf_same. Qed.

(** ** Changing one account *)

Lemma td_wf_id_of t p a : td_heap t !! p = Some a -> id_of t p = acct_id a.
Proof. intros Ha. unfold id_of. by rewrite Ha. Qed.

Lemma id_of_insert t p a a' :
  td_heap t !! p = Some a -> acct_id a' = acct_id a ->
  forall q, id_of (t <| td_heap ::= <[p := a']> |>) q = id_of t q.
Proof.
  intros Ha Hid q. unfold id_of. simpl. destruct (decide (p = q)) as [->|Hne].
  - rewrite list_lookup_insert_eq by (by apply lookup_lt_Some in Ha). by rewrite Ha, Hid.
  - by rewrite list_lookup_insert_ne.
Qed.

Lemma ht_wf_ext {A} `{EqDecision A} (f g : A -> Z) ht : (forall n, f n = g n) -> ht_wf f ht -> ht_wf g ht.
Proof.
  intros H [Hl Hf]. split; [done |]. intros i c n Hi Hn. rewrite <- H. eauto.
Qed.

Lemma td_wf_put t p a a' :
  td_wf t -> td_heap t !! p = Some a -> acct_id a' = acct_id a -> acct_wf a' ->
  td_wf (t <| td_heap ::= <[p := a']> |>).
Proof.
  intros [H1 H2 H3 H4 (p0 & a0 & H5a & H5b) H6 H7 H8 H9] Ha Hid Hw.
  assert (Hlen : length (<[p := a']> (td_heap t)) = length (td_heap t)) by apply length_insert.
  split; simpl; rewrite ?Hlen; auto.
  - eapply ht_wf_ext; [|exact H2]. intros q. symmetry. by apply (id_of_insert t p a a').
  - rewrite list_fmap_insert, Hid, list_insert_id; [done |]. by rewrite list_lookup_fmap, Ha.
  - destruct (decide (p = p0)) as [->|Hne].
    + exists p0, a'. rewrite list_lookup_insert_eq by (by apply lookup_lt_Some in Ha).
      simplify_eq. split; congruence.
    + exists p0, a0. by rewrite list_lookup_insert_ne.
  - by apply Forall_insert.
Qed.

(** The account at [p] may change in all but its id, as long as it stays well
    formed and queues no request it did not queue. *)
Lemma inv0_put s p a a' :
  tb_inv0 s -> td_heap (td s) !! p = Some a -> acct_id a' = acct_id a -> acct_wf a' ->
  (forall w rq, rq ∈ q_reqs (queue_of (p, w) a') -> rq ∈ q_reqs (queue_of (p, w) a)) ->
  tb_inv0 (put_acct p a' s).
Proof.
  intros [Ht He Hq] Ha Hid Hw Hsub. split; simpl; auto.
  - by eapply td_wf_put.
  - intros q b w rq Hb Hrq. simpl in Hb. destruct (decide (p = q)) as [->|Hne].
    + rewrite list_lookup_insert_eq in Hb by (by apply lookup_lt_Some in Ha).
      simplify_eq. eapply Hq; [exact Ha | by apply Hsub].
    + rewrite list_lookup_insert_ne in Hb by done. by eapply Hq.
Qed.

Lemma roomy_put t p a' :
  roomy t -> batch_fullb (batch a') = false -> roomy (t <| td_heap ::= <[p := a']> |>).
Proof. intros [H1 H2] H. split; [done |]. by apply Forall_insert. Qed.

(** Changes of the numbers of an account. *)
Definition same_shape (a a' : account) : Prop :=
  acct_id a' = acct_id a /\ rqueue a' = rqueue a /\ wqueue a' = wqueue a /\
  batch a' = batch a /\ length (insane a') = length (insane a).

Lemma same_shape_wf a a' : same_shape a a' -> acct_wf a -> acct_wf a'.
Proof.
  intros (E1 & E2 & E3 & E4 & E5) [H1 H2 H3 H4 H5 H6].
  split; rewrite ?E2, ?E3, ?E4, ?E5; auto.
Qed.

Lemma same_shape_queue a a' q : same_shape a a' -> queue_of q a' = queue_of q a.
Proof. intros (E1 & E2 & E3 & _). unfold queue_of. destruct (snd q); auto. Qed.

Lemma acct_wf_at s p a : tb_inv0 s -> td_heap (td s) !! p = Some a -> acct_wf a.
Proof. intros Hi Ha. eapply Forall_lookup_1; [apply (tw_accts _ (inv_td _ Hi)) | exact Ha]. Qed.

Lemma inv0_put_shape s p a a' :
  tb_inv0 s -> td_heap (td s) !! p = Some a -> same_shape a a' -> tb_inv0 (put_acct p a' s).
Proof.
  intros Hi Ha Hs. eapply inv0_put; eauto.
  - apply Hs.
  - eapply same_shape_wf; [exact Hs |]. by eapply acct_wf_at.
  - intros w rq. by rewrite (same_shape_queue _ _ _ Hs).
Qed.

Lemma saturate_same_shape a : same_shape a (saturate_counts a).
Proof.
  pose proof (saturate_counts_frame a) as (E1 & E2 & E3 & _ & _ & _ & _ & _ & E4 & _ & E5 & _).
  split_and!; auto. by rewrite E4.
Qed.

(** ** Accounts are found or made *)

(** An account as [new_account] makes it. *)
Record fresh_acct (account_id : Z) (a : account) : Prop := {
  fa_id : acct_id a = account_id;
  fa_wf : acct_wf a;
  fa_room : batch_fullb (batch a) = false;
  fa_queues : q_reqs (rqueue a) = [] /\ q_reqs (wqueue a) = [];
  fa_tokens : credit a = 0 /\ estimate a = 0 /\ used a = 0 /\ rate a = 0 /\ limit a = 0 /\
    batch_estimate a = 0;
}.

(** The world after some allocations and readings of the clock. *)
Definition same_oracles (w w' : world) : Prop :=
  w_clock w' = w_clock w /\ w_jiffies w' = w_jiffies w /\ w_alloc w' = w_alloc w /\ w_junk w' = w_junk w.

Lemma new_account_run account_id w :
  exists o w', new_account account_id w = Ok (o, w') /\ same_oracles w w' /\
    match o with
    | Some a => fresh_acct account_id a
    | None => exists n, w_alloc w n = false
    end.
Proof.
  unfold new_account, bind at 1, kmalloc at 1. destruct (w_alloc w (w_nalloc w)) eqn:E1; simpl.
  2: { exists None. eexists. split; [done |]. split; [by split_and! | eauto]. }
  unfold iobatch_alloc, bind, kmalloc, gets, ret, getnstimeofday; simpl.
  destruct (w_alloc w (S (w_nalloc w))) eqn:E2; simpl.
  2: { exists None. eexists. split; [done |]. split; [by split_and! | eauto]. }
  destruct (w_alloc w (S (S (w_nalloc w)))) eqn:E3; simpl.
  2: { exists None. eexists. split; [done |]. split; [by split_and! | eauto]. }
  eexists (Some _), _. split; [done |]. split; [by split_and! |].
  match goal with |- context [fresh_acct _ (Account _ _ _ _ _ _ _ _ _ _ _ _ _ ?b _)] =>
    assert (batch_wf b /\ batch_fullb b = false) as [Hb Hf] end.
  { edestruct (iobatch_new_wf (junk_reqs w) BATCH_SIZE BATCH_BYTE_CAP) as (b & Hb & Hw & Hf).
    - unfold junk_reqs. rewrite length_fmap, length_seq. done.
    - by unfold BATCH_SIZE.
    - by unfold BATCH_BYTE_CAP.
    - unfold iobatch_new in Hb. simpl in Hb. injection Hb as <-. by split. }
  split; simpl; auto 10.
  split; simpl; auto using queue_init_wf.
Qed.

(** Nothing but the oracles' counters change in the kernel. *)
Lemma in_clock_run {A} (m : ST world A) s a w' :
  m (k_world (kern s)) = Ok (a, w') ->
  in_clock m s = Ok (a, s <| kern ::= fun k => k <| k_world := w' |> |>).
Proof. intros H. unfold in_clock, in_kern, in_world, zoom. by rewrite H. Qed.

Lemma inv0_world s w' : tb_inv0 s -> tb_inv0 (s <| kern ::= fun k => k <| k_world := w' |> |>).
Proof. intros Hi. by apply (inv0_kern s ((kern s) <| k_world := w' |>)). Qed.

Lemma inv0_tick s : tb_inv0 s -> tb_inv0 (tick s).
Proof. intros Hi. by apply (inv0_world s (clock_step (k_world (kern s)))). Qed.

Context {KO : KernelOk K}.

Lemma elem_of_accounts t p : td_wf t -> p ∈ hash_nodes (accounts_hash t) <-> (p < length (td_heap t))%nat.
Proof.
  intros Ht. rewrite (tw_nodes t Ht), (tw_accounts t Ht), elem_of_seq. lia.
Qed.

Lemma find_account_some t account_id p :
  td_wf t -> find_account t account_id = Some p ->
  exists a, td_heap t !! p = Some a /\ acct_id a = account_id.
Proof.
  intros Ht Hf. apply hash_search_some in Hf as [Hin Hid].
  apply elem_of_accounts in Hin; [|done]. apply lookup_lt_is_Some_2 in Hin as [a Ha].
  exists a. rewrite (td_wf_id_of _ _ _ Ha) in Hid. auto.
Qed.

Lemma find_account_none t account_id p a :
  td_wf t -> find_account t account_id = None -> td_heap t !! p = Some a ->
  acct_id a <> account_id.
Proof.
  intros Ht Hf Ha. rewrite <- (td_wf_id_of _ _ _ Ha).
  eapply hash_search_none; [apply Ht | exact Hf |].
  apply elem_of_accounts; [done |]. by apply lookup_lt_Some in Ha.
Qed.

Lemma find_default t : td_wf t -> exists p, find_account t DEFAULT_ACCOUNT = Some p.
Proof.
  intros Ht. destruct (find_account t DEFAULT_ACCOUNT) as [p|] eqn:E; [eauto |].
  destruct (tw_default t Ht) as (p & a & Ha & Hid).
  by destruct (find_account_none t DEFAULT_ACCOUNT p a Ht E Ha).
Qed.

Lemma all_queues_S n : all_queues (S n) = all_queues n ++ [(n, false); (n, true)].
Proof. unfold all_queues. rewrite seq_S, flat_map_app. done. Qed.

Lemma ht_wf_ext_in {A} `{EqDecision A} (f g : A -> Z) ht :
  (forall n, n ∈ hash_nodes ht -> f n = g n) -> ht_wf f ht -> ht_wf g ht.
Proof.
  intros H [Hl Hf]. split; [done |]. intros i c n Hi Hn. rewrite <- H; [eauto |].
  apply elem_of_hash_nodes. eauto.
Qed.

Lemma td_wf_add t a :
  td_wf t -> acct_wf a -> (forall p b, td_heap t !! p = Some b -> acct_id b <> acct_id a) ->
  td_wf (add_account t a).
Proof.
  intros Ht Hw Hnew. set (n := length (td_heap t)).
  destruct (Ht) as [H1 H2 H3 H4 (p0 & a0 & H5a & H5b) H6 H7 H8 H9].
  assert (Hid : forall p, (p < n)%nat -> id_of t p = id_of (add_account t a) p).
  { intros p Hp. unfold id_of. simpl. by rewrite lookup_app_l. }
  assert (Hidn : id_of (add_account t a) n = acct_id a).
  { unfold id_of. simpl. unfold n. rewrite lookup_app_r, Nat.sub_diag by lia. done. }
  assert (H2' : ht_wf (id_of (add_account t a)) (accounts_hash t)).
  { eapply ht_wf_ext_in; [|exact H2]. intros q Hq. apply Hid. by apply elem_of_accounts. }
  assert (Hlen : length (td_heap t ++ [a]) = S n) by (rewrite length_app; simpl; lia).
  split; simpl; fold n; rewrite ?Hlen; auto.
  - by rewrite H1, seq_S.
  - rewrite <- Hidn. by apply hash_add_wf.
  - rewrite <- Hidn, hash_add_nodes by done. by rewrite H3, Permutation_cons_append.
  - rewrite fmap_app. apply list.NoDup_app. split; [done |]. split; [|apply NoDup_singleton].
    intros x (b & -> & Hb)%list_elem_of_fmap Heq%list_elem_of_singleton.
    apply list_elem_of_lookup in Hb as [p Hp]. by eapply Hnew.
  - exists p0, a0. rewrite lookup_app_l; [done |]. by apply lookup_lt_Some in H5a.
  - rewrite all_queues_S, H6. done.
  - rewrite H7, s32_add_l, length_app. simpl. f_equal. lia.
  - apply Forall_app. split; [done | by constructor].
Qed.

Lemma inv0_add s a account_id :
  tb_inv0 s -> fresh_acct account_id a ->
  (forall p b, td_heap (td s) !! p = Some b -> acct_id b <> account_id) ->
  tb_inv0 (s <| td ::= fun t => add_account t a |>).
Proof.
  intros [Ht He Hq] [Hid Hw _ [Hr1 Hr2] _] Hnew. split; simpl; auto.
  - apply td_wf_add; auto. by rewrite Hid.
  - intros p b w rq Hb Hrq. simpl in Hb. apply lookup_app_Some in Hb as [Hb|[_ Hb]].
    + by eapply Hq.
    + apply list_lookup_singleton_Some in Hb as [_ <-]. unfold queue_of in Hrq. simpl in Hrq.
      destruct w; rewrite ?Hr1, ?Hr2 in Hrq; by apply elem_of_nil in Hrq.
Qed.

(** How [get_account] ends: with an account that was there, with a new one, or,
    when memory runs out, with the default one. *)
Inductive got_account (account_id : Z) (s : tb) : nat -> tb -> Prop :=
  | got_found p a :
      td_heap (td s) !! p = Some a -> acct_id a = account_id -> got_account account_id s p s
  | got_new a w' :
      (forall p b, td_heap (td s) !! p = Some b -> acct_id b <> account_id) ->
      fresh_acct account_id a -> same_oracles (k_world (kern s)) w' ->
      got_account account_id s (length (td_heap (td s)))
        (s <| kern ::= fun k => k <| k_world := w' |> |> <| td ::= fun t => add_account t a |>)
  | got_default p a w' n :
      (forall p b, td_heap (td s) !! p = Some b -> acct_id b <> account_id) ->
      w_alloc (k_world (kern s)) n = false -> same_oracles (k_world (kern s)) w' ->
      td_heap (td s) !! p = Some a -> acct_id a = DEFAULT_ACCOUNT ->
      got_account account_id s p (s <| kern ::= fun k => k <| k_world := w' |> |>).

Lemma get_account_run account_id s :
  td_wf (td s) -> exists p s', get_account account_id s = Ok (p, s') /\ got_account account_id s p s'.
Proof.
  intros Ht. unfold get_account. rewrite (bind_ok _ _ s (td s) s) by done.
  destruct (find_account (td s) account_id) as [p|] eqn:E.
  { exists p, s. split; [done |]. destruct (find_account_some _ _ _ Ht E) as (a & Ha & Hid).
    by eapply got_found. }
  assert (Hnew : forall p b, td_heap (td s) !! p = Some b -> acct_id b <> account_id)
    by (intros p b Hb; by eapply find_account_none).
  destruct (new_account_run account_id (k_world (kern s))) as (o & w' & Hn & Hw & Ho).
  rewrite (bind_ok _ _ _ _ _ (in_clock_run _ _ _ _ Hn)).
  destruct o as [a|].
  - exists (length (td_heap (td s))). eexists. split; [done |]. by apply got_new.
  - destruct Ho as [n Hal]. destruct (find_default _ Ht) as [p Hp]. rewrite Hp.
    destruct (find_account_some _ _ _ Ht Hp) as (a & Ha & Hid).
    exists p. eexists. split; [done |]. by eapply got_default.
Qed.

Lemma got_account_inv account_id s p s' :
  tb_inv0 s -> got_account account_id s p s' ->
  tb_inv0 s' /\ (roomy (td s) -> roomy (td s')) /\
  (exists a, td_heap (td s') !! p = Some a /\ (acct_id a = account_id \/ acct_id a = DEFAULT_ACCOUNT)).
Proof.
  intros Hi Hg. destruct Hg as [p a Ha Hid|a w' Hnew Hf Hw|p a w' n Hnew Hal Hw Ha Hid].
  - split_and!; eauto.
  - split; [|split].
    + by apply (inv0_add _ a account_id); [apply inv0_world | |].
    + intros [H1 H2]. split; [done |]. apply Forall_app. split; [done |].
      constructor; [apply Hf | done].
    + exists a. simpl. rewrite lookup_app_r, Nat.sub_diag by lia. split; [done |].
      left. apply Hf.
  - split_and!; eauto. by apply inv0_world.
Qed.

(** An account that is there is found, and only that. *)
Lemma get_account_found account_id s p a :
  td_wf (td s) -> td_heap (td s) !! p = Some a -> acct_id a = account_id ->
  get_account account_id s = Ok (p, s).
Proof.
  intros Ht Ha Hid. destruct (get_account_run account_id s Ht) as (p' & s' & E & Hg).
  rewrite E. destruct Hg as [p' a' Ha' Hid'|a' w' Hnew _ _|p' a' w' n Hnew _ _ _ _];
    [|by destruct (Hnew p a)|by destruct (Hnew p a)].
  assert (p' = p) as ->; [|done].
  eapply (NoDup_lookup (acct_id <$> td_heap (td s))); [apply (tw_ids _ Ht) | |].
  - by rewrite list_lookup_fmap, Ha'.
  - rewrite list_lookup_fmap, Ha. simpl. by rewrite Hid, Hid'.
Qed.

(** The account table is a map from ids to accounts: looking an id up
    returns its account if there is one and otherwise makes one, without tokens and
    with two empty queues at the end of the ring, so that looking it up again finds
    the same account and changes nothing; only when memory runs out is the default
    account returned in its place. *)
Theorem get_account_spec account_id s :
  td_wf (td s) ->
  exists p s' a, get_account account_id s = Ok (p, s') /\ td_wf (td s') /\
    td_heap (td s') !! p = Some a /\
    ((acct_id a = account_id /\ get_account account_id s' = Ok (p, s') /\
      (s' = s \/
       (td_heap (td s') = td_heap (td s) ++ [a] /\
        queues (td s') = queues (td s) ++ [(p, false); (p, true)] /\
        (forall q b, td_heap (td s) !! q = Some b -> acct_id b <> account_id) /\
        count a = 0 /\ rate a = 0 /\ q_reqs (rqueue a) = [] /\ q_reqs (wqueue a) = []))) \/
     (acct_id a = DEFAULT_ACCOUNT /\ td s' = td s /\ exists n, w_alloc (k_world (kern s)) n = false)).
Proof.
  intros Ht. destruct (get_account_run account_id s Ht) as (p & s' & E & Hg).
  destruct Hg as [p a Ha Hid|a w' Hnew Hf Hw|p a w' n Hnew Hal Hw Ha Hid].
  - exists p, s, a. split_and!; auto 10.
  - assert (Hla : (td_heap (td s) ++ [a]) !! length (td_heap (td s)) = Some a)
      by (rewrite lookup_app_r, Nat.sub_diag by lia; done).
    destruct Hf as [F1 F2 _ [F3 F4] (T1 & T2 & T3 & T4 & T5 & _)].
    assert (Ht' : td_wf (add_account (td s) a)).
    { apply td_wf_add; auto. rewrite F1. exact Hnew. }
    eexists _, _, a. split; [exact E |]. split; [done |]. split; [exact Hla |].
    left. split; [done |]. split; [by eapply get_account_found |]. right.
    split_and!; auto. unfold count. by rewrite T1, T2, T3.
  - exists p. eexists _, a. split; [exact E |]. split_and!; auto. right. split_and!; eauto.
Qed.

End Inv.
#[export] Hint Resolve saturate_same_shape : split.
