(* ===== verification/TBucketFrame.v ===== *)
(** * Token-bucket scheduler: what accounting leaves alone

    The code that charges accounts (from [get_account] up to [account_for_req])
    may make accounts, move tokens and fill and empty batches.  [frame] says what it
    never touches: the requests, what was dispatched, the contents of the queues
    and their order in the ring.  [keeps P m Q] is the specification form used
    below: from a well-formed state of [P], [m] returns, in a well-formed state of
    [Q] that [frame] relates to the first. *)

From S2P Require Import Prelude Keeps CInt Kernel DiskSim IoBatch HashTable CauseTags Tags Queue IoctlHelper.
From S2P Require Import TBucket TBucketTokens TBucketInv.

(** The requests, the queues and the ring: new accounts may have joined, with
    empty queues at the end of the ring. *)
Record core (s0 s : tb) : Prop := {
  co_rqs : rqs s = rqs s0;
  co_uniq : q_sched_uniq s = q_sched_uniq s0;
  co_live : q_live s = q_live s0;
  co_ring : exists l, queues (td s) = queues (td s0) ++ l;
  co_heap : forall p a, td_heap (td s0) !! p = Some a ->
    exists a', td_heap (td s) !! p = Some a' /\
      acct_id a' = acct_id a /\ rqueue a' = rqueue a /\ wqueue a' = wqueue a;
  co_new : forall p a, td_heap (td s) !! p = Some a -> td_heap (td s0) !! p = None ->
    q_reqs (rqueue a) = [] /\ q_reqs (wqueue a) = [];
  co_causes : forall p, is_Some (k_causes (kern s0) !! p) -> is_Some (k_causes (kern s) !! p);
}.

Record frame (s0 s : tb) : Prop := {
  fr_core : core s0 s;
  fr_list : dispatch_list s = dispatch_list s0;
  fr_run : run_serve_size (td s) = run_serve_size (td s0);
  fr_dispatched : dispatched (td s) = dispatched (td s0);
  fr_nudger : dispatch_nudger (td s) = dispatch_nudger (td s0);
}.

#[export] Instance core_preorder : PreOrder core.
Proof.
  split.
  - intros s. split; auto; [by exists []; rewrite app_nil_r | eauto 6 |].
    intros p a H1 H2. congruence.
  - intros s1 s2 s3 [A1 A2 A3 [l1 A5] A6 A7 A8] [B1 B2 B3 [l2 B5] B6 B7 B8].
    split; try congruence; auto.
    + exists (l1 ++ l2). by rewrite B5, A5, app_assoc.
    + intros p a (a' & Ha' & E1 & E2 & E3)%A6.
      destruct (B6 p a' Ha') as (a'' & Ha'' & F1 & F2 & F3). exists a''. split_and!; congruence.
    + intros p a Ha Hn. destruct (td_heap (td s2) !! p) as [a2|] eqn:E2; [|by apply (B7 p a)].
      destruct (B6 p a2 E2) as (a3 & Ha3 & _ & F2 & F3). simplify_eq.
      rewrite F2, F3. by apply (A7 p a2).
Qed.

#[export] Instance frame_preorder : PreOrder frame.
Proof.
  split; [intros s; by split |].
  intros s1 s2 s3 [A1 A2 A3 A4 A5] [B1 B2 B3 B4 B5]. split; try congruence. by transitivity s2.
Qed.

(** The requests that wait in a queue, in their order. *)
Definition qreqs (s : tb) (q : qref) : list ptr :=
  match td_heap (td s) !! queue_to_account q with
  | Some a => q_reqs (queue_of q a)
  | None => []
  end.

Lemma qreqs_at s q a :
  td_heap (td s) !! queue_to_account q = Some a -> qreqs s q = q_reqs (queue_of q a).
Proof. unfold qreqs. by intros ->. Qed.

Lemma core_qreqs s s' q : core s s' -> qreqs s' q = qreqs s q.
Proof.
  intros C. unfold qreqs. destruct (td_heap (td s) !! queue_to_account q) as [a|] eqn:Ea.
  - destruct (co_heap _ _ C _ _ Ea) as (a' & -> & _ & E2 & E3).
    unfold queue_of. by destruct (snd q); rewrite ?E2, ?E3.
  - destruct (td_heap (td s') !! queue_to_account q) as [a'|] eqn:Ea'; [|done].
    destruct (co_new _ _ C _ _ Ea' Ea) as [E2 E3]. unfold queue_of. by destruct (snd q).
Qed.

Abbreviation keeps := (Keeps.keeps tb_inv0 frame).

Section Steps.
Context {K : KernelFns} {KO : KernelOk K}.

(** ** Steps *)

(** Fields of the scheduler that have no part in the invariant. *)
Lemma inv0_td s t' :
  tb_inv0 s -> td_heap t' = td_heap (td s) -> accounts_hash t' = accounts_hash (td s) ->
  accounts t' = accounts (td s) -> Permutation (queues t') (queues (td s)) ->
  queues_count t' = queues_count (td s) -> batch_wf (td_batch t') -> tb_inv0 (s <| td := t' |>).
Proof.
  intros [[H1 H2 H3 H4 H5 H6 H7 H8 H9] He Hq] E1 E2 E3 E4 E5 Hb. split; simpl; [|done|].
  - split; rewrite ?E1, ?E2, ?E3, ?E5; auto.
    + eapply ht_wf_ext; [|exact H2]. intros n. unfold id_of. by rewrite E1.
    + by rewrite E4.
    + by rewrite E4, H7.
  - intros p a w rq. simpl. rewrite E1. apply Hq.
Qed.

Lemma core_put s p a a' :
  td_heap (td s) !! p = Some a -> acct_id a' = acct_id a -> rqueue a' = rqueue a ->
  wqueue a' = wqueue a -> core s (put_acct p a' s).
Proof.
  intros Ha E1 E2 E3. split; auto; simpl; [by exists []; rewrite app_nil_r | |].
  - intros q b Hb. destruct (decide (p = q)) as [->|Hne].
    + exists a'. rewrite list_lookup_insert_eq by (by apply lookup_lt_Some in Ha).
      simplify_eq. auto.
    + exists b. rewrite list_lookup_insert_ne by done. auto.
  - intros q b Hb Hn. apply lookup_ge_None in Hn. apply lookup_lt_Some in Hb.
    rewrite length_insert in Hb. lia.
Qed.

Lemma frame_put s p a a' :
  td_heap (td s) !! p = Some a -> acct_id a' = acct_id a -> rqueue a' = rqueue a ->
  wqueue a' = wqueue a -> frame s (put_acct p a' s).
Proof. intros. split; auto. by eapply core_put. Qed.

Lemma core_td s t' :
  td_heap t' = td_heap (td s) -> queues t' = queues (td s) -> core s (s <| td := t' |>).
Proof.
  intros E1 E2. split; simpl; auto.
  - exists []. by rewrite E2, app_nil_r.
  - intros p a Ha. exists a. by rewrite E1.
  - intros p a Ha Hn. rewrite E1 in Ha. congruence.
Qed.

Lemma frame_td s t' :
  td_heap t' = td_heap (td s) -> queues t' = queues (td s) ->
  run_serve_size t' = run_serve_size (td s) -> dispatched t' = dispatched (td s) ->
  dispatch_nudger t' = dispatch_nudger (td s) -> frame s (s <| td := t' |>).
Proof. intros E1 E2 E3 E4 E5. split; simpl; auto. by apply core_td. Qed.

Lemma frame_kern s k :
  (forall p, is_Some (k_causes (kern s) !! p) -> is_Some (k_causes k !! p)) ->
  frame s (s <| kern := k |>).
Proof.
  intros H. split; auto. split; simpl; auto; [by exists []; rewrite app_nil_r | eauto 6 |].
  intros p a Ha Hn. congruence.
Qed.

Lemma frame_add s a :
  q_reqs (rqueue a) = [] -> q_reqs (wqueue a) = [] ->
  frame s (s <| td ::= fun t => add_account t a |>).
Proof.
  intros H1 H2. split; auto. split; simpl; auto.
  - eauto.
  - intros p b Hb. exists b. rewrite lookup_app_l by (by apply lookup_lt_Some in Hb). auto.
  - intros p b Hb Hn. apply lookup_app_Some in Hb as [Hb|[_ Hb]]; [congruence |].
    by apply list_lookup_singleton_Some in Hb as [_ <-].
Qed.

(** What the handlers need of the batches: they have room, unless the flag of
    [do_disk_accounting] says otherwise. *)
Definition room (full : bool) (s : tb) : Prop := full = false -> roomy (td s).

Definition has_acct (p : nat) (s : tb) : Prop := is_Some (td_heap (td s) !! p).
Definition has_causes (p : ptr) (s : tb) : Prop := is_Some (k_causes (kern s) !! p).

Lemma has_acct_frame p s s' : frame s s' -> has_acct p s -> has_acct p s'.
Proof. intros F [a Ha]. destruct (co_heap _ _ (fr_core _ _ F) p a Ha) as (a' & Ha' & _). by eexists. Qed.
Lemma has_causes_frame p s s' : frame s s' -> has_causes p s -> has_causes p s'.
Proof. intros F. apply (co_causes _ _ (fr_core _ _ F)). Qed.

Lemma keeps_stats full f : keeps (room full) (upd_stats f) (fun _ => room full).
Proof.
  intros s Hi Hr. eexists _, _. split; [done |]. split_and!.
  - apply (inv0_td s ((td s) <| stats ::= f |>)); auto. apply Hi.
  - by apply (frame_td s ((td s) <| stats ::= f |>)).
  - done.
Qed.

Lemma keeps_get_account full account_id :
  keeps (room full) (get_account account_id) (fun p s => room full s /\ has_acct p s).
Proof.
  intros s Hi Hr. destruct (get_account_run account_id s (inv_td _ Hi)) as (p & s' & E & Hg).
  destruct (got_account_inv _ _ _ _ Hi Hg) as (Hi' & Hr' & a & Ha & _).
  exists p, s'. split; [done |]. split; [done |]. split; [|split; [|by eexists]].
  - destruct Hg as [| b w' _ Hf _ |]; [done | | by apply frame_kern].
    transitivity (s <| kern ::= fun k => k <| k_world := w' |> |>); [by apply frame_kern |].
    by apply frame_add; apply Hf.
  - intros Hf. apply Hr', Hr, Hf.
Qed.

(** A change of the numbers of an account. *)
Lemma keeps_upd_shape full p f :
  (forall a, same_shape a (f a)) ->
  keeps (fun s => room full s /\ has_acct p s) (upd_acct p f)
        (fun _ s => room full s /\ has_acct p s).
Proof.
  intros Hf s Hi [Hr [a Ha]]. exists tt, (put_acct p (f a) s).
  split; [by apply upd_acct_run |]. destruct (Hf a) as (E1 & E2 & E3 & E4 & _).
  split; [by eapply inv0_put_shape |]. split; [by eapply frame_put |]. split.
  - intros Hx. apply roomy_put; [by apply Hr |]. rewrite E4.
    destruct (Hr Hx) as [_ Hall]. by eapply Forall_lookup_1 in Hall; [|exact Ha].
  - eexists. by eapply put_acct_lookup.
Qed.

Lemma keeps_read_causes (P : tb -> Prop) line p :
  keeps (fun s => P s /\ has_causes p s) (in_kern (read_causes line p))
        (fun c s => (P s /\ has_causes p s) /\ causes_wf c /\ 0 <= cl_size c <= MAX_IO).
Proof.
  intros s Hi [HP [c Hc]]. exists c, s. unfold in_kern, zoom, read_causes. rewrite Hc.
  split; [by destruct s |]. split; [done |]. split; [reflexivity |].
  destruct Hi as [_ [Hk Hs _] _]. split_and!; eauto; [by eexists | | |].
  - by apply (kernel_causes _ Hk p).
  - by apply (Hs p).
  - by apply (Hs p).
Qed.

Lemma keeps_write_causes full p f :
  (forall c, causes_wf c -> causes_wf (f c)) -> (forall c, cl_size (f c) = cl_size c) ->
  keeps (room full) (in_kern (write_causes p f)) (fun _ => room full).
Proof.
  intros Hf Hsz s [Ht He Hq] Hr. eexists _, _. split; [done |]. split_and!; [|apply frame_kern|done].
  - split; auto. by apply (env_wf_write (kern s)).
  - simpl. intros q [c Hc]. rewrite lookup_alter. case_decide; subst; rewrite Hc; by eexists.
Qed.

End Steps.
