(* ===== verification/TBucketCharge.v ===== *)
(** * Token-bucket scheduler: charging for I/O

    When a batch is full the scheduler settles: every account is charged its
    share of the cost of the combined batch and gets its estimates back. *)

From S2P Require Import Prelude Keeps CInt Kernel DiskSim IoBatch HashTable CauseTags Tags Queue IoctlHelper.
From S2P Require Import TBucket TBucketTokens TBucketInv TBucketFrame.

(** ** Loops over all accounts *)

Definition set_heap (h : list account) (s : tb) : tb := s <| td ::= fun t => t <| td_heap := h |> |>.

Lemma put_set_heap p a h s : put_acct p a (set_heap h s) = set_heap (<[p := a]> h) s.
Proof. done. Qed.

Lemma set_heap_id s : set_heap (td_heap (td s)) s = s.
Proof. unfold set_heap. destruct s as [? ? ? ? ? ? t]. by destruct t. Qed.

(** A loop over the accounts whose body changes the account at hand only acts on
    the heap as a map. *)
Lemma for_acc_heap {B} (P : account -> Prop) (g : account -> account) (v : B -> account -> B)
    (body : B -> nat -> ST tb B) s b :
  (forall s b p a, td_heap (td s) !! p = Some a -> P a ->
     body b p s = Ok (v b a, put_acct p (g a) s)) ->
  Forall P (td_heap (td s)) ->
  for_acc (seq 0 (length (td_heap (td s)))) b body s
  = Ok (foldl v b (td_heap (td s)), set_heap (g <$> td_heap (td s)) s).
Proof.
  intros Hbody HP.
  assert (Hgen : forall h2 h1 b, Forall P h2 ->
    for_acc (seq (length h1) (length h2)) b body (set_heap (h1 ++ h2) s)
    = Ok (foldl v b h2, set_heap (h1 ++ (g <$> h2)) s)).
  { induction h2 as [|a h2 IH]; intros h1 b' HP2; [done |].
    inversion_clear HP2 as [|? ? Ha HP2']. cbn [length seq for_acc].
    rewrite (bind_ok _ _ _ (v b' a) (set_heap ((h1 ++ [g a]) ++ h2) s)).
    - specialize (IH (h1 ++ [g a]) (v b' a) HP2'). rewrite length_app, Nat.add_comm in IH.
      simpl in IH. rewrite IH. by rewrite <- app_assoc.
    - rewrite (Hbody _ _ _ a); [| by simpl; rewrite list_lookup_middle | done].
      rewrite put_set_heap, <- app_assoc. simpl. by rewrite insert_app_r_alt, Nat.sub_diag by lia. }
  specialize (Hgen (td_heap (td s)) [] b HP). simpl in Hgen. by rewrite set_heap_id in Hgen.
Qed.

Lemma for_each_acc {S A} (l : list A) (body : A -> ST S unit) s :
  for_each l body s = for_acc l tt (fun _ => body) s.
Proof.
  revert s. induction l as [|x l IH]; intros s; simpl; [done |].
  unfold bind. destruct (body x s) as [[[] s']|]; auto.
Qed.

Lemma for_each_heap (P : account -> Prop) (g : account -> account) (body : nat -> ST tb unit) s :
  (forall s p a, td_heap (td s) !! p = Some a -> P a -> body p s = Ok (tt, put_acct p (g a) s)) ->
  Forall P (td_heap (td s)) ->
  for_each (seq 0 (length (td_heap (td s)))) body s = Ok (tt, set_heap (g <$> td_heap (td s)) s).
Proof.
  intros Hb HP. rewrite for_each_acc.
  rewrite (for_acc_heap P g (fun _ _ => tt)) by (intros; auto).
  by destruct (foldl _ _ _).
Qed.

(** ** Settling, as a function *)

Section Settle.
Context {K : KernelFns} {KO : KernelOk K}.

Definition batch_cost (b : io_batch) : Z :=
  match iobatch_get_cost b with Ok r => fst r | Fault _ => 0 end.
Definition batch_priced (b : io_batch) : io_batch :=
  match iobatch_get_cost b with Ok r => snd r | Fault _ => b end.

Lemma batch_cost_run b : batch_wf b ->
  iobatch_get_cost b = Ok (batch_cost b, batch_priced b) /\ batch_wf (batch_priced b) /\
  0 <= batch_cost b <= 0xa0000000 /\ (batch_cost b = 0 <-> live b = []) /\
  batch_cost (batch_priced b) = batch_cost b /\
  batch_priced (batch_priced b) = batch_priced b.
Proof.
  intros Hb. unfold batch_cost, batch_priced.
  destruct (iobatch_get_cost_wf b Hb) as (c & b' & E & Hb' & Hc & Hcc & Hp & _ & Hby & Hrs & Hcp & _).
  rewrite E. simpl. pose proof (live_length b' Hb') as Hlen. pose proof (wf_size b' Hb').
  pose proof (wf_capacity b' Hb'). pose proof (wf_bytes_bound b' Hb'). pose proof (wf_cap b' Hb').
  assert (Hr : 0 <= c <= 0xa0000000 /\ (c = 0 <-> live b = [])).
  { destruct (live b') as [|r l] eqn:El.
    - rewrite Hc. simpl. split; [lia |]. apply Permutation_nil in Hp. tauto.
    - pose proof (scan_cost_bounds (live b')) as Hsc. rewrite El in Hsc.
      pose proof (wf_live b' Hb') as Hok. rewrite El in Hok.
      pose proof (wf_bytes b' Hb') as Hbs. rewrite El in Hbs.
      specialize (Hsc Hok ltac:(done)). pose proof (sizes_nonneg _ Hok).
      rewrite <- Hc, Hlen, <- Hbs in Hsc. unfold SEEK_CAP, MAX_IO in *.
      split; [lia |]. split; [lia |]. intros E0. rewrite E0 in Hp.
      by apply Permutation_nil_r in Hp. }
  split_and!; try tauto.
  all: unfold iobatch_get_cost; rewrite Hcc;
    replace (c =? NO_COST) with false; [done |];
    symmetry; apply Z.eqb_neq; change NO_COST with 0xffffffffffffffff; lia.
Qed.

Definition priced (a : account) : account := a <| batch := batch_priced (batch a) |>.

(** The share of the combined cost that falls to an account. *)
Definition adjusted_charge (combined summed : Z) (a : account) : Z :=
  u64 (safe_div (u64 (combined * batch_cost (batch a))) summed).

Definition settle_acct (combined summed : Z) (a : account) : account :=
  (saturate_counts (a <| batch := batch_priced (batch a) |>
     <| used ::= fun u => s64 (u + adjusted_charge combined summed a) |>
     <| used_raw ::= fun u => s64 (u + batch_estimate a) |>
     <| estimate ::= fun e => s64 (e - batch_estimate a) |>))
  <| batch_estimate := 0 |> <| batch ::= iobatch_clear |>.

Lemma charge_account_run combined summed s p a :
  td_heap (td s) !! p = Some a -> batch_wf (batch a) ->
  charge_account combined summed p s = Ok (tt, put_acct p (settle_acct combined summed a) s).
Proof.
  intros Ha Hb. destruct (batch_cost_run _ Hb) as (E & _).
  unfold charge_account. rewrite (bind_ok _ _ _ _ _ (acct_run _ _ _ _ Ha)), E.
  unfold lift. rewrite (bind_ok _ _ s (batch_cost (batch a), batch_priced (batch a)) s) by done.
  rewrite (bind_ok _ _ _ _ _ (upd_acct_run _ _ _ _ Ha)).
  erewrite bind_ok by (apply upd_acct_run; by eapply put_acct_lookup).
  erewrite upd_acct_run by (eapply put_acct_lookup; by eapply put_acct_lookup).
  by rewrite !put_acct_put.
Qed.

(** The sum of the costs of the accounts' batches, as the loop computes it. *)
Definition summed_cost (h : list account) : Z :=
  foldl (fun summed a => u64 (summed + batch_cost (batch a))) 0 h.

(** The state after the batches are settled. *)
Definition settled (s : tb) : tb :=
  let h := td_heap (td s) in
  let combined := batch_cost (td_batch (td s)) in
  s <| td ::= fun t => t
    <| td_heap := (fun a => settle_acct combined (summed_cost h) (priced a)) <$> h |>
    <| td_batch := iobatch_clear (batch_priced (td_batch (td s))) |>
    <| stats ::= fun st => st <| disk_norm ::= fun n => u64 (n + combined) |>
                              <| io_batches ::= fun n => s64 (n + 1) |> |> |>.

Lemma acct_batches_wf t : td_wf t -> Forall (fun a => batch_wf (batch a)) (td_heap t).
Proof. intros Ht. eapply Forall_mono; [|apply (tw_accts t Ht)]. by intros a []. Qed.

Lemma settle_batches_run s : td_wf (td s) -> settle_batches s = Ok (tt, settled s).
Proof.
  intros Ht. destruct (batch_cost_run _ (tw_batch _ Ht)) as (E & _).
  unfold settle_batches. rewrite (bind_ok _ _ s (td s) s) by done. rewrite E.
  set (combined := batch_cost (td_batch (td s))). simpl lift.
  rewrite (bind_ok _ _ s (combined, batch_priced (td_batch (td s))) s) by done.
  set (s1 := s <| td ::= fun t => t
    <| td_batch := iobatch_clear (batch_priced (td_batch (td s))) |>
    <| stats ::= fun st => st <| disk_norm ::= fun n => u64 (n + combined) |>
                              <| io_batches ::= fun n => s64 (n + 1) |> |> |>).
  erewrite (bind_ok (upd_td _)) by done.
  rewrite (bind_ok (upd_stats _) _ _ tt s1) by done.
  rewrite (bind_ok (gets _) _ s1 (accounts (td s)) s1), (tw_accounts _ Ht) by done.
  assert (Hh : td_heap (td s1) = td_heap (td s)) by done.
  rewrite <- Hh at 1.
  erewrite bind_ok.
  2: { apply (for_acc_heap (fun a => batch_wf (batch a)) priced
         (fun summed a => u64 (summed + batch_cost (batch a)))).
       - intros s2 b p a Ha Hb. destruct (batch_cost_run _ Hb) as (Eb & _).
         rewrite (bind_ok _ _ _ _ _ (acct_run _ _ _ _ Ha)). rewrite Eb. unfold lift, bind at 1.
         rewrite (bind_ok _ _ _ _ _ (upd_acct_run _ _ _ _ Ha)). done.
       - rewrite Hh. by apply acct_batches_wf. }
  rewrite Hh. set (s2 := set_heap _ s1).
  assert (Hh2 : td_heap (td s2) = priced <$> td_heap (td s)) by done.
  replace (length (td_heap (td s))) with (length (td_heap (td s2))) by (rewrite Hh2; apply length_fmap).
  rewrite (for_each_heap (fun a => batch_wf (batch a))
    (settle_acct (batch_cost (td_batch (td s))) (summed_cost (td_heap (td s))))).
  - rewrite Hh2, <- list_fmap_compose. done.
  - intros s3 p a Ha Hb. by apply charge_account_run.
  - rewrite Hh2, Forall_fmap. eapply Forall_mono; [|apply (acct_batches_wf _ Ht)].
    intros a Hb. simpl. by apply batch_cost_run.
Qed.

(** ** Settling keeps the invariant and makes room *)

Lemma settle_acct_shape combined summed a :
  acct_wf a -> let a' := settle_acct combined summed (priced a) in
  acct_id a' = acct_id a /\ rqueue a' = rqueue a /\ wqueue a' = wqueue a /\ acct_wf a' /\
  batch_fullb (batch a') = false /\ live (batch a') = [] /\ batch_estimate a' = 0.
Proof.
  intros [H1 H2 H3 H4 H5 H6] a'. unfold a', settle_acct.
  match goal with |- context [saturate_counts ?x] =>
    pose proof (saturate_counts_frame x) as (E1 & E2 & E3 & _ & _ & _ & _ & _ & E4 & _ & E5 & _);
    set (y := saturate_counts x) in * end.
  simpl in E1, E2, E3, E4, E5. simpl.
  destruct (batch_cost_run _ H5) as (_ & Hp & _ & _ & _ & Epp). rewrite Epp in E5.
  destruct (iobatch_clear_wf _ Hp) as (C1 & C2 & C3 & _). rewrite E5. split_and!; auto.
  split; simpl; rewrite ?E2, ?E3, ?E4, ?E5; auto.
Qed.

Lemma inv0_map s g :
  tb_inv0 s -> (forall a, acct_wf a -> acct_id (g a) = acct_id a /\ rqueue (g a) = rqueue a /\
                            wqueue (g a) = wqueue a /\ acct_wf (g a)) ->
  tb_inv0 (set_heap (g <$> td_heap (td s)) s) /\ frame s (set_heap (g <$> td_heap (td s)) s).
Proof.
  intros [[H1 H2 H3 H4 (p0 & a0 & H5a & H5b) H6 H7 H8 H9] He Hq] Hg.
  rewrite Forall_lookup in H8.
  assert (Hl : forall p a', (g <$> td_heap (td s)) !! p = Some a' ->
    exists a, td_heap (td s) !! p = Some a /\ a' = g a).
  { intros p a' H. rewrite list_lookup_fmap in H.
    destruct (td_heap (td s) !! p); simplify_eq/=; eauto. }
  split; [split; simpl; auto; [split; simpl; rewrite ?length_fmap; auto |] |
          split; auto; split; simpl; auto].
  - eapply ht_wf_ext; [|exact H2]. intros p. unfold id_of. simpl. rewrite list_lookup_fmap.
    destruct (td_heap (td s) !! p) as [a|] eqn:Ea; simpl; [|done].
    symmetry. by apply Hg, (H8 p).
  - rewrite <- list_fmap_compose. erewrite list_fmap_ext; [exact H4 |].
    intros i a Ha. simpl. by apply Hg, (H8 i).
  - exists p0, (g a0). rewrite list_lookup_fmap, H5a. split; [done |].
    rewrite <- H5b. by apply Hg, (H8 p0).
  - apply Forall_fmap, Forall_lookup. intros i a Ha. by apply Hg, (H8 i).
  - intros p a' w rq Ha' Hrq. simpl in Ha'. apply Hl in Ha' as (a & Ha & ->).
    destruct (Hg a (H8 p a Ha)) as (_ & E2 & E3 & _). apply (Hq p a w rq Ha).
    unfold queue_of in *. simpl in *. destruct w; congruence.
  - by exists []; rewrite app_nil_r.
  - intros p a Ha. exists (g a). rewrite list_lookup_fmap, Ha.
    destruct (Hg a (H8 p a Ha)) as (? & ? & ? & _). auto.
  - intros p a' (a & Ha & ->)%Hl Hn. congruence.
Qed.

Lemma settled_inv s : tb_inv0 s -> tb_inv0 (settled s) /\ frame s (settled s) /\ roomy (td (settled s)).
Proof.
  intros Hi. set (g := fun a => settle_acct (batch_cost (td_batch (td s)))
                 (summed_cost (td_heap (td s))) (priced a)).
  destruct (inv0_map s g) as [Hi1 F1]; [done | |].
  { intros a Ha. destruct (settle_acct_shape (batch_cost (td_batch (td s)))
      (summed_cost (td_heap (td s))) a Ha) as (? & ? & ? & ? & _). auto. }
  destruct (batch_cost_run _ (tw_batch _ (inv_td _ Hi))) as (_ & Hp & _).
  destruct (iobatch_clear_wf _ Hp) as (C1 & C2 & _).
  set (s1 := set_heap (g <$> td_heap (td s)) s) in *.
  assert (E : settled s = s1 <| td := td (settled s) |>) by done.
  rewrite E. split_and!.
  - by apply (inv0_td s1).
  - transitivity s1; [done |]. by apply frame_td.
  - split; [done |]. simpl. apply Forall_fmap.
    eapply Forall_mono; [|apply (tw_accts _ (inv_td _ Hi))]. intros a Ha. simpl.
    by apply settle_acct_shape.
Qed.

Lemma keeps_settle full : keeps (room full) settle_batches (fun _ => room false).
Proof.
  intros s Hi _. exists tt, (settled s). split; [by apply settle_batches_run, Hi |].
  destruct (settled_inv s Hi) as (H1 & H2 & H3). split_and!; auto. by intros _.
Qed.

(** ** Adding to batches *)

Lemma keeps_batch_cause c off full account_id :
  off_ok off -> 0 <= cl_size c <= MAX_IO ->
  keeps (room full) (batch_cause c off full account_id) room.
Proof.
  intros Ho Hs. unfold batch_cause.
  eapply keeps_bind; [apply keeps_get_account |]. intros p s Hi [Hr [a Ha]].
  rewrite (bind_ok _ _ _ _ _ (acct_run _ _ _ _ Ha)).
  pose proof (acct_wf_at _ _ _ Hi Ha) as Hw.
  rewrite (s32_small (cl_size c)) by (unfold is_s32, MAX_IO in *; lia).
  destruct (iobatch_add_total (batch a) off (cl_size c)) as (rv & b' & E & Hb'); auto.
  { apply Hw. }
  rewrite E, (bind_ok _ _ s (rv, b') s) by done.
  rewrite (bind_ok _ _ _ _ _ (upd_acct_run _ _ _ _ Ha)). simpl snd.
  rewrite iobatch_full_ok by done. unfold lift at 1.
  erewrite (bind_ok (fun s => Ok (batch_fullb b', s))) by done.
  erewrite bind_ok by (apply upd_acct_run; by eapply put_acct_lookup).
  rewrite put_acct_put. eexists _, _. split; [done |].
  match goal with |- tb_inv0 (put_acct p ?x s) /\ _ => set (a' := x) end.
  split_and!.
  - apply (inv0_put s p a a'); auto. destruct Hw. by split.
  - by apply (frame_put s p a a').
  - intros [Hf1 Hf2]%orb_false_iff. apply roomy_put; auto.
Qed.

Lemma keeps_stats_if (b : bool) full f :
  keeps (room full) (if b then upd_stats f else ret tt) (fun _ => room full).
Proof. destruct b; [apply keeps_stats | by apply keeps_ret]. Qed.

Lemma keeps_disk_accounting causes off :
  off_ok off ->
  keeps (fun s => room false s /\ has_causes causes s) (do_disk_accounting causes off)
        (fun _ => room false).
Proof.
  intros Ho. unfold do_disk_accounting. eapply keeps_bind; [apply keeps_read_causes |].
  intros c s Hi ((Hr & _) & _ & Hs).
  rewrite (bind_ok _ _ s (td s) s), (s32_small (cl_size c)) by
    (done || unfold is_s32, MAX_IO in *; lia).
  destruct (iobatch_add_total (td_batch (td s)) off (cl_size c)) as (rv & b' & E & Hb'); auto.
  { apply Hi. }
  rewrite E, (bind_ok _ _ s (rv, b') s) by done.
  erewrite (bind_ok (upd_td _)) by done. simpl snd. rewrite iobatch_full_ok by done.
  unfold lift at 1. erewrite (bind_ok (fun s => Ok (batch_fullb b', s))) by done.
  set (s1 := s <| td := (td s) <| td_batch := b' |> |>).
  change (s <| td ::= _ |>) with s1.
  assert (Hi1 : tb_inv0 s1) by (by apply inv0_td).
  assert (F1 : frame s s1) by (by apply frame_td).
  assert (Hr1 : room (batch_fullb b') s1).
  { intros Hf. destruct (Hr eq_refl) as [_ H2]. by split. }
  clearbody s1. revert Hr1. generalize (batch_fullb b'). intros full Hr1.
  match goal with |- exists a s', ?m s1 = _ /\ _ =>
    assert (Hm : keeps (room full) m (fun _ => room false)) end.
  { eapply keeps_bind; [apply keeps_stats_if | intros ?].
    eapply keeps_bind; [apply keeps_stats | intros ?].
    eapply keeps_bind.
    { apply (keeps_for_acc (items c) full (batch_cause c off) room).
      intros b x _. by apply keeps_batch_cause. }
    intros [|]; [apply keeps_settle | by apply keeps_ret]. }
  destruct (Hm s1 Hi1 Hr1) as (u & s2 & E2 & Hi2 & F2 & Hr2).
  exists u, s2. split_and!; auto. by transitivity s1.
Qed.

(** ** The books balance *)

Lemma floor_shares_sum C S l :
  0 <= C -> 0 < S -> Forall (fun x => 0 <= x) l ->
  zsum ((fun x => C * x / S) <$> l) * S <= C * zsum l /\
  C * zsum l <= zsum ((fun x => C * x / S) <$> l) * S + Z.of_nat (length l) * (S - 1).
Proof.
  intros HC HS. induction 1 as [|x l Hx _ IH]; [simpl; lia |].
  pose proof (Z.mul_div_le (C * x) S HS). pose proof (Z.mul_succ_div_gt (C * x) S HS).
  rewrite fmap_cons. cbn [zsum length]. rewrite Nat2Z.inj_succ. nia.
Qed.

(** Shares rounded down leave less than one unit each. *)
Lemma floor_shares C l :
  0 <= C -> Forall (fun x => 0 <= x) l -> 0 < zsum l ->
  C - Z.of_nat (length l) < zsum ((fun x => C * x / zsum l) <$> l) <= C.
Proof.
  intros HC Hl HS. destruct (floor_shares_sum C (zsum l) l HC HS Hl) as [H1 H2].
  assert (0 < Z.of_nat (length l)) by (destruct l; simpl in *; lia). nia.
Qed.

Definition costs (h : list account) : list Z := (fun a => batch_cost (batch a)) <$> h.

Lemma costs_range h :
  Forall (fun a => batch_wf (batch a)) h -> Forall (fun x => 0 <= x <= 0xa0000000) (costs h).
Proof.
  intros H. apply Forall_fmap. eapply Forall_mono; [|exact H]. intros a Ha. simpl.
  by apply batch_cost_run.
Qed.

Lemma zsum_upper l M : Forall (fun x => 0 <= x <= M) l -> 0 <= zsum l <= Z.of_nat (length l) * M.
Proof. induction 1; simpl; lia. Qed.

Lemma summed_cost_exact h :
  Forall (fun a => batch_wf (batch a)) h -> Z.of_nat (length h) <= 0x100000 ->
  summed_cost h = zsum (costs h) /\ 0 <= zsum (costs h) <= 0xa000000000000.
Proof.
  intros Hw Hlen. pose proof (zsum_upper _ _ (costs_range h Hw)) as Hb.
  replace (length (costs h)) with (length h) in Hb by (symmetry; apply length_fmap).
  split; [|lia].
  assert (Hgen : forall h acc, Forall (fun a => batch_wf (batch a)) h -> 0 <= acc ->
    acc + zsum (costs h) < 0x10000000000000000 ->
    foldl (fun summed a => u64 (summed + batch_cost (batch a))) acc h = acc + zsum (costs h)).
  { clear h Hw Hlen Hb. induction h as [|a h IH]; intros acc Hw Hacc Hsum; [simpl; lia |].
    inversion_clear Hw as [|? ? Ha Hw'].
    change (zsum (costs (a :: h))) with (batch_cost (batch a) + zsum (costs h)) in *. simpl.
    destruct (batch_cost_run _ Ha) as (_ & _ & Hc & _).
    pose proof (zsum_upper _ _ (costs_range h Hw')).
    rewrite u64_small by (unfold is_u64; lia). rewrite IH; auto; lia. }
  unfold summed_cost. rewrite Hgen; auto; lia.
Qed.

Lemma adjusted_charge_exact C S a :
  batch_wf (batch a) -> 0 <= C <= 0xa0000000 -> 0 < S <= 0xa000000000000 ->
  adjusted_charge C S (priced a) = C * batch_cost (batch a) / S.
Proof.
  intros Ha HC HS. unfold adjusted_charge. simpl.
  destruct (batch_cost_run _ Ha) as (_ & _ & Hc & _ & -> & _).
  assert (0 <= C * batch_cost (batch a) <= 0xa0000000 * 0xa0000000) by nia.
  rewrite (u64_small (C * _)) by (unfold is_u64; lia). rewrite safe_div_pos by lia.
  apply u64_small. unfold is_u64.
  assert (0 <= C * batch_cost (batch a) / S <= C * batch_cost (batch a)).
  { split; [apply Z.div_pos; lia | apply Z.div_le_upper_bound; nia]. }
  lia.
Qed.

Lemma total_pos h p a :
  Forall (fun a => batch_wf (batch a)) h -> h !! p = Some a -> live (batch a) <> [] ->
  0 < zsum (costs h).
Proof.
  intros Hw Ha Hl.
  assert (Hin : batch_cost (batch a) ∈ costs h).
  { apply (list_elem_of_fmap_2 (fun a => batch_cost (batch a))), list_elem_of_lookup. eauto. }
  destruct (batch_cost_run (batch a)) as (_ & _ & Hc & Hz & _).
  { by eapply Forall_lookup_1 in Hw; [|exact Ha]. }
  pose proof (costs_range _ Hw) as Hcr.
  apply list_elem_of_split in Hin as (l1 & l2 & E). rewrite E in Hcr |- *.
  apply Forall_app in Hcr as [Hl1 Hl2]. apply zsum_upper in Hl1.
  inversion_clear Hl2 as [|? ? _ Hl2']. apply zsum_upper in Hl2'.
  rewrite zsum_app. simpl. assert (batch_cost (batch a) <> 0) by tauto. lia.
Qed.

(** C16: settling charges what the disk did, once: every account is charged its
    share of the cost of the combined batch, in proportion to the cost of its own
    requests; the charges add up to that cost but for less than one token per
    account lost in rounding, never more; each account gets back exactly the
    estimates it had been charged for these requests; and all batches are empty
    afterwards. *)
Theorem settle_batches_charges s :
  td_wf (td s) -> Z.of_nat (length (td_heap (td s))) <= 0x100000 ->
  (exists p a, td_heap (td s) !! p = Some a /\ live (batch a) <> []) ->
  let combined := batch_cost (td_batch (td s)) in
  let total := zsum (costs (td_heap (td s))) in
  exists s', settle_batches s = Ok (tt, s') /\
    live (td_batch (td s')) = [] /\ length (td_heap (td s')) = length (td_heap (td s)) /\
    (forall p a, td_heap (td s) !! p = Some a -> exists a', td_heap (td s') !! p = Some a' /\
       used a' = s64 (used a + combined * batch_cost (batch a) / total) /\
       estimate a' = s64 (estimate a - batch_estimate a) /\
       batch_estimate a' = 0 /\ live (batch a') = []) /\
    combined - Z.of_nat (length (td_heap (td s)))
      < zsum ((fun a => combined * batch_cost (batch a) / total) <$> td_heap (td s)) <= combined.
Proof.
  intros Ht Hlen (p0 & a0 & Ha0 & Hl0) combined total.
  exists (settled s). split; [by apply settle_batches_run |].
  pose proof (acct_batches_wf _ Ht) as Hw.
  destruct (batch_cost_run _ (tw_batch _ Ht)) as (_ & Hp & Hc & _). fold combined in Hc.
  destruct (iobatch_clear_wf _ Hp) as (_ & _ & Hcl & _).
  destruct (summed_cost_exact _ Hw Hlen) as [Hsum Hrange]. fold total in Hsum, Hrange.
  assert (Hpos : 0 < total) by (by eapply total_pos).
  split; [done |]. split; [apply length_fmap |]. split.
  - intros p a Ha. eexists. split; [simpl; by rewrite list_lookup_fmap, Ha |].
    assert (Hb : batch_wf (batch a)) by (by eapply Forall_lookup_1 in Hw; [|exact Ha]).
    assert (Haw : acct_wf a) by (eapply Forall_lookup_1; [apply (tw_accts _ Ht) | exact Ha]).
    destruct (settle_acct_shape combined (summed_cost (td_heap (td s))) a Haw)
      as (_ & _ & _ & _ & _ & E1 & E2).
    rewrite <- (adjusted_charge_exact combined total a), <- Hsum by (done || lia).
    fold combined. split_and!; auto; unfold settle_acct; simpl;
      match goal with |- context [saturate_counts ?x] =>
        pose proof (saturate_counts_frame x) as (_ & _ & _ & _ & _ & F1 & F2 & _) end;
      [exact F2 | exact F1].
  - replace ((fun a => combined * batch_cost (batch a) / total) <$> td_heap (td s))
      with ((fun x => combined * x / total) <$> costs (td_heap (td s)))
      by (unfold costs; by rewrite <- list_fmap_compose).
    replace (length (td_heap (td s))) with (length (costs (td_heap (td s)))) by apply length_fmap.
    apply floor_shares; [lia | | done]. eapply Forall_mono; [|by apply costs_range]. simpl. lia.
Qed.

(** ** Charging the causes of an I/O *)

(** A loop over account ids whose body changes the account of the id only, when
    every id has its account. *)
Lemma for_each_causes (f : account -> account) (body : Z -> ST tb unit) ids s :
  (forall a, acct_wf a -> acct_wf (f a)) -> (forall a, acct_id (f a) = acct_id a) ->
  (forall id p a s, get_account id s = Ok (p, s) -> td_heap (td s) !! p = Some a ->
     acct_id a = id -> body id s = Ok (tt, put_acct p (f a) s)) ->
  td_wf (td s) -> NoDup ids ->
  (forall id, id ∈ ids -> exists p a, td_heap (td s) !! p = Some a /\ acct_id a = id) ->
  let s' := set_heap ((fun a => if decide (acct_id a ∈ ids) then f a else a) <$> td_heap (td s)) s in
  for_each ids body s = Ok (tt, s') /\ td_wf (td s').
Proof.
  intros Hwf Hid Hbody Ht Hnd. revert s Ht. induction Hnd as [|id ids Hnin _ IH]; intros s Ht Hall s'.
  { assert (s' = s) as ->; [|done]. unfold s'. rewrite <- (set_heap_id s) at 3. f_equal.
    apply list_eq. intros i. rewrite list_lookup_fmap. destruct (td_heap (td s) !! i); [|done].
    done. }
  destruct (Hall id) as (p & a & Ha & Ea); [left |].
  assert (Hw : acct_wf a) by (eapply Forall_lookup_1; [apply (tw_accts _ Ht) | exact Ha]).
  cbn [for_each]. rewrite (bind_ok _ _ s tt (put_acct p (f a) s)).
  2: { apply Hbody; auto. by eapply get_account_found. }
  destruct (IH (put_acct p (f a) s)) as [E Hwf'].
  - eapply td_wf_put; eauto.
  - intros id' Hin. destruct (Hall id') as (p' & a' & Ha' & Ea'); [by right |].
    exists p', a'. rewrite put_acct_lookup_ne; [done |]. intros <-.
    rewrite Ha in Ha'. injection Ha' as <-. apply Hnin. by rewrite <- Ea, Ea'.
  - assert (Es : s' = set_heap ((fun a => if decide (acct_id a ∈ ids) then f a else a) <$>
      td_heap (td (put_acct p (f a) s))) (put_acct p (f a) s)); [|by rewrite Es].
    unfold s', set_heap. simpl. f_equal. f_equal. apply list_eq. intros i. symmetry.
    rewrite !list_lookup_fmap. destruct (decide (p = i)) as [<-|Hne].
    + rewrite list_lookup_insert_eq by (by apply lookup_lt_Some in Ha). rewrite Ha. simpl.
      rewrite Hid, Ea, (decide_False (P := id ∈ ids)), decide_True by (done || left). done.
    + rewrite list_lookup_insert_ne by done. destruct (td_heap (td s) !! i) as [b|] eqn:Eb; [|done].
      simpl. f_equal. assert (acct_id b <> id).
      { intros Eid. apply Hne. eapply (NoDup_lookup (acct_id <$> td_heap (td s))); [apply (tw_ids _ Ht) | |].
        - by rewrite list_lookup_fmap, Ha.
        - rewrite list_lookup_fmap, Eb. simpl. congruence. }
      destruct (decide (acct_id b ∈ ids)) as [Hin|Hin].
      * by rewrite decide_True by (by right).
      * rewrite decide_False; [done |]. by intros [|]%elem_of_cons.
Qed.

Lemma saturate_wf a : acct_wf a -> acct_wf (saturate_counts a).
Proof. apply same_shape_wf, saturate_same_shape. Qed.

(** Adding to the estimate of an account. *)
Definition add_estimate (x : account -> Z) (a : account) : account :=
  saturate_counts (a <| estimate ::= fun e => s64 (e + x a) |>).

Lemma add_estimate_facts x a :
  (acct_wf a -> acct_wf (add_estimate x a)) /\ acct_id (add_estimate x a) = acct_id a /\
  estimate (add_estimate x a) = s64 (estimate a + x a).
Proof.
  unfold add_estimate.
  pose proof (saturate_counts_frame (a <| estimate ::= fun e => s64 (e + x a) |>))
    as (E1 & _ & _ & _ & _ & E2 & _).
  split_and!; auto. intros [H1 H2 H3 H4 H5 H6]. apply saturate_wf. by split.
Qed.

(** The share of an account of a cost split by [n] causes, when it has been
    charged for a split by [n - 1] already, unless it is new. *)
Definition dirty_charge (tot n new_id : Z) (a : account) : Z :=
  let charge := s32 (safe_div tot n) in
  if negb (acct_id a =? new_id) then s32 (charge - safe_div tot (s32 (n - 1))) else charge.

Lemma dirty_charge_exact tot n new_id a :
  0 <= tot < 0x80000000 -> 0 < n < 0x80000000 -> (acct_id a <> new_id -> 1 < n) ->
  dirty_charge tot n new_id a =
  tot / n - (if decide (acct_id a = new_id) then 0 else tot / (n - 1)).
Proof.
  intros Ht Hn Hone. unfold dirty_charge.
  assert (Hd : forall m, 0 < m -> 0 <= tot / m <= tot).
  { intros m Hm. split; [apply Z.div_pos; lia | apply Z.div_le_upper_bound; nia]. }
  rewrite safe_div_pos by lia. pose proof (Hd n ltac:(lia)).
  rewrite (s32_small (tot / n)) by (unfold is_s32; lia).
  destruct (Z.eqb_spec (acct_id a) new_id) as [E|E]; simpl.
  - rewrite decide_True by done. lia.
  - rewrite decide_False by done. specialize (Hone E). pose proof (Hd (n - 1) ltac:(lia)).
    rewrite (s32_small (n - 1)) by (unfold is_s32; lia). rewrite safe_div_pos by lia.
    apply s32_small. unfold is_s32. lia.
Qed.

(** The cost a cause list is charged at when a page is dirtied. *)
Definition dirty_cost (c : cause_list) (pos ipos : Z) : Z :=
  if cl_private c <=? 0 then s64 (seek_time pos ipos + cl_size c) else cl_private c.

Lemma causes_dirty_run s causes c new_id inode pos ipos :
  td_wf (td s) -> k_causes (kern s) !! causes = Some c -> NoDup (items c) ->
  inodes s !! inode = Some ipos ->
  (forall id, id ∈ items c -> exists p a, td_heap (td s) !! p = Some a /\ acct_id a = id) ->
  exists s', tbucket_causes_dirty causes new_id inode pos s = Ok (tt, s') /\
    td_wf (td s') /\ inodes s' !! inode = Some (s64 (pos + cl_size c)) /\
    k_causes (kern s') !! causes = Some (c <| cl_private := dirty_cost c pos ipos |>) /\
    td_heap (td s') = (fun a => if decide (acct_id a ∈ items c)
      then add_estimate (dirty_charge (dirty_cost c pos ipos) (item_count c) new_id) a else a)
      <$> td_heap (td s).
Proof.
  intros Ht Hc Hnd Hino Hall. unfold tbucket_causes_dirty.
  rewrite (bind_ok _ _ s c s) by (unfold in_kern, zoom, read_causes; rewrite Hc; by destruct s).
  rewrite (bind_ok _ _ s s s) by done. cbv beta. rewrite Hino. unfold deref.
  rewrite (bind_ok _ _ s ipos s) by done.
  match goal with |- context [bind ?m ?f s] =>
    assert (exists s1, m s = Ok (dirty_cost c pos ipos, s1) /\ td s1 = td s /\
      k_causes (kern s1) !! causes = Some (c <| cl_private := dirty_cost c pos ipos |>))
      as (s1 & E1 & Htd & Hk1) end.
  { unfold dirty_cost. destruct (cl_private c <=? 0); eexists; (split; [done |]); (split; [done |]); simpl.
    - by rewrite lookup_alter_eq, Hc.
    - rewrite Hc. by destruct c. }
  rewrite (bind_ok _ _ _ _ _ E1). erewrite (bind_ok (modify _)) by done.
  set (s2 := s1 <| inodes ::= _ |>). rewrite <- Htd in *.
  set (tot := dirty_cost c pos ipos).
  match goal with |- context [for_each _ ?b s2] => destruct (for_each_causes
    (add_estimate (dirty_charge tot (item_count c) new_id)) b (items c) s2) as [E3 Hwf3]; auto end.
  - intros a. apply add_estimate_facts.
  - intros a. apply add_estimate_facts.
  - intros id p a s3 Hg Ha _. rewrite (bind_ok _ _ _ _ _ Hg).
    rewrite (bind_ok _ _ _ _ _ (acct_run _ _ _ _ Ha)).
    rewrite (bind_ok _ _ _ _ _ (upd_acct_run _ _ _ _ Ha)).
    erewrite upd_acct_run by (by eapply put_acct_lookup). by rewrite put_acct_put.
  - eexists. split; [exact E3 |]. split; [done |]. simpl. rewrite lookup_insert_eq. by split_and!.
Qed.

(** C34: a page dirtied by several accounts is paid for once: when a new account
    joins the causes of a page that costs [tot], every account named by them ends up
    charged [tot / n]: the new one is charged that, and each of the others the
    difference to the [tot / (n - 1)] it was charged before; no other account's
    estimate changes, and together they are never charged more than [tot]. *)
Theorem causes_dirty_splits_cost s causes c new_id inode pos ipos :
  let n := Z.of_nat (length (items c)) in
  let tot := dirty_cost c pos ipos in
  td_wf (td s) -> k_causes (kern s) !! causes = Some c -> causes_wf c -> n < 0x80000000 ->
  new_id ∈ items c -> inodes s !! inode = Some ipos -> 0 <= tot < 0x80000000 ->
  (forall id, id ∈ items c -> exists p a, td_heap (td s) !! p = Some a /\ acct_id a = id) ->
  exists s', tbucket_causes_dirty causes new_id inode pos s = Ok (tt, s') /\
    n * (tot / n) <= tot /\
    forall p a, td_heap (td s) !! p = Some a -> exists a', td_heap (td s') !! p = Some a' /\
      let before := if decide (acct_id a = new_id) then 0 else tot / (n - 1) in
      (acct_id a ∈ items c -> estimate a' = s64 (estimate a - before + tot / n)) /\
      (acct_id a ∉ items c -> a' = a).
Proof.
  intros n tot Ht Hc [Hnd Hcnt] Hn Hnew Hino Htot Hall.
  assert (Hpos : 0 < n) by (unfold n; destruct (items c); [by apply elem_of_nil in Hnew | simpl; lia]).
  destruct (causes_dirty_run s causes c new_id inode pos ipos) as (s' & E & _ & _ & _ & Hh); auto.
  exists s'. split; [done |]. split; [apply Z.mul_div_le; lia |].
  intros p a Ha. rewrite Hh, list_lookup_fmap, Ha. eexists. split; [done |]. simpl.
  rewrite Hcnt, s32_small by (unfold is_s32; lia). fold n tot. split.
  - intros Hin. rewrite decide_True by done. destruct (add_estimate_facts (dirty_charge tot n new_id) a)
      as (_ & _ & ->). rewrite dirty_charge_exact; [f_equal; lia | lia | lia |].
    intros Hne. destruct (decide (n = 1)) as [E1|]; [|lia]. exfalso.
    unfold n in E1. destruct (items c) as [|x [|y l]]; simpl in E1; try lia.
    apply list_elem_of_singleton in Hin, Hnew. congruence.
  - intros Hin. by rewrite decide_False by done.
Qed.

Lemma causes_free_run s causes c :
  td_wf (td s) -> k_causes (kern s) !! causes = Some c -> NoDup (items c) ->
  (forall id, id ∈ items c -> exists p a, td_heap (td s) !! p = Some a /\ acct_id a = id) ->
  tbucket_causes_free causes s = Ok (tt, set_heap ((fun a => if decide (acct_id a ∈ items c)
      then add_estimate (fun _ => - s32 (safe_div (cl_size c) (item_count c))) a else a)
      <$> td_heap (td s)) s).
Proof.
  intros Ht Hc Hnd Hall. unfold tbucket_causes_free.
  rewrite (bind_ok _ _ s c s) by (unfold in_kern, zoom, read_causes; rewrite Hc; by destruct s).
  apply (for_each_causes (add_estimate (fun _ => - s32 (safe_div (cl_size c) (item_count c))))); auto.
  - intros a. apply add_estimate_facts.
  - intros a. apply add_estimate_facts.
  - intros id p a s3 Hg Ha _. rewrite (bind_ok _ _ _ _ _ Hg).
    rewrite (bind_ok _ _ _ _ _ (upd_acct_run _ _ _ _ Ha)).
    erewrite upd_acct_run by (by eapply put_acct_lookup). by rewrite put_acct_put.
Qed.

(** A page that is dirtied by one account and freed before it is written
    costs the account its seek: the hook that runs when the causes are freed gives
    the bytes back, but not the positioning time that the dirty hook charged with
    them. *)
Theorem dirty_then_free_keeps_seek s causes c inode pos ipos p a :
  td_wf (td s) -> k_causes (kern s) !! causes = Some c -> items c = [acct_id a] ->
  item_count c = 1 -> cl_private c <= 0 -> 0 <= cl_size c <= MAX_IO ->
  inodes s !! inode = Some ipos -> td_heap (td s) !! p = Some a ->
  exists s1 s2 a1 a2, tbucket_causes_dirty causes (acct_id a) inode pos s = Ok (tt, s1) /\
    tbucket_causes_free causes s1 = Ok (tt, s2) /\
    td_heap (td s1) !! p = Some a1 /\ estimate a1 = s64 (estimate a + dirty_cost c pos ipos) /\
    td_heap (td s2) !! p = Some a2 /\ estimate a2 = s64 (estimate a + seek_time pos ipos).
Proof.
  intros Ht Hc Hit Hcnt Hpr Hsz Hino Ha.
  assert (Hone : forall t b, td_heap t !! p = Some b -> acct_id b = acct_id a ->
    forall x, x ∈ [acct_id a] -> exists q b, td_heap t !! q = Some b /\ acct_id b = x).
  { intros t b Hb Eb x ->%list_elem_of_singleton. eauto. }
  destruct (causes_dirty_run s causes c (acct_id a) inode pos ipos)
    as (s1 & E & Ht1 & _ & Hc1 & Hh); auto.
  { rewrite Hit. apply NoDup_singleton. } { rewrite Hit. by eapply Hone. }
  pose proof (seek_time_range pos ipos) as Hsk. unfold SEEK_CAP, MAX_IO in *.
  assert (Htot : dirty_cost c pos ipos = seek_time pos ipos + cl_size c).
  { unfold dirty_cost. destruct (Z.leb_spec (cl_private c) 0); [|lia]. apply s64_small. unfold is_s64. lia. }
  set (a1 := add_estimate (dirty_charge (dirty_cost c pos ipos) 1 (acct_id a)) a).
  assert (Ha1 : td_heap (td s1) !! p = Some a1).
  { rewrite Hh, list_lookup_fmap, Ha, Hcnt. simpl. rewrite decide_True; [done |]. rewrite Hit. left. }
  destruct (add_estimate_facts (dirty_charge (dirty_cost c pos ipos) 1 (acct_id a)) a) as (_ & E1 & E2).
  fold a1 in E1, E2.
  pose proof (causes_free_run s1 causes _ Ht1 Hc1) as Hfree. cbn [items cl_size item_count upd update_field] in Hfree.
  rewrite Hit in Hfree. exists s1. eexists _, a1, _. split; [done |].
  split; [apply Hfree; [apply NoDup_singleton | by eapply Hone] |].
  rewrite dirty_charge_exact, Z.div_1_r, decide_True, Z.sub_0_r in E2 by (lia || done).
  split; [done |]. split; [done |]. simpl. rewrite list_lookup_fmap, Ha1. simpl. split; [done |].
  rewrite decide_True by (rewrite E1; left).
  destruct (add_estimate_facts (fun _ => - s32 (safe_div (cl_size c) (item_count c))) a1)
    as (_ & _ & ->).
  rewrite E2, Hcnt, !safe_div_pos, Z.div_1_r by lia.
  rewrite (s32_small (cl_size c)), s64_add_l, Htot by (unfold is_s32; lia). f_equal. lia.
Qed.

End Settle.
