(* ===== verification/TBucketSafe.v ===== *)
(** * Token-bucket scheduler: the handlers keep the invariant

    Every handler, run in a state of [tb_inv], returns (no [BUG_ON] fires, no NULL
    pointer is followed, no array is left) in a state of [tb_inv]. *)

From S2P Require Import Prelude Keeps CInt Kernel DiskSim IoBatch HashTable CauseTags Tags Queue IoctlHelper.
From S2P Require Import TBucket TBucketTokens TBucketInv TBucketFrame TBucketCharge.

Section Safe.
Context {K : KernelFns} {KO : KernelOk K}.

(** ** Charging *)

Lemma add_estimate_shape a x : same_shape a (a <| estimate := x |>).
Proof. by split_and!. Qed.

Lemma keeps_charge_estimate full account_id (f : Z -> Z) :
  keeps (room full)
    (let! p := get_account account_id in
     upd_acct p (fun a => a <| estimate ::= f |>);;
     upd_acct p saturate_counts)
    (fun _ => room full).
Proof.
  eapply keeps_bind; [apply keeps_get_account |]. intros p.
  eapply keeps_bind; [apply keeps_upd_shape; intros ?; by split_and! |]. intros ?.
  eapply keeps_conseq; [apply keeps_upd_shape; intros ?; apply saturate_same_shape | | ].
  - intros s H. exact H.
  - intros ? s [H _]. exact H.
Qed.

Lemma keeps_account_for_causes causes off size :
  off_ok off ->
  keeps (fun s => room false s /\ has_causes causes s) (account_for_causes causes off size)
        (fun _ => room false).
Proof.
  intros Ho. unfold account_for_causes. eapply keeps_bind; [apply keeps_read_causes |]. intros c.
  eapply keeps_bind; [| intros ?; by apply keeps_disk_accounting].
  eapply (keeps_conseq _ (fun s => room false s /\ has_causes causes s)
    _ _ (fun _ s => room false s /\ has_causes causes s)); [| tauto | done].
  apply (keeps_carry (has_causes causes)); [intros; by eapply has_causes_frame |].
  destruct (callback_q c).
  - apply keeps_write_causes; [by intros ? [] | done].
  - destruct (item_count c >? 0); [| by apply keeps_ret].
    eapply keeps_bind; [apply keeps_write_causes; [by intros ? [] | done] |]. intros ?.
    apply keeps_for_each. intros id _. apply keeps_charge_estimate.
Qed.

(** The causes of a request are allocated. *)
Definition rq_ready (r : request) (s : tb) : Prop := request_ok (kern s) r.
Lemma rq_ready_frame r s s' : frame s s' -> rq_ready r s -> rq_ready r s'.
Proof. intros F H. eapply request_ok_dom; [exact H |]. apply (co_causes _ _ (fr_core _ _ F)). Qed.

(** The cause lists of a bio are allocated. *)
Definition cll_ready (l : cause_list_list) (s : tb) : Prop :=
  forall i, 0 <= i < cll_item_count l ->
    exists p, cll_items l !! Z.to_nat i = Some (Some p) /\ has_causes p s.
Lemma cll_ready_frame l s s' : frame s s' -> cll_ready l s -> cll_ready l s'.
Proof.
  intros F H i Hi. destruct (H i Hi) as (p & Hp & Hc). exists p. split; [done |].
  by eapply has_causes_frame.
Qed.

Lemma keeps_item l off i :
  0 <= i < cll_item_count l -> 0 <= off < 0x3000000000000000 ->
  keeps (fun s => room false s /\ cll_ready l s) (account_for_item l off i)
        (fun off' s => (room false s /\ cll_ready l s) /\ off <= off' <= off + MAX_IO).
Proof.
  intros Hi Ho s0 Hi0 Hs0. destruct (proj2 Hs0 i Hi) as (p & Hp & Hc).
  unfold account_for_item, array_get. rewrite decide_True, Hp by lia.
  rewrite (bind_ok _ _ s0 (Some p) s0) by done. cbn beta.
  rewrite (bind_ok _ _ s0 p s0) by done.
  match goal with |- exists a s', ?m s0 = _ /\ _ =>
    enough (Hm : keeps (fun s => (room false s /\ cll_ready l s) /\ has_causes p s) m
      (fun off' s => (room false s /\ cll_ready l s) /\ off <= off' <= off + MAX_IO))
      by (by apply Hm) end.
  eapply keeps_bind; [apply keeps_read_causes |]. intros c.
  eapply keeps_bind.
  { eapply (keeps_conseq _ (fun s => (room false s /\ has_causes p s) /\
      (cll_ready l s /\ has_causes p s)) _ _
      (fun _ s => room false s /\ (cll_ready l s /\ has_causes p s))); [| tauto | intros ? s H; exact H].
    apply (keeps_carry (fun s => cll_ready l s /\ has_causes p s)).
    - intros s s' F [H1 H2]. split; [by eapply cll_ready_frame | by eapply has_causes_frame].
    - apply keeps_account_for_causes. unfold off_ok. lia. }
  intros ?. eapply keeps_bind.
  { eapply keeps_conseq; [apply (keeps_read_causes (fun s => room false s /\ cll_ready l s)) | |].
    - simpl. tauto.
    - intros ? s H. exact H. }
  intros c'. apply keeps_ret. simpl. intros s (([H1 H2] & _) & _ & Hsz).
  split; [done |]. unfold MAX_IO in *. rewrite s64_small by (unfold is_s64; lia). lia.
Qed.

Lemma keeps_items l off :
  0 <= cll_item_count l <= 0x40000000 -> 0 <= off < 0x800000000000000 ->
  keeps (fun s => room false s /\ cll_ready l s)
    (for_acc (seqZ 0 (cll_item_count l)) off (account_for_item l);; ret tt)
    (fun _ => room false).
Proof.
  intros Hn Ho. eapply keeps_bind.
  { eapply (keeps_conseq _ (fun s => (room false s /\ cll_ready l s) /\ 0 <= off <= off + 0 * MAX_IO)).
    - apply (keeps_for_acc_at (seqZ 0 (cll_item_count l)) off (account_for_item l)
        (fun i off' s => (room false s /\ cll_ready l s) /\ 0 <= off' <= off + Z.of_nat i * MAX_IO)).
      intros i off' x Hx. apply lookup_seqZ in Hx as [-> Hx]. apply keeps_pure. intros Hoff'.
      eapply keeps_conseq; [apply keeps_item; unfold MAX_IO in *; lia | done |].
      simpl. intros off'' s [H1 H2]. split; [done |]. lia.
    - intros s Hs. split; [done | lia].
    - intros off' s H. exact H. }
  intros off'. apply keeps_ret. simpl. tauto.
Qed.

Lemma keeps_bio_tagged P b :
  (forall s, P s -> bio_ok (kern s) b) -> keeps P (bio_tagged b) (fun _ => P).
Proof.
  intros HP s Hi Hs. unfold bio_tagged. pose proof (bo_cll _ _ (HP s Hs)) as Hb.
  destruct (bi_cll b) as [l|]; [| by apply (keeps_ret P false (fun _ => P))].
  destruct (Hb l eq_refl) as ((u & Hu & [cu Hcu]) & _). rewrite Hu.
  unfold deref. rewrite (bind_ok _ _ s u s) by done.
  rewrite (bind_ok _ _ s cu s) by (unfold in_kern, zoom, read_causes; rewrite Hcu; by destruct s).
  by apply (keeps_ret P _ (fun _ => P)).
Qed.

Lemma keeps_account_for_bio r b :
  b ∈ rq_bio r ->
  keeps (fun s => room false s /\ rq_ready r s) (account_for_bio r b)
        (fun _ s => room false s /\ rq_ready r s).
Proof.
  intros Hin. apply (keeps_conseq _ (fun s => (room false s /\ rq_ready r s) /\ rq_ready r s) _ _
    (fun _ s => room false s /\ rq_ready r s)); [| tauto | done].
  apply (keeps_carry (rq_ready r)); [intros; by eapply rq_ready_frame |].
  assert (Hbo : forall s, rq_ready r s -> bio_ok (kern s) b).
  { intros s H. eapply list.Forall_forall; [apply (ro_bios _ _ H) | done]. }
  unfold account_for_bio. eapply keeps_bind; [apply keeps_bio_tagged |].
  { intros s [_ H]. by apply Hbo. }
  intros tagged. eapply keeps_bind; [| intros ?; destruct (_ =? _); apply keeps_stats].
  intros s Hi [Hr Hq]. pose proof (bo_sector _ _ (Hbo s Hq)) as Hsec.
  rewrite s64_u64, s64_small by (unfold is_s64; lia).
  assert (Hrq : exists a s', (match RQ_CAUSES r with
      | Some causes => account_for_causes causes (bi_sector b * 512) (bi_size b)
      | None => ret tt end) s = Ok (a, s') /\ tb_inv0 s' /\ frame s s' /\ room false s').
  { pose proof (ro_causes _ _ Hq) as Hc. simpl in Hc. destruct (RQ_CAUSES r) as [p|].
    - apply (keeps_account_for_causes p); [unfold off_ok; lia | done | split; [done | by apply Hc]].
    - by apply (keeps_ret (room false) tt (fun _ => room false)). }
  destruct (bi_cll b) as [l|] eqn:El; [destruct tagged |]; [|apply Hrq|apply Hrq].
  destruct (bo_cll _ _ (Hbo s Hq) l El) as (_ & Hn & _ & Hm).
  apply keeps_items; [lia | lia | done |]. by split.
Qed.

Lemma keeps_account_for_req r :
  keeps (fun s => room false s /\ rq_ready r s) (account_for_req r)
        (fun _ s => room false s /\ rq_ready r s).
Proof. apply keeps_for_each. intros b Hb. by apply keeps_account_for_bio. Qed.

(** ** Hooks and settings *)

Lemma keeps_inodes full (f : gmap ptr Z -> gmap ptr Z) :
  keeps (room full) (modify (fun s => s <| inodes ::= f |>)) (fun _ => room full).
Proof.
  intros s [Ht He Hq] Hr. eexists _, _. split; [done |]. split_and!; [by split | | done].
  split; auto. split; simpl; auto; [by exists []; rewrite app_nil_r | eauto 6 |].
  intros p a Ha Hn. simpl in *. congruence.
Qed.

Lemma keeps_acct (P : tb -> Prop) line p :
  keeps (fun s => P s /\ has_acct p s) (acct line p) (fun _ s => P s /\ has_acct p s).
Proof.
  intros s Hi [HP [a Ha]]. exists a, s. split; [by apply acct_run |].
  split_and!; auto; [reflexivity | by eexists].
Qed.

(** A change of the numbers of an account, and its saturation. *)
Lemma keeps_upd_saturate full p f :
  (forall a, same_shape a (f a)) ->
  keeps (fun s => room full s /\ has_acct p s) (upd_acct p f;; upd_acct p saturate_counts)
        (fun _ => room full).
Proof.
  intros Hf. eapply keeps_bind; [by apply keeps_upd_shape |]. intros ?.
  eapply keeps_conseq; [apply keeps_upd_shape; intros ?; apply saturate_same_shape | intros s H; exact H |].
  simpl. tauto.
Qed.

Lemma keeps_kv_set id key val :
  keeps (room false) (tbucket_kv_set id key val) (fun _ => room false).
Proof.
  unfold tbucket_kv_set. destruct (String.eqb key "debug"); [by apply keeps_ret |].
  destruct (id =? 0); [by apply keeps_ret |].
  eapply keeps_bind; [apply keeps_get_account |]. intros p.
  eapply keeps_bind; [apply keeps_acct |]. intros a.
  destruct (acct_id a =? id); [| apply keeps_ret; simpl; tauto].
  repeat (destruct (String.eqb key _); [apply keeps_upd_saturate; intros ?; by split_and! |]).
  apply keeps_ret. simpl. tauto.
Qed.

Lemma keeps_causes_dirty causes new_id inode pos ipos :
  keeps (fun s => room false s /\ has_causes causes s /\ inodes s !! inode = Some ipos)
        (tbucket_causes_dirty causes new_id inode pos) (fun _ => room false).
Proof.
  unfold tbucket_causes_dirty. intros s Hi (Hr & [c Hc] & Hino).
  rewrite (bind_ok _ _ s c s) by (unfold in_kern, zoom, read_causes; rewrite Hc; by destruct s).
  rewrite (bind_ok _ _ s s s) by done. cbv beta. rewrite Hino. unfold deref.
  rewrite (bind_ok _ _ s ipos s) by done.
  match goal with |- exists a s', ?m s = _ /\ _ =>
    enough (Hm : keeps (room false) m (fun _ => room false)) by (by apply Hm) end.
  eapply (keeps_bind _ _ _ (fun _ => room false)).
  { destruct (_ <=? 0); [| by apply keeps_ret].
    eapply keeps_bind; [apply keeps_write_causes; [by intros ? [] | done] |].
    intros ?. by apply keeps_ret. }
  intros tot. eapply keeps_bind; [apply keeps_inodes |]. intros ?.
  apply keeps_for_each. intros id _.
  eapply keeps_bind; [apply keeps_get_account |]. intros p.
  eapply keeps_bind; [apply keeps_acct |]. intros b.
  apply keeps_upd_saturate. intros ?. by split_and!.
Qed.

Lemma keeps_causes_free causes :
  keeps (fun s => room false s /\ has_causes causes s) (tbucket_causes_free causes)
        (fun _ => room false).
Proof.
  unfold tbucket_causes_free. eapply keeps_bind; [apply keeps_read_causes |]. intros c.
  eapply keeps_conseq; [| intros s H; exact (proj1 (proj1 H)) | intros ? s H; exact H].
  apply keeps_for_each. intros id _. apply keeps_charge_estimate.
Qed.

Lemma keeps_clock {A} (m : ST world A) (P : tb -> Prop) :
  (forall w, exists a w', m w = Ok (a, w')) ->
  (forall s w', P s -> P (s <| kern ::= fun k => k <| k_world := w' |> |>)) ->
  keeps P (in_clock m) (fun _ => P).
Proof.
  intros Hm HP s Hi Hs. destruct (Hm (k_world (kern s))) as (a & w' & E).
  exists a. eexists. split; [by apply in_clock_run |].
  split_and!; [by apply inv0_world | by apply frame_kern | by apply HP].
Qed.

Lemma keeps_refresh full p :
  keeps (fun s => room full s /\ has_acct p s) (refresh_count p)
        (fun _ s => room full s /\ has_acct p s).
Proof.
  unfold refresh_count. eapply keeps_bind; [apply keeps_clock; [intros w; by eexists _, _ | intros s w' H; exact H] |].
  intros now. eapply keeps_bind; [apply keeps_acct |]. intros a.
  pose proof (refresh_inc_nonneg a now) as Hnn. unfold bug_on.
  destruct (Z.ltb_spec (refresh_inc a now) 0); [lia |].
  eapply (keeps_bind _ _ _ (fun _ s => room full s /\ has_acct p s)); [by apply keeps_ret |].
  intros ?. destruct (_ >? 0); [| by apply keeps_ret].
  apply keeps_upd_shape. intros b.
  match goal with |- context [saturate_counts ?x] =>
    pose proof (saturate_same_shape x) as (E1 & E2 & E3 & E4 & E5) end.
  by split_and!.
Qed.

Lemma keeps_maybe_sleep cur uniq : keeps (room false) (maybe_sleep cur uniq) (fun _ => room false).
Proof.
  unfold maybe_sleep. eapply keeps_bind; [apply keeps_clock; [intros w; by eexists _, _ | intros s w' H; exact H] |].
  intros ts. eapply (keeps_bind _ _ _ (fun _ => room false)); [by apply keeps_gets |]. intros s.
  destruct (negb _); [by apply keeps_ret |]. destruct (negb _); [by apply keeps_ret |].
  eapply keeps_bind; [apply keeps_get_account |]. intros p.
  eapply keeps_bind; [apply keeps_refresh |]. intros ?.
  eapply keeps_bind; [apply keeps_acct |]. intros b.
  destruct (_ && _); apply keeps_ret; simpl; tauto.
Qed.

End Safe.
