(* ===== verification/TBucketDispatch.v ===== *)
(** * Token-bucket scheduler: dispatching

    Dispatching moves requests from the fronts of the queues to the dispatch list
    of the device, and does nothing else to requests: none is lost, none is
    dispatched twice, each queue is served in its order. *)

From S2P Require Import Prelude Keeps CInt Kernel DiskSim IoBatch HashTable CauseTags Tags Queue IoctlHelper.
From S2P Require Import TBucket TBucketTokens TBucketInv TBucketFrame TBucketCharge TBucketSafe.

(** [takes q l s s']: [l] was taken from the front of the queue [q]; the other
    queues are as they were, and accounts may have joined. *)
Record takes (q : qref) (l : list ptr) (s s' : tb) : Prop := {
  tk_rqs : rqs s' = rqs s;
  tk_uniq : q_sched_uniq s' = q_sched_uniq s;
  tk_live : q_live s' = q_live s;
  tk_queue : qreqs s q = l ++ qreqs s' q;
  tk_other : forall q', q' <> q -> qreqs s' q' = qreqs s q';
  tk_ring : exists n, Permutation (queues (td s')) (queues (td s) ++ n);
  tk_accts : forall p, has_acct p s -> has_acct p s';
  tk_causes : forall p, has_causes p s -> has_causes p s';
}.

Lemma core_takes q s s' : core s s' -> takes q [] s s'.
Proof.
  intros C. destruct (C) as [H1 H2 H3 [n H4] H5 H6 H7]. split; auto.
  - symmetry. by apply core_qreqs.
  - intros. by apply core_qreqs.
  - exists n. by rewrite H4.
  - intros p [a Ha]. destruct (H5 p a Ha) as (a' & Ha' & _). by eexists.
Qed.

Lemma takes_trans q l1 l2 s1 s2 s3 :
  takes q l1 s1 s2 -> takes q l2 s2 s3 -> takes q (l1 ++ l2) s1 s3.
Proof.
  intros [A1 A2 A3 A4 A5 [n A6] A7 A8] [B1 B2 B3 B4 B5 [m B6] B7 B8]. split; try congruence; auto.
  - by rewrite A4, B4, app_assoc.
  - intros q' Hq'. by rewrite B5, A5.
  - exists (n ++ m). by rewrite B6, A6, app_assoc.
Qed.

(** Fields that neither the invariant nor the queues depend on. *)
Record misc (s s' : tb) : Prop := {
  mi_heap : td_heap (td s') = td_heap (td s);
  mi_hash : accounts_hash (td s') = accounts_hash (td s);
  mi_accounts : accounts (td s') = accounts (td s);
  mi_queues : queues (td s') = queues (td s);
  mi_count : queues_count (td s') = queues_count (td s);
  mi_batch : td_batch (td s') = td_batch (td s);
  mi_causes : same_causes (kern s) (kern s');
  mi_rqs : rqs s' = rqs s;
  mi_uniq : q_sched_uniq s' = q_sched_uniq s;
  mi_live : q_live s' = q_live s;
}.

Ltac misc := split; (reflexivity || by split).

#[export] Instance misc_preorder : PreOrder misc.
Proof.
  split; [intros s; misc |].
  intros s1 s2 s3 [A1 A2 A3 A4 A5 A6 [A7 A7'] A8 A9 A10] [B1 B2 B3 B4 B5 B6 [B7 B7'] B8 B9 B10].
  split; try congruence. split; congruence.
Qed.

(** [quiet m]: [m] returns and changes statistics and the reading of the clock
    only. *)
Definition quiet {A} (m : ST tb A) : Prop := forall s, exists a s', m s = Ok (a, s') /\
  misc s s' /\ dispatch_list s' = dispatch_list s /\
  run_serve_size (td s') = run_serve_size (td s) /\
  dispatch_nudger (td s') = dispatch_nudger (td s).

Lemma quiet_bind {A B} (m : ST tb A) (f : A -> ST tb B) :
  quiet m -> (forall a, quiet (f a)) -> quiet (bind m f).
Proof.
  intros Hm Hf s. destruct (Hm s) as (a & s1 & E1 & M1 & L1 & R1 & N1).
  destruct (Hf a s1) as (b & s2 & E2 & M2 & L2 & R2 & N2).
  exists b, s2. rewrite (bind_ok _ _ _ _ _ E1).
  split_and!; auto; [by transitivity s1 | | |]; congruence.
Qed.
Lemma quiet_ret {A} (a : A) : quiet (ret a).
Proof. intros s. exists a, s. split_and!; auto. reflexivity. Qed.
Lemma quiet_gets {A} (f : tb -> A) : quiet (gets f).
Proof. intros s. exists (f s), s. split_and!; auto. reflexivity. Qed.
Lemma quiet_stats f : quiet (upd_stats f).
Proof. intros s. eexists _, _. split; [done |]. split_and!; auto. misc. Qed.
Lemma quiet_time : quiet (in_clock getnstimeofday).
Proof. intros s. eexists _, _. split; [done |]. split_and!; auto. misc. Qed.
Lemma quiet_jiffies : quiet (in_clock read_jiffies).
Proof. intros s. eexists _, _. split; [done |]. split_and!; auto. misc. Qed.
Lemma quiet_if {A} (b : bool) (m1 m2 : ST tb A) : quiet m1 -> quiet m2 -> quiet (if b then m1 else m2).
Proof. by destruct b. Qed.
#[export] Hint Resolve quiet_bind quiet_ret quiet_gets quiet_stats quiet_time quiet_jiffies
  quiet_if : split.

Section Dispatch.
Context {K : KernelFns} {KO : KernelOk K}.

Lemma misc_inv s s' : misc s s' -> tb_inv s -> tb_inv s' /\ core s s'.
Proof.
  intros [H1 H2 H3 H4 H5 H6 H7 H8 H9 H10] [[Ht He Hq] [Hr1 Hr2]].
  assert (Hc : forall p, is_Some (k_causes (kern s) !! p) -> is_Some (k_causes (kern s') !! p))
    by (by destruct H7 as [-> _]).
  split; [split; [split |] |].
  - destruct Ht as [T1 T2 T3 T4 T5 T6 T7 T8 T9].
    split; rewrite ?H1, ?H2, ?H3, ?H4, ?H5, ?H6; auto.
    eapply ht_wf_ext; [|exact T2]. intros n. unfold id_of. by rewrite H1.
  - rewrite H8. by eapply env_wf_same.
  - intros p a w rq. rewrite H1, H8. apply Hq.
  - unfold roomy. by rewrite H1, H6.
  - split; auto; rewrite ?H1; [exists []; by rewrite H4, app_nil_r | eauto 6 |].
    intros p a Ha Hn. congruence.
Qed.

Lemma keeps_inv {A} (m : ST tb A) P Q s :
  keeps P m Q -> (forall s', roomy (td s') -> tb_inv0 s' -> s' = s -> P s') ->
  (forall a s', Q a s' -> room false s') -> tb_inv s ->
  exists a s', m s = Ok (a, s') /\ tb_inv s' /\ frame s s' /\ Q a s'.
Proof.
  intros Hm HP HQ [Hi Hr]. destruct (Hm s Hi) as (a & s' & E & Hi' & F & H); [by apply HP |].
  exists a, s'. split_and!; auto. split; [done |]. by apply (HQ a s' H).
Qed.

(** A request is charged for and handed to the device. *)
Lemma dispatch_sort_run s q rq r :
  tb_inv s -> rqs s !! rq = Some r ->
  exists s', dispatch_sort q rq s = Ok (tt, s') /\ tb_inv s' /\ core s s' /\
    Permutation (dispatch_list s') (rq :: dispatch_list s) /\
    run_serve_size (td s') = s64 (run_serve_size (td s) + blk_rq_bytes r).
Proof.
  intros Hi Hrq. unfold dispatch_sort, get_rq. unfold bind at 1. rewrite Hrq.
  destruct (keeps_inv _ _ _ s (keeps_account_for_req r)) as (u & s1 & E1 & Hi1 & [C1 L1 R1 _ _] & _).
  { intros s' Hr Hi0 ->. split; [by intros _ |]. apply (ew_rqs _ _ (inv_env _ Hi0) rq r Hrq). }
  { simpl. tauto. }
  { done. }
  rewrite (bind_ok _ _ _ _ _ E1). clear E1.
  erewrite (bind_ok (upd_td _)) by done. erewrite (bind_ok (modify _)) by done.
  erewrite (bind_ok (upd_td _)) by done.
  match goal with |- exists s', ?m ?x = _ /\ _ => set (s2 := x); assert (Hq : quiet m) by eauto 10 with split end.
  destruct (Hq s2) as ([] & s' & E & Hm & Hl & Hrun & _).
  assert (M2 : misc s1 s2) by misc.
  destruct (misc_inv s1 s') as [Hi' C']; [by transitivity s2 | done |].
  exists s'. split_and!; auto.
  - by transitivity s1.
  - rewrite Hl. simpl. by rewrite elv_dispatch_sort_perm, L1.
  - rewrite Hrun. simpl. by rewrite R1.
Qed.

Lemma set_queue_other q q' v a :
  q' <> q -> queue_to_account q' = queue_to_account q ->
  queue_of q' (set_queue q v a) = queue_of q' a.
Proof.
  destruct q as [p w], q' as [p' w']. unfold queue_of, set_queue, queue_to_account. simpl.
  intros Hne ->. destruct w, w'; done.
Qed.

Lemma set_queue_same q v a : queue_of q (set_queue q v a) = v.
Proof. unfold queue_of, set_queue. by destruct (snd q). Qed.

Lemma set_queue_id q a : set_queue q (queue_of q a) a = a.
Proof. unfold set_queue, queue_of. destruct (snd q); by destruct a. Qed.

Lemma set_queue_frame q v a :
  acct_id (set_queue q v a) = acct_id a /\ batch (set_queue q v a) = batch a /\
  rate (set_queue q v a) = rate a /\ count (set_queue q v a) = count a /\
  insane (set_queue q v a) = insane a.
Proof. unfold set_queue. by destruct (snd q). Qed.

Lemma queue_of_wf q a : acct_wf a ->
  queue_wf (queue_of q a) /\ q_rw (queue_of q a) = (if snd q then 1 else 0).
Proof. intros []. unfold queue_of. by destruct (snd q). Qed.

Lemma set_queue_wf q v a :
  acct_wf a -> queue_wf v -> q_rw v = q_rw (queue_of q a) -> acct_wf (set_queue q v a).
Proof.
  intros [H1 H2 H3 H4 H5 H6] Hv Hrw. unfold set_queue, queue_of in *.
  destruct (snd q); split; simpl; auto; congruence.
Qed.

(** Replacing one queue of an account. *)
Lemma qreqs_put s q q' v a :
  td_heap (td s) !! queue_to_account q = Some a ->
  qreqs (put_acct (queue_to_account q) (set_queue q v a) s) q' =
  if decide (q' = q) then q_reqs v else qreqs s q'.
Proof.
  intros Ha. unfold qreqs. destruct (decide (q' = q)) as [->|Hne].
  - erewrite put_acct_lookup by exact Ha. by rewrite set_queue_same.
  - destruct (decide (queue_to_account q' = queue_to_account q)) as [E|E].
    + rewrite E. erewrite put_acct_lookup by exact Ha. by rewrite Ha, set_queue_other.
    + rewrite put_acct_lookup_ne by congruence. done.
Qed.

Lemma pop_queue_run s q a :
  tb_inv s -> td_heap (td s) !! queue_to_account q = Some a ->
  exists o s', pop_queue q s = Ok (o, s') /\ tb_inv s' /\
    takes q (match o with Some rq => [rq] | None => [] end) s s' /\
    dispatch_list s' = dispatch_list s /\ run_serve_size (td s') = run_serve_size (td s) /\
    match o with
    | Some rq => exists r, rqs s !! rq = Some r /\ RQ_QUEUE r = Some q
    | None => qreqs s q = [] /\ misc s s'
    end.
Proof.
  intros [Hi Hr] Ha. unfold pop_queue. rewrite (bind_ok _ _ _ _ _ (acct_run _ _ _ _ Ha)).
  destruct (queue_pop_run (queue_of q a) (k_world (kern s)))
    as (o & v & w' & E & _ & _ & _ & _ & Hrw & Ho).
  rewrite (bind_ok _ _ _ _ _ (in_clock_run _ _ _ _ E)). clear E.
  set (s1 := s <| kern ::= fun k => k <| k_world := w' |> |>).
  assert (Hi1 : tb_inv0 s1) by (by apply inv0_world).
  assert (F1 : frame s s1) by (by apply frame_kern).
  assert (Ha1 : td_heap (td s1) !! queue_to_account q = Some a) by done.
  rewrite (bind_ok _ _ _ _ _ (upd_acct_run _ _ _ _ Ha1)).
  pose proof (acct_wf_at _ _ _ Hi1 Ha1) as Hw. destruct (queue_of_wf q a Hw) as [Hqw Hqrw].
  exists o, (put_acct (queue_to_account q) (set_queue q v a) s1). split; [done |].
  destruct (set_queue_frame q v a) as (G1 & G2 & _).
  assert (Hsub : forall rq, rq ∈ q_reqs v -> rq ∈ q_reqs (queue_of q a)).
  { intros rq Hrq. destruct o; [destruct Ho as [-> _]; by right | by destruct Ho as [_ ->]]. }
  assert (Hv : queue_wf v) by (destruct o; [destruct Ho as [_ Ho]; auto | by destruct Ho as [_ ->]]).
  assert (Hi2 : tb_inv0 (put_acct (queue_to_account q) (set_queue q v a) s1)).
  { apply (inv0_put s1 _ a); auto; [by apply set_queue_wf |].
    intros w rq. destruct (decide ((queue_to_account q, w) = q)) as [->|Hne].
    - rewrite set_queue_same. apply Hsub.
    - by rewrite set_queue_other. }
  split; [split; [done |]; destruct Hr as [? Hr2]; apply roomy_put; [done |];
          rewrite G2; by eapply Forall_lookup_1 in Hr2; [|exact Ha] |].
  assert (Hq1 : forall q', qreqs s1 q' = qreqs s q') by (intros; by apply core_qreqs, F1).
  split; [|split; [done | split; [done |]]].
  - split; auto.
    + rewrite qreqs_put, decide_True by done. rewrite (qreqs_at _ _ _ Ha).
      destruct o; [by destruct Ho as [-> _] | destruct Ho as [Eq ->]; by rewrite Eq].
    + intros q' Hne. by rewrite qreqs_put, decide_False by done.
    + exists []. by rewrite app_nil_r.
    + intros p [b Hb]. destruct (decide (queue_to_account q = p)) as [<-|Hne].
      * eexists. by eapply put_acct_lookup.
      * exists b. by rewrite put_acct_lookup_ne.
  - destruct o as [rq|].
    + destruct Ho as [Ho _]. destruct q as [p w]. apply (inv_queued _ Hi p a w rq Ha). rewrite Ho. left.
    + destruct Ho as [Ho ->]. split; [by rewrite (qreqs_at _ _ _ Ha) |].
      rewrite set_queue_id, put_acct_id by done. misc.
Qed.

(** ** Draining *)

Lemma ring_acct s q : tb_inv0 s -> q ∈ queues (td s) <-> has_acct (queue_to_account q) s.
Proof.
  intros [Ht _ _]. rewrite (tw_queues _ Ht). unfold all_queues, has_acct, queue_to_account.
  rewrite lookup_lt_is_Some, list_elem_of_In, in_flat_map. destruct q as [p w]. simpl. split.
  - intros (x & Hx%in_seq & [[= <- <-]|[[= <- <-]|[]]]); lia.
  - intros Hp. exists p. rewrite in_seq. destruct w; simpl; split; auto; lia.
Qed.

Lemma ring_nodup s : tb_inv0 s -> NoDup (queues (td s)).
Proof.
  intros [Ht _ _]. rewrite (tw_queues _ Ht). unfold all_queues.
  induction (length (td_heap (td s))) as [|n IH]; [constructor |].
  rewrite seq_S, flat_map_app. apply list.NoDup_app. split; [done |]. split.
  - intros [p w] Hin. rewrite list_elem_of_In, in_flat_map in Hin.
    destruct Hin as (x & Hx%in_seq & Hp). simpl in *. rewrite !elem_of_cons, elem_of_nil.
    destruct Hp as [[= <- <-]|[[= <- <-]|[]]]; intros [[= E]|[[= E]|[]]]; lia.
  - simpl. apply list.NoDup_cons. split; [by intros [=]%list_elem_of_singleton | apply NoDup_singleton].
Qed.

Lemma drain_queue_run fuel s q rv :
  tb_inv s -> has_acct (queue_to_account q) s -> (length (qreqs s q) < fuel)%nat -> is_s32 rv ->
  exists s', drain_queue fuel q rv s = Ok (s32 (rv + Z.of_nat (length (qreqs s q))), s') /\
    tb_inv s' /\ takes q (qreqs s q) s s' /\
    Permutation (dispatch_list s') (qreqs s q ++ dispatch_list s).
Proof.
  revert s rv. induction fuel as [|fuel IH]; intros s rv Hi Hp Hf Hrv; [lia |].
  destruct Hp as [a Ha]. cbn [drain_queue].
  destruct (pop_queue_run s q a Hi Ha) as (o & s1 & E1 & Hi1 & T1 & L1 & _ & Ho).
  rewrite (bind_ok _ _ _ _ _ E1). destruct o as [rq|].
  - destruct Ho as (r & Hrq & _).
    destruct (dispatch_sort_run s1 q rq r Hi1) as (s2 & E2 & Hi2 & C2 & L2 & _).
    { by rewrite (tk_rqs _ _ _ _ T1). }
    rewrite (bind_ok _ _ _ _ _ E2). pose proof (tk_queue _ _ _ _ T1) as Hq1. simpl in Hq1.
    pose proof (core_qreqs _ _ q C2) as Hq2.
    assert (T2 : takes q [rq] s s2) by (apply (takes_trans q [rq] [] s s1); [done | by apply core_takes]).
    destruct (IH s2 (s32 (rv + 1)) Hi2) as (s3 & E3 & Hi3 & T3 & L3).
    { apply T2. by eexists. } { rewrite Hq2. rewrite Hq1 in Hf. simpl in Hf. lia. } { apply s32_range. }
    exists s3. rewrite E3, Hq1, Hq2 in *. split_and!.
    + rewrite s32_add_l. do 3 f_equal. simpl length. lia.
    + done.
    + by apply (takes_trans q [rq] _ s s2).
    + rewrite L3, L2, L1. simpl. by rewrite Permutation_middle.
  - destruct Ho as [Ho _]. exists s1. rewrite Ho, Z.add_0_r, s32_small in * by done. split_and!; auto.
    by rewrite L1.
Qed.

(** The requests that wait in any queue. *)
Definition waiting (s : tb) : list ptr := flat_map (qreqs s) (queues (td s)).

(** The loop of the forced dispatch: [done] are the queues of [s0] visited so
    far, [rest] those to come. *)
Lemma force_loop_run s0 rest done s1 rv :
  tb_inv s0 -> queues (td s0) = done ++ rest -> tb_inv s1 -> is_s32 rv ->
  rqs s1 = rqs s0 -> (forall p, has_acct p s0 -> has_acct p s1) ->
  (forall q, q ∈ done -> qreqs s1 q = []) -> (forall q, q ∉ done -> qreqs s1 q = qreqs s0 q) ->
  exists s', for_acc rest rv (fun rv q =>
      let! a := acct 556 (queue_to_account q) in
      drain_queue (S (length (q_reqs (queue_of q a)))) q rv) s1
    = Ok (s32 (rv + Z.of_nat (length (flat_map (qreqs s0) rest))), s') /\
    tb_inv s' /\ rqs s' = rqs s0 /\
    Permutation (dispatch_list s') (flat_map (qreqs s0) rest ++ dispatch_list s1) /\
    (forall q, q ∈ queues (td s0) -> qreqs s' q = []) /\
    (forall q, q ∉ queues (td s0) -> qreqs s' q = qreqs s0 q).
Proof.
  intros Hi. revert done s1 rv.
  induction rest as [|q rest IH]; intros done s1 rv Hd Hi1 Hrv Hrq Hac He Hs.
  { rewrite app_nil_r in Hd. exists s1. simpl. rewrite Z.add_0_r, s32_small by done.
    rewrite Hd. split_and!; auto. }
  assert (Hnd : q ∉ done).
  { intros Hin. pose proof (ring_nodup s0 (proj1 Hi)) as Hn. rewrite Hd in Hn.
    apply list.NoDup_app in Hn as (_ & Hn & _). apply (Hn q Hin). left. }
  destruct (Hac (queue_to_account q)) as [a Ha].
  { apply ring_acct; [apply Hi |]. rewrite Hd. apply elem_of_app. right. left. }
  cbn [for_acc]. unfold bind at 1. rewrite (bind_ok _ _ _ _ _ (acct_run _ _ _ _ Ha)).
  destruct (drain_queue_run (S (length (q_reqs (queue_of q a)))) s1 q rv Hi1)
    as (s2 & E2 & Hi2 & T2 & L2); [by eexists | rewrite (qreqs_at _ _ _ Ha); lia | done |].
  rewrite E2. pose proof (tk_queue _ _ _ _ T2) as HT. rewrite (Hs q Hnd) in *.
  assert (Hemp : qreqs s2 q = []).
  { rewrite <- (app_nil_r (qreqs s0 q)) in HT at 1. by apply app_inv_head in HT. }
  destruct (IH (done ++ [q]) s2 (s32 (rv + Z.of_nat (length (qreqs s0 q)))))
    as (s3 & E3 & Hi3 & Hr3 & L3 & Q3); auto using s32_range.
  - by rewrite <- app_assoc.
  - by rewrite (tk_rqs _ _ _ _ T2).
  - intros p Hp. apply T2, Hac, Hp.
  - intros q' [Hin| ->%list_elem_of_singleton]%elem_of_app; [|done].
    rewrite (tk_other _ _ _ _ T2); [by apply He |]. by intros ->.
  - intros q' Hn. rewrite elem_of_app, list_elem_of_singleton in Hn.
    rewrite (tk_other _ _ _ _ T2) by tauto. apply Hs. tauto.
  - exists s3. rewrite E3. split_and!; try tauto.
    + rewrite s32_add_l. simpl. rewrite length_app. do 3 f_equal. lia.
    + rewrite L3, L2. simpl. rewrite !app_assoc. by rewrite (Permutation_app_comm _ (qreqs s0 q)).
Qed.

Lemma not_in_ring s q : tb_inv0 s -> q ∉ queues (td s) -> qreqs s q = [].
Proof.
  intros Hi Hin. unfold qreqs. rewrite ring_acct in Hin by done.
  destruct (td_heap (td s) !! queue_to_account q) eqn:Ea; [|done]. destruct Hin. by eexists.
Qed.

Lemma waiting_nil s : tb_inv0 s -> (waiting s = [] <-> forall q, qreqs s q = []).
Proof.
  intros Hi. unfold waiting. split.
  - intros H q. destruct (decide (q ∈ queues (td s))) as [Hin|Hin]; [|by apply not_in_ring].
    apply list_elem_of_In in Hin. destruct (qreqs s q) as [|x l] eqn:E; [done |].
    assert (Hx : In x (flat_map (qreqs s) (queues (td s)))).
    { apply in_flat_map. exists q. rewrite E. simpl. auto. }
    by rewrite H in Hx.
  - intros H. induction (queues (td s)) as [|q l IH]; simpl; [done |]. by rewrite H.
Qed.

Lemma dispatch_force_run s :
  tb_inv s ->
  exists s', tbucket_dispatch true s = Ok (s32 (Z.of_nat (length (waiting s))), s') /\
    tb_inv s' /\ rqs s' = rqs s /\
    Permutation (dispatch_list s') (waiting s ++ dispatch_list s) /\ forall q, qreqs s' q = [].
Proof.
  intros Hi. unfold tbucket_dispatch, tbucket_dispatch_force.
  rewrite (bind_ok _ _ s (queues (td s)) s) by done.
  destruct (force_loop_run s (queues (td s)) [] s 0) as (s' & E & Hi' & Hr & L & Q1 & Q2); auto.
  { unfold is_s32. lia. } { by intros q ?%elem_of_nil. }
  exists s'. rewrite E. split_and!; auto. intros q.
  destruct (decide (q ∈ queues (td s))) as [Hin|Hin]; [auto |].
  rewrite Q2 by done. apply not_in_ring; [apply Hi | done].
Qed.

(** A forced dispatch (the queue is being drained) hands every waiting
    request to the device, each exactly once, returns how many there were, and
    leaves every queue empty. *)
Theorem dispatch_force_drains s :
  tb_inv s ->
  exists s', tbucket_dispatch true s = Ok (s32 (Z.of_nat (length (waiting s))), s') /\
    Permutation (dispatch_list s') (waiting s ++ dispatch_list s) /\ waiting s' = [] /\ tb_inv s'.
Proof.
  intros Hi. destruct (dispatch_force_run s Hi) as (s' & E & Hi' & _ & L & Q).
  exists s'. split_and!; auto. apply waiting_nil; [apply Hi' | done].
Qed.

End Dispatch.
