(* ===== verification/TBucketRing.v ===== *)
(** * Token-bucket scheduler: the turns of the queues

    [tbucket_dispatch] visits the queues of the ring once.  It refreshes the
    account of each, dispatches from the first queue that has a request and tokens,
    and otherwise says how long to wait. *)

From S2P Require Import Prelude CInt Kernel DiskSim IoBatch HashTable CauseTags Tags Queue IoctlHelper.
From S2P Require Import TBucket TBucketTokens TBucketInv TBucketFrame TBucketCharge TBucketSafe.
From S2P Require Import TBucketDispatch.

Section Ring.
Context {K : KernelFns} {KO : KernelOk K}.

(** [a'] is [a] after some payments of income. *)
Definition refreshes : account -> account -> Prop := rtc (fun a a' => exists now, a' = refreshed now a).

Lemma refreshes_trans a b c : refreshes a b -> refreshes b c -> refreshes a c.
Proof. unfold refreshes. intros. by transitivity b. Qed.

(** A queue may be served: writes always, reads if the account is not throttled
    or has tokens. *)
Definition eligible (q : qref) (a : account) : Prop := snd q = true \/ rate a <= 0 \/ 0 < count a.

(** Nothing was dispatched; the queues may have taken turns. *)
Record idle (s s' : tb) : Prop := {
  id_rqs : rqs s' = rqs s;
  id_uniq : q_sched_uniq s' = q_sched_uniq s;
  id_live : q_live s' = q_live s;
  id_qreqs : forall q, qreqs s' q = qreqs s q;
  id_list : dispatch_list s' = dispatch_list s;
  id_ring : Permutation (queues (td s')) (queues (td s));
  id_accts : forall p a, td_heap (td s) !! p = Some a ->
    exists a', td_heap (td s') !! p = Some a' /\ refreshes a a';
  id_causes : forall p, has_causes p s -> has_causes p s';
}.

#[export] Instance idle_preorder : PreOrder idle.
Proof.
  split.
  - intros s. split; auto. intros p a Ha. exists a. split; [done | apply rtc_refl].
  - intros s1 s2 s3 [A1 A2 A3 A4 A5 A6 A7 A8] [B1 B2 B3 B4 B5 B6 B7 B8].
    split; try congruence; auto.
    + by rewrite B6, A6.
    + intros p a (a' & Ha' & R)%A7. destruct (B7 p a' Ha') as (a'' & Ha'' & R').
      exists a''. split; [done | by eapply refreshes_trans].
Qed.

Lemma misc_idle s s' : misc s s' -> dispatch_list s' = dispatch_list s -> idle s s'.
Proof.
  intros [H1 H2 H3 H4 H5 H6 [H7 _] H8 H9 H10] L. split; auto.
  - intros q. unfold qreqs. by rewrite H1.
  - by rewrite H4.
  - intros p a Ha. exists a. rewrite H1. split; [done | apply rtc_refl].
  - unfold has_causes. by rewrite H7.
Qed.

Lemma idle_takes q l s1 s2 s3 : idle s1 s2 -> takes q l s2 s3 -> takes q l s1 s3.
Proof.
  intros [A1 A2 A3 A4 A5 A6 A7 A8] [B1 B2 B3 B4 B5 [n B6] B7 B8]. split; try congruence; auto.
  - intros q' Hq'. by rewrite B5, A4.
  - exists n. by rewrite B6, A6.
  - intros p [a Ha]. apply B7. destruct (A7 p a Ha) as (a' & Ha' & _). by eexists.
Qed.

Lemma refreshed_shape now a : same_shape a (refreshed now a) /\ rate (refreshed now a) = rate a.
Proof.
  unfold refreshed. destruct (_ >? 0); [|by split_and!].
  match goal with |- context [saturate_counts ?x] =>
    pose proof (saturate_counts_frame x) as (E1 & E2 & E3 & E4 & _ & _ & _ & _ & E5 & _ & E6 & _);
    set (y := saturate_counts x) in * end.
  split_and!; simpl; try done. unfold same_shape. simpl. split_and!; auto. by rewrite E5.
Qed.

Lemma refresh_step s p a :
  tb_inv s -> td_heap (td s) !! p = Some a ->
  exists s1 a1, refresh_count p s = Ok (tt, s1) /\ tb_inv s1 /\ idle s s1 /\
    queues (td s1) = queues (td s) /\ td_heap (td s1) !! p = Some a1 /\ refreshes a a1.
Proof.
  intros [Hi Hr] Ha. rewrite (refresh_count_run s p a Ha).
  set (a1 := refreshed (now_of s) a). exists (put_acct p a1 (tick s)), a1. split; [done |].
  destruct (refreshed_shape (now_of s) a) as [Hs _]. fold a1 in Hs.
  pose proof Hs as (E1 & E2 & E3 & E4 & _).
  assert (Ht : tb_inv0 (tick s)) by (by apply inv0_tick).
  assert (Hat : td_heap (td (tick s)) !! p = Some a) by done.
  assert (R : refreshes a a1) by (apply rtc_once; by eexists).
  split; [split; [by eapply inv0_put_shape |] |]; [|split_and!; auto].
  - destruct Hr as [Hr1 Hr2]. apply (roomy_put (td (tick s))); [by split |].
    rewrite E4. by eapply Forall_lookup_1 in Hr2; [|exact Ha].
  - assert (F : frame s (put_acct p a1 (tick s))).
    { transitivity (tick s); [by apply frame_kern | by eapply frame_put]. }
    destruct F as [C L _ _ _]. destruct (C) as [C1 C2 C3 _ _ _ C7]. split; auto.
    + intros q. by apply core_qreqs.
    + intros p' a' Ha'. destruct (decide (p = p')) as [<-|Hne].
      * exists a1. split; [by eapply put_acct_lookup |]. by simplify_eq.
      * exists a'. rewrite put_acct_lookup_ne by done. split; [done | apply rtc_refl].
  - by eapply put_acct_lookup.
Qed.

(** A queue goes to the back of the ring. *)
Lemma rotate_step s q rest :
  tb_inv s -> queues (td s) = q :: rest ->
  let s' := s <| td ::= fun t => t <| run_serve_size := 0 |> <| queues := rest ++ [q] |> |> in
  tb_inv s' /\ idle s s'.
Proof.
  intros [Hi Hr] Hq s'.
  assert (Hp : Permutation (queues (td s')) (queues (td s))).
  { rewrite Hq. simpl. symmetry; apply Permutation_cons_append. }
  split; [split; [|done] |].
  - apply (inv0_td s (td s')); auto. apply Hi.
  - split; auto. intros p a Ha. exists a. split; [done | apply rtc_refl].
Qed.

Lemma estimate_wait_min a : 100 <= estimate_wait_usecs a.
Proof. unfold estimate_wait_usecs. lia. Qed.

Lemma elapsed_quiet q : quiet (in_clock (queue_pop_elapsed_us q)).
Proof.
  intros s. unfold in_clock, in_kern, in_world, zoom, queue_pop_elapsed_us, bind, getnstimeofday, ret.
  destruct (_ >? _); eexists _, _; (split; [done |]); split_and!; auto; misc.
Qed.

(** How a visit of the queues [unv] ends. *)
Inductive visited (unv : list qref) (min : Z) (s : tb) : option Z -> tb -> Prop :=
  | visited_dispatch q rq a a' s' :
      q ∈ unv -> takes q [rq] s s' -> Permutation (dispatch_list s') (rq :: dispatch_list s) ->
      td_heap (td s) !! queue_to_account q = Some a -> refreshes a a' -> eligible q a' ->
      visited unv min s None s'
  | visited_idle us s' :
      idle s s' -> 0 <= us ->
      (run_serve_size (td s) < RUN_SIZE_LIMIT -> us = 0 -> min = 0 /\
         forall q, q ∈ unv -> Z.of_nat (length (qreqs s q)) < 0x80000000 -> qreqs s q = []) ->
      visited unv min s (Some us) s'.

Lemma idle_eligible s s' q a' :
  idle s s' -> has_acct (queue_to_account q) s -> td_heap (td s') !! queue_to_account q = Some a' ->
  exists a, td_heap (td s) !! queue_to_account q = Some a /\ refreshes a a'.
Proof.
  intros I [a Ha] Ha'. destruct (id_accts _ _ I _ _ Ha) as (b & Hb & R). simplify_eq. eauto.
Qed.

(** A visit that starts with an idle step. *)
Lemma visited_after unv min min' q rest s s' o s'' :
  unv = q :: rest -> idle s s' -> (forall q, q ∈ rest -> has_acct (queue_to_account q) s) ->
  visited rest min' s' o s'' ->
  (run_serve_size (td s) < RUN_SIZE_LIMIT -> run_serve_size (td s') < RUN_SIZE_LIMIT /\
     (min' = 0 -> min = 0 /\ (Z.of_nat (length (qreqs s q)) < 0x80000000 -> qreqs s q = []))) ->
  visited unv min s o s''.
Proof.
  intros -> I Hac V Hmin. destruct V as [q' rq a a' s'' Hin T L Ha R El|us s'' I' Hus Hemp].
  - destruct (idle_eligible s s' q' a I (Hac q' Hin) Ha) as (a0 & Ha0 & R0).
    apply (visited_dispatch _ _ _ q' rq a0 a'); auto.
    + by right.
    + by eapply idle_takes.
    + by rewrite L, (id_list _ _ I).
    + by eapply refreshes_trans.
  - apply visited_idle; [by transitivity s' | done |]. intros Hrun ->.
    destruct (Hmin Hrun) as [Hrun' Hm]. destruct (Hemp Hrun' eq_refl) as [-> Hemp'].
    destruct (Hm eq_refl) as [-> Hq]. split; [done |].
    intros q' [->|Hq']%elem_of_cons Hsh; [auto |].
    rewrite <- (id_qreqs _ _ I q'). apply Hemp'; [done |]. by rewrite (id_qreqs _ _ I q').
Qed.

(** What [dispatch_loop n] does when it is called on the queues [unv]. *)
Definition loop_ok (n : nat) : Prop := forall s min switched unv vis,
  tb_inv s -> queues (td s) = unv ++ vis -> length unv = n -> 0 <= min ->
  exists o s', dispatch_loop n min switched s = Ok (o, s') /\ tb_inv s' /\ visited unv min s o s'.

(** The queue at the front is given up for this turn. *)
Lemma switch_run n s s1 q unv vis min min' :
  loop_ok n -> tb_inv s -> tb_inv s1 -> idle s s1 ->
  queues (td s1) = q :: unv ++ vis -> length unv = n -> 0 <= min' ->
  (run_serve_size (td s) < RUN_SIZE_LIMIT -> min' = 0 ->
     min = 0 /\ (Z.of_nat (length (qreqs s q)) < 0x80000000 -> qreqs s q = [])) ->
  exists o s', (upd_td (fun t => t <| run_serve_size := 0 |> <| queues := (unv ++ vis) ++ [q] |>);;
                dispatch_loop n min' true) s1 = Ok (o, s') /\ tb_inv s' /\
    visited (q :: unv) min s o s'.
Proof.
  intros IH Hi Hi1 I Hq Hlen Hmin Hemp.
  destruct (rotate_step s1 q (unv ++ vis) Hi1 Hq) as [Hi2 I2].
  erewrite (bind_ok (upd_td _)) by done. set (s2 := s1 <| td ::= _ |>) in *.
  destruct (IH s2 min' true unv (vis ++ [q])) as (o & s' & E & Hi' & V); auto.
  { simpl. by rewrite app_assoc. }
  exists o, s'. split_and!; auto.
  eapply (visited_after (q :: unv) min min' q unv s s2); auto; [by transitivity s1 | |].
  - intros q' Hin. apply ring_acct; [apply Hi |]. rewrite <- (id_ring _ _ I), Hq.
    right. apply elem_of_app. by left.
  - intros Hrun. split; [done |]. by apply Hemp.
Qed.

Lemma short_count s q a :
  tb_inv0 s -> td_heap (td s) !! queue_to_account q = Some a ->
  Z.of_nat (length (qreqs s q)) < 0x80000000 -> q_count (queue_of q a) <= 0 -> qreqs s q = [].
Proof.
  intros Hi Ha. rewrite (qreqs_at _ _ _ Ha). intros Hs Hc.
  destruct (queue_of_wf q a (acct_wf_at _ _ _ Hi Ha)) as [[Hcount _] _].
  rewrite Hcount, s32_small in Hc by (unfold is_s32; lia).
  destruct (q_reqs (queue_of q a)); simpl in *; [done | lia].
Qed.

Lemma misc_trans_idle s s1 s2 :
  idle s s1 -> misc s1 s2 -> dispatch_list s2 = dispatch_list s1 -> idle s s2.
Proof. intros I M L. transitivity s1; [done |]. by apply misc_idle. Qed.

(** The queue at the front has no request or no tokens. *)
Lemma not_ready_run n s s1 q a unv vis min :
  loop_ok n -> tb_inv s -> tb_inv s1 -> idle s s1 ->
  queues (td s1) = q :: unv ++ vis -> length unv = n -> 0 <= min ->
  td_heap (td s1) !! queue_to_account q = Some a ->
  exists o s',
    (let! a := acct 607 (queue_to_account q) in
     if q_count (queue_of q a) >? 0 then
       let usecs := estimate_wait_usecs a in
       upd_td (fun t => t <| run_serve_size := 0 |> <| queues := (unv ++ vis) ++ [q] |>);;
       dispatch_loop n (if (min =? 0) || (usecs <? min) then usecs else min) true
     else
       upd_td (fun t => t <| run_serve_size := 0 |> <| queues := (unv ++ vis) ++ [q] |>);;
       dispatch_loop n min true) s1 = Ok (o, s') /\ tb_inv s' /\ visited (q :: unv) min s o s'.
Proof.
  intros IH Hi Hi1 I Hq Hlen Hmin Ha. rewrite (bind_ok _ _ _ _ _ (acct_run _ _ _ _ Ha)).
  pose proof (estimate_wait_min a) as Hw.
  destruct (Z.gtb_spec (q_count (queue_of q a)) 0) as [Hc|Hc].
  - eapply switch_run; eauto; destruct (Z.eqb_spec min 0), (Z.ltb_spec (estimate_wait_usecs a) min);
      simpl; lia.
  - eapply switch_run; eauto. intros _ ->. split; [done |]. intros Hs.
    rewrite <- (id_qreqs _ _ I q) in *. eapply short_count; eauto. apply Hi1.
Qed.

Lemma dispatch_loop_run n : loop_ok n.
Proof.
  induction n as [|n IH]; intros s min sw unv vis Hi Hq Hlen Hmin.
  { destruct unv; [|done]. exists (Some min), s. split; [done |]. split; [done |].
    apply visited_idle; [reflexivity | done |]. intros _ ->. split; [done |]. by intros q ?%elem_of_nil. }
  destruct unv as [|q unv]; [done |]. injection Hlen as Hlen.
  cbn [dispatch_loop]. rewrite (bind_ok _ _ s (td s) s) by done. cbv beta.
  rewrite Hq. change ((q :: unv) ++ vis) with (q :: (unv ++ vis)). cbv beta iota zeta.
  assert (Hac : has_acct (queue_to_account q) s).
  { apply ring_acct; [apply Hi |]. rewrite Hq. left. }
  destruct (Hac) as [a Ha].
  destruct (refresh_step s _ a Hi Ha) as (s1 & a1 & E1 & Hi1 & I1 & Hq1 & Ha1 & R1).
  rewrite (bind_ok _ _ _ _ _ E1). rewrite Hq in Hq1. simpl in Hq1.
  destruct (Z.geb_spec (run_serve_size (td s)) RUN_SIZE_LIMIT) as [Hrun|Hrun].
  { eapply switch_run; eauto. lia. }
  rewrite (bind_ok _ _ _ _ _ (acct_run _ _ _ _ Ha1)).
  destruct (negb (q_rw (queue_of q a1) =? 0) || (rate a1 <=? 0) || (count a1 >? 0)) eqn:Hel.
  2: { by eapply not_ready_run. }
  destruct (pop_queue_run s1 q a1 Hi1 Ha1) as (o & s2 & E2 & Hi2 & T2 & L2 & _ & Ho).
  rewrite (bind_ok _ _ _ _ _ E2). destruct o as [rq|].
  - destruct Ho as (r & Hrq & _).
    destruct (dispatch_sort_run s2 q rq r Hi2) as (s3 & E3 & Hi3 & C3 & L3 & _).
    { by rewrite (tk_rqs _ _ _ _ T2). }
    rewrite (bind_ok _ _ _ _ _ E3). exists None, s3. split; [done |]. split; [done |].
    apply (visited_dispatch _ _ _ q rq a a1); auto.
    + left.
    + eapply idle_takes; [exact I1 |].
      apply (takes_trans q [rq] [] s1 s2); [done | by apply core_takes].
    + by rewrite L3, L2, (id_list _ _ I1).
    + unfold eligible. destruct (queue_of_wf q a1 (acct_wf_at _ _ _ (proj1 Hi1) Ha1)) as [_ Hrw].
      rewrite Hrw in Hel. destruct (snd q); [by left | simpl in Hel]. lia.
  - destruct Ho as [_ M2]. pose proof (misc_trans_idle _ _ _ I1 M2 L2) as I2.
    assert (Ha2 : td_heap (td s2) !! queue_to_account q = Some a1) by (by rewrite (mi_heap _ _ M2)).
    assert (Hq2 : queues (td s2) = q :: unv ++ vis) by (by rewrite (mi_queues _ _ M2)).
    destruct sw; cbv beta iota delta [negb]; [by eapply not_ready_run |].
    rewrite (bind_ok _ _ _ _ _ (acct_run _ _ _ _ Ha2)).
    destruct (elapsed_quiet (queue_of q a1) s2) as (us & s3 & E3 & M3 & L3 & _).
    rewrite (bind_ok _ _ _ _ _ E3). destruct (misc_inv _ _ M3 Hi2) as [Hi3 _].
    pose proof (misc_trans_idle _ _ _ I2 M3 L3) as I3.
    destruct (Z.ltb_spec us ANTICIPATION_US).
    + exists (Some (ANTICIPATION_US - us)), s3. split; [done |]. split; [done |].
      apply visited_idle; auto; lia.
    + eapply not_ready_run; eauto; [by rewrite (mi_queues _ _ M3) | by rewrite (mi_heap _ _ M3)].
Qed.

(** The end of a dispatch that found nothing to do: arm the timer if there is
    something to wait for. *)
Lemma decline_run s us :
  exists s',
    ((if us >? 0 then
        let! j := in_clock read_jiffies in
        let jiffy_wait := u64 (j + usecs_to_jiffies (u32 (Z.max us 100))) in
        upd_td (fun t => t <| dispatch_nudger := None |>);;
        upd_td (fun t => t <| dispatch_nudger := Some jiffy_wait |>);;
        upd_stats (fun s => s <| dispatch_declined_throttle ::= fun n => s64 (n + 1) |>)
      else
        upd_stats (fun s => s <| dispatch_declined_no_work ::= fun n => s64 (n + 1) |>));;
     upd_stats (fun s => s <| last_queue := None |>);;
     let! st := gets (fun s => stats (td s)) in
     (if tv_sec (start_sleep st) =? 0 then
        let! now := in_clock getnstimeofday in
        upd_stats (fun s => s <| start_sleep := now |>)
      else ret tt);;
     ret 0) s = Ok (0, s') /\ misc s s' /\ dispatch_list s' = dispatch_list s /\
    (0 < us -> dispatch_nudger (td s') <> None).
Proof.
  assert (Htail : forall s, exists s',
    (upd_stats (fun s => s <| last_queue := None |>);;
     let! st := gets (fun s => stats (td s)) in
     (if tv_sec (start_sleep st) =? 0 then
        let! now := in_clock getnstimeofday in
        upd_stats (fun s => s <| start_sleep := now |>)
      else ret tt);;
     ret 0) s = Ok (0, s') /\ misc s s' /\ dispatch_list s' = dispatch_list s /\
    dispatch_nudger (td s') = dispatch_nudger (td s)).
  { intros s1. erewrite (bind_ok (upd_stats _)) by done. erewrite (bind_ok (gets _)) by done.
    match goal with |- exists s', bind ?m ?f ?x = _ /\ _ =>
      assert (Hq : quiet m) by eauto 10 with split; destruct (Hq x) as ([] & s2 & E & M & L & _ & N);
      exists s2; rewrite (bind_ok _ _ _ _ _ E); split_and!; auto;
      assert (misc s1 x) by misc end. by transitivity (s1 <| td ::= fun t => t <| stats ::= fun s => s <| last_queue := None |> |> |>). }
  destruct (Z.gtb_spec us 0) as [Hp|Hp].
  - match goal with |- context [bind ?m ?f s] => assert (exists s1, m s = Ok (tt, s1) /\
      misc s s1 /\ dispatch_list s1 = dispatch_list s /\ dispatch_nudger (td s1) <> None)
      as (s1 & E1 & M1 & L1 & N1) end.
    { erewrite (bind_ok (in_clock _)) by done. do 2 erewrite (bind_ok (upd_td _)) by done.
      eexists. split; [done |]. split_and!; [misc | done | done]. }
    rewrite (bind_ok _ _ _ _ _ E1). destruct (Htail s1) as (s2 & E2 & M2 & L2 & N2).
    exists s2. split_and!; auto; [by transitivity s1 | congruence |]. intros _. by rewrite N2.
  - destruct (quiet_stats (fun s => s <| dispatch_declined_no_work ::= fun n => s64 (n + 1) |>) s)
      as ([] & s1 & E1 & M1 & L1 & _).
    rewrite (bind_ok _ _ _ _ _ E1). destruct (Htail s1) as (s2 & E2 & M2 & L2 & N2).
    exists s2. split_and!; auto; [by transitivity s1 | congruence | lia].
Qed.

(** The queues one call visits. *)
Definition visits (t : tbucket_data) : list qref := take (Z.to_nat (queues_count t)) (queues t).

Lemma visits_length s : tb_inv0 s -> length (visits (td s)) = Z.to_nat (queues_count (td s)).
Proof.
  intros [Ht _ _]. unfold visits. rewrite length_take, (tw_count _ Ht).
  destruct (s32_cong (Z.of_nat (length (queues (td s))))) as [k E].
  pose proof (s32_range (Z.of_nat (length (queues (td s))))). unfold is_s32 in *. lia.
Qed.

Lemma visits_all s :
  tb_inv0 s -> Z.of_nat (length (queues (td s))) < 0x80000000 -> visits (td s) = queues (td s).
Proof.
  intros [Ht _ _] Hlen. unfold visits.
  rewrite (tw_count _ Ht), s32_small, Nat2Z.id by (unfold is_s32; lia). apply firstn_all.
Qed.

Lemma dispatch_run s :
  tb_inv s ->
  exists o s1 s', tbucket_dispatch false s = Ok (match o with None => 1 | Some _ => 0 end, s') /\
    tb_inv s' /\ visited (visits (td s)) 0 s o s1 /\
    match o with
    | None => s' = s1
    | Some us => misc s1 s' /\ dispatch_list s' = dispatch_list s1 /\
                 (0 < us -> dispatch_nudger (td s') <> None)
    end.
Proof.
  intros Hi. unfold tbucket_dispatch. rewrite (bind_ok _ _ s (td s) s) by done.
  change ((DISPATCH_CAP >? 0) && (dispatched (td s) >=? DISPATCH_CAP)) with false. cbv beta iota.
  destruct (dispatch_loop_run (Z.to_nat (queues_count (td s))) s 0 false (visits (td s))
    (drop (Z.to_nat (queues_count (td s))) (queues (td s)))) as (o & s1 & E1 & Hi1 & V); auto.
  { unfold visits. by rewrite take_drop. } { apply visits_length, Hi. } { lia. }
  rewrite (bind_ok _ _ _ _ _ E1). destruct o as [us|].
  - destruct (decline_run s1 us) as (s' & E & M & L & N).
    exists (Some us), s1, s'. split; [exact E |]. split_and!; auto. by apply (misc_inv s1).
  - exists None, s1, s1. by split_and!.
Qed.

(** C17: a dispatch hands over at most one request, and only one that may be
    served: either it returns 1 and has moved the front of one queue to the dispatch
    list, the queue being one of writes, or its account, after the payments due,
    being unthrottled or having tokens; or it returns 0 and every request is where
    it was. *)
Theorem dispatch_one_or_none s :
  tb_inv s ->
  exists rv s', tbucket_dispatch false s = Ok (rv, s') /\ tb_inv s' /\ rqs s' = rqs s /\
    ((rv = 1 /\ exists q rq a a', qreqs s q = rq :: qreqs s' q /\
        (forall q', q' <> q -> qreqs s' q' = qreqs s q') /\
        Permutation (dispatch_list s') (rq :: dispatch_list s) /\
        td_heap (td s) !! queue_to_account q = Some a /\ refreshes a a' /\
        (snd q = true \/ rate a' <= 0 \/ 0 < count a')) \/
     (rv = 0 /\ dispatch_list s' = dispatch_list s /\ forall q, qreqs s' q = qreqs s q)).
Proof.
  intros Hi. destruct (dispatch_run s Hi) as (o & s1 & s' & E & Hi' & V & Ho).
  rewrite E. eexists _, s'. split; [done |]. split; [done |].
  destruct V as [q rq a a' s1 Hin T L Ha R El|us s1 I Hus _].
  - subst s'. destruct T as [T1 _ _ T2 T3 _ _ _]. split; [done |]. left. split; [done |].
    exists q, rq, a, a'. split_and!; auto.
  - destruct Ho as (M & L & _). assert (I' : idle s s') by (by eapply misc_trans_idle).
    split; [apply I' |]. right. split; [done |]. split; apply I'.
Qed.

(** The timer that calls the dispatch again is pending. *)
Definition armed (s : tb) : Prop := dispatch_nudger (td s) <> None.

(** C18: while the current queue has not used up its run no waiting request is
    forgotten: [tbucket_dispatch] dispatches a request, or it arms the timer that
    will call it again. *)
Theorem dispatch_never_stalls s :
  tb_inv s -> Z.of_nat (length (queues (td s))) < 0x80000000 ->
  (forall q, Z.of_nat (length (qreqs s q)) < 0x80000000) ->
  run_serve_size (td s) < RUN_SIZE_LIMIT -> waiting s <> [] ->
  exists rv s', tbucket_dispatch false s = Ok (rv, s') /\
    (rv = 1 \/ (rv = 0 /\ armed s')).
Proof.
  intros Hi Hlen Hsh Hrun Hw. destruct (dispatch_run s Hi) as (o & s1 & s' & E & Hi' & V & Ho).
  rewrite E. eexists _, s'. split; [done |]. rewrite visits_all in V by (done || apply Hi).
  destruct V as [q rq a a' s1 Hin T L Ha R El|us s1 I Hus Hz]; [by left |].
  right. split; [done |]. destruct Ho as (M & L & N). apply N.
  destruct (decide (us = 0)) as [->|]; [|lia]. destruct Hw.
  apply waiting_nil; [apply Hi |]. intros q. destruct (Hz Hrun eq_refl) as [_ Hemp].
  destruct (decide (q ∈ queues (td s))); [auto | apply not_in_ring; [apply Hi | done]].
Qed.

End Ring.
