(* ===== verification/TBucketHandlers.v ===== *)
(** * Token-bucket scheduler: requests come and go; runs of the scheduler

    The handlers that take a request in, merge it or let it go, and the runs of the
    scheduler as sequences of handlers: from [tbucket_init_queue] on, no handler
    faults. *)

From S2P Require Import Prelude Keeps CInt Kernel DiskSim IoBatch HashTable CauseTags Tags Queue IoctlHelper.
From S2P Require Import TBucket TBucketTokens TBucketInv TBucketFrame TBucketCharge TBucketSafe.
From S2P Require Import TBucketDispatch TBucketRing.

Section Handlers.
Context {K : KernelFns} {KO : KernelOk K}.

(** ** Checking a request *)

Definition warn_ok (w : Z) : Prop := 0 <= w < INSANE_CAP.

Lemma warn_on2_ok line x w : warn_ok line -> warn_ok w -> warn_ok (warn_on2 line x w).
Proof. unfold warn_on2. by destruct x. Qed.

Ltac warn := repeat apply warn_on2_ok; (done || by unfold warn_ok, INSANE_CAP).

Lemma sanity_check_causes_ok c w : warn_ok w -> warn_ok (sanity_check_causes c w).
Proof. intros H. unfold sanity_check_causes. destruct (negb _); warn. Qed.

Lemma sanity_check_bio_run k r w b :
  bio_ok k b -> warn_ok w ->
  hoare (fun k' => k' = k) (sanity_check_bio r w b) (fun w' k' => k' = k /\ warn_ok w').
Proof.
  intros Hb Hw. unfold sanity_check_bio. pose proof (bo_cll _ _ Hb) as Hl.
  destruct (bi_cll b) as [l|]; [| apply hoare_ret; intros ? ->; split; [done | warn]].
  destruct (Hl l eq_refl) as (_ & Hn & _ & Hm).
  destruct (rq_data_dir r =? WRITE); [| apply hoare_ret; intros ? ->; split; [done | warn]].
  eapply (hoare_bind _ _ _ (fun acc k' => k' = k /\ warn_ok (fst (fst acc)))).
  - eapply hoare_conseq.
    + apply (hoare_for_acc _ _ _ (fun acc k' => k' = k /\ warn_ok (fst (fst acc)))).
      intros [[w' cc] cb] i Hi k' [-> Hw']. apply elem_of_seqZ in Hi.
      destruct (Hm i) as (p & Hp & [c Hc]); [lia |].
      unfold bind, lift, array_get, read_causes, deref. rewrite decide_True, Hp by lia. simpl.
      rewrite Hc. split; [done |]. simpl. by apply sanity_check_causes_ok.
    + intros ? ->. split; [done |]. simpl. warn.
    + intros ? ? H. exact H.
  - intros [[w' cc] cb]. apply hoare_ret. simpl. intros ? [-> Hw']. split; [done | warn].
Qed.

Lemma request_sanity_check_run k r :
  request_ok k r -> exists w, request_sanity_check r k = Ok (w, k) /\ warn_ok w.
Proof.
  intros [Hb _]. rewrite list.Forall_forall in Hb.
  destruct (hoare_run (fun k' => k' = k) (request_sanity_check r) (fun w k' => k' = k /\ warn_ok w) k)
    as (w & k' & E & -> & Hw); [|done|eauto].
  unfold request_sanity_check. eapply hoare_conseq.
  - apply (hoare_for_acc _ _ _ (fun w k' => k' = k /\ warn_ok w)).
    intros w b Hin. intros k' [-> Hw]. by apply (sanity_check_bio_run k r w b); [apply Hb | |].
  - intros ? ->. split; [done |]. warn.
  - done.
Qed.

Lemma bio_ids_exist k r bios :
  Forall (bio_ok k) bios -> (forall p, RQ_CAUSES r = Some p -> is_Some (k_causes k !! p)) ->
  exists ids, bio_ids k r bios ids.
Proof.
  intros Hb Hc. induction Hb as [|b bios Hb _ [ids IH]]; [eexists; constructor |].
  assert (Hu : forall p, bio_uniq_causes r b = Some p -> is_Some (k_causes k !! p)).
  { unfold bio_uniq_causes. intros p. pose proof (bo_cll _ _ Hb) as Hl.
    destruct (bi_cll b) as [l|]; [|apply Hc].
    destruct (Hl l eq_refl) as ((u & -> & Hu) & _). by intros [= <-]. }
  destruct (bio_uniq_causes r b) as [p|] eqn:E.
  - destruct (Hu p eq_refl) as [c Hp]. eexists. by eapply bio_ids_some.
  - eexists. by eapply bio_ids_none.
Qed.

Lemma keeps_kernel_pure {A} (m : ST kernel A) (P : tb -> Prop) (Q : A -> Prop) :
  (forall s, tb_inv0 s -> P s -> exists a, m (kern s) = Ok (a, kern s) /\ Q a) ->
  keeps P (in_kern m) (fun a s => P s /\ Q a).
Proof.
  intros Hm s Hi Hs. destruct (Hm s Hi Hs) as (a & E & HQ). exists a, s.
  split; [unfold in_kern, zoom; rewrite E; by destruct s |]. split_and!; auto. reflexivity.
Qed.

Lemma keeps_cause_list_add full r cur :
  keeps (fun s => room full s /\ rq_ready r s) (in_kern (__cause_list_add (RQ_CAUSES r) cur))
        (fun _ s => room full s /\ rq_ready r s).
Proof.
  intros s [Ht He Hq] [Hr Hrq].
  destruct (cause_list_add_env (kern s) (rqs s) r cur He Hrq) as (rv & k' & E & He' & Hdom & _).
  exists rv, (s <| kern := k' |>). split; [unfold in_kern, zoom; cbn [tag_causes tagged_request] in E; by rewrite E |].
  split; [by split | split; [by apply frame_kern |]; split; [done |]]. by eapply request_ok_dom.
Qed.

(** ** Queueing a request *)

Lemma keeps_count_sanity p warn :
  warn_ok warn ->
  keeps (fun s => room false s /\ has_acct p s) (count_sanity p warn)
        (fun _ s => room false s /\ has_acct p s).
Proof.
  intros Hw. unfold count_sanity. destruct (warn =? 0).
  { apply keeps_upd_shape. intros ?. by split_and!. }
  intros s Hi [Hr [a Ha]]. rewrite (bind_ok _ _ _ _ _ (acct_run _ _ _ _ Ha)).
  pose proof (aw_insane _ (acct_wf_at _ _ _ Hi Ha)) as Hl.
  unfold warn_ok in Hw. destruct (Z.geb_spec warn INSANE_CAP); [lia |].
  destruct (lookup_lt_is_Some_2 (insane a) (Z.to_nat warn)) as [n Hn]; [lia |].
  unfold array_get, array_set. rewrite decide_True, Hn by lia.
  rewrite (bind_ok _ _ s n s) by done. rewrite decide_True by lia.
  erewrite (bind_ok (lift _)) by done. rewrite (upd_acct_run _ _ _ _ Ha). eexists _, _.
  split; [done |].
  match goal with |- tb_inv0 (put_acct p ?x s) /\ _ => assert (Hs : same_shape a x) end.
  { split_and!; auto. simpl. by rewrite length_insert. }
  split; [by eapply inv0_put_shape |]. split; [by eapply frame_put |]. split.
  - intros Hf. destruct (Hr Hf) as [Hr1 Hr2]. apply roomy_put; [by split |]. simpl.
    by eapply Forall_lookup_1 in Hr2; [|exact Ha].
  - eexists. by eapply put_acct_lookup.
Qed.

(** The queue a request of a direction goes to. *)
Definition target_queue (p : nat) (r : request) : qref := (p, negb (rq_data_dir r =? 0)).

Lemma queue_request_inv s p a rq r :
  tb_inv s -> td_heap (td s) !! p = Some a -> rqs s !! rq = Some r ->
  (forall q, rq ∉ qreqs s q) ->
  let q := target_queue p r in
  tb_inv (put_acct p (set_queue q (queue_push (queue_of q a) rq) a)
            (s <| rqs ::= alter (fun r => r <| RQ_QUEUE := Some q |>) rq |>)).
Proof.
  intros [[Ht He Hq] Hr] Ha Hrq Hn q. set (q' := queue_push (queue_of q a) rq).
  assert (Hw : acct_wf a) by (by eapply acct_wf_at; [split |]).
  destruct (queue_of_wf q a Hw) as [Hqw Hqrw]. destruct (set_queue_frame q q' a) as (G1 & G2 & _).
  assert (Hnin : rq ∉ q_reqs (queue_of q a)) by (rewrite <- (qreqs_at s q a Ha); apply Hn).
  split; [split |]; simpl.
  - eapply td_wf_put; eauto. apply set_queue_wf; auto. by apply queue_push_wf.
  - destruct He as [Hk Hs Hrqs]. split; auto. intros rq' r'.
    rewrite lookup_alter. case_decide as E; [subst rq' | apply Hrqs].
    rewrite Hrq. intros [= <-]. by destruct (Hrqs rq r Hrq).
  - intros p' b w rq' Hb Hin. simpl in Hb. rewrite lookup_alter.
    assert (Hcase : (rq' = rq /\ (p', w) = q) \/ rq' ∈ qreqs s (p', w)).
    { destruct (decide (p = p')) as [<-|Hne].
      - rewrite list_lookup_insert_eq in Hb by (by apply lookup_lt_Some in Ha). injection Hb as <-.
        destruct (decide ((p, w) = q)) as [E|Hne].
        + rewrite E, set_queue_same in Hin. simpl in Hin.
          apply elem_of_app in Hin as [Hin| ->%list_elem_of_singleton]; [right | by left].
          by rewrite E, (qreqs_at s q a Ha).
        + rewrite set_queue_other in Hin by done. right. by rewrite (qreqs_at s (p, w) a Ha).
      - rewrite list_lookup_insert_ne in Hb by done. right. by rewrite (qreqs_at s (p', w) b Hb). }
    destruct Hcase as [[-> Eq]|Hin'].
    + rewrite decide_True by done. exists (r <| RQ_QUEUE := Some q |>). by rewrite Hrq, <- Eq.
    + rewrite decide_False by (intros ->; by apply (Hn (p', w))).
      unfold qreqs in Hin'. simpl in Hin'.
      destruct (td_heap (td s) !! p') as [c|] eqn:Ec; [|by apply elem_of_nil in Hin'].
      by apply (Hq p' c w).
  - apply (roomy_put (td s)); auto. rewrite G2. destruct Hr as [_ Hr2].
    by eapply Forall_lookup_1 in Hr2; [|exact Ha].
Qed.

(** [tbucket_add_request] up to the account the request is queued with. *)
Lemma keeps_add_account cur r :
  keeps (fun s => room false s /\ rq_ready r s)
  (let! warn := in_kern (request_sanity_check r) in
   in_kern (__cause_list_add (RQ_CAUSES r) cur);;
   let! id := in_kern (get_one_cause r) in
   let! p := get_account id in
   count_sanity p warn;; ret p)
  (fun p s => room false s /\ has_acct p s).
Proof.
  eapply keeps_bind.
  { apply (keeps_kernel_pure _ _ warn_ok). intros s1 _ [_ H]. by apply request_sanity_check_run. }
  intros warn. apply keeps_pure. intros Hw.
  eapply keeps_bind; [apply keeps_cause_list_add |]. intros ?.
  eapply keeps_bind.
  { apply (keeps_kernel_pure _ _ (fun _ => True)). intros s1 _ [_ [Hb Hc]].
    destruct (bio_ids_exist (kern s1) r (rq_bio r) Hb Hc) as [ids Hids].
    eexists. split; [by apply one_cause_bios_run | done]. }
  intros id. eapply keeps_bind.
  { eapply keeps_conseq; [apply (keeps_get_account false) | | intros ? s1 H; exact H].
    simpl. tauto. }
  intros p. eapply keeps_bind; [by apply keeps_count_sanity |]. intros ?.
  apply keeps_ret. simpl. tauto.
Qed.

Lemma add_request_run s cur rq r :
  tb_inv s -> rqs s !! rq = Some r -> (forall q, rq ∉ qreqs s q) ->
  exists p a s', tbucket_add_request cur rq s = Ok (tt, s') /\ tb_inv s' /\
    td_heap (td s') !! p = Some a /\
    (let q := target_queue p r in
     qreqs s' q = qreqs s q ++ [rq] /\ (forall q', q' <> q -> qreqs s' q' = qreqs s q') /\
     dispatch_list s' = dispatch_list s /\
     rqs s' = alter (fun r => r <| RQ_QUEUE := Some q |>) rq (rqs s)).
Proof.
  intros Hi Hrq Hn. unfold tbucket_add_request, get_rq. unfold bind at 1. rewrite Hrq.
  assert (Hready : rq_ready r s) by (apply (ew_rqs _ _ (inv_env _ (proj1 Hi)) rq r Hrq)).
  pose proof (keeps_add_account cur r) as Hpre.
  destruct (keeps_inv _ _ _ s Hpre) as (p & s1 & E1 & Hi1 & F1 & _ & [a Ha]); auto.
  { intros s' Hr _ ->. split; [by intros _ | done]. } { simpl. tauto. }
  assert (Hrq1 : rqs s1 !! rq = Some r) by (by rewrite (co_rqs _ _ (fr_core _ _ F1))).
  assert (Hn1 : forall q, rq ∉ qreqs s1 q) by (intros q; by rewrite (core_qreqs _ _ q (fr_core _ _ F1))).
  pose proof (queue_request_inv s1 p a rq r Hi1 Ha Hrq1 Hn1) as Hi2. simpl in Hi2.
  set (q := target_queue p r) in *.
  set (s2 := s1 <| rqs ::= alter (fun r => r <| RQ_QUEUE := Some q |>) rq |>) in *.
  exists p, (set_queue q (queue_push (queue_of q a) rq) a),
    (put_acct p (set_queue q (queue_push (queue_of q a) rq) a) s2).
  split; [|split; [done |]; split; [by eapply put_acct_lookup |]].
  - eapply eq_trans; [| eapply eq_trans; [apply (bind_ok _ (fun p =>
      upd_rq rq (fun r0 => r0 <| RQ_QUEUE := Some (target_queue p r) |>);;
      upd_acct p (fun a => set_queue (target_queue p r)
        (queue_push (queue_of (target_queue p r) a) rq) a)) _ _ _ E1) |]].
    + unfold bind, ret, upd_rq, modify, target_queue. by repeat case_match; simplify_eq.
    + unfold bind, upd_rq, modify. exact (upd_acct_run s2 p a (fun a => set_queue q (queue_push (queue_of q a) rq) a) Ha).
  - split; [|split; [|split]].
    + rewrite (qreqs_put s2 q q) by exact Ha. rewrite decide_True by done. simpl.
      rewrite <- (qreqs_at s1 q a Ha). by rewrite (core_qreqs _ _ q (fr_core _ _ F1)).
    + intros q' Hne. rewrite (qreqs_put s2 q q') by exact Ha. rewrite decide_False by done.
      change (qreqs s2 q') with (qreqs s1 q'). by apply core_qreqs, F1.
    + apply F1.
    + simpl. by rewrite (co_rqs _ _ (fr_core _ _ F1)).
Qed.

(** ** The other handlers of requests *)

Lemma merge_request_run s rq next r q :
  tb_inv s -> rqs s !! rq = Some r -> RQ_QUEUE r = Some q -> rq ∈ qreqs s q ->
  exists s', tbucket_merge_request rq next s = Ok (tt, s') /\ tb_inv s' /\
    qreqs s' q = filter (fun x => x <> rq) (qreqs s q) /\
    (forall q', q' <> q -> qreqs s' q' = qreqs s q') /\ dispatch_list s' = dispatch_list s.
Proof.
  intros [Hi Hr] Hrq Hq Hin. unfold tbucket_merge_request, get_rq. unfold bind at 1.
  rewrite Hrq, Hq. unfold deref. rewrite (bind_ok _ _ s q s) by done.
  unfold qreqs in Hin. destruct (td_heap (td s) !! queue_to_account q) as [a|] eqn:Ha;
    [|by apply elem_of_nil in Hin].
  rewrite (upd_acct_run _ _ _ _ Ha). eexists. split; [done |].
  destruct (queue_of_wf q a (acct_wf_at _ _ _ Hi Ha)) as [Hqw Hqrw].
  destruct (set_queue_frame q (queue_del (queue_of q a) rq) a) as (G1 & G2 & _).
  split; [split |].
  - apply (inv0_put s _ a); auto.
    + apply set_queue_wf; auto; [by eapply acct_wf_at | by apply queue_del_wf].
    + intros w rq'. destruct (decide ((queue_to_account q, w) = q)) as [->|Hne].
      * rewrite set_queue_same. simpl. intros [_ H]%list_elem_of_filter. done.
      * by rewrite set_queue_other.
  - apply (roomy_put (td s)); auto. rewrite G2. destruct Hr as [_ Hr2].
    by eapply Forall_lookup_1 in Hr2; [|exact Ha].
  - split; [|split; [|done]].
    + rewrite qreqs_put, decide_True by done. by rewrite (qreqs_at _ _ _ Ha).
    + intros q' Hne. by rewrite qreqs_put, decide_False by done.
Qed.

Lemma set_request_run s rq :
  tb_inv s -> exists s', tbucket_set_request rq s = Ok (0, s') /\ tb_inv s' /\ td s' = td s /\
    dispatch_list s' = dispatch_list s.
Proof.
  intros [[Ht He Hq] Hr]. unfold tbucket_set_request.
  destruct (new_cause_list_total (kern s)) as (p & k' & E).
  destruct (new_cause_list_env _ _ _ _ He E) as ([Hk Hs Hrqs] & Hdom & Hp & _).
  unfold in_kern. rewrite (bind_ok _ _ _ _ _ (zoom_ok _ _ _ _ _ _ E)).
  eexists. split; [done |]. split; [|by split]. split; [split; simpl; auto |]; auto.
  - split; auto. intros rq' r. rewrite lookup_alter. case_decide as E'; [subst rq' | apply Hrqs].
    destruct (rqs s !! rq) as [r0|] eqn:Hr0; simpl; intros [= <-].
    destruct (Hrqs rq r0 Hr0) as [H1 H2]. by split.
  - intros p' a w rq' Ha Hin. simpl. rewrite lookup_alter.
    destruct (Hq p' a w rq' Ha Hin) as (r & Hr0 & Hrq).
    case_decide as E'; [subst rq'; rewrite Hr0; by eexists | by exists r].
Qed.

Lemma put_request_run s rq r :
  tb_inv s -> rqs s !! rq = Some r ->
  exists s', tbucket_put_request rq s = Ok (tt, s') /\ tb_inv s' /\ td s' = td s /\
    dispatch_list s' = dispatch_list s.
Proof.
  intros Hi Hrq. unfold tbucket_put_request, get_rq. unfold bind at 1. rewrite Hrq.
  unfold in_kern, zoom, put_cause_list_safe, bind, in_world, zoom, kmalloc. simpl.
  destruct (w_alloc _ _); (eexists; split; [done |]; split; [|by split]);
    (eapply misc_inv; [|exact Hi]); misc.
Qed.

End Handlers.
