(* ===== verification/TBucketRuns.v ===== *)
(** * Token-bucket scheduler: runs

    A run starts with [tbucket_init_queue] and goes on with calls of the handlers
    and of the hooks, in any order, and with anything the rest of the kernel does in
    between that keeps its own promises.  In no run does a handler fault. *)

From S2P Require Import Prelude Keeps CInt Kernel DiskSim IoBatch HashTable CauseTags Tags Queue IoctlHelper Registry.
From S2P Require Import TBucket TBucketTokens TBucketInv TBucketFrame TBucketCharge TBucketSafe.
From S2P Require Import TBucketDispatch TBucketRing TBucketHandlers.

(** The entry points of the scheduler ([elevator_tbucket.ops] and the settings) but for setting up and
    tearing down, which begin and end a run (see [alive] below).  The loop of the create hook is that of the write
    hook; the return hooks do nothing, and the former and latter request are NULL. *)
Inductive handler :=
  | Dispatch (force : bool)
  | MergeRequest (rq next : ptr)
  | SetRequest (rq : ptr)
  | PutRequest (rq : ptr)
  | AddRequest (cur : Z) (rq : ptr)
  | CompletedRequest (rq : ptr)
  | KvSet (id : Z) (key : string) (val : Z)
  | CausesDirty (causes : ptr) (new_id : Z) (inode : ptr) (pos : Z)
  | CausesFree (causes : ptr)
  | WriteEntry (cur sched_uniq : Z)     (* one turn of its loop *)
  | FsyncEntry.

Section Runs.
Context {K : KernelFns} {KO : KernelOk K}.

Definition run_handler (h : handler) : ST tb unit :=
  match h with
  | Dispatch force => tbucket_dispatch force;; ret tt
  | MergeRequest rq next => tbucket_merge_request rq next
  | SetRequest rq => tbucket_set_request rq;; ret tt
  | PutRequest rq => tbucket_put_request rq
  | AddRequest cur rq => tbucket_add_request cur rq
  | CompletedRequest rq => tbucket_completed_request rq
  | KvSet id key val => tbucket_kv_set id key val
  | CausesDirty causes new_id inode pos => tbucket_causes_dirty causes new_id inode pos
  | CausesFree causes => tbucket_causes_free causes
  | WriteEntry cur uniq => maybe_sleep cur uniq;; ret tt
  | FsyncEntry => tbucket_fsync_entry;; ret tt
  end.

(** What the kernel promises of its arguments when it calls a handler. *)
Definition callable (h : handler) (s : tb) : Prop :=
  match h with
  | MergeRequest rq _ => exists r q, rqs s !! rq = Some r /\ RQ_QUEUE r = Some q /\ rq ∈ qreqs s q
  | PutRequest rq => is_Some (rqs s !! rq)
  | AddRequest _ rq => is_Some (rqs s !! rq) /\ forall q, rq ∉ qreqs s q
  | CausesDirty causes _ inode _ => has_causes causes s /\ is_Some (inodes s !! inode)
  | CausesFree causes => has_causes causes s
  | _ => True
  end.

(** What the rest of the kernel may do in between: anything but touch the
    scheduler's data, as long as tags and requests stay in order and queued
    requests stay queued. *)
Record kernel_step (s s' : tb) : Prop := {
  ks_td : td s' = td s;
  ks_env : env_wf (kern s') (rqs s');
  ks_queued : queued_ok (td s') (rqs s');
}.

Inductive reachable : tb -> Prop :=
  | reach_init s q disks t disks' w' :
      env_wf (kern s) (rqs s) ->
      tbucket_init_queue q disks (k_world (kern s)) = Ok ((0, Some t, disks'), w') ->
      reachable (s <| kern ::= fun k => k <| k_world := w' |> |> <| td := t |>)
  | reach_kernel s s' : reachable s -> kernel_step s s' -> reachable s'
  | reach_handler h s s' :
      reachable s -> callable h s -> run_handler h s = Ok (tt, s') -> reachable s'.

(** ** Setting up *)

Lemma empty_td_wf b st a :
  acct_wf a -> acct_id a = DEFAULT_ACCOUNT -> batch_wf b ->
  td_wf (add_account {| td_heap := []; accounts_hash := hash_init; accounts := []; queues := [];
                        queues_count := 0; dispatch_nudger := None; dispatched := 0;
                        td_batch := b; run_serve_size := 0; stats := st |} a).
Proof.
  intros Hw Hid Hb. set (t := TData _ _ _ _ _ _ _ _ _ _).
  assert (Hn : hash_nodes (accounts_hash (add_account t a)) ≡ₚ [0%nat]).
  { simpl. change (acct_id a) with ((fun _ : nat => acct_id a) 0%nat).
    rewrite hash_add_nodes by apply hash_init_wf. by rewrite hash_init_nodes. }
  split; simpl; auto.
  - eapply (ht_wf_ext_in (fun _ => acct_id a)).
    + intros n Hin. simpl in Hn. rewrite Hn in Hin. by apply list_elem_of_singleton in Hin as ->.
    + apply (hash_add_wf (fun _ => acct_id a)), hash_init_wf.
  - apply NoDup_singleton.
  - exists 0%nat, a. done.
Qed.

(** How setting up ends. *)
Lemma init_queue_run q disks w :
  exists rv o disks' w', tbucket_init_queue q disks w = Ok ((rv, o, disks'), w') /\
    match o with
    | Some t => rv = 0 /\ td_wf t /\ roomy t /\
        (forall p a v, td_heap t !! p = Some a -> q_reqs (queue_of (p, v) a) = []) /\
        disks' = snd (ioctl_helper_register_disk (w_alloc w' (pred (w_nalloc w'))) disks q)
    | None => rv = - ENOMEM /\ disks' = disks /\ exists n, w_alloc w n = false
    end.
Proof.
  unfold tbucket_init_queue, bind at 1, kmalloc at 1.
  destruct (w_alloc w (w_nalloc w)) eqn:E1; simpl.
  2: { eexists _, None, _, _. split; [done |]. eauto. }
  unfold bind at 1, kmalloc at 1. set (w2 := alloc_step (alloc_step w)). simpl.
  destruct (new_account_run DEFAULT_ACCOUNT w2) as (o & w3 & E3 & Ho3 & Ho).
  rewrite (bind_ok _ _ _ _ _ E3). unfold iobatch_alloc, bind, kmalloc, gets, ret. simpl.
  assert (Hw3 : forall n, w_alloc w3 n = w_alloc w n) by (intros n; destruct Ho3 as (_ & _ & -> & _); done).
  rewrite !Hw3.
  destruct (w_alloc w (S (w_nalloc w))) eqn:E2.
  2: { destruct o; eexists _, None, _, _; (split; [done |]); eauto. }
  destruct o as [a|].
  2: { destruct Ho as [n Hn]. eexists _, None, _, _. split; [done |]. eauto. }
  destruct (w_alloc w (w_nalloc w3)) eqn:E4.
  2: { eexists _, None, _, _. split; [done |]. eauto. }
  destruct (w_alloc w (S (w_nalloc w3))) eqn:E5.
  2: { eexists _, None, _, _. split; [done |]. eauto. }
  destruct (iobatch_new_wf (junk_reqs (alloc_step (alloc_step w3))) BATCH_SIZE BATCH_BYTE_CAP)
    as (b & Hb & Hbw & Hbf); [done | done | done |].
  rewrite Hb. eexists _, (Some _), _, _. split; [done |]. destruct Ho as [F1 F2 F3 [F4 F5] _].
  split; [done |]. split; [by apply empty_td_wf |]. split_and!.
  - split; [done |]. by constructor.
  - intros p a' v Ha'. simpl in Ha'. apply list_lookup_singleton_Some in Ha' as [-> <-].
    unfold queue_of. simpl. by destruct v.
  - done.
Qed.

(** ** What a handler does to the queues

    To the block layer the scheduler is a set of queues and a dispatch list. *)

Record queues_state := Abs { waiting_in : qref -> list ptr; handed : list ptr }.
Definition abs (s : tb) : queues_state := Abs (qreqs s) (dispatch_list s).

(** The specification: what each handler may do to the queues and to the dispatch
    list, the latter up to its order, which the device chooses. *)
Inductive spec_step (h : handler) (x y : queues_state) : Prop :=
  | spec_quiet :
      (forall q, waiting_in y q = waiting_in x q) -> handed y = handed x ->
      (match h with Dispatch true | AddRequest _ _ | MergeRequest _ _ => False | _ => True end) ->
      spec_step h x y
  | spec_drain ring :
      h = Dispatch true -> NoDup ring -> (forall q, q ∉ ring -> waiting_in x q = []) ->
      (forall q, waiting_in y q = []) ->
      Permutation (handed y) (flat_map (waiting_in x) ring ++ handed x) -> spec_step h x y
  | spec_dispatch q rq :
      h = Dispatch false -> waiting_in x q = rq :: waiting_in y q ->
      (forall q', q' <> q -> waiting_in y q' = waiting_in x q') ->
      Permutation (handed y) (rq :: handed x) -> spec_step h x y
  | spec_add cur rq q :
      h = AddRequest cur rq -> waiting_in y q = waiting_in x q ++ [rq] ->
      (forall q', q' <> q -> waiting_in y q' = waiting_in x q') ->
      handed y = handed x -> spec_step h x y
  | spec_merge rq next q :
      h = MergeRequest rq next -> waiting_in y q = filter (fun r => r <> rq) (waiting_in x q) ->
      (forall q', q' <> q -> waiting_in y q' = waiting_in x q') ->
      handed y = handed x -> spec_step h x y.

Lemma frame_abs s s' :
  frame s s' -> (forall q, waiting_in (abs s') q = waiting_in (abs s) q) /\
                handed (abs s') = handed (abs s).
Proof. intros [C L _ _ _]. split; [intros q; by apply core_qreqs | done]. Qed.

Lemma misc_abs s s' :
  misc s s' -> forall q, waiting_in (abs s') q = waiting_in (abs s) q.
Proof. intros M q. simpl. unfold qreqs. by rewrite (mi_heap _ _ M). Qed.

(** ** The invariant holds in every run *)

(** A handler that moves no request. *)
Lemma quiet_handler_run h m P s :
  run_handler h = m -> keeps P m (fun _ => room false) -> tb_inv s -> P s ->
  (match h with Dispatch true | AddRequest _ _ | MergeRequest _ _ => False | _ => True end) ->
  exists s', run_handler h s = Ok (tt, s') /\ tb_inv s' /\ spec_step h (abs s) (abs s').
Proof.
  intros -> Hm [Hi Hr] HP Hh. destruct (Hm s Hi HP) as ([] & s' & E & Hi' & F & Hr').
  destruct (frame_abs _ _ F) as [Q L]. exists s'. split; [done |].
  split; [split; [done |]; by apply Hr' |]. by apply spec_quiet.
Qed.

Lemma run_drop {A} (m : ST tb A) s a s' : m s = Ok (a, s') -> (m;; ret tt) s = Ok (tt, s').
Proof. intros E. by rewrite (bind_ok _ _ _ _ _ E). Qed.

Lemma dispatch_handler_run s :
  tb_inv s -> exists s', run_handler (Dispatch false) s = Ok (tt, s') /\ tb_inv s' /\
    spec_step (Dispatch false) (abs s) (abs s').
Proof.
  intros Hi. destruct (dispatch_run s Hi) as (o & s1 & s' & E & Hi' & V & Ho).
  exists s'. split; [by apply (run_drop _ _ _ _ E) |]. split; [done |].
  destruct V as [q rq a a' s1 Hin T L _ _ _|us s1 I Hus _].
  - subst s'. destruct T as [_ _ _ T2 T3 _ _ _]. by eapply (spec_dispatch _ _ _ q rq).
  - destruct Ho as (M & L & _). pose proof (misc_trans_idle _ _ _ I M L) as [_ _ _ I4 I5 _ _ _].
    by apply spec_quiet.
Qed.

Lemma handler_run h s :
  tb_inv s -> callable h s ->
  exists s', run_handler h s = Ok (tt, s') /\ tb_inv s' /\ spec_step h (abs s) (abs s').
Proof.
  intros Hi Hc. assert (Hrm : room false s) by (by intros _; apply Hi).
  destruct h as [[|]|rq next|rq|rq|cur rq|rq|id key val|c id ino pos|c|cur uniq|]; simpl in Hc.
  - destruct (dispatch_force_run s Hi) as (s' & E & Hi' & _ & L & Q).
    exists s'. split; [by apply (run_drop _ _ _ _ E) |]. split; [done |].
    apply (spec_drain _ _ _ (queues (td s))); auto; [apply ring_nodup, Hi |].
    intros q Hq. apply not_in_ring; [apply Hi | done].
  - by apply dispatch_handler_run.
  - destruct Hc as (r & q & H1 & H2 & H3).
    destruct (merge_request_run s rq next r q Hi H1 H2 H3) as (s' & E & Hi' & Q1 & Q2 & L).
    exists s'. split_and!; auto. by eapply (spec_merge _ _ _ rq next q).
  - destruct (set_request_run s rq Hi) as (s' & E & Hi' & Etd & El).
    exists s'. split; [by apply (run_drop _ _ _ _ E) |]. split; [done |].
    apply spec_quiet; auto. intros q. simpl. unfold qreqs. by rewrite Etd.
  - destruct Hc as [r Hrq]. destruct (put_request_run s rq r Hi Hrq) as (s' & E & Hi' & Etd & El).
    exists s'. split_and!; auto.
    apply spec_quiet; auto. intros q. simpl. unfold qreqs. by rewrite Etd.
  - destruct Hc as [[r Hrq] Hn].
    destruct (add_request_run s cur rq r Hi Hrq Hn) as (p & a & s' & E & Hi' & _ & Q1 & Q2 & L & _).
    exists s'. split_and!; auto. by eapply (spec_add _ _ _ cur rq (target_queue p r)).
  - assert (M : misc s (s <| td ::= fun t => t <| dispatched ::= fun n => s32 (n - 1) |> |>)) by misc.
    eexists. split; [done |]. split; [by eapply misc_inv |]. apply spec_quiet; auto.
  - by eapply quiet_handler_run; [done | apply keeps_kv_set | | |].
  - destruct Hc as [Hc [ipos Hp]].
    by eapply quiet_handler_run; [done | apply (keeps_causes_dirty c id ino pos ipos) | | |].
  - by eapply quiet_handler_run; [done | apply keeps_causes_free | | |].
  - eapply quiet_handler_run; [done | | done | exact Hrm | done].
    eapply keeps_bind; [apply keeps_maybe_sleep | intros ?; by apply keeps_ret].
  - exists s. split; [done |]. split; [done |]. by apply spec_quiet.
Qed.

Lemma reachable_inv s : reachable s -> tb_inv s.
Proof.
  induction 1 as [s q disks t disks' w' He Hinit|s s' _ [[Ht _ _] Hr] [E1 E2 E3]|h s s' _ IH Hc Hrun].
  - destruct (init_queue_run q disks (k_world (kern s))) as (rv & o & d & w & E & Ho).
    rewrite Hinit in E. injection E as <- <- <- <-. destruct Ho as (_ & Ht & Hr & Hemp & _).
    split; [split|]; simpl; auto.
    + by eapply env_wf_same.
    + intros p a v rq Ha Hin. rewrite (Hemp p a v Ha) in Hin. by apply elem_of_nil in Hin.
  - split; [split|]; rewrite ?E1; auto. by rewrite E1 in E3.
  - destruct (handler_run h s IH Hc) as (s2 & E & Hi' & _). congruence.
Qed.

(** ** The life of the scheduler of a queue, with the registry of disks *)

(** [tbucket_init_queue] makes the scheduler; [reg] is whether its last allocation, that of the
    entry of the disk, succeeded. *)
Definition starts (q : ptr) (disks : disk_list) (reg : bool) (s' : tb) (disks' : disk_list) : Prop :=
  exists s t w', env_wf (kern s) (rqs s) /\
    tbucket_init_queue q disks (k_world (kern s)) = Ok ((0, Some t, disks'), w') /\
    reg = w_alloc w' (pred (w_nalloc w')) /\ s' = s <| kern ::= fun k => k <| k_world := w' |> |> <| td := t |>.
Definition moves (s s' : tb) : Prop :=
  kernel_step s s' \/ exists h, callable h s /\ run_handler h s = Ok (tt, s').
Definition alive (q : ptr) : bool -> tb -> disk_list -> Prop := life q (starts q) moves.

Lemma tb_alive_reachable q reg s disks : alive q reg s disks -> reachable s.
Proof.
  apply (life_keeps q (starts q) moves reachable).
  - intros ds r x ds' (s0 & t & w & He & E & _ & ->). by eapply reach_init.
  - intros x x' Hx [Hk|(h & Hc & E)]; [by eapply reach_kernel | by eapply reach_handler].
Qed.

Lemma tb_init_registers q w disks t disks' w' :
  tbucket_init_queue q disks w = Ok ((0, Some t, disks'), w') ->
  disks' = snd (ioctl_helper_register_disk (w_alloc w' (pred (w_nalloc w'))) disks q).
Proof.
  intros E. destruct (init_queue_run q disks w) as (rv & o & d & w1 & E1 & Ho). rewrite E in E1.
  injection E1 as <- <- <- <-. destruct Ho as (_ & _ & _ & _ & Ho). exact Ho.
Qed.

Lemma tb_starts_registers q disks reg s disks' :
  starts q disks reg s disks' -> disks' = snd (ioctl_helper_register_disk reg disks q).
Proof. intros (s0 & t & w & _ & E & -> & _). by eapply tb_init_registers. Qed.

(** How [tbucket_exit_queue] ends. *)
Definition exits (q : ptr) (reg : bool) (t : tbucket_data) (disks : disk_list) : Prop :=
  if reg then exists t' disks', tbucket_exit_queue q t disks = Ok (t', disks') /\ q ∉ disks'
  else tbucket_exit_queue q t disks = Fault (BUG 108).

Lemma tb_exit_run q (reg : bool) t disks :
  (if reg then exists disks', ioctl_helper_unregister_disk disks q = Ok disks' /\ q ∉ disks'
   else ioctl_helper_unregister_disk disks q = Fault (BUG 108)) -> exits q reg t disks.
Proof.
  unfold exits, tbucket_exit_queue. destruct reg; [intros (disks' & -> & Hn); by eexists _, disks' | by intros ->].
Qed.

(** C4: the scheduler crashes the kernel in one way only.  In every run, from
    [tbucket_init_queue] on and whatever the rest of the kernel and the schedulers of other queues do in between, each
    handler that is called returns: no [BUG_ON] fires, no NULL pointer is
    dereferenced and no array is accessed out of bounds, whichever allocations
    fail; and the state stays well formed.  [tbucket_exit_queue], which ends the run, returns and takes the disk out of the
    registry if [tbucket_init_queue] could register it; if there was no memory for the entry then, which
    [tbucket_init_queue] ignores, it runs into the BUG_ON of ioctl_helper.c. *)
Theorem tbucket_no_fault q reg s disks :
  alive q reg s disks ->
  (forall h, callable h s -> exists s', run_handler h s = Ok (tt, s') /\ alive q reg s' disks /\ tb_inv s') /\
  (if reg then exists t' disks', tbucket_exit_queue q (td s) disks = Ok (t', disks') /\ q ∉ disks'
   else tbucket_exit_queue q (td s) disks = Fault (BUG 108)).
Proof.
  intros Ha. pose proof (tb_alive_reachable _ _ _ _ Ha) as Hr. split.
  - intros h Hc. destruct (handler_run h s (reachable_inv s Hr) Hc) as (s' & E & Hi' & _).
    exists s'. split_and!; auto. eapply life_step; [exact Ha |]. right. by exists h.
  - apply tb_exit_run, (life_unregister q (starts q) moves (tb_starts_registers q) reg s disks Ha).
Qed.

(** C6: the scheduler implements a set of FIFO queues: whatever it does with
    accounts, tokens and batches on the way, a handler appends the request it is
    given to one queue, removes the request that merging names, hands over the front
    of one queue or all queues, or leaves all requests where they are. *)
Theorem tbucket_refines_queues s h :
  reachable s -> callable h s ->
  exists s', run_handler h s = Ok (tt, s') /\ spec_step h (abs s) (abs s').
Proof.
  intros Hr Hc. destruct (handler_run h s (reachable_inv s Hr) Hc) as (s' & E & _ & Hs). eauto.
Qed.

End Runs.
