(* ===== verification/TBucketExamples.v ===== *)
(** * Token-bucket scheduler: concrete runs

    A small machine on which the scheduler runs: memory never runs out and the
    clock moves by one second per reading.  The states below are reached by
    running the handlers. *)

From S2P Require Import Prelude Keeps CInt Kernel DiskSim IoBatch HashTable CauseTags Tags Queue IoctlHelper Registry.
From S2P Require Import TBucket TBucketTokens TBucketInv TBucketFrame TBucketCharge TBucketSafe.
From S2P Require Import TBucketDispatch TBucketRing TBucketHandlers TBucketRuns.

Definition w0 : world :=
  World (fun n => Timespec (Z.of_nat n + 100) 0) (fun n => Z.of_nat n) (fun _ => true) (fun _ => 0) 0 0.

(** Two cause lists: one names account 7, the other accounts 7 and 8. *)
Definition causes1 : cause_list := CauseList 1 SPLIT_DATA [7] 1 None 1 4096 None 0.
Definition causes2 : cause_list := CauseList 1 SPLIT_DATA [7; 8] 2 None 1 4096 None 0.
Definition k0 : kernel :=
  Kern w0 (<[1%positive := causes1]> (<[2%positive := causes2]> ∅)) 3 0 0 0 0 [].

(** Two large reads, caused by account 7. *)
Definition read1 : request := Rq READ 8 0xa00000 [Bio 8 4096 None] (Some 1%positive) None.
Definition read2 : request := Rq READ 16 4096 [Bio 16 4096 None] (Some 1%positive) None.
Definition rqs0 : gmap ptr request := <[1%positive := read1]> (<[2%positive := read2]> ∅).

Definition td_none : tbucket_data :=
  TData [] [] [] [] 0 None 0 (IoBatch (DiskSim 0) [] 0 0 0 0 0) 0
    (Stats None 0 0 0 0 0 0 0 0 0 (Timespec 0 0) (Timespec 0 0)).
Definition machine : tb := TB k0 rqs0 {[1%positive := 0]} [] 1 true td_none.

(** The scheduler is set up on the machine. *)
Definition td0 : tbucket_data :=
  match tbucket_init_queue 1%positive [] w0 with
  | Ok ((_, Some t, _), _) => t
  | _ => td_none
  end.
Definition w1 : world :=
  match tbucket_init_queue 1%positive [] w0 with Ok (_, w) => w | _ => w0 end.
Definition s0 : tb := machine <| kern ::= fun k => k <| k_world := w1 |> |> <| td := td0 |>.

Lemma machine_env : env_wf k0 rqs0.
Proof.
  assert (Hc : forall p c, k_causes k0 !! p = Some c ->
    (c = causes1 \/ c = causes2) /\ (p < 3)%positive).
  { simpl. intros p c. rewrite !lookup_insert. repeat case_decide; subst; intros Hl; simplify_eq; (split; [auto | lia]). }
  split; [split | |].
  - intros p c [[->| ->] _]%Hc; split; try done; simpl.
    + apply NoDup_singleton.
    + apply list.NoDup_cons. split; [by intros [=]%list_elem_of_singleton | apply NoDup_singleton].
  - intros p c [_ H]%Hc. exact H.
  - intros p c [[->| ->] _]%Hc; unfold MAX_IO; simpl; lia.
  - assert (Hr : forall r, r = read1 \/ r = read2 -> request_ok k0 r).
    { intros r [->| ->]; (split; [repeat constructor; simpl; try lia; done |]);
        intros p [= <-]; by eexists. }
    intros rq r. unfold rqs0. rewrite !lookup_insert. repeat case_decide; intros; simplify_eq; auto.
Qed.

Lemma s0_reachable : reachable s0.
Proof.
  apply (reach_init machine 1%positive [] td0 [1%positive] w1); [apply machine_env |].
  vm_compute. reflexivity.
Qed.

(** Running handlers. *)
Definition exec (h : handler) (s : tb) : tb :=
  match run_handler h s with Ok (_, s') => s' | Fault _ => s end.

Lemma exec_reachable h s : reachable s -> callable h s -> reachable (exec h s).
Proof.
  intros Hr Hc. destruct (handler_run h s (reachable_inv s Hr) Hc) as (s' & E & _).
  unfold exec. rewrite E. by eapply reach_handler.
Qed.

Lemma not_waiting s rq : tb_inv0 s -> rq ∉ waiting s -> forall q, rq ∉ qreqs s q.
Proof.
  intros Hi Hn q Hin. destruct (decide (q ∈ queues (td s))) as [Hq|Hq].
  - apply Hn. unfold waiting. apply list_elem_of_In, in_flat_map. exists q.
    by rewrite <- !list_elem_of_In.
  - rewrite not_in_ring in Hin by done. by apply elem_of_nil in Hin.
Qed.

Definition s1 : tb := exec (AddRequest 7 1%positive) s0.
Definition s2 : tb := exec (AddRequest 7 2%positive) s1.
Definition s3 : tb := exec (Dispatch false) s2.

Lemma s1_reachable : reachable s1.
Proof.
  apply exec_reachable; [apply s0_reachable |]. split; [by eexists |].
  apply not_waiting; [apply reachable_inv, s0_reachable |].
  apply (bool_decide_unpack _). by vm_compute.
Qed.

Lemma s2_reachable : reachable s2.
Proof.
  apply exec_reachable; [apply s1_reachable |]. split; [by vm_compute; eexists |].
  apply not_waiting; [apply reachable_inv, s1_reachable |].
  apply (bool_decide_unpack _). by vm_compute.
Qed.

Lemma s3_reachable : reachable s3.
Proof. by apply exec_reachable; [apply s2_reachable |]. Qed.

(** ** A dispatch that gives up too early *)

(** The state after one more, unsuccessful, dispatch. *)
Definition s4 : tb :=
  match tbucket_dispatch false s3 with Ok (_, s) => s | Fault _ => s3 end.

(** The bound on the run of a queue can stall the scheduler: there is a run
    after which a read waits, its account is not throttled, and yet
    [tbucket_dispatch] dispatches nothing and arms no timer.  The queue that has
    served [RUN_SIZE_LIMIT] bytes is sent to the back of the ring and is not
    visited again by that call, even if every other queue is empty. *)
Theorem dispatch_can_stall :
  reachable s3 /\ waiting s3 = [2%positive] /\
  (exists a, td_heap (td s3) !! 1%nat = Some a /\ eligible (1%nat, false) a /\
             qreqs s3 (1%nat, false) = [2%positive]) /\
  tbucket_dispatch false s3 = Ok (0, s4) /\ waiting s4 = [2%positive] /\
  dispatch_nudger (td s4) = None.
Proof.
  split; [apply s3_reachable |].
  split; [by vm_compute |]. split.
  { eexists. split; [vm_compute; reflexivity |]. split; [right; left; done | by vm_compute]. }
  split; [vm_compute; reflexivity |]. split; by vm_compute.
Qed.

(** ** The theorems on these runs *)

Lemma s2_inv : tb_inv s2.
Proof. apply reachable_inv, s2_reachable. Qed.
Lemma s3_inv : tb_inv s3.
Proof. apply reachable_inv, s3_reachable. Qed.

(** Account 8 is set up with a rate and a limit. *)
Definition s5 : tb := exec (KvSet 8 "limit" 100000) (exec (KvSet 8 "rate" 1000) s3).
Lemma s5_reachable : reachable s5.
Proof. do 2 (apply exec_reachable; [|done]). apply s3_reachable. Qed.
Lemma s5_inv : tb_inv s5.
Proof. apply reachable_inv, s5_reachable. Qed.

Lemma qreqs_bounded s n :
  tb_inv0 s -> 0 < n -> Forall (fun q => Z.of_nat (length (qreqs s q)) < n) (queues (td s)) ->
  forall q, Z.of_nat (length (qreqs s q)) < n.
Proof.
  intros Hi Hn Hall q. destruct (decide (q ∈ queues (td s))) as [Hq|Hq].
  - rewrite list.Forall_forall in Hall. auto.
  - rewrite not_in_ring by done. done.
Qed.

(** The run with the registry; and one in which there is no memory for the entry of the disk. *)
Lemma s0_alive : alive 1 true s0 [1%positive].
Proof.
  eapply (life_boot _ _ _ _ []); [by apply not_elem_of_nil |]. exists machine, td0, w1.
  split; [apply machine_env |]. split; [vm_compute; reflexivity |]. by vm_compute.
Qed.

Lemma exec_alive h q reg s disks : alive q reg s disks -> callable h s -> alive q reg (exec h s) disks.
Proof.
  intros Ha Hc. destruct (handler_run h s (reachable_inv s (tb_alive_reachable _ _ _ _ Ha)) Hc) as (s' & E & _).
  unfold exec. rewrite E. eapply life_step; [exact Ha |]. right. by exists h.
Qed.

Lemma s2_alive : alive 1 true s2 [1%positive].
Proof.
  apply exec_alive; [apply exec_alive; [apply s0_alive |] |].
  - split; [by eexists |]. apply not_waiting; [apply reachable_inv, s0_reachable |].
    apply (bool_decide_unpack _). by vm_compute.
  - split; [by vm_compute; eexists |]. apply not_waiting; [apply reachable_inv, s1_reachable |].
    apply (bool_decide_unpack _). by vm_compute.
Qed.

Definition w0_short : world := w0 <| w_alloc := fun n => negb (n =? pred (w_nalloc w1))%nat |>.
Definition short_machine : tb := machine <| kern ::= fun k => k <| k_world := w0_short |> |>.
Definition s0_short : tb :=
  short_machine <| kern ::= fun k => k <| k_world := w0_short <| w_tick := w_tick w1 |> <| w_nalloc := w_nalloc w1 |> |> |>
                <| td := td0 |>.

Lemma s0_short_alive : alive 1 false s0_short [].
Proof.
  eapply (life_boot _ _ _ _ []); [by apply not_elem_of_nil |].
  exists short_machine, td0, (w0_short <| w_tick := w_tick w1 |> <| w_nalloc := w_nalloc w1 |>).
  split; [eapply env_wf_same; [apply machine_env | by split] |]. split; [vm_compute; reflexivity |]. by vm_compute.
Qed.

Lemma tbucket_no_fault_witness :
  (exists s', run_handler (Dispatch false) s2 = Ok (tt, s') /\ alive 1 true s' [1%positive] /\ tb_inv s') /\ (exists t' disks', tbucket_exit_queue 1 (td s2) [1%positive] = Ok (t', disks') /\ 1%positive ∉ disks') /\ tbucket_exit_queue 1 (td s0_short) [] = Fault (BUG 108).
Proof.
  split; [|split].
  - apply (tbucket_no_fault 1 true s2 [1%positive] s2_alive). exact I.
  - apply (tbucket_no_fault 1 true s2 [1%positive] s2_alive).
  - apply (tbucket_no_fault 1 false s0_short [] s0_short_alive).
Defined.

Lemma tbucket_refines_queues_witness :
  reachable s2 /\ waiting s2 = [1%positive; 2%positive] /\
  exists s', run_handler (Dispatch true) s2 = Ok (tt, s') /\ spec_step (Dispatch true) (abs s2) (abs s').
Proof.
  split; [apply s2_reachable |]. split; [by vm_compute |].
  apply (tbucket_refines_queues s2 (Dispatch true)); [apply s2_reachable | exact I].
Defined.

Lemma dispatch_force_drains_witness :
  tb_inv s2 /\
  exists s', tbucket_dispatch true s2 = Ok (s32 (Z.of_nat (length (waiting s2))), s') /\
    Permutation (dispatch_list s') (waiting s2 ++ dispatch_list s2) /\ waiting s' = [] /\ tb_inv s'.
Proof. split; [apply s2_inv |]. apply (dispatch_force_drains s2), s2_inv. Defined.

Lemma dispatch_one_or_none_witness :
  tb_inv s2 /\ exists rv s', tbucket_dispatch false s2 = Ok (rv, s') /\ tb_inv s'.
Proof.
  split; [apply s2_inv |].
  destruct (dispatch_one_or_none s2 s2_inv) as (rv & s' & E & Hi & _). eauto.
Defined.

Lemma dispatch_never_stalls_witness :
  waiting s2 <> [] /\ exists rv s', tbucket_dispatch false s2 = Ok (rv, s') /\
    (rv = 1 \/ (rv = 0 /\ armed s')).
Proof.
  split; [by vm_compute |]. apply (dispatch_never_stalls s2).
  - apply s2_inv.
  - by vm_compute.
  - apply qreqs_bounded; [apply s2_inv | done |]. apply (bool_decide_unpack _). by vm_compute.
  - by vm_compute.
  - by vm_compute.
Defined.

Lemma get_account_spec_witness :
  td_wf (td s0) /\ exists p s', get_account 9 s0 = Ok (p, s').
Proof.
  assert (Ht : td_wf (td s0)) by (apply reachable_inv, s0_reachable).
  split; [exact Ht |]. destruct (get_account_spec 9 s0 Ht) as (p & s' & a & E & _). eauto.
Defined.

Lemma settle_batches_charges_witness :
  td_wf (td s3) /\ exists s', settle_batches s3 = Ok (tt, s') /\ live (td_batch (td s')) = [].
Proof.
  assert (Ht : td_wf (td s3)) by apply s3_inv.
  split; [exact Ht |].
  destruct (settle_batches_charges s3 Ht) as (s' & E & Hl & _).
  - by vm_compute.
  - exists 1%nat. eexists. split; [vm_compute; reflexivity |]. by vm_compute.
  - eauto.
Defined.

Lemma s5_accounts : forall id, id ∈ items causes2 ->
  exists p a, td_heap (td s5) !! p = Some a /\ acct_id a = id.
Proof.
  intros id [->|[->|Hn]%elem_of_cons]%elem_of_cons.
  - exists 1%nat. eexists. split; [vm_compute; reflexivity | done].
  - exists 2%nat. eexists. split; [vm_compute; reflexivity | done].
  - by apply elem_of_nil in Hn.
Qed.

Lemma causes_dirty_splits_cost_witness :
  k_causes (kern s5) !! 2%positive = Some causes2 /\
  exists s', tbucket_causes_dirty 2 8 1 4096 s5 = Ok (tt, s').
Proof.
  assert (Hc : k_causes (kern s5) !! 2%positive = Some causes2) by (by vm_compute).
  split; [exact Hc |].
  destruct (causes_dirty_splits_cost s5 2 causes2 8 1 4096 0) as (s' & E & _).
  - apply s5_inv.
  - exact Hc.
  - apply (kernel_causes _ (ew_kernel _ _ machine_env) 2%positive). done.
  - by vm_compute.
  - apply list_elem_of_In. simpl. auto.
  - by vm_compute.
  - assert (Hd : dirty_cost causes2 4096 0 = 8192) by (by vm_compute). rewrite Hd. lia.
  - apply s5_accounts.
  - eauto.
Defined.

Lemma dirty_then_free_keeps_seek_witness :
  exists s1 sF a a1 a2, tbucket_causes_dirty 1 7 1 4096 s2 = Ok (tt, s1) /\
    tbucket_causes_free 1 s1 = Ok (tt, sF) /\ td_heap (td s2) !! 1%nat = Some a /\
    td_heap (td s1) !! 1%nat = Some a1 /\ td_heap (td sF) !! 1%nat = Some a2 /\ estimate a2 = s64 (estimate a + 4096).
Proof.
  destruct (td_heap (td s2) !! 1%nat) as [a|] eqn:Ha; [|by vm_compute in Ha].
  destruct (k_causes (kern s2) !! 1%positive) as [c|] eqn:Hc; [|by vm_compute in Hc].
  assert (Hid : acct_id a = 7).
  { enough (E : Some (acct_id a) = Some 7) by congruence.
    change (Some (acct_id a)) with (acct_id <$> Some a). rewrite <- Ha. by vm_compute. }
  assert (E : Some c = k_causes (kern s2) !! 1%positive) by (symmetry; exact Hc).
  vm_compute in E. injection E as Ec.
  destruct (dirty_then_free_keeps_seek s2 1 c 1 4096 0 1%nat a) as (s1 & sF & a1 & a2 & E1 & E2 & Ea & _ & E3 & E4).
  - apply s2_inv.
  - exact Hc.
  - rewrite Hid, Ec. reflexivity.
  - rewrite Ec. reflexivity.
  - rewrite Ec. simpl. lia.
  - rewrite Ec. unfold MAX_IO. simpl. lia.
  - vm_compute. reflexivity.
  - exact Ha.
  - rewrite Hid in E1. exists s1, sF, a, a1, a2.
    split; [exact E1 |]. split; [exact E2 |]. split; [reflexivity |]. split; [exact Ea |]. split; [exact E3 |]. exact E4.
Defined.

(** An account in debt. *)
Definition debtor : account :=
  Account 8 (queue_init 0) (queue_init 1) 1000 500 900 1100 50 0 0 0 [] (Timespec 90 0)
    (IoBatch (DiskSim 0) [] 0 0 0 0 0) 0.
Definition s6 : tb := put_acct 2 debtor s5.

Lemma debtor_range : acct_range debtor.
Proof. by split. Qed.

Lemma saturate_counts_caps_witness :
  acct_range debtor /\ count (saturate_counts debtor) = Z.min (count debtor) (limit debtor).
Proof.
  split; [apply debtor_range |]. apply (saturate_counts_caps debtor), debtor_range.
Defined.

Lemma refresh_count_pays_witness :
  td_heap (td s6) !! 2%nat = Some debtor /\ exists s', refresh_count 2 s6 = Ok (tt, s').
Proof.
  assert (Hn : now_of s6 = Timespec 108 0) by (vm_compute; reflexivity).
  assert (Ha : td_heap (td s6) !! 2%nat = Some debtor) by (vm_compute; reflexivity).
  split; [exact Ha |].
  destruct (refresh_count_pays s6 2 debtor) as (s' & a' & E & _); rewrite ?Hn;
    [exact Ha | apply debtor_range | | | | | | | | exists s'; exact E]; clear.
  all: repeat split; vm_compute; congruence.
Defined.

Lemma estimate_wait_pays_back_witness :
  count debtor = -250 /\ 100 <= estimate_wait_usecs debtor.
Proof.
  split; [reflexivity |].
  apply (estimate_wait_pays_back debtor); [apply debtor_range | by vm_compute | simpl; lia].
Defined.

Lemma normalize_timespec_same_witness :
  ts_normal (normalize_timespec (Timespec 5 (-1500000000))) /\
  ts_ns (normalize_timespec (Timespec 5 (-1500000000))) = 3500000000.
Proof. apply (normalize_timespec_same (Timespec 5 (-1500000000))); by vm_compute. Defined.

Lemma get_one_cause_spec_witness :
  exists v, get_one_cause read1 k0 = Ok (v, k0) /\ v = 7.
Proof.
  destruct (get_one_cause_spec k0 read1 [7]) as (v & E & _ & H & _).
  - change [7] with (items causes1 ++ []). eapply bio_ids_some; [done | done | constructor].
  - exists v. split; [exact E |]. apply H; [done |]. intros i Hi. by apply list_elem_of_singleton in Hi.
Defined.
