(* ===== verification/TBucketHost.v ===== *)
(** * The token-bucket scheduler under the file systems

    The hooks of the scheduler keep its promises to the code that dirties pages and frees cause
    lists ([HostOk], [FsHostOk]): from well-formed accounts they return, whatever memory there is, and leave
    the reference counts and the requests alone. *)

From S2P Require Import Prelude Keeps Partial CInt Kernel DiskSim IoBatch HashTable CauseTags CauseRefs Tags Queue IoctlHelper.
From S2P Require Import TBucket TBucketTokens TBucketInv TBucketFrame Buffers BuffersInv BuffersRuns BuffersFit StackLib.

Section Hooks.
Context {K : KernelFns} {KO : KernelOk K}.

(** The accounts are in order, and so are the requests in their queues. *)
Record accounts_ok (s : tb) : Prop := {
  ao_td : td_wf (td s);
  ao_roomy : TBucketInv.roomy (td s);
  ao_queued : queued_ok (td s) (rqs s);
}.

(** What the hooks leave alone. *)
Record unhurt (s s' : tb) : Prop := {
  uh_rqs : rqs s' = rqs s;
  uh_refs : same_refs (kern s) (kern s');
  uh_causes : forall p, has_causes p s -> has_causes p s';
}.

#[export] Instance unhurt_preorder : PreOrder unhurt.
Proof.
  split; [intros s; split; [done | reflexivity | done] |].
  intros s1 s2 s3 [A1 A2 A3] [B1 B2 B3]. split; [congruence | by transitivity (kern s2) | auto].
Qed.

Abbreviation holds := (Keeps.keeps accounts_ok unhurt).

Lemma unhurt_same s s' : rqs s' = rqs s -> k_causes (kern s') = k_causes (kern s) -> k_next (kern s') = k_next (kern s) -> unhurt s s'.
Proof. intros E1 E2 E3. split; [done | split; by rewrite ?E2 | unfold has_causes; by rewrite E2]. Qed.

Lemma accounts_ok_same s s' : accounts_ok s -> td s' = td s -> rqs s' = rqs s -> accounts_ok s'.
Proof. intros [H1 H2 H3] E1 E2. split; rewrite ?E1, ?E2; done. Qed.

Lemma accounts_ok_put s p a a' :
  accounts_ok s -> td_heap (td s) !! p = Some a -> same_shape a a' -> accounts_ok (put_acct p a' s).
Proof.
  intros [H1 H2 H3] Ha Hs. pose proof Hs as (E1 & _ & _ & E4 & _).
  assert (Hw : acct_wf a) by (eapply Forall_lookup_1; [apply (tw_accts _ H1) | exact Ha]). split; simpl.
  - eapply td_wf_put; eauto. by eapply same_shape_wf.
  - apply roomy_put; [done |]. rewrite E4. destruct H2 as [_ H2]. by eapply Forall_lookup_1 in H2; [|exact Ha].
  - intros q b w rq Hb Hrq. simpl in Hb. destruct (decide (p = q)) as [->|Hne].
    + rewrite list_lookup_insert_eq in Hb by (by apply lookup_lt_Some in Ha). injection Hb as <-.
      rewrite (same_shape_queue _ _ _ Hs) in Hrq. by eapply H3.
    + rewrite list_lookup_insert_ne in Hb by done. by eapply H3.
Qed.

Lemma accounts_ok_add s a account_id :
  accounts_ok s -> fresh_acct account_id a -> (forall p b, td_heap (td s) !! p = Some b -> acct_id b <> account_id) ->
  accounts_ok (s <| td ::= fun t => add_account t a |>).
Proof.
  intros [H1 [H2 H2'] H3] [Hid Hw Hf [Hr1 Hr2] _] Hnew. split; simpl.
  - apply td_wf_add; auto. by rewrite Hid.
  - split; [done |]. apply Forall_app. split; [done | by constructor].
  - intros p b w rq Hb Hrq. simpl in Hb. apply lookup_app_Some in Hb as [Hb|[_ Hb]]; [by eapply H3 |].
    apply list_lookup_singleton_Some in Hb as [_ <-]. unfold queue_of in Hrq. simpl in Hrq.
    destruct w; rewrite ?Hr1, ?Hr2 in Hrq; by apply elem_of_nil in Hrq.
Qed.

Lemma holds_get_account account_id :
  holds (fun _ => True) (get_account account_id) (fun p s => has_acct p s).
Proof.
  intros s Hs _. destruct (get_account_run account_id s (ao_td _ Hs)) as (p & s' & E & Hg). exists p, s'. split; [done |].
  destruct Hg as [p a Ha _|a w' Hnew Hf _|p a w' n _ _ _ Ha _].
  - split_and!; [done | reflexivity | by exists a].
  - split_and!; [|by apply unhurt_same | by eexists; simpl; rewrite lookup_app_r, Nat.sub_diag by lia].
    apply (accounts_ok_add _ _ account_id); [by eapply accounts_ok_same | done | done].
  - split_and!; [by eapply accounts_ok_same | by apply unhurt_same | by exists a].
Qed.

Lemma holds_upd p f :
  (forall a, same_shape a (f a)) -> holds (has_acct p) (upd_acct p f) (fun _ => has_acct p).
Proof.
  intros Hf s Hs [a Ha]. exists tt, (put_acct p (f a) s). split; [by apply upd_acct_run |].
  split_and!; [by eapply accounts_ok_put | by apply unhurt_same | eexists; by eapply put_acct_lookup].
Qed.

(** A change of the numbers of an account, and its saturation. *)
Lemma holds_charge p f :
  (forall a, same_shape a (f a)) -> holds (has_acct p) (upd_acct p f;; upd_acct p saturate_counts) (fun _ _ => True).
Proof.
  intros Hf. eapply keeps_bind; [by apply holds_upd |]. intros ?.
  eapply keeps_conseq; [apply holds_upd; intros; apply saturate_same_shape | done | done].
Qed.

Lemma holds_read line p : holds (has_causes p) (in_kern (read_causes line p)) (fun _ => has_causes p).
Proof.
  intros s Hs [c Hc]. exists c, s. unfold in_kern, zoom, read_causes. rewrite Hc. split; [by destruct s |].
  split_and!; [done | reflexivity | by exists c].
Qed.

Lemma holds_causes_free causes : holds (has_causes causes) (tbucket_causes_free causes) (fun _ _ => True).
Proof.
  unfold tbucket_causes_free. eapply keeps_bind; [apply holds_read |]. intros c.
  eapply keeps_conseq; [apply (keeps_for_each _ _ (fun _ => True)) | done | done]. intros id _.
  eapply keeps_bind; [apply holds_get_account |]. intros p. apply holds_charge. intros a. by split_and!.
Qed.

Lemma holds_acct line p : holds (has_acct p) (acct line p) (fun _ => has_acct p).
Proof. intros s Hs [a Ha]. exists a, s. split; [by apply acct_run |]. split_and!; [done | reflexivity | by exists a]. Qed.

Lemma holds_set_cost p cost : holds (fun _ => True) (in_kern (causes_set_cost p cost)) (fun _ _ => True).
Proof.
  intros s Hs _. eexists _, _. split; [reflexivity |]. split_and!; [by eapply accounts_ok_same | | done].
  split; [done | by apply same_refs_alter |]. intros q [c Hc]. unfold has_causes. simpl. rewrite lookup_alter.
  case_decide; [subst q | by rewrite Hc]. rewrite Hc. by eexists.
Qed.

Lemma holds_causes_dirty causes new_id inode pos ipos :
  holds (fun s => has_causes causes s /\ inodes s !! inode = Some ipos)
    (tbucket_causes_dirty causes new_id inode pos) (fun _ _ => True).
Proof.
  unfold tbucket_causes_dirty. intros s Hs [[c Hc] Hino].
  rewrite (bind_ok _ _ s c s) by (unfold in_kern, zoom, read_causes; rewrite Hc; by destruct s).
  rewrite (bind_ok _ _ s s s) by done. cbv beta. rewrite Hino. unfold deref. rewrite (bind_ok _ _ s ipos s) by done.
  match goal with |- exists a s', ?m s = _ /\ _ => enough (Hm : holds (fun _ => True) m (fun _ _ => True)) by (by apply Hm) end.
  eapply (keeps_bind _ _ _ (fun _ _ => True)).
  { destruct (_ <=? 0); [|by apply keeps_ret]. eapply keeps_bind; [apply holds_set_cost |]. intros ?. by apply keeps_ret. }
  intros tot. apply (keeps_bind _ _ _ (fun _ _ => True)).
  { intros s1 Hs1 _. eexists _, _. split; [reflexivity |]. split_and!; [by eapply accounts_ok_same | by apply unhurt_same | done]. }
  intros _. apply keeps_for_each. intros id _. eapply keeps_bind; [apply holds_get_account |]. intros p.
  eapply keeps_bind; [apply holds_acct |]. intros b. apply holds_charge. intros a. by split_and!.
Qed.
End Hooks.

(** ** The interfaces *)

Section TbHost.
Context {K : KernelFns} {KO : KernelOk K} (q0 : ptr).

(** The scheduler runs on the queue [q0]; the disks of other queues have none with hooks. *)
Definition tb_host : Host tb := {|
  ker := kern;
  set_ker k s := s <| kern := k |>;
  queue_sched_uniq q s := if decide (q = q0) then q_sched_uniq s else 0;
  elevator_causes_free_fn q s := if decide (q = q0) then Some tbucket_causes_free else None;
|}.
#[local] Existing Instance tb_host.

(** The inodes it knows are files on its disk. *)
Definition tb_fs : FsHost tb := {|
  inode_queue inode s := match inodes s !! inode with Some _ => Some q0 | None => None end;
  elevator_causes_dirty_fn q s :=
    if decide (q = q0) then Some (fun causes task inode pos => tbucket_causes_dirty causes (task_account_id task) inode pos)
    else None;
|}.
#[local] Existing Instance tb_fs.

Definition tb_host_ok : HostOk tb.
Proof.
  refine {| host_inv := accounts_ok |}.
  - done.
  - by intros [].
  - intros k s Hs _. by eapply accounts_ok_same.
  - intros s p c Hs Hc. simpl in Hc.
    assert (Hnot : exists s', ret tt s = Ok (tt, s') /\ same_refs (kern s) (kern s') /\
      forall k, k_causes k = delete p (k_causes (kern s')) -> k_world k = k_world (kern s') -> accounts_ok (s' <| kern := k |>)).
    { exists s. split_and!; [done | done |]. intros k _ _. by eapply accounts_ok_same. }
    unfold notify. destruct (callback_q c) as [q|]; [|done]. unfold bind, gets. destruct (_ =? _); [|done].
    cbn [elevator_causes_free_fn tb_host]. case_decide; [|done].
    destruct (holds_causes_free p s Hs) as ([] & s' & E & Hs' & [_ Hr _] & _); [by exists c |].
    exists s'. split_and!; [done | done |]. intros k _ _. by eapply accounts_ok_same.
Defined.
#[local] Existing Instance tb_host_ok.

Lemma tb_fs_ok : FsHostOk tb.
Proof.
  split. intros s inode q p c task pos size Hs Hq Hc. simpl in Hq, Hc.
  destruct (inodes s !! inode) as [ipos|] eqn:Ei; [|done]. injection Hq as <-.
  assert (Htell : exists s1, match callback_q c with
      | None => (let! uniq := gets (queue_sched_uniq q0) in
                 in_kernel (write_causes p (fun c => c <| callback_q := Some q0 |> <| cl_sched_uniq := uniq |> <| cl_size := u64 size |>)))
      | Some _ => ret tt end s = Ok (tt, s1) /\ accounts_ok s1 /\ same_refs (kern s) (kern s1) /\ has_causes p s1 /\
      inodes s1 !! inode = Some ipos).
  { destruct (callback_q c); [exists s; split_and!; [done | done | done | by exists c | done] |].
    eexists. split; [reflexivity |]. split_and!; [by eapply accounts_ok_same | by apply same_refs_alter | | done].
    unfold has_causes. simpl. rewrite lookup_alter_eq, Hc. by eexists. }
  destruct Htell as (s1 & E1 & Hs1 & Hr1 & [c1 Hc1] & Ei1). unfold tell_scheduler. rewrite (bind_ok _ _ _ _ _ E1).
  unfold bind at 1, gets. cbn [elevator_causes_dirty_fn tb_fs]. rewrite decide_True by done.
  rewrite (bind_ok _ _ s1 c1 s1) by (by apply in_kernel_read). unfold bind at 1.
  destruct (_ =? _); [|by exists s1].
  destruct (holds_causes_dirty p (task_account_id task) inode pos ipos s1 Hs1) as ([] & s' & E & Hs' & [_ Hr _] & _).
  { split; [by exists c1 | done]. }
  exists s'. split_and!; [done | done | by transitivity (kern s1)].
Qed.
#[local] Existing Instance tb_fs_ok.
End TbHost.
