(* ===== verification/TBucketAloof.v ===== *)
(** * Token-bucket scheduler: what the handlers leave alone

    Whatever a handler does, if it returns it has not changed the reference counts of the cause lists,
    their sizes, the work items, and the cause lists of the requests ([undisturbed], [fit_tags]); this
    goes through the text of the handlers, with no invariant.  Only [tbucket_set_request] and
    [tbucket_put_request] are about the references of a request. *)

From S2P Require Import Prelude Partial CInt Kernel DiskSim IoBatch HashTable CauseTags CauseRefs Tags Queue.
From S2P Require Import TBucket TBucketTokens TBucketInv TBucketFrame TBucketRuns Buffers BuffersFit StackLib TBucketHost.

(** ** What the handlers leave alone *)

(** The tags of the requests. *)
Definition tags (s : tb) : gmap ptr (list bio * option ptr) := (fun r => (rq_bio r, RQ_CAUSES r)) <$> rqs s.

(** Facts that nothing the handlers do to their own data can change. *)
Record aloof (P : tb -> Prop) : Prop := {
  al_td : forall s t, P s -> P (s <| td := t |>);
  al_list : forall s l, P s -> P (s <| dispatch_list := l |>);
  al_inodes : forall s i, P s -> P (s <| inodes := i |>);
  al_world : forall s w, P s -> P (s <| kern ::= fun k => k <| k_world := w |> |>);
  al_write : forall s p f, mild f -> P s -> P (s <| kern ::= fun k => k <| k_causes ::= alter f p |> |>);
  al_add : forall cl id, stable P (in_kern (__cause_list_add cl id));
  al_queue : forall s rq q, P s -> P (s <| rqs ::= alter (fun r => r <| RQ_QUEUE := Some q |>) rq |>);
}.

Section Aloof.
Context {K : KernelFns} {P : tb -> Prop} (AL : aloof P).

Lemma stable_td f : stable P (upd_td f).
Proof. apply stable_modify. intros s Hs. exact (al_td _ AL s (f (td s)) Hs). Qed.
Lemma stable_acct line p : stable P (acct line p).
Proof. apply stable_reads. intros s a s'. unfold acct. by case_match; intros; simplify_eq. Qed.
Lemma stable_get_rq line rq : stable P (get_rq line rq).
Proof. apply stable_reads. intros s a s'. unfold get_rq. by case_match; intros; simplify_eq. Qed.
Lemma stable_clock {A} (m : ST world A) : stable P (in_clock m).
Proof.
  intros s a s' Hs. unfold in_clock, in_kern, in_world, zoom. destruct (m _) as [[b w]|]; [|done].
  intros [= <- <-]. exact (al_world _ AL s w Hs).
Qed.
Lemma stable_kern_write p f : mild f -> stable P (in_kern (write_causes p f)).
Proof. intros Hf s a s' Hs [= <- <-]. exact (al_write _ AL s p f Hf Hs). Qed.
Lemma stable_kern_reads {A} (m : ST kernel A) : (forall k, stable (eq k) m) -> stable P (in_kern m).
Proof.
  intros Hm. apply stable_reads. intros s a s'. unfold in_kern, zoom. destruct (m (kern s)) as [[b k]|] eqn:E; [|done].
  intros [= <- <-]. rewrite <- (Hm (kern s) (kern s) b k eq_refl E). by destruct s.
Qed.
#[local] Hint Resolve stable_same_read stable_ret stable_lift : reads.
Ltac reads := repeat first [solve [eauto 2 with reads nocore] | stable_step].

Lemma stable_sanity r : stable P (in_kern (request_sanity_check r)).
Proof. apply stable_kern_reads. intros k. unfold request_sanity_check, sanity_check_bio. reads. Qed.
Lemma stable_one_cause r : stable P (in_kern (get_one_cause r)).
Proof.
  apply stable_kern_reads. intros k. unfold get_one_cause. generalize DEFAULT_ACCOUNT.
  induction (rq_bio r) as [|b bs IH]; intros rv; simpl; [apply stable_ret |].
  destruct (bio_uniq_causes r b); [|apply IH]. apply stable_bind; [apply stable_same_read |]. intros c.
  destruct (one_cause rv (items c)); [apply stable_ret | apply IH].
Qed.
Lemma stable_kern_read line p : stable P (in_kern (read_causes line p)).
Proof. apply stable_kern_reads. intros k. apply stable_same_read. Qed.

#[local] Hint Resolve stable_ret stable_lift stable_gets stable_td stable_acct stable_get_rq stable_clock stable_kern_read
  stable_sanity stable_one_cause al_add : aloof.
#[local] Hint Extern 1 (partial _ (upd_stats _) _) => apply stable_td : aloof.
#[local] Hint Extern 1 (partial _ (upd_acct _ _) _) => apply stable_td : aloof.
#[local] Hint Extern 1 (partial _ (in_kern (causes_set_cost _ _)) _) => apply stable_kern_write; done : aloof.
#[local] Hint Extern 1 (partial _ (in_kern (write_causes _ _)) _) => apply stable_kern_write; done : aloof.
Ltac aloof := repeat first [solve [eauto 2 with aloof nocore] | stable_step].

Lemma stable_get_account id : stable P (get_account id).
Proof. unfold get_account. aloof. Qed.
Lemma stable_refresh p : stable P (refresh_count p).
Proof. unfold refresh_count. aloof. Qed.
#[local] Hint Resolve stable_get_account stable_refresh : aloof.

Lemma stable_settle : stable P settle_batches.
Proof. unfold settle_batches, charge_account. aloof. Qed.
Lemma stable_batch_cause c off full id : stable P (batch_cause c off full id).
Proof. unfold batch_cause. aloof. Qed.
#[local] Hint Resolve stable_settle stable_batch_cause : aloof.
Lemma stable_disk_accounting causes off : stable P (do_disk_accounting causes off).
Proof. unfold do_disk_accounting. aloof. Qed.
#[local] Hint Resolve stable_disk_accounting : aloof.
Lemma stable_account_for_causes causes off size : stable P (account_for_causes causes off size).
Proof. unfold account_for_causes. aloof. Qed.
#[local] Hint Resolve stable_account_for_causes : aloof.
Lemma stable_account_for_req r : stable P (account_for_req r).
Proof. unfold account_for_req, account_for_bio, bio_tagged, account_for_item. aloof. Qed.
#[local] Hint Resolve stable_account_for_req : aloof.
Lemma stable_dispatch_sort q rq : stable P (dispatch_sort q rq).
Proof. unfold dispatch_sort. aloof. apply stable_modify. intros s Hs. exact (al_list _ AL s _ Hs). Qed.
Lemma stable_pop q : stable P (pop_queue q).
Proof. unfold pop_queue. aloof. Qed.
#[local] Hint Resolve stable_dispatch_sort stable_pop : aloof.
Lemma stable_drain fuel q rv : stable P (drain_queue fuel q rv).
Proof. revert rv. induction fuel as [|fuel IH]; intros rv; simpl; aloof. Qed.
#[local] Hint Resolve stable_drain : aloof.
Lemma stable_loop n min sw : stable P (dispatch_loop n min sw).
Proof. revert min sw. induction n as [|n IH]; intros min sw; simpl; aloof. Qed.
#[local] Hint Resolve stable_loop : aloof.
Lemma stable_dispatch force : stable P (tbucket_dispatch force).
Proof. unfold tbucket_dispatch, tbucket_dispatch_force. aloof. Qed.
Lemma stable_merge rq next : stable P (tbucket_merge_request rq next).
Proof. unfold tbucket_merge_request. aloof. Qed.
Lemma stable_add_request cur rq : stable P (tbucket_add_request cur rq).
Proof.
  unfold tbucket_add_request, count_sanity. aloof. apply stable_modify. intros s Hs. exact (al_queue _ AL s rq _ Hs).
Qed.
Lemma stable_kv_set id key val : stable P (tbucket_kv_set id key val).
Proof. unfold tbucket_kv_set. aloof. Qed.
Lemma stable_causes_free causes : stable P (tbucket_causes_free causes).
Proof. unfold tbucket_causes_free. aloof. Qed.
Lemma stable_causes_dirty causes id inode pos : stable P (tbucket_causes_dirty causes id inode pos).
Proof.
  unfold tbucket_causes_dirty. aloof. apply stable_modify. intros s Hs. exact (al_inodes _ AL s _ Hs).
Qed.
Lemma stable_sleep cur uniq : stable P (maybe_sleep cur uniq).
Proof. unfold maybe_sleep. aloof. Qed.
#[local] Hint Resolve stable_dispatch stable_merge stable_add_request stable_kv_set stable_causes_free stable_causes_dirty
  stable_sleep : aloof.

(** The handlers that do not change the tags of a request. *)
Definition tagless (h : handler) : bool :=
  match h with SetRequest _ | PutRequest _ => false | _ => true end.

Lemma stable_handler h : tagless h = true -> stable P (run_handler h).
Proof.
  destruct h; intros Hh; try done; simpl; unfold tbucket_completed_request, tbucket_fsync_entry; aloof.
Qed.
End Aloof.

(** ** Two facts of that kind *)

Lemma tags_alter s rq q : tags (s <| rqs ::= alter (fun r => r <| RQ_QUEUE := Some q |>) rq |>) = tags s.
Proof.
  unfold tags. simpl. apply map_eq. intros x. rewrite !lookup_fmap, lookup_alter.
  case_decide; [subst x | done]. by destruct (rqs s !! rq).
Qed.

(** The references, the work items and the tags of the requests. *)
Record undisturbed (s0 s : tb) : Prop := {
  ud_refs : same_refs (kern s0) (kern s);
  ud_works : k_works (kern s) = k_works (kern s0);
  ud_tags : tags s = tags s0;
}.

Lemma undisturbed_aloof s0 : aloof (undisturbed s0).
Proof.
  split.
  1-3: intros s x [H1 H2 H3]; by split.
  - intros s w [H1 H2 H3]. split; [by destruct H1; split | done | done].
  - intros s p f [Hf _ _] [H1 H2 H3]. split; [|done | done]. transitivity (kern s); [done |]. by apply same_refs_alter.
  - intros cl id s a s' [H1 H2 H3]. unfold in_kern, zoom. destruct (__cause_list_add _ _ _) as [[rv k]|] eqn:E; [|done].
    intros [= <- <-]. split; [|simpl; by rewrite (add_works _ _ _ _ _ E) | done]. transitivity (kern s); [done |]. by eapply add_refs.
  - intros s rq q [H1 H2 H3]. split; [done | done |]. by rewrite tags_alter.
Qed.

(** The sizes of the lists, the work items, the tags. *)
Definition fit_tags (works : list (option ptr)) (t : gmap ptr (list bio * option ptr)) (s : tb) : Prop :=
  heap_fits works none (kern s) /\ tags s = t.

Lemma fit_tags_aloof works t : aloof (fit_tags works t).
Proof.
  split.
  1-3: intros s x [H1 H2]; by split.
  - intros s w [H1 H2]. split; [by eapply fits_same | done].
  - intros s p f [_ Hi Hs] [H1 H2]. split; [|done]. apply (fits_alter works none); [done | | done].
    intros c [[Hc1 Hc2] Hc3]. destruct (Hi c) as [E1 E2]. split; [split; by rewrite ?E1, ?E2 | by rewrite Hs].
  - intros cl id s a s' [H1 H2]. unfold in_kern, zoom. destruct (__cause_list_add _ _ _) as [[rv k]|] eqn:E; [|done].
    intros [= <- <-]. split; [by eapply (stable_add works none) | done].
  - intros s rq q [H1 H2]. split; [done |]. by rewrite tags_alter.
Qed.

(** ** The hooks leave the queues alone *)

Definition queued_as (x : queues_state) (s : tb) : Prop :=
  (forall q, qreqs s q = waiting_in x q) /\ dispatch_list s = handed x.

Section Queued.
Context {K : KernelFns} (x : queues_state).

Lemma queued_same s s' : queued_as x s -> td_heap (td s') = td_heap (td s) -> dispatch_list s' = dispatch_list s -> queued_as x s'.
Proof. intros [H1 H2] E1 E2. split; [intros q; unfold qreqs; rewrite E1; apply H1 | by rewrite E2]. Qed.

Lemma queued_upd p f : (forall a, same_shape a (f a)) -> stable (queued_as x) (upd_acct p f).
Proof.
  intros Hf. apply stable_modify. intros s [H1 H2]. split; [|done]. intros q. rewrite <- H1. unfold qreqs. simpl.
  destruct (decide (queue_to_account q = p)) as [E|E].
  - rewrite E, list_lookup_alter_eq. destruct (td_heap (td s) !! p) as [a|]; simpl; [by rewrite (same_shape_queue _ _ _ (Hf a)) | done].
  - by rewrite list_lookup_alter_ne by done.
Qed.

Lemma queued_add s a : queued_as x s -> q_reqs (rqueue a) = [] -> q_reqs (wqueue a) = [] ->
  queued_as x (s <| td ::= fun t => add_account t a |>).
Proof.
  intros [H1 H2] E1 E2. split; [|done]. intros q. rewrite <- H1. unfold qreqs. simpl.
  destruct (td_heap (td s) !! queue_to_account q) as [b|] eqn:E; [by rewrite (lookup_app_l_Some _ _ _ _ E) |].
  rewrite lookup_app_r by (by apply lookup_ge_None). destruct (_ - _)%nat; simpl; [|done].
  unfold queue_of. destruct (snd q); by rewrite ?E1, ?E2.
Qed.

Lemma queued_get_account id : stable (queued_as x) (get_account id).
Proof.
  intros s p s' Hs. unfold get_account. rewrite (bind_ok _ _ s (td s) s) by done.
  destruct (find_account (td s) id); [by intros [= <- <-] |].
  destruct (new_account_run id (k_world (kern s))) as (o & w' & Hn & _ & Ho).
  rewrite (bind_ok _ _ _ _ _ (in_clock_run _ _ _ _ Hn)). destruct o as [a|].
  - intros [= _ <-]. destruct (fa_queues _ _ Ho). apply queued_add; [by eapply queued_same | done | done].
  - destruct (find_account (td s) DEFAULT_ACCOUNT); [|done]. intros [= _ <-]. by eapply queued_same.
Qed.

Lemma queued_reads {A} (m : ST kernel A) : (forall k, stable (eq k) m) -> stable (queued_as x) (in_kern m).
Proof.
  intros Hm. apply stable_reads. intros s a s'. unfold in_kern, zoom. destruct (m (kern s)) as [[b k]|] eqn:E; [|done].
  intros [= <- <-]. rewrite <- (Hm (kern s) (kern s) b k eq_refl E). by destruct s.
Qed.

Lemma queued_charge p f : (forall a, same_shape a (f a)) -> stable (queued_as x) (upd_acct p f;; upd_acct p saturate_counts).
Proof. intros Hf. apply stable_bind; [by apply queued_upd |]. intros _. apply queued_upd, saturate_same_shape. Qed.

Lemma queued_causes_free causes : stable (queued_as x) (tbucket_causes_free causes).
Proof.
  unfold tbucket_causes_free. apply stable_bind; [apply queued_reads; intros; apply stable_same_read |]. intros c.
  apply stable_for_each. intros id _. apply stable_bind; [apply queued_get_account |]. intros p.
  apply queued_charge. intros a. by split_and!.
Qed.

Lemma queued_causes_dirty causes id inode pos : stable (queued_as x) (tbucket_causes_dirty causes id inode pos).
Proof.
  unfold tbucket_causes_dirty. apply stable_bind; [apply queued_reads; intros; apply stable_same_read |]. intros c.
  apply stable_bind; [apply stable_gets |]. intros s0. apply stable_bind; [apply stable_lift |]. intros ipos.
  apply stable_bind.
  { destruct (_ <=? 0); [|apply stable_ret]. apply stable_bind; [|intros; apply stable_ret].
    intros s a s' Hs [= <- <-]. by eapply queued_same. }
  intros tot. apply stable_bind; [apply stable_modify; intros s Hs; by eapply queued_same |]. intros _.
  apply stable_for_each. intros account_id _. apply stable_bind; [apply queued_get_account |]. intros p.
  apply stable_bind; [apply stable_reads; intros s a s'; unfold acct; by case_match; intros; simplify_eq |]. intros b.
  apply queued_charge. intros a. by split_and!.
Qed.
End Queued.

(** What the file systems leave alone: the tags of the requests, the queues, and the work items. *)
Definition fs_safe (works : list (option ptr)) (t : gmap ptr (list bio * option ptr)) (x : queues_state) (s : tb) : Prop :=
  fit_tags works t s /\ queued_as x s.

Lemma fs_safe_obliging {K : KernelFns} q0 works t x : @Obliging tb (tb_host q0) (tb_fs q0) works (fs_safe works t x).
Proof.
  split; simpl.
  - done.
  - by intros s [[H _] _].
  - intros s k [[_ H2] H3] Hk. split; [by split | by eapply queued_same].
  - intros q fn p s E. case_decide; [|done]. injection E as <-.
    apply stable_both; [by apply stable_causes_free, fit_tags_aloof | apply queued_causes_free].
  - intros q fn p task inode pos s E. case_decide; [|done]. injection E as <-.
    apply stable_both; [by apply stable_causes_dirty, fit_tags_aloof | apply queued_causes_dirty].
Qed.
