(* ===== verification/TBucketStack.v ===== *)
(** * The token-bucket scheduler in the kernel that is patched for it

    The whole machine: file systems, journal and block layer with the patches (Buffers.v), the
    scheduler on their disk, and requests made of their bios.  In TBucketRuns.v the rest of the
    kernel was anything that keeps the tags of the requests in order; here it is the code of the
    patches, and that the tags are in order is proved, from the reference counts. *)

From S2P Require Import Prelude Keeps Partial CInt Kernel DiskSim IoBatch HashTable CauseTags CauseRefs Tags Queue IoctlHelper Registry.
From S2P Require Import TBucket TBucketTokens TBucketInv TBucketFrame TBucketHandlers TBucketRuns.
From S2P Require Import Buffers BuffersInv BuffersOps BuffersRuns BuffersFit StackLib RequestTags TBucketHost TBucketAloof.

(** ** The machine *)

(** [st_bios] has the addresses of the bios of each request.  The references that are not in the cells of
    Buffers.v, those of requests and of work items, are in [lost] of the memory, which
    nothing reads. *)
Record stack := Stack { st_glue : glue tb; st_bios : gmap ptr (list ptr) }.
#[export] Instance eta_stack : Eta stack := fun x => Stack (st_glue x) (st_bios x).

Abbreviation st_host x := (g_host (st_glue x)).
Abbreviation st_mem x := (g_mem (st_glue x)).

Inductive act :=
  | Fs (o : op)                                   (* the code of the patches *)
  | Handle (h : handler)                          (* a handler of the scheduler *)
  | GetRequest (rq : ptr) (dir : Z)               (* get_request, which calls set_request *)
  | AddBio (rq bi : ptr) (sector size pos bytes : Z) (front : bool)   (* a bio joins a request *)
  | JoinRequests (rq next : ptr)                  (* the bios of a request join another's *)
  | FreeRequest (rq : ptr)                        (* put_request is called and the request freed *)
  | RunWork.                                      (* the work queue runs do_put_cause_list_work *)

Section Stack.
Context {K : KernelFns} {KO : KernelOk K} (q0 : ptr).
#[local] Instance the_host : Host tb := tb_host q0.
#[local] Instance the_fs : FsHost tb := tb_fs q0.
#[local] Instance the_host_ok : HostOk tb := tb_host_ok q0.
#[local] Instance the_fs_ok : FsHostOk tb := tb_fs_ok q0.

Definition in_glue {A} (m : ST (glue tb) A) : ST stack A := zoom st_glue (fun g x => x <| st_glue := g |>) m.
Definition in_tb {A} (m : ST tb A) : ST stack A := in_glue (in_host m).
Definition set_rqs (f : gmap ptr request -> gmap ptr request) : ST stack unit :=
  in_tb (modify (fun s => s <| rqs ::= f |>)).
Definition set_lost (f : list (option ptr) -> list (option ptr)) : ST stack unit :=
  in_glue (change (fun m => m <| lost ::= f |>)).

Definition run_act (a : act) : ST stack unit :=
  match a with
  | Fs o => in_glue (run_op o)
  | Handle h => in_tb (run_handler h)
  | GetRequest rq dir =>
      set_rqs <[rq := Rq dir 0 0 [] None None]>;;
      modify (fun x => x <| st_bios ::= <[rq := []]> |>);;
      in_tb (tbucket_set_request rq);;
      let! r := in_tb (get_rq 0 rq) in
      set_lost (cons (RQ_CAUSES r))
  | AddBio rq bi sector size pos bytes front =>
      let! v := in_glue (get_bio 0 bi) in
      let v := v <| bi_sector := sector |> <| bi_size := size |> in
      in_glue (set_bio bi v);;
      set_rqs (alter (fun r => r <| rq_bio ::= join_bio front v |>
                                 <| blk_rq_pos := pos |> <| blk_rq_bytes := bytes |>) rq);;
      modify (fun x => x <| st_bios ::= alter (join_bio front bi) rq |>)
  | JoinRequests rq next =>
      let! n := in_tb (get_rq 0 next) in
      let! bs := gets (fun x => default [] (st_bios x !! next)) in
      set_rqs (fun m => alter (fun r => r <| rq_bio := [] |>) next (alter (fun r => r <| rq_bio ::= fun l => l ++ rq_bio n |>) rq m));;
      modify (fun x => x <| st_bios ::= fun m => <[next := []]> (alter (fun l => l ++ bs) rq m) |>)
  | FreeRequest rq =>
      in_tb (tbucket_put_request rq);;
      set_rqs (delete rq);;
      modify (fun x => x <| st_bios ::= delete rq |>)
  | RunWork =>
      let! works := gets (fun x => k_works (kern (st_host x))) in
      match works with
      | [] => ret tt
      | cl :: _ => in_tb do_put_cause_list_work;; set_lost (drop_ref cl)
      end
  end.

(** A bio that a request has. *)
Definition in_flight (x : stack) (bi : ptr) : Prop := has_bio (st_bios x) bi.

(** What the kernel around the patches and the scheduler promises: that objects exist, that sizes are
    those of pages and disks, and that a bio is left alone while a request has it. *)
Definition act_ready (a : act) (x : stack) : Prop :=
  match a with
  | Fs o => ready o (st_mem x) /\ BuffersRuns.roomy (st_glue x) /\ sizes_ok o /\ Forall (fun bi => ~ in_flight x bi) (touched o)
  | Handle h => tagless h = true /\ callable h (st_host x) /\
      match h with CausesDirty _ _ _ _ | CausesFree _ => False | _ => True end
  | GetRequest rq _ => rqs (st_host x) !! rq = None
  | AddBio rq bi sector _ _ _ _ =>
      is_Some (rqs (st_host x) !! rq) /\ is_Some (bios (st_mem x) !! bi) /\ ~ in_flight x bi /\ 0 <= sector < 0x4000000000000
  | JoinRequests rq next => is_Some (rqs (st_host x) !! rq) /\ is_Some (rqs (st_host x) !! next) /\ rq <> next
  | FreeRequest rq => is_Some (rqs (st_host x) !! rq) /\ forall q, rq ∉ qreqs (st_host x) q
  | RunWork => True
  end.

(** The memory that an act cannot do without (see [enough] of BuffersRuns.v). *)
Definition act_enough (a : act) (x : stack) : Prop := match a with Fs o => enough o (st_glue x) | _ => True end.
#[export] Instance act_enough_dec a x : Decision (act_enough a x).
Proof. destruct a; simpl; apply _. Defined.

Inductive sreach : stack -> Prop :=
  | sr_boot s init q disks t disks' w' :
      k_causes (kern s) = ∅ -> k_works (kern s) = [] -> rqs s = ∅ ->
      tbucket_init_queue q disks (k_world (kern s)) = Ok ((0, Some t, disks'), w') ->
      sreach (Stack (Glue (s <| kern ::= fun k => k <| k_world := w' |> |> <| td := t |>) (boot_memory init)) ∅)
  | sr_act a x x' : sreach x -> act_ready a x -> run_act a x = Ok (tt, x') -> sreach x'.

(** ** The invariant *)

Record stack_inv (x : stack) : Prop := {
  si_accounts : accounts_ok (st_host x);
  si_rqs : requests_ok (kern (st_host x)) (st_mem x) (st_bios x) (tags (st_host x));
}.

Lemma stack_glue x : stack_inv x -> ginv (st_glue x).
Proof. intros [Ha Hr]. split_and!; [done | apply Hr | apply Hr]. Qed.

(** The tags of the requests are in order. *)
Lemma stack_env x : stack_inv x -> env_wf (kern (st_host x)) (rqs (st_host x)).
Proof. intros Hx. eapply rk_env, (si_rqs _ Hx). Qed.

Lemma stack_tb_inv x : stack_inv x -> tb_inv (st_host x).
Proof.
  intros Hx. destruct (si_accounts _ Hx) as [H1 H2 H3]. split; [|done]. split; [done | by apply stack_env | done].
Qed.

(** ** Every act keeps it *)

Lemma in_glue_run {A} (m : ST (glue tb) A) g b a g' :
  m g = Ok (a, g') -> in_glue m (Stack g b) = Ok (a, Stack g' b).
Proof. intros E. unfold in_glue, zoom. simpl. by rewrite E. Qed.

Lemma in_tb_run {A} (m : ST tb A) h M b a h' :
  m h = Ok (a, h') -> in_tb m (Stack (Glue h M) b) = Ok (a, Stack (Glue h' M) b).
Proof. intros E. apply in_glue_run. unfold in_host. simpl. by rewrite E. Qed.

Lemma fs_run o x :
  stack_inv x -> act_ready (Fs o) x -> act_enough (Fs o) x ->
  exists x', run_act (Fs o) x = Ok (tt, x') /\ stack_inv x' /\ queued_as (abs (st_host x)) (st_host x').
Proof.
  intros Hx (Hr & Hm & Hs & Hf) He. destruct x as [g b]. pose proof (si_rqs _ Hx) as Hq. simpl in Hq.
  destruct (op_run o g (stack_glue _ Hx) Hr Hm He) as (g' & E & (Ha' & Ho' & Hm') & [[new El] _]).
  exists (Stack g' b). split; [by apply in_glue_run |]. rewrite list.Forall_forall in Hf.
  set (works := k_works (kern (g_host g))). set (t := tags (g_host g)).
  pose proof (@op_fits tb _ _ works (fs_safe works t (abs (g_host g))) (fs_safe_obliging q0 works t _) (touched o) (bios (g_mem g)) o Hs (fun bi H => H)) as Hfit.
  destruct (Hfit g tt g') as [[[Hk Ht] Hqu] Hb Hkept]; [|exact E|].
  { split; [split; [split; [apply Hq | done] | by split] | apply Hq | done]. }
  split; [|exact Hqu]. split; [done |]. cbn [st_glue st_bios]. rewrite Ht. eapply rk_fs; [exact Hq | done | done | done | done | | exact El].
  intros bi Hbi. apply Hkept. intros Hin. by apply (Hf bi Hin).
Qed.

Lemma handle_run h x :
  stack_inv x -> act_ready (Handle h) x ->
  exists s', run_act (Handle h) x = Ok (tt, Stack (Glue s' (st_mem x)) (st_bios x)) /\
    stack_inv (Stack (Glue s' (st_mem x)) (st_bios x)) /\ spec_step h (abs (st_host x)) (abs s').
Proof.
  intros Hx (Ht & Hc & _). destruct x as [[s M] b]. simpl in *.
  destruct (handler_run h s (stack_tb_inv _ Hx) Hc) as (s' & E & Hi & Hs). exists s'. split; [by apply in_tb_run |].
  split; [|done].
  assert (Hu : undisturbed s s') by (eapply (stable_handler (undisturbed_aloof s) h Ht); [by split | exact E]).
  destruct Hu as [Hr Hw Htg]. destruct Hi as [[H1 H2 H3] H4]. split; [by split |]. cbn [st_glue g_host g_mem st_bios]. rewrite Htg.
  eapply rk_written; [apply (si_rqs _ Hx) | done | done |]. split; [|done|done].
  intros p c Hc'. split; [by apply (kernel_causes _ (ew_kernel _ _ H2) p) | by apply (ew_sizes _ _ H2 p)].
Qed.

(** A request that is not queued may come, go and change. *)
Lemma accounts_ok_rqs s rs k :
  accounts_ok s -> (forall rq r, rqs s !! rq = Some r -> (exists q, rq ∈ qreqs s q) -> exists r', rs !! rq = Some r' /\ RQ_QUEUE r' = RQ_QUEUE r) ->
  accounts_ok (s <| rqs := rs |> <| kern := k |>).
Proof.
  intros [H1 H2 H3] Hr. split; [done | done |]. intros p a w rq Ha Hin. simpl in *.
  destruct (H3 p a w rq Ha Hin) as (r & Hrq & Hq). destruct (Hr rq r Hrq) as (r' & Hr' & E).
  - exists (p, w). unfold qreqs. simpl. by rewrite Ha.
  - exists r'. split; [done | congruence].
Qed.

Lemma accounts_ok_alter s rq r r' :
  accounts_ok s -> rqs s !! rq = Some r -> RQ_QUEUE r' = RQ_QUEUE r -> accounts_ok (s <| rqs := <[rq := r']> (rqs s) |>).
Proof.
  intros Ha Hr E. eapply (accounts_ok_same (s <| rqs := <[rq := r']> (rqs s) |> <| kern := kern s |>)); [|done | done].
  apply accounts_ok_rqs; [done |]. intros rq' r1 Hr1 _. rewrite lookup_insert. case_decide; [subst | by exists r1].
  exists r'. split; [done | congruence].
Qed.

Lemma tags_insert s rq r : tags (s <| rqs := <[rq := r]> (rqs s) |>) = <[rq := (rq_bio r, RQ_CAUSES r)]> (tags s).
Proof. unfold tags. simpl. by rewrite fmap_insert. Qed.

Lemma tags_lookup s rq r : rqs s !! rq = Some r -> tags s !! rq = Some (rq_bio r, RQ_CAUSES r).
Proof. intros Hr. unfold tags. by rewrite lookup_fmap, Hr. Qed.

Lemma get_request_run rq dir x :
  stack_inv x -> act_ready (GetRequest rq dir) x ->
  exists x', run_act (GetRequest rq dir) x = Ok (tt, x') /\ stack_inv x' /\ abs (st_host x') = abs (st_host x).
Proof.
  intros Hx Hn. destruct x as [[s M] b]. simpl in Hn. destruct (new_cause_list_total (kern s)) as (o & k' & E).
  set (r := Rq dir 0 0 [] o None). set (s' := s <| rqs := <[rq := r]> (rqs s) |> <| kern := k' |>).
  exists (Stack (Glue s' (M <| lost ::= cons o |>)) (<[rq := []]> b)). split; [|split; [|done]].
  - simpl. unfold set_rqs. erewrite bind_ok by (apply in_tb_run; reflexivity). unfold bind at 1, modify. simpl.
    unfold tbucket_set_request, in_kern. erewrite bind_ok.
    2: { apply in_tb_run. erewrite bind_ok by (apply zoom_ok; simpl; exact E). reflexivity. }
    erewrite bind_ok.
    2: { apply in_tb_run. unfold get_rq. simpl. rewrite lookup_alter_eq, lookup_insert_eq. reflexivity. }
    unfold s'. simpl. unfold upd_rq. by rewrite alter_insert_eq.
  - split.
    + apply accounts_ok_rqs; [apply (si_accounts _ Hx) |]. intros rq' r' Hr' _. exists r'. rewrite lookup_insert_ne by congruence. done.
    + assert (Ht : tags s' = <[rq := ([], o)]> (tags s)) by (unfold tags; simpl; by rewrite fmap_insert).
      cbn [st_glue g_host g_mem st_bios]. rewrite Ht. eapply (rk_new (kern s)); [apply (si_rqs _ Hx) | | exact E].
      unfold tags. by rewrite lookup_fmap, Hn.
Qed.

Lemma add_bio_run rq bi sector size pos bytes front x :
  stack_inv x -> act_ready (AddBio rq bi sector size pos bytes front) x ->
  exists x', run_act (AddBio rq bi sector size pos bytes front) x = Ok (tt, x') /\ stack_inv x' /\ abs (st_host x') = abs (st_host x).
Proof.
  intros [Ha Hq] ([r Hr] & [v Hv] & Hfl & Hsec). destruct x as [[s M] b]. simpl in *.
  destruct (rk_link _ _ _ _ Hq rq _ _ (tags_lookup s rq r Hr)) as (bs & Hbs & _).
  set (v' := v <| bi_sector := sector |> <| bi_size := size |>).
  set (r' := r <| rq_bio ::= join_bio front v' |> <| blk_rq_pos := pos |> <| blk_rq_bytes := bytes |>).
  exists (Stack (Glue (s <| rqs := <[rq := r']> (rqs s) |>) (M <| bios ::= <[bi := v']> |>)) (<[rq := join_bio front bi bs]> b)).
  split; [|split; [|done]].
  - erewrite bind_ok by (apply in_glue_run; unfold get_bio, in_mem; simpl; rewrite Hv; reflexivity).
    erewrite bind_ok by (apply in_glue_run; reflexivity). unfold set_rqs. erewrite bind_ok by (apply in_tb_run; reflexivity).
    unfold modify. simpl. by rewrite (alter_known _ _ _ _ Hbs), (alter_known _ _ _ _ Hr).
  - split; [by apply (accounts_ok_alter s rq r) |]. cbn [st_glue g_host g_mem st_bios]. rewrite tags_insert.
    apply (rk_add (kern s) M b (tags s) rq (rq_bio r) (RQ_CAUSES r) bs bi v sector size front); [done | by apply tags_lookup | done..].
Qed.

(** A request has other bios of the memory. *)
Lemma stack_inv_bios s M b rq r l' bs' :
  stack_inv (Stack (Glue s M) b) -> rqs s !! rq = Some r -> linked M bs' l' ->
  stack_inv (Stack (Glue (s <| rqs := <[rq := r <| rq_bio := l' |>]> (rqs s) |>) M) (<[rq := bs']> b)).
Proof.
  intros [Ha Hq] Hr Hl. split; [by apply (accounts_ok_alter s rq r) |]. cbn [st_glue g_host g_mem st_bios]. rewrite tags_insert.
  apply (rk_chain (kern s) M b (tags s) rq (rq_bio r) (RQ_CAUSES r)); [exact Hq | by apply tags_lookup | done].
Qed.

Lemma join_run rq next x :
  stack_inv x -> act_ready (JoinRequests rq next) x ->
  exists x', run_act (JoinRequests rq next) x = Ok (tt, x') /\ stack_inv x' /\ abs (st_host x') = abs (st_host x).
Proof.
  intros Hx ([r Hr] & [n Hn] & Hne). destruct x as [[s M] b]. simpl in Hr, Hn. pose proof (si_rqs _ Hx) as Hq.
  destruct (rk_link _ _ _ _ Hq rq _ _ (tags_lookup s rq r Hr)) as (bs & Hbs & Hl).
  destruct (rk_link _ _ _ _ Hq next _ _ (tags_lookup s next n Hn)) as (bn & Hbn & Hln). simpl in Hbs, Hl, Hbn, Hln.
  pose proof (stack_inv_bios s M b rq r (rq_bio r ++ rq_bio n) (bs ++ bn) Hx Hr ltac:(by apply Forall2_app)) as H1.
  eapply (stack_inv_bios _ _ _ next n [] []) in H1; [|simpl; by rewrite lookup_insert_ne | constructor].
  eexists. split; [|split; [exact H1 | done]]. simpl.
  erewrite bind_ok by (apply in_tb_run; unfold get_rq; rewrite Hn; reflexivity).
  unfold bind at 1, gets. simpl. rewrite Hbn. unfold set_rqs. erewrite bind_ok by (apply in_tb_run; reflexivity).
  unfold modify. simpl. rewrite (alter_known _ _ _ _ Hbs), (alter_known _ _ _ _ Hr).
  rewrite (alter_known _ _ next n) by (by rewrite lookup_insert_ne). reflexivity.
Qed.

Lemma free_request_run rq x :
  stack_inv x -> act_ready (FreeRequest rq) x ->
  exists x', run_act (FreeRequest rq) x = Ok (tt, x') /\ stack_inv x' /\ abs (st_host x') = abs (st_host x).
Proof.
  intros [Ha Hq] [[r Hr] Hn]. destruct x as [[s M] b]. simpl in *.
  destruct (put_safe_run (RQ_CAUSES r) (kern s)) as (k' & E & Ek & En & Ew).
  exists (Stack (Glue (s <| rqs := delete rq (rqs s) |> <| kern := k' |>) M) (delete rq b)). split; [|split; [|done]].
  - unfold tbucket_put_request, get_rq, in_kern. erewrite bind_ok.
    2: { apply in_tb_run. unfold bind at 1. rewrite Hr. apply zoom_ok. exact E. }
    unfold set_rqs. erewrite bind_ok by (apply in_tb_run; reflexivity). reflexivity.
  - split.
    + apply (accounts_ok_rqs s (delete rq (rqs s))); [done |]. intros rq' r' Hr' [q Hin].
      exists r'. rewrite lookup_delete_ne; [done |]. intros <-. by apply (Hn q).
    + assert (Ht : tags (s <| rqs := delete rq (rqs s) |> <| kern := k' |>) = delete rq (tags s)) by (unfold tags; simpl; by rewrite fmap_delete).
      cbn [st_glue g_host g_mem st_bios]. rewrite Ht. eapply (rk_free (kern s)); [exact Hq | by apply tags_lookup | done..].
Qed.

Lemma work_run x :
  stack_inv x -> exists x', run_act RunWork x = Ok (tt, x') /\ stack_inv x' /\ queued_as (abs (st_host x)) (st_host x').
Proof.
  intros [Ha Hq]. destruct x as [[s M] b]. simpl in *. unfold bind at 1, gets. simpl.
  destruct (k_works (kern s)) as [|cl ws] eqn:Ew; [by exists (Stack (Glue s M) b) |].
  set (s1 := s <| kern ::= fun k => k <| k_works := ws |> |>).
  destruct (put_spec cl (holders M)) with (s := s1) as ([] & s' & u' & E & Ha' & Ho' & Hu').
  { intros q Eq. pose proof (lost_held M q). pose proof (rk_work_held _ _ _ _ _ _ q Hq Ew Eq). lia. }
  { by eapply accounts_ok_same. }
  { eapply owned_ext; [apply Hq | done..]. }
  pose proof (@stable_put_cause_list tb _ _ ws _ (fs_safe_obliging q0 ws (tags s) (abs s)) cl s1 tt s') as Hsafe.
  destruct Hsafe as [[Hk Ht] Hqu]; [|exact E|].
  { destruct (rk_fits _ _ _ _ Hq) as [F1 F2 _]. split; [split; [by split | done] | by split]. }
  exists (Stack (Glue s' (M <| lost ::= drop_ref cl |>)) b). split; [|split; [|exact Hqu]].
  - rewrite (bind_ok _ _ _ tt (Stack (Glue s' M) b)); [reflexivity |]. apply in_tb_run. unfold do_put_cause_list_work. unfold bind at 1, gets. simpl.
    rewrite Ew. erewrite bind_ok by reflexivity. exact E.
  - split; [done |]. cbn [st_glue g_host g_mem st_bios]. rewrite Ht. by eapply (rk_work (kern s)).
Qed.

(** ** Runs *)

(** What an act may do to the queues. *)
Definition act_spec (a : act) (x y : queues_state) : Prop :=
  match a with
  | Handle h => spec_step h x y
  | _ => (forall q, waiting_in y q = waiting_in x q) /\ handed y = handed x
  end.

Lemma act_short a x : ~ act_enough a x -> run_act a x = Fault (BUG 100).
Proof.
  intros Hn. destruct a as [o| | | | | |]; try by exfalso; apply Hn. simpl in *. unfold in_glue, zoom. by rewrite (op_short o _ Hn).
Qed.

Lemma act_ok_enough a x x' : run_act a x = Ok (tt, x') -> act_enough a x.
Proof. intros E. destruct (decide (act_enough a x)) as [|Hn]; [done |]. by rewrite (act_short a x Hn) in E. Qed.

Lemma act_run a x :
  stack_inv x -> act_ready a x -> act_enough a x ->
  exists x', run_act a x = Ok (tt, x') /\ stack_inv x' /\ act_spec a (abs (st_host x)) (abs (st_host x')).
Proof.
  intros Hx Ha He. destruct a as [o|h|rq dir|rq bi sector size pos bytes front|rq next|rq|].
  - destruct (fs_run o x Hx Ha He) as (x' & E & Hx' & Hq). eauto.
  - destruct (handle_run h x Hx Ha) as (s' & E & Hx' & Hs). eauto.
  - destruct (get_request_run rq dir x Hx Ha) as (x' & E & Hx' & Hq). exists x'. rewrite Hq. by split_and!.
  - destruct (add_bio_run rq bi sector size pos bytes front x Hx Ha) as (x' & E & Hx' & Hq). exists x'. rewrite Hq. by split_and!.
  - destruct (join_run rq next x Hx Ha) as (x' & E & Hx' & Hq). exists x'. rewrite Hq. by split_and!.
  - destruct (free_request_run rq x Hx Ha) as (x' & E & Hx' & Hq). exists x'. rewrite Hq. by split_and!.
  - destruct (work_run x Hx) as (x' & E & Hx' & Hq). eauto.
Qed.

Lemma boot_inv s init q disks t disks' w' :
  k_causes (kern s) = ∅ -> k_works (kern s) = [] -> rqs s = ∅ ->
  tbucket_init_queue q disks (k_world (kern s)) = Ok ((0, Some t, disks'), w') ->
  stack_inv (Stack (Glue (s <| kern ::= fun k => k <| k_world := w' |> |> <| td := t |>) (boot_memory init)) ∅).
Proof.
  intros Ek Ew Er Hi. destruct (init_queue_run q disks (k_world (kern s))) as (rv & o & d & w & E & Ho).
  rewrite Hi in E. injection E as <- <- <- <-. destruct Ho as (_ & Ht & Hr & Hemp & _).
  split; cbn [st_glue g_host g_mem st_bios].
  - split; [done | done |]. intros p a v rq Ha Hin. simpl in Ha. rewrite (Hemp p a v Ha) in Hin. by apply elem_of_nil in Hin.
  - unfold tags. simpl. rewrite Er, fmap_empty. by apply rk_boot.
Qed.

Lemma sreach_inv x : sreach x -> stack_inv x.
Proof.
  induction 1 as [s init q disks t disks' w' Ek Ew Er Hi|a x x' _ IH Ha E].
  - by eapply boot_inv.
  - destruct (act_run a x IH Ha (act_ok_enough _ _ _ E)) as (x1 & E1 & Hx1 & _). congruence.
Qed.

(** The life of the machine with the registry of disks, from the set-up of the scheduler on [q0]. *)
Definition boots (disks : disk_list) (reg : bool) (x : stack) (disks' : disk_list) : Prop :=
  exists s init t w', k_causes (kern s) = ∅ /\ k_works (kern s) = [] /\ rqs s = ∅ /\
    tbucket_init_queue q0 disks (k_world (kern s)) = Ok ((0, Some t, disks'), w') /\
    reg = w_alloc w' (pred (w_nalloc w')) /\
    x = Stack (Glue (s <| kern ::= fun k => k <| k_world := w' |> |> <| td := t |>) (boot_memory init)) ∅.
Definition acts (x x' : stack) : Prop := exists a, act_ready a x /\ run_act a x = Ok (tt, x').
Definition machine_life : bool -> stack -> disk_list -> Prop := life q0 boots acts.

Lemma life_sreach reg x disks : machine_life reg x disks -> sreach x.
Proof.
  apply (life_keeps q0 boots acts sreach).
  - intros ds r y ds' (s & init & t & w & Ek & Ew & Er & E & _ & ->). by eapply sr_boot.
  - intros y y' Hy (a & Ha & E). by eapply sr_act.
Qed.

Lemma boots_registers disks reg x disks' : boots disks reg x disks' -> disks' = snd (ioctl_helper_register_disk reg disks q0).
Proof. intros (s & init & t & w & _ & _ & _ & E & -> & _). by eapply tb_init_registers. Qed.

(** C1: the patched kernel with the token-bucket scheduler crashes in two ways only.  From the
    boot on, whatever files are written, committed and written back, whatever requests are made of
    the bios, queued, merged, dispatched and freed, and whichever allocations fail, every operation of the file
    systems and the block layer on cause lists and every handler of the scheduler, called as the kernel promises ([act_ready]), runs to its
    end: no BUG_ON fires and no cause list is used after it was freed.  The one exception is btrfs's [prepare_pages] when
    there is no memory for the [struct cause_list_locked] of a page, which ends in its BUG_ON.  When the scheduler is
    taken off the queue, [tbucket_exit_queue] returns if the disk could be registered when it was set up, and runs into
    the BUG_ON of ioctl_helper.c if not.  The cause lists of every
    request are there and count their accounts, whoever looks at them; and the scheduler remains a
    set of FIFO queues, which nothing but its handlers touches. *)
Theorem patched_kernel_no_fault reg x disks :
  machine_life reg x disks ->
  (forall a, act_ready a x ->
     if decide (act_enough a x) then
       exists x', run_act a x = Ok (tt, x') /\ machine_life reg x' disks /\
         env_wf (kern (st_host x')) (rqs (st_host x')) /\ act_spec a (abs (st_host x)) (abs (st_host x'))
     else run_act a x = Fault (BUG 100)) /\
  (if reg then exists t' disks', tbucket_exit_queue q0 (td (st_host x)) disks = Ok (t', disks') /\ q0 ∉ disks'
   else tbucket_exit_queue q0 (td (st_host x)) disks = Fault (BUG 108)).
Proof.
  intros Hl. split; [|apply tb_exit_run, (life_unregister q0 boots acts boots_registers reg x disks Hl)].
  intros a Ha. destruct (decide (act_enough a x)) as [He|He]; [|by apply act_short].
  destruct (act_run a x (sreach_inv _ (life_sreach _ _ _ Hl)) Ha He) as (x' & E & Hx' & Hs). exists x'.
  split_and!; [done | eapply life_step; [exact Hl | by exists a] | by apply stack_env | done].
Qed.

(** *** A request that merging loses *)

(** Runs in which the block layer does not insert [rq] (again). *)
Inductive later (rq : ptr) : stack -> stack -> Prop :=
  | later_now x : later rq x x
  | later_act a x1 x2 x3 : (forall cur, a <> Handle (AddRequest cur rq)) -> act_ready a x1 -> run_act a x1 = Ok (tt, x2) ->
      later rq x2 x3 -> later rq x1 x3.

(** [rq] waits nowhere and was not handed over. *)
Definition nowhere (rq : ptr) (x : queues_state) : Prop := (forall q, rq ∉ waiting_in x q) /\ rq ∉ handed x.

Lemma nowhere_step a rq x y : act_spec a x y -> (forall cur, a <> Handle (AddRequest cur rq)) -> nowhere rq x -> nowhere rq y.
Proof.
  intros Hs Ha [Hw Hh]. destruct a as [|h| | | | |]; try (destruct Hs as [E1 E2]; split; [intros q; by rewrite E1 | by rewrite E2]).
  destruct Hs as [E1 E2 _|ring _ _ _ E1 E2|q r _ E1 E2 E3|cur r q -> E1 E2 E3|r next q _ E1 E2 E3].
  - split; [intros q; by rewrite E1 | by rewrite E2].
  - split; [intros q; rewrite E1; by apply not_elem_of_nil |]. rewrite E2. intros [Hin|Hin]%elem_of_app; [|done].
    apply list_elem_of_In, in_flat_map in Hin as (q & _ & Hin). apply (Hw q). by apply list_elem_of_In.
  - assert (rq <> r) by (intros ->; apply (Hw q); rewrite E1; left).
    split; [|rewrite E3; by intros [? | ?]%elem_of_cons]. intros q'. destruct (decide (q' = q)) as [->|Hne]; [|by rewrite E2].
    intros Hin. apply (Hw q). rewrite E1. by right.
  - split; [|by rewrite E3]. intros q'. destruct (decide (q' = q)) as [->|Hne]; [|by rewrite E2]. rewrite E1.
    intros [Hin|<-%list_elem_of_singleton]%elem_of_app; [by apply (Hw q) | by apply (Ha cur)].
  - split; [|by rewrite E3]. intros q'. destruct (decide (q' = q)) as [->|Hne]; [|by rewrite E2]. rewrite E1.
    intros [_ Hin]%list_elem_of_filter. by apply (Hw q).
Qed.

Lemma nowhere_later rq x y : later rq x y -> stack_inv x -> nowhere rq (abs (st_host x)) -> nowhere rq (abs (st_host y)).
Proof.
  induction 1 as [x|a x1 x2 x3 Ha Hr E _ IH]; intros Hx Hn; [done |].
  destruct (act_run a x1 Hx Hr (act_ok_enough _ _ _ E)) as (x2' & E' & Hx2 & Hs). rewrite E in E'. injection E' as <-.
  apply IH; [done |]. by eapply nowhere_step.
Qed.

(** A request is in one queue only, and merging takes it out of that. *)
Lemma merged_nowhere rq next x s' q :
  stack_inv x -> rq ∈ qreqs (st_host x) q -> rq ∉ dispatch_list (st_host x) ->
  tbucket_merge_request rq next (st_host x) = Ok (tt, s') -> nowhere rq (abs s').
Proof.
  intros Hx Hin Hd E. pose proof (stack_tb_inv x Hx) as Hi. pose proof (inv_queued _ (proj1 Hi)) as Hq.
  assert (Hone : forall q', rq ∈ qreqs (st_host x) q' -> exists r, rqs (st_host x) !! rq = Some r /\ RQ_QUEUE r = Some q').
  { intros [p w] Hq'. unfold qreqs in Hq'. simpl in Hq'. destruct (td_heap (td (st_host x)) !! p) as [a|] eqn:Ea.
    - by apply (Hq p a w rq).
    - by apply elem_of_nil in Hq'. }
  destruct (Hone q Hin) as (r & Hr & Hrq).
  destruct (merge_request_run (st_host x) rq next r q Hi Hr Hrq Hin) as (s1 & E1 & _ & Q1 & Q2 & L). rewrite E in E1. injection E1 as <-.
  split; [|by simpl; rewrite L]. intros q' Hin'. simpl in Hin'. destruct (decide (q' = q)) as [->|Hne].
  - rewrite Q1 in Hin'. apply list_elem_of_filter in Hin' as [? _]. done.
  - rewrite Q2 in Hin' by done. destruct (Hone q' Hin') as (r' & Hr' & Hrq'). congruence.
Qed.

(** C35: merging loses I/O: when a new request is merged into one that waits ([JoinRequests], then the merge
    hook), [tbucket_merge_request] takes the waiting one, which now has the bios of both, off
    its queue, instead of the new one.  Nothing dispatches it any more, whatever happens, unless it is inserted
    again, which the block layer does not do. *)
Theorem merged_request_lost x rq next r n q :
  sreach x -> rqs (st_host x) !! rq = Some r -> rqs (st_host x) !! next = Some n -> rq <> next ->
  rq ∈ qreqs (st_host x) q -> rq ∉ dispatch_list (st_host x) ->
  exists x1 x2, run_act (JoinRequests rq next) x = Ok (tt, x1) /\ run_act (Handle (MergeRequest rq next)) x1 = Ok (tt, x2) /\
    sreach x2 /\ rq_bio <$> rqs (st_host x2) !! rq = Some (rq_bio r ++ rq_bio n) /\
    forall x3, later rq x2 x3 -> (forall q, rq ∉ qreqs (st_host x3) q) /\ rq ∉ dispatch_list (st_host x3).
Proof.
  intros Hx Hr Hn Hne Hin Hd. pose proof (sreach_inv x Hx) as Hi.
  assert (Hj : act_ready (JoinRequests rq next) x) by (split_and!; [by exists r | by exists n | done]).
  destruct (join_run rq next x Hi Hj) as (x1 & E1 & Hi1 & Ha1). exists x1.
  assert (Hq1 : forall q, qreqs (st_host x1) q = qreqs (st_host x) q) by (intros q'; apply (f_equal (fun a => waiting_in a q') Ha1)).
  assert (Hd1 : dispatch_list (st_host x1) = dispatch_list (st_host x)) by apply (f_equal handed Ha1).
  assert (Hr1 : rq_bio <$> rqs (st_host x1) !! rq = Some (rq_bio r ++ rq_bio n)).
  { revert E1. destruct x as [[s M] b]. simpl in *. erewrite bind_ok by (apply in_tb_run; unfold get_rq; rewrite Hn; reflexivity).
    unfold bind, gets. simpl. intros [= <-]. simpl. by rewrite lookup_alter_ne, lookup_alter_eq, Hr by done. }
  assert (Hr1' : exists r1, rqs (st_host x1) !! rq = Some r1) by (destruct (rqs (st_host x1) !! rq); [by eexists | done]).
  destruct Hr1' as [r1 Hr1'].
  assert (Hm : act_ready (Handle (MergeRequest rq next)) x1).
  { split_and!; [done | | done]. destruct q as [p w]. rewrite <- Hq1 in Hin. pose proof Hin as Hin'. unfold qreqs in Hin'. simpl in Hin'.
    destruct (td_heap (td (st_host x1)) !! p) as [a|] eqn:Ea; [|by apply elem_of_nil in Hin'].
    destruct (inv_queued _ (proj1 (stack_tb_inv x1 Hi1)) p a w rq Ea Hin') as (r2 & ? & ?). by exists r2, (p, w). }
  destruct (handle_run (MergeRequest rq next) x1 Hi1 Hm) as (s' & E2 & Hi2 & _). eexists. split; [done |]. split; [exact E2 |].
  assert (E3 : tbucket_merge_request rq next (st_host x1) = Ok (tt, s')).
  { revert E2. destruct x1 as [[s1 M1] b1]. unfold run_act, in_tb, in_glue, zoom, in_host. simpl.
    destruct (tbucket_merge_request rq next s1) as [[[] s2]|]; [by intros [= ->] | done]. }
  split; [eapply (sr_act (Handle (MergeRequest rq next))); [|exact Hm | exact E2]; by eapply sr_act |]. split.
  - simpl. assert (Er : rqs s' = rqs (st_host x1)); [|by rewrite Er].
    revert E3. unfold tbucket_merge_request, get_rq, bind. rewrite Hr1'. destruct (RQ_QUEUE r1); simpl; [|done]. by intros [= <-].
  - intros x3 Hl. apply (nowhere_later rq _ x3 Hl Hi2). simpl. rewrite <- Hq1 in Hin. rewrite <- Hd1 in Hd. exact (merged_nowhere rq next x1 s' q Hi1 Hin Hd E3).
Qed.
End Stack.
