(* ===== verification/TBucketStackExamples.v ===== *)
(** * The patched kernel with the token-bucket scheduler: a concrete run

    A file is written, its buffers are submitted, and requests are made of the bios, queued, merged
    and freed. *)

From S2P Require Import Prelude Keeps Partial CInt Kernel DiskSim IoBatch HashTable CauseTags CauseRefs Tags Queue IoctlHelper Registry.
From S2P Require Import TBucket TBucketTokens TBucketInv TBucketFrame TBucketDispatch TBucketRing TBucketHandlers TBucketRuns TBucketExamples.
From S2P Require Import Buffers BuffersInv BuffersOps BuffersRuns BuffersFit StackLib RequestTags TBucketHost TBucketAloof TBucketStack.

(** ** Running acts whose conditions can be checked *)

Definition checked (a : act) (x : stack) : Prop :=
  match a with
  | Fs o => ready o (st_mem x) /\ low_counts (kern (st_host x)) /\ sizes_ok o /\ Forall (fun bi => bi ∉ flying (st_bios x)) (touched o)
  | Handle (Dispatch _) => True
  | Handle (AddRequest _ rq) => is_Some (rqs (st_host x) !! rq) /\ rq ∉ waiting (st_host x)
  | GetRequest rq _ => rqs (st_host x) !! rq = None
  | AddBio rq bi sector _ _ _ _ =>
      is_Some (rqs (st_host x) !! rq) /\ is_Some (bios (st_mem x) !! bi) /\ bi ∉ flying (st_bios x) /\ 0 <= sector < 0x4000000000000
  | FreeRequest rq => is_Some (rqs (st_host x) !! rq) /\ rq ∉ waiting (st_host x)
  | RunWork => True
  | _ => False
  end.
#[local] Instance checked_dec a x : Decision (checked a x).
Proof. destruct a as [|[]| | | | |]; simpl; apply _. Defined.

Lemma checked_ready (q0 : ptr) a x : stack_inv x -> checked a x -> act_ready a x.
Proof.
  intros Hx. pose proof (proj1 (stack_tb_inv x Hx)) as Hi.
  destruct a as [o|[]|rq dir|rq bi sector size pos bytes front|rq next|rq|]; simpl; try done.
  - intros (Hr & Hl & Hs & Hf). split_and!; [done | | done |].
    + by apply (@low_roomy tb (the_host q0) (the_host_ok q0) (st_glue x) (stack_glue q0 _ Hx)).
    + eapply Forall_impl; [exact Hf |]. intros bi. apply flying_spec.
  - intros [Hr Hn]. split_and!; [done | done | by apply not_waiting | done].
  - intros (H1 & H2 & H3 & H4). split_and!; try done; try lia. by apply flying_spec.
  - intros [Hr Hn]. split; [done |]. by apply not_waiting.
Qed.

Fixpoint run_acts (q0 : ptr) (acts : list act) (x : stack) : option stack :=
  match acts with
  | [] => Some x
  | a :: acts =>
      if decide (checked a x) then match run_act q0 a x with Ok (_, x') => run_acts q0 acts x' | Fault _ => None end
      else None
  end.

Lemma run_acts_reach q0 acts x x' : sreach q0 x -> run_acts q0 acts x = Some x' -> sreach q0 x'.
Proof.
  revert x. induction acts as [|a acts IH]; intros x Hx; cbn [run_acts]; [by intros [= <-] |].
  case_decide as Hc; [|done]. destruct (run_act q0 a x) as [[[] x1]|] eqn:E; [|done]. apply IH.
  eapply sr_act; [exact Hx | | exact E]. apply (checked_ready q0); [by apply (sreach_inv q0) | done].
Qed.

Lemma run_acts_life q0 reg disks acts x x' :
  machine_life q0 reg x disks -> run_acts q0 acts x = Some x' -> machine_life q0 reg x' disks.
Proof.
  revert x. induction acts as [|a acts IH]; intros x Hx; cbn [run_acts]; [by intros [= <-] |].
  case_decide as Hc; [|done]. destruct (run_act q0 a x) as [[[] x1]|] eqn:E; [|done]. apply IH.
  eapply life_step; [exact Hx |]. exists a. split; [|exact E].
  apply (checked_ready q0); [apply (sreach_inv q0); by eapply life_sreach | done].
Qed.

(** ** The run *)

(** Nothing has been written; inode 7 is a file on the disk of queue 3. *)
Definition st_machine : tb := TB (Kern w0 ∅ 1 0 0 0 0 []) ∅ {[7%positive := 0]} [] 1 true td_none.
Definition st_boot : stack := Stack (Glue (st_machine <| kern ::= fun k => k <| k_world := w1 |> |> <| td := td0 |>) (boot_memory 1)) ∅.

Lemma st_boot_reach : sreach 3 st_boot.
Proof. apply (sr_boot 3 st_machine 1 1%positive [] td0 [1%positive] w1); [done | done | done |]. vm_compute. reflexivity. Qed.

Lemma st_boot_life : machine_life 3 true st_boot [3%positive].
Proof.
  eapply (life_boot _ _ _ _ []); [by apply not_elem_of_nil |]. exists st_machine, 1%positive, td0, w1.
  do 3 (split; [done |]). split; [vm_compute; reflexivity |]. by vm_compute.
Qed.

(** Two buffers are written by account 7 and submitted in two bios; a request with
    the first one waits, another has the second. *)
Definition st_acts : list act :=
  [Fs (AllocBuffer 1); Fs (AllocBuffer 2); Fs (CommitWrite [1%positive; 2%positive] 1024 1 7 7 0);
   Fs (BioAlloc 1); Fs (SubmitBh true 1024 1 1024 1); Fs (BioAlloc 2); Fs (SubmitBh true 1024 2 1024 2);
   GetRequest 1 WRITE; AddBio 1 1 8 1024 8 1024 false; Handle (AddRequest 7 1);
   GetRequest 2 WRITE; AddBio 2 2 10 1024 10 1024 false].
Definition st_ready : stack := default st_boot (run_acts 3 st_acts st_boot).

Lemma st_run : run_acts 3 st_acts st_boot = Some st_ready.
Proof.
  assert (E : match run_acts 3 st_acts st_boot with Some _ => true | None => false end = true) by (vm_compute; reflexivity).
  unfold st_ready. by destruct (run_acts 3 st_acts st_boot).
Qed.

Lemma st_ready_reach : sreach 3 st_ready.
Proof. eapply run_acts_reach; [apply st_boot_reach | apply st_run]. Qed.

(** The write is dispatched; its bio is freed with its causes, and the request. *)
Example st_dispatches :
  match run_acts 3 [Handle (Dispatch false); FreeRequest 1; Fs (BioFree 1); RunWork] st_ready with
  | Some x => dispatch_list (st_host x) = [1%positive] /\ k_works (kern (st_host x)) = []
  | None => False
  end.
Proof. vm_compute. split; reflexivity. Qed.

Lemma st_ready_life : machine_life 3 true st_ready [3%positive].
Proof. eapply run_acts_life; [apply st_boot_life | apply st_run]. Qed.

(** A kernel that has memory for setting up the scheduler, but not for the entry of the disk, nor for anything later. *)
Definition w_short : world := w0 <| w_alloc := fun n => (n <? pred (w_nalloc w1))%nat |>.
Definition w_short1 : world := w_short <| w_tick := w_tick w1 |> <| w_nalloc := w_nalloc w1 |>.
Definition st_poor : stack :=
  Stack (Glue (st_machine <| kern ::= fun k => k <| k_world := w_short1 |> |> <| td := td0 |>) (boot_memory 1)) ∅.
Definition st_paged : stack := default st_poor (run_acts 3 [Fs (PageInit 1)] st_poor).

Lemma st_paged_life : machine_life 3 false st_paged [].
Proof.
  assert (E : match run_acts 3 [Fs (PageInit 1)] st_poor with Some _ => true | None => false end = true) by (vm_compute; reflexivity).
  eapply (run_acts_life _ _ _ [Fs (PageInit 1)] st_poor); [|unfold st_paged; by destruct (run_acts 3 _ st_poor)].
  eapply (life_boot _ _ _ _ []); [by apply not_elem_of_nil |].
  exists (st_machine <| kern ::= fun k => k <| k_world := w_short |> |>), 1%positive, td0, w_short1.
  do 3 (split; [done |]). split; [vm_compute; reflexivity |]. by vm_compute.
Qed.

(** A dispatch; and the two ways in which the kernel crashes. *)
Lemma patched_kernel_no_fault_witness :
  (exists x', run_act 3 (Handle (Dispatch false)) st_ready = Ok (tt, x') /\ env_wf (kern (st_host x')) (rqs (st_host x'))) /\
  run_act 3 (Fs (PreparePage 1 1)) st_paged = Fault (BUG 100) /\
  tbucket_exit_queue 3 (td (st_host st_paged)) [] = Fault (BUG 108).
Proof.
  split; [|split].
  - destruct (patched_kernel_no_fault 3 true st_ready [3%positive] st_ready_life) as [H _].
    destruct (H (Handle (Dispatch false))) as (x' & E & _ & He & _).
    + split; [reflexivity |]. split; exact I.
    + exists x'. split; [exact E | exact He].
  - destruct (patched_kernel_no_fault 3 false st_paged [] st_paged_life) as [H _].
    assert (Hr : act_ready (Fs (PreparePage 1 1)) st_paged).
    { apply (checked_ready 3); [apply (sreach_inv 3), (life_sreach _ _ _ _ st_paged_life) |].
      apply (bool_decide_unpack _). vm_compute. exact I. }
    specialize (H _ Hr). revert H. case_decide as He; [|exact id]. vm_compute in He. discriminate (He eq_refl).
  - apply (patched_kernel_no_fault 3 false st_paged [] st_paged_life).
Defined.

Lemma merged_request_lost_witness :
  exists x2, (forall q, 1%positive ∉ qreqs (st_host x2) q) /\ length <$> (rq_bio <$> rqs (st_host x2) !! 1%positive) = Some 2%nat.
Proof.
  assert (E : match rqs (st_host st_ready) !! 1%positive, rqs (st_host st_ready) !! 2%positive with
              | Some r, Some n => (length (rq_bio r ++ rq_bio n) =? 2)%nat | _, _ => false end &&
              bool_decide (1%positive ∈ qreqs (st_host st_ready) (1%nat, true)) &&
              bool_decide (1%positive ∉ dispatch_list (st_host st_ready)) = true) by (vm_compute; reflexivity).
  apply andb_prop in E. destruct E as [E Hd]. apply andb_prop in E. destruct E as [Er Hq].
  apply bool_decide_eq_true in Hd. apply bool_decide_eq_true in Hq.
  destruct (rqs (st_host st_ready) !! 1%positive) as [r|] eqn:Hr; [|discriminate Er].
  destruct (rqs (st_host st_ready) !! 2%positive) as [n|] eqn:Hn; [|discriminate Er]. apply Nat.eqb_eq in Er.
  destruct (merged_request_lost 3 st_ready 1 2 r n (1%nat, true) st_ready_reach Hr Hn) as (x1 & x2 & _ & _ & _ & Hb & Hl).
  - discriminate.
  - exact Hq.
  - exact Hd.
  - exists x2. split; [apply (Hl x2), later_now |]. rewrite Hb. simpl. rewrite Er. reflexivity.
Defined.
