(* ===== verification/Deadline.v ===== *)
(** * Split-deadline scheduler: data and operations (src/modules/split_deadline_sched.c)

    A request waits in two places: in the tree of its direction, in the order of
    sectors, and in the FIFO of its direction, in the order of arrival.  Dispatching
    sweeps through the tree in batches; a batch starts at the head of the FIFO when
    the head has expired or the sweep has ended.  Besides, the scheduler counts the
    dirty pages of each inode, and [fsync] of some accounts waits until the count is
    low.

    Every function of the elevator runs under the queue lock and is a function on
    the state [dl] here; [deadline_fsync_entry] sleeps without the lock, and what
    the others do meanwhile is its argument [env]. *)

From S2P Require Import Prelude CInt Kernel HashTable CauseTags IoctlHelper RbTree Jiffies.
From S2P Require Import SplitAccount SplitSched.

(** ** Data *)

(** The direction of a request: the index of the arrays of two. *)
Inductive dir := READ | WRITE.
#[export] Instance dir_eq_dec : EqDecision dir.
Proof. solve_decision. Defined.

Record per_dir (A : Type) := PerDir { on_read : A; on_write : A }.
Arguments PerDir {A} _ _.
Arguments on_read {A} _.
Arguments on_write {A} _.

Definition sel {A} (d : dir) (p : per_dir A) : A :=
  match d with READ => on_read p | WRITE => on_write p end.
Definition put {A} (d : dir) (x : A) (p : per_dir A) : per_dir A :=
  match d with READ => PerDir x (on_write p) | WRITE => PerDir (on_read p) x end.

Definition DIRTY_PAGE_THRES : Z := 100.
Definition FSYNC_WB_PAGES : Z := 100.

Definition writes_starved_default : Z := 2.
Definition fifo_batch_default : Z := 16.

Record deadline_data := DData {
  dd_accts : acct_hash;
  magic : Z;                          (* a signed char *)
  last_accepted : per_dir Z;
  last_issued : per_dir Z;
  sort_list : per_dir (tree ptr);
  fifo_list : per_dir (list ptr);
  next_rq : per_dir (option ptr);
  batching : Z;                       (* unsigned int *)
  last_sector : Z;
  starved : Z;                        (* unsigned int *)
  fifo_expire : per_dir Z;
  fifo_batch : Z;
  writes_starved : Z;
  front_merges : Z;
}.
#[export] Instance eta_dd : Eta deadline_data := fun d =>
  DData (dd_accts d) (magic d) (last_accepted d) (last_issued d) (sort_list d) (fifo_list d)
    (next_rq d) (batching d) (last_sector d) (starved d) (fifo_expire d) (fifo_batch d)
    (writes_starved d) (front_merges d).

(** The fields of [struct request] in use; the expiry time is kept in
    [csd.llist.next]. *)
Record request := Rq {
  rq_data_dir : dir;
  blk_rq_pos : Z;
  blk_rq_sectors : Z;
  fifo_time : Z;
  rq_bio : list bio;
}.
#[export] Instance eta_request : Eta request := fun r =>
  Rq (rq_data_dir r) (blk_rq_pos r) (blk_rq_sectors r) (fifo_time r) (rq_bio r).

Record dl := DL {
  kern : kernel;
  rqs : gmap ptr request;
  inodes : gmap ptr Z;                (* i_private1 of each inode *)
  dispatch_list : list ptr;           (* queue_head of the request queue *)
  q_sched_uniq : Z;
  wb_works : list (ptr * Z);          (* inode_write_back_work scheduled *)
  dd : deadline_data;
}.
#[export] Instance eta_dl : Eta dl := fun s =>
  DL (kern s) (rqs s) (inodes s) (dispatch_list s) (q_sched_uniq s) (wb_works s) (dd s).

(** ** Functions of block/elevator.c *)

Class ElvFns := {
  (* the first argument gives the first sector of a request *)
  elv_rb_add : (ptr -> Z) -> tree ptr -> ptr -> tree ptr;
  elv_rb_find : (ptr -> Z) -> tree ptr -> Z -> option ptr;
  elv_rb_del : tree ptr -> ptr -> result (tree ptr);
  elv_dispatch_add_tail : list ptr -> ptr -> list ptr;
  elv_rq_merge_ok : request -> bio -> bool;
}.

Class ElvOk (E : ElvFns) : Prop := {
  elv_rb_add_inorder : forall pos t rq,
    StronglySorted (key_le pos) (inorder t) ->
    inorder (elv_rb_add pos t rq) = insert_key pos rq (inorder t);
  elv_rb_find_inorder : forall pos t sector,
    StronglySorted (key_le pos) (inorder t) ->
    match elv_rb_find pos t sector with
    | Some rq => rq ∈ inorder t /\ pos rq = sector
    | None => forall rq, rq ∈ inorder t -> pos rq <> sector
    end;
  elv_rb_del_inorder : forall t rq, rq ∈ inorder t ->
    exists t', elv_rb_del t rq = Ok t' /\ inorder t' = filter (fun r => r <> rq) (inorder t);
  elv_dispatch_add_tail_app : forall l rq, elv_dispatch_add_tail l rq = l ++ [rq];
}.

(** ** Access to the state *)

Definition upd_dd (f : deadline_data -> deadline_data) : ST dl unit := modify (fun s => s <| dd ::= f |>).
Definition in_kern {A} (m : ST kernel A) : ST dl A := zoom kern (fun k s => s <| kern := k |>) m.
Definition in_clock {A} (m : ST world A) : ST dl A := in_kern (in_world m).
Definition get_rq (line : Z) (rq : ptr) : ST dl request := fun s =>
  match rqs s !! rq with Some r => Ok (r, s) | None => Fault (NullDeref line) end.
Definition upd_rq (rq : ptr) (f : request -> request) : ST dl unit :=
  modify (fun s => s <| rqs ::= alter f rq |>).
Definition posof (rs : gmap ptr request) (p : ptr) : Z :=
  match rs !! p with Some r => blk_rq_pos r | None => 0 end.

(** [list_del_init(&rq->queuelist)]: off the list it is on. *)
Definition list_del (x : ptr) (l : list ptr) : list ptr := filter (fun y => y <> x) l.
Definition queuelist_del (rq : ptr) (s : dl) : dl :=
  s <| dd ::= fun d => d <| fifo_list ::= fun f =>
         PerDir (list_del rq (on_read f)) (list_del rq (on_write f)) |> |>
    <| dispatch_list ::= list_del rq |>.

(** [list_add(x, y)]: behind [y] in the list [y] is on. *)
Fixpoint insert_behind (x y : ptr) (l : list ptr) : list ptr :=
  match l with
  | [] => []
  | z :: l' => if decide (z = y) then z :: x :: l' else z :: insert_behind x y l'
  end.
Definition queuelist_add_behind (x y : ptr) (s : dl) : dl :=
  s <| dd ::= fun d => d <| fifo_list ::= fun f =>
         PerDir (insert_behind x y (on_read f)) (insert_behind x y (on_write f)) |> |>
    <| dispatch_list ::= insert_behind x y |>.

(** [!list_empty(&rq->queuelist)] *)
Definition on_queuelist (s : dl) (rq : ptr) : bool :=
  bool_decide (rq ∈ on_read (fifo_list (dd s)) ++ on_write (fifo_list (dd s)) ++ dispatch_list s).

(** ** Dirty pages of an inode

    The low byte of [i_private1] is the number of the scheduler that owns the
    count, which is in the bits above it. *)

Definition inode_get_dirty_pages (i_private1 : Z) : Z := Z.shiftr i_private1 8.

Definition check_dirty_number (magic i_private1 : Z) : Z :=
  if Z.land i_private1 0xff =? Z.land magic 0xff then i_private1 else magic.

Definition inode_inc_dirty_pages (magic i_private1 num : Z) : Z :=
  let v := check_dirty_number magic i_private1 in
  if (num <? 0) && (inode_get_dirty_pages v + num <? 0) then v
  else s64 (v + s32 (Z.shiftl num 8)).

Definition inode_dec_dirty_pages (magic i_private1 num : Z) : Z :=
  inode_inc_dirty_pages magic i_private1 (s32 (- num)).

Definition get_inode (line : Z) (ino : ptr) : ST dl Z := fun s =>
  match inodes s !! ino with Some v => Ok (v, s) | None => Fault (NullDeref line) end.
Definition add_dirty (ino : ptr) (num : Z) : ST dl unit :=
  let! v := get_inode 82 ino in
  modify (fun s => s <| inodes ::= <[ino := inode_inc_dirty_pages (magic (dd s)) v num]> |>).
Definition sub_dirty (ino : ptr) (num : Z) : ST dl unit :=
  let! v := get_inode 82 ino in
  modify (fun s => s <| inodes ::= <[ino := inode_dec_dirty_pages (magic (dd s)) v num]> |>).

(** [get_time_diff], in milliseconds. *)
Definition get_time_diff (end_ start : timeval) : Z :=
  s32 (s64 ((tv_s end_ - tv_s start) * 1000) + c_div (tv_us end_ - tv_us start) 1000).

(** [issue_async_inode_wb]; the inode is not NULL where it is called. *)
Definition issue_async_inode_wb (ino : ptr) (nr_to_write : Z) : ST dl Z :=
  let! ok := in_clock kmalloc in
  if negb ok then ret (- ENOMEM)
  else modify (fun s => s <| wb_works ::= fun l => l ++ [(ino, nr_to_write)] |>);; ret 0.

(** [do_inode_wb_work] and [__filemap_fdatawrite_pages]: the first work item is
    taken off, and the pages [do_writepages] is asked for are returned; [None] if
    the mapping has no write-back. *)
Definition do_inode_wb_work (can_writeback : ptr -> bool) : ST dl (option (ptr * Z)) :=
  let! works := gets wb_works in
  match works with
  | [] => ret None
  | (ino, nr_to_write) :: works' =>
      modify (fun s => s <| wb_works := works' |>);;
      ret (if can_writeback ino then Some (ino, c_div nr_to_write 8) else None)
  end.

Section Handlers.
Context {K : KernelFns} {R : RbFns} {E : ElvFns} {J : JiffyFns}.

Definition get_acct (id : Z) : ST dl (option nat) :=
  zoom (fun s => (dd_accts (dd s), k_world (kern s)))
       (fun hw s => s <| dd ::= fun d => d <| dd_accts := fst hw |> |>
                      <| kern ::= fun k => k <| k_world := snd hw |> |>)
       (get_account id).

(** ** Trees and FIFOs *)

Definition deadline_latter_request (d : dir) (rq : ptr) : ST dl (option ptr) :=
  gets (fun s => rb_next rq (sel d (sort_list (dd s)))).

Definition deadline_add_rq_rb (rq : ptr) : ST dl unit :=
  let! r := get_rq 188 rq in
  modify (fun s => s <| dd ::= fun d => d <| sort_list ::= fun t =>
    put (rq_data_dir r) (elv_rb_add (posof (rqs s)) (sel (rq_data_dir r) t) rq) t |> |>).

(** [elv_rb_del(deadline_rb_root(dd, rq), rq)] *)
Definition rb_root_del (rq : ptr) : ST dl unit :=
  let! r := get_rq 201 rq in
  let! t := gets (fun s => sort_list (dd s)) in
  let! t' := lift (elv_rb_del (sel (rq_data_dir r) t) rq) in
  upd_dd (fun d => d <| sort_list := put (rq_data_dir r) t' t |>).

Definition deadline_del_rq_rb (rq : ptr) : ST dl unit :=
  let! r := get_rq 196 rq in
  let data_dir := rq_data_dir r in
  let! n := gets (fun s => sel data_dir (next_rq (dd s))) in
  (if bool_decide (n = Some rq)
   then let! latter := deadline_latter_request data_dir rq in
        upd_dd (fun d => d <| next_rq ::= put data_dir latter |>)
   else ret tt);;
  rb_root_del rq.

Definition deadline_add_request (rq : ptr) : ST dl unit :=
  let! r := get_rq 211 rq in
  let data_dir := rq_data_dir r in
  upd_dd (fun d => d <| last_accepted ::= fun l => put data_dir (s32 (sel data_dir l + 1)) l |>);;
  deadline_add_rq_rb rq;;
  let! jiffies := in_clock read_jiffies in
  let! expire := gets (fun s => sel data_dir (fifo_expire (dd s))) in
  upd_rq rq (fun r => r <| fifo_time := u64 (jiffies + expire) |>);;
  upd_dd (fun d => d <| fifo_list ::= fun f => put data_dir (sel data_dir f ++ [rq]) f |>).

Definition deadline_remove_request (rq : ptr) : ST dl unit :=
  modify (queuelist_del rq);;
  deadline_del_rq_rb rq.

(** ** Merging *)

Definition ELEVATOR_NO_MERGE : Z := 0.
Definition ELEVATOR_FRONT_MERGE : Z := 1.

(** [bio_dir] is the direction of the bio; returns the request to merge it into. *)
Definition deadline_merge (bio_dir : dir) (b : bio) : ST dl (Z * option ptr) :=
  let! s := gets (fun s => s) in
  if negb (front_merges (dd s) =? 0) then
    let sector := u64 (bi_sector b + Z.shiftr (bi_size b) 9) in
    match elv_rb_find (posof (rqs s)) (sel bio_dir (sort_list (dd s))) sector with
    | Some __rq =>
        let! r := get_rq 250 __rq in
        lift (bug_on 250 (negb (sector =? blk_rq_pos r)));;
        if elv_rq_merge_ok r b then ret (ELEVATOR_FRONT_MERGE, Some __rq)
        else ret (ELEVATOR_NO_MERGE, None)
    | None => ret (ELEVATOR_NO_MERGE, None)
    end
  else ret (ELEVATOR_NO_MERGE, None).

Definition deadline_merged_request (req : ptr) (type : Z) : ST dl unit :=
  if type =? ELEVATOR_FRONT_MERGE
  then rb_root_del req;; deadline_add_rq_rb req
  else ret tt.

Definition deadline_merged_requests (req next : ptr) : ST dl unit :=
  let! s := gets (fun s => s) in
  (if on_queuelist s req && on_queuelist s next then
     let! r := get_rq 289 req in
     let! n := get_rq 289 next in
     if time_before (fifo_time n) (fifo_time r) then
       modify (queuelist_del req);;
       modify (queuelist_add_behind req next);;
       upd_rq req (fun r => r <| fifo_time := fifo_time n |>)
     else ret tt
   else ret tt);;
  deadline_remove_request next.

(** ** Dispatching *)

(** One cause list of a bio that is submitted. *)
Definition submit_causes (l : cause_list_list) (i : Z) : ST dl unit :=
  let! slot := lift (array_get 315 (cll_items l) i) in
  let! causes := lift (deref 316 slot) in
  let! c := in_kern (read_causes 316 causes) in
  (match cl_inode c with Some ino => sub_dirty ino 1 | None => ret tt end);;
  in_kern (write_causes causes (fun c => c <| cl_inode := None |> <| callback_q := None |>)).

Definition submit_bio (b : bio) : ST dl unit :=
  match bi_cll b with
  | Some l => for_each (seqZ 0 (cll_item_count l)) (submit_causes l)
  | None => ret tt
  end.

Definition inode_dec_dirty_for_submitted_rq (rq : ptr) : ST dl unit :=
  let! r := get_rq 304 rq in
  match rq_data_dir r with
  | READ => ret tt
  | WRITE => for_each (rq_bio r) submit_bio
  end.

Definition deadline_move_to_dispatch (rq : ptr) : ST dl unit :=
  deadline_remove_request rq;;
  inode_dec_dirty_for_submitted_rq rq;;
  let! r := get_rq 338 rq in
  upd_dd (fun d => d <| last_issued ::= fun l =>
    put (rq_data_dir r) (s32 (sel (rq_data_dir r) l + 1)) l |>);;
  modify (fun s => s <| dispatch_list ::= fun l => elv_dispatch_add_tail l rq |>).

Definition deadline_move_request (rq : ptr) : ST dl unit :=
  let! r := get_rq 348 rq in
  let data_dir := rq_data_dir r in
  upd_dd (fun d => d <| next_rq := PerDir None None |>);;
  let! latter := deadline_latter_request data_dir rq in
  upd_dd (fun d => d <| next_rq ::= put data_dir latter |>
                     <| last_sector := u64 (blk_rq_pos r + blk_rq_sectors r) |>);;
  deadline_move_to_dispatch rq.

(** The head of a FIFO; the code requires that there is one. *)
Definition fifo_head (line : Z) (d : dir) : ST dl ptr :=
  let! f := gets (fun s => sel d (fifo_list (dd s))) in lift (deref line (head f)).

Definition deadline_check_fifo (d : dir) : ST dl bool :=
  let! rq := fifo_head 369 d in
  let! jiffies := in_clock read_jiffies in
  let! r := get_rq 374 rq in
  ret (time_after jiffies (fifo_time r)).

Definition RB_EMPTY_ROOT {A} (t : tree A) : bool := match t with Leaf => true | _ => false end.

(** The label [dispatch_writes]. *)
Definition dispatch_writes : ST dl (option dir) :=
  let! t := gets (fun s => sort_list (dd s)) in
  lift (bug_on 640 (RB_EMPTY_ROOT (on_write t)));;
  upd_dd (fun d => d <| starved := 0 |>);;
  ret (Some WRITE).

(** The direction of the next batch; [None] if no request waits. *)
Definition select_dir (reads writes : bool) : ST dl (option dir) :=
  if reads then
    let! t := gets (fun s => sort_list (dd s)) in
    lift (bug_on 624 (RB_EMPTY_ROOT (on_read t)));;
    if writes then
      let! d := gets dd in
      upd_dd (fun d => d <| starved ::= fun n => u32 (n + 1) |>);;
      if starved d >=? u32 (writes_starved d) then dispatch_writes else ret (Some READ)
    else ret (Some READ)
  else if writes then dispatch_writes
  else ret None.

(** The label [dispatch_find_request]. *)
Definition dispatch_find_request (data_dir : dir) : ST dl ptr :=
  let! expired := deadline_check_fifo data_dir in
  let! n := gets (fun s => sel data_dir (next_rq (dd s))) in
  match expired, n with
  | false, Some rq => ret rq
  | _, _ => fifo_head 661 data_dir
  end.

(** The label [dispatch_request]. *)
Definition dispatch_request (rq : ptr) : ST dl Z :=
  upd_dd (fun d => d <| batching ::= fun n => u32 (n + 1) |>);;
  deadline_move_request rq;;
  ret 1.

Definition nonempty {A} (l : list A) : bool := match l with [] => false | _ => true end.

(** The request that continues the batch, if the batch may go on. *)
Definition batch_next (d : deadline_data) : option ptr :=
  match (match on_write (next_rq d) with Some rq => Some rq | None => on_read (next_rq d) end) with
  | Some rq => if batching d <? u32 (fifo_batch d) then Some rq else None
  | None => None
  end.

Definition deadline_dispatch_requests : ST dl Z :=
  let! d := gets dd in
  let reads := nonempty (on_read (fifo_list d)) in
  let writes := nonempty (on_write (fifo_list d)) in
  match batch_next d with
  | Some rq => dispatch_request rq
  | None =>
      let! data_dir := select_dir reads writes in
      match data_dir with
      | None => ret 0
      | Some data_dir =>
          let! rq := dispatch_find_request data_dir in
          upd_dd (fun d => d <| batching := 0 |>);;
          dispatch_request rq
      end
  end.

(** ** Hooks of the file system *)

Definition deadline_causes_dirty (causes inode : ptr) : ST dl unit :=
  let! c := in_kern (read_causes 572 causes) in
  match cl_inode c with
  | None =>
      in_kern (write_causes causes (fun c => c <| cl_inode := Some inode |>));;
      add_dirty inode 1
  | Some _ => ret tt
  end.

Definition deadline_causes_free (causes : ptr) : ST dl unit :=
  let! c := in_kern (read_causes 588 causes) in
  match cl_inode c with Some inode => sub_dirty inode 1 | None => ret tt end.

(** The first part of [deadline_fsync_entry], under the lock of the queue, for a caller with the account [cur]: an error,
    or the descriptor, whether pages are to be written first, and how many are dirty.  [issued_too_much] is
    computed by the code and used by nothing. *)
Definition fsync_enter (cur : Z) (file inode : ptr) (datasync sched_uniq : Z)
    : ST dl (fsync_desc * bool * Z + Z) :=
  let! d := in_clock (get_fsync_desc file datasync) in
  match d with
  | inr err => ret (inr err)
  | inl desc =>
      let! uniq := gets q_sched_uniq in
      if negb (sched_uniq =? uniq) then ret (inr (-1))
      else
        let! p := get_acct cur in
        let! h := gets (fun s => dd_accts (dd s)) in
        let acct := match p with Some p => a_heap h !! p | None => None end in
        let desc := desc <| f_acct := p |> in
        let need_wb := match acct with Some a => fsync_expire a =? 200 | None => false end in
        let! v := get_inode 519 inode in
        ret (inl (desc, need_wb, s32 (inode_get_dirty_pages v)))
  end.

(** A turn of its loop: before the sleep pages are to be written, *)
Definition fsync_issue (inode : ptr) : ST dl unit := issue_async_inode_wb inode FSYNC_WB_PAGES;; ret tt.

(** and after it some are taken off the count if that has not changed; returns the new count. *)
Definition fsync_wake (inode : ptr) (num_dirty_pages : Z) : ST dl Z :=
  let! v := get_inode 535 inode in
  (if num_dirty_pages =? inode_get_dirty_pages v
   then sub_dirty inode FSYNC_WB_PAGES else ret tt);;
  let! v := get_inode 540 inode in
  ret (s32 (inode_get_dirty_pages v)).

(** The loop; [env n] is what happens to the state during the n-th sleep.  Returns whether it has ended. *)
Fixpoint fsync_loop (env : nat -> dl -> dl) (fuel n : nat) (inode : ptr) (num_dirty_pages : Z)
    : ST dl bool :=
  match fuel with
  | O => ret false
  | S fuel =>
      if num_dirty_pages >=? DIRTY_PAGE_THRES then
        fsync_issue inode;;
        modify (env n);;
        let! num_dirty_pages := fsync_wake inode num_dirty_pages in
        fsync_loop env fuel (S n) inode num_dirty_pages
      else ret true
  end.

Definition fsync_stamp (desc : fsync_desc) : ST dl fsync_desc :=
  let! now := in_clock do_gettimeofday in ret (desc <| f_time := now |>).

(** Returns the value, the descriptor for [deadline_fsync_return], and whether the loop has ended. *)
Definition deadline_fsync_entry (env : nat -> dl -> dl) (fuel : nat) (cur : Z) (file inode : ptr)
    (datasync sched_uniq : Z) : ST dl (Z * option fsync_desc * bool) :=
  let! r := fsync_enter cur file inode datasync sched_uniq in
  match r with
  | inr err => ret (err, None, true)
  | inl (desc, need_wb, num_dirty_pages) =>
      let! ended := (if need_wb : bool then fsync_loop env fuel 0 inode num_dirty_pages else ret true) in
      let! desc := fsync_stamp desc in
      ret (0, Some desc, ended)
  end.

(** Returns the time it logs, if it logs it; the descriptor is freed. *)
Definition deadline_fsync_return (desc : fsync_desc) : ST dl (option Z) :=
  let! now := in_clock do_gettimeofday in
  let! h := gets (fun s => dd_accts (dd s)) in
  let diff := get_time_diff now (f_time desc) in
  let acct := match f_acct desc with Some p => a_heap h !! p | None => None end in
  if (diff >=? 10) || (match acct with Some a => fsync_expire a =? 200 | None => false end)
  then ret (Some diff) else ret None.

(** ** Settings *)

Definition set_expire (key : string) (val : Z) (a : account) : account :=
  let a := if String.eqb key "read_expire" then a <| read_expire := s32 val |> else a in
  if String.eqb key "fsync_expire" then
    let val := if val =? 300 then 5 else val in
    let val := if val =? 6000 then 200 else val in
    a <| fsync_expire := s32 val |>
  else a.

Definition deadline_kv_set_callback (id : Z) (key : string) (val : Z) : ST dl unit :=
  let! p := get_acct id in
  match p with
  | Some p => upd_dd (fun d => d <| dd_accts ::= fun h => h <| a_heap ::= alter (set_expire key val) p |> |>)
  | None => ret tt
  end.

(** One turn of the loop of [sched_thread_func]; it logs the counters if one of
    them is not zero. *)
Definition sched_thread_turn : ST dl bool :=
  let! d := gets dd in
  let log := negb ((on_read (last_accepted d) =? 0) && (on_write (last_accepted d) =? 0) &&
                   (on_read (last_issued d) =? 0) && (on_write (last_issued d) =? 0)) in
  upd_dd (fun d => d <| last_accepted := PerDir 0 0 |> <| last_issued := PerDir 0 0 |>);;
  ret log.

(** [STORE_FUNCTION] on the number [simple_strtol] has read from the page: the value
    that is stored. *)
Definition var_store (strtol MIN MAX : Z) (conv : bool) : Z :=
  let __data := s32 strtol in
  let __data := if __data <? MIN then MIN else if __data >? MAX then MAX else __data in
  if conv then s32 (msecs_to_jiffies __data) else __data.

Definition deadline_read_expire_store (v : Z) : ST dl unit :=
  upd_dd (fun d => d <| fifo_expire ::= put READ (var_store v 0 INT_MAX true) |>).
Definition deadline_write_expire_store (v : Z) : ST dl unit :=
  upd_dd (fun d => d <| fifo_expire ::= put WRITE (var_store v 0 INT_MAX true) |>).
Definition deadline_writes_starved_store (v : Z) : ST dl unit :=
  upd_dd (fun d => d <| writes_starved := var_store v INT_MIN INT_MAX false |>).
Definition deadline_front_merges_store (v : Z) : ST dl unit :=
  upd_dd (fun d => d <| front_merges := var_store v 0 1 false |>).
Definition deadline_fifo_batch_store (v : Z) : ST dl unit :=
  upd_dd (fun d => d <| fifo_batch := var_store v 0 INT_MAX false |>).

(** ** Setting up and shutting down *)

(** [start_sched_thread] returns 0 if the thread could be created. *)
Definition start_sched_thread (thread_ok : bool) : Z := if thread_ok then 0 else - ENOMEM.

(** [random] is the byte [get_random_bytes] delivers, [eq_ok] and [thread_ok] whether
    the elevator and the thread could be created.  Returns the value, the data of
    the scheduler unless setting up failed, and the registry. *)
Definition deadline_init_queue (q : ptr) (eq_ok thread_ok : bool) (random : Z) (disks : disk_list)
    : ST world (Z * option deadline_data * disk_list) :=
  if negb eq_ok then ret (- ENOMEM, None, disks)
  else
    let! ok := kmalloc in
    if negb ok then ret (- ENOMEM, None, disks)
    else
      let d := {| dd_accts := init_acct_hash (AcctHash [] []);
                  magic := (random + 128) mod 256 - 128;
                  last_accepted := PerDir 0 0; last_issued := PerDir 0 0;
                  sort_list := PerDir Leaf Leaf; fifo_list := PerDir [] [];
                  next_rq := PerDir None None; batching := 0; last_sector := 0; starved := 0;
                  fifo_expire := PerDir (c_div HZ 2) (5 * HZ);
                  fifo_batch := fifo_batch_default; writes_starved := writes_starved_default;
                  front_merges := 1 |} in
      if negb (start_sched_thread thread_ok =? 0) then ret (- ENOMEM, None, disks)
      else
        let! di_ok := kmalloc in
        ret (0, Some d, snd (ioctl_helper_register_disk di_ok disks q)).

(** Returns the emptied database of accounts and the registry. *)
Definition deadline_exit_queue (q : ptr) (d : deadline_data) (disks : disk_list)
    : result (acct_hash * disk_list) :=
  let? _ := bug_on 819 (nonempty (on_read (fifo_list d))) in
  let? _ := bug_on 820 (nonempty (on_write (fifo_list d))) in
  let accts := free_accounts (dd_accts d) in
  let? disks := ioctl_helper_unregister_disk disks q in
  Ok (accts, disks).

End Handlers.

(** ** An implementation of the elevator's functions: trees that are lists *)

#[export] Instance ref_elv : ElvFns := {|
  elv_rb_add pos t rq := spine (insert_key pos rq (inorder t));
  elv_rb_find pos t sector := List.find (fun rq => pos rq =? sector) (inorder t);
  elv_rb_del t rq := if decide (rq ∈ inorder t) then Ok (spine (filter (fun r => r <> rq) (inorder t)))
                     else Fault (BUG 0);
  elv_dispatch_add_tail l rq := l ++ [rq];
  elv_rq_merge_ok _ _ := true;
|}.

#[export] Instance ref_elv_ok : ElvOk ref_elv.
Proof.
  split; simpl.
  - intros. by rewrite spine_inorder.
  - intros pos t sector _. destruct (List.find _ _) as [rq|] eqn:Ef.
    + apply find_some in Ef as [Hin Hk]. split; [by apply list_elem_of_In | by apply Z.eqb_eq].
    + intros rq Hin Hk. apply list_elem_of_In in Hin. apply (find_none _ _ Ef) in Hin.
      by rewrite Hk, Z.eqb_refl in Hin.
  - intros t rq Hin. eexists. rewrite decide_True by done. split; [done |]. by rewrite spine_inorder.
  - done.
Qed.
