(* ===== verification/DeadlineDirty.v ===== *)
(** * Split-deadline scheduler: dirty pages

    [i_private1] of an inode holds the number of its dirty pages above the byte that
    marks the scheduler the number belongs to.  The number is what it should be, the
    number of cause lists that point to the inode, if the mark is not negative; and
    [fsync] does not wait for ever. *)

From S2P Require Import Prelude CInt Kernel HashTable CauseTags IoctlHelper RbTree Jiffies.
From S2P Require Import SplitAccount SplitSched Deadline.

(** ** The word [i_private1] *)

Definition tagged (m v : Z) : Prop := Z.land v 0xff = Z.land m 0xff.
#[export] Instance tagged_dec m v : Decision (tagged m v).
Proof. unfold tagged. apply _. Defined.

Lemma land_byte v : Z.land v 0xff = v mod 256.
Proof. change 0xff with (Z.ones 8). by rewrite Z.land_ones by lia. Qed.

Lemma get_dirty_div v : inode_get_dirty_pages v = v / 256.
Proof. unfold inode_get_dirty_pages. by rewrite Z.shiftr_div_pow2 by lia. Qed.

Lemma check_tagged m v : tagged m v -> check_dirty_number m v = v.
Proof. unfold tagged, check_dirty_number. intros ->. by rewrite Z.eqb_refl. Qed.

Lemma check_untagged m v : ~ tagged m v -> check_dirty_number m v = m.
Proof. unfold tagged, check_dirty_number. intros H. by destruct (Z.eqb_spec (Z.land v 0xff) (Z.land m 0xff)). Qed.

Lemma shift_tag m v n : tagged m v -> tagged m (v + n * 256).
Proof. unfold tagged. rewrite !land_byte. by rewrite Z_mod_plus_full. Qed.

Lemma shift_count v n : inode_get_dirty_pages (v + n * 256) = inode_get_dirty_pages v + n.
Proof. rewrite !get_dirty_div. by rewrite Z_div_plus_full by lia. Qed.

Definition near (v : Z) : Prop := - 0x40000000000000 <= v < 0x40000000000000.

Lemma near_get v : near v -> -0x400000000000 <= inode_get_dirty_pages v < 0x400000000000.
Proof.
  rewrite get_dirty_div. unfold near. intros Hv.
  pose proof (Z.div_mod v 256). pose proof (Z.mod_pos_bound v 256). lia.
Qed.

(** On a count of this scheduler the operations count. *)
Lemma inc_tagged m v n :
  tagged m v -> near v -> 0 <= n < 0x400000 -> inode_inc_dirty_pages m v n = v + n * 256.
Proof.
  intros Ht Hv Hn. unfold inode_inc_dirty_pages, near in *. rewrite check_tagged by done.
  destruct (Z.ltb_spec n 0); [lia |]. simpl. rewrite Z.shiftl_mul_pow2 by lia.
  change (2 ^ 8) with 256. by wrap_small.
Qed.

Lemma dec_tagged m v n :
  tagged m v -> near v -> 0 < n < 0x400000 ->
  inode_dec_dirty_pages m v n = if inode_get_dirty_pages v <? n then v else v - n * 256.
Proof.
  intros Ht Hv Hn. unfold inode_dec_dirty_pages, inode_inc_dirty_pages, near in *.
  rewrite (s32_small (- n)) by (unfold is_s32; lia). rewrite check_tagged by done.
  destruct (Z.ltb_spec (- n) 0); [|lia]. simpl.
  destruct (Z.ltb_spec (inode_get_dirty_pages v + - n) 0), (Z.ltb_spec (inode_get_dirty_pages v) n); try lia; auto.
  rewrite Z.shiftl_mul_pow2 by lia. change (2 ^ 8) with 256. wrap_small. lia.
Qed.

Lemma inc_untagged m v :
  ~ tagged m v -> -128 <= m < 128 -> inode_inc_dirty_pages m v 1 = m + 1 * 256.
Proof.
  intros Hv Hm. unfold inode_inc_dirty_pages. rewrite check_untagged by done. simpl.
  change (s32 256) with (1 * 256). apply s64_small. unfold is_s64. lia.
Qed.

(** With a mark of 128 or more (the [char] is signed) the count of an inode
    that is seen for the first time starts at -1: its first dirty page is not
    counted, and taking the page back leaves the count where it is. *)
Theorem negative_magic_miscounts m v :
  -128 <= m < 0 -> ~ tagged m v ->
  inode_get_dirty_pages (inode_inc_dirty_pages m v 1) = 0 /\
  inode_dec_dirty_pages m (inode_inc_dirty_pages m v 1) 1 = inode_inc_dirty_pages m v 1.
Proof.
  intros Hm Hv. rewrite inc_untagged by (done || lia).
  assert (Hd : inode_get_dirty_pages m = -1).
  { rewrite get_dirty_div. symmetry. apply (Z.div_unique m 256 (-1) (m + 256)); lia. }
  rewrite shift_count, Hd. split; [done |].
  rewrite dec_tagged; [|by apply shift_tag | unfold near; lia | lia]. by rewrite shift_count, Hd.
Qed.

Lemma negative_magic_miscounts_witness :
  inode_get_dirty_pages (inode_inc_dirty_pages (-56) 0 1) = 0.
Proof. apply (negative_magic_miscounts (-56) 0); [lia | vm_compute; congruence]. Defined.

(** ** The count is the number of cause lists *)

Definition points_to (ino : ptr) (pc : ptr * cause_list) : Prop := cl_inode (snd pc) = Some ino.
#[export] Instance points_to_dec ino pc : Decision (points_to ino pc).
Proof. unfold points_to. apply _. Defined.

Definition dirty_count (cs : gmap ptr cause_list) (ino : ptr) : Z :=
  Z.of_nat (size (filter (points_to ino) cs)).

(** Every inode that carries the mark counts the cause lists that point to it, and
    no cause list points to another one. *)
Record counted (m : Z) (cs : gmap ptr cause_list) (ins : gmap ptr Z) : Prop := {
  ct_magic : 0 <= m < 128;
  ct_size : Z.of_nat (size cs) < 0x10000000000;
  ct_count : forall ino v, ins !! ino = Some v ->
    if decide (tagged m v) then inode_get_dirty_pages v = dirty_count cs ino
    else dirty_count cs ino = 0;
}.

Lemma dirty_count_range cs ino : 0 <= dirty_count cs ino <= Z.of_nat (size cs).
Proof.
  unfold dirty_count. split; [lia |]. apply inj_le. apply map_subseteq_size, map_filter_subseteq.
Qed.

Lemma count_near m v c : 0 <= m < 128 -> tagged m v -> inode_get_dirty_pages v = c ->
  0 <= c < 0x10000000001 -> near v.
Proof.
  intros Hm Ht Hc Hr. unfold near. rewrite get_dirty_div in Hc.
  pose proof (Z.div_mod v 256). pose proof (Z.mod_pos_bound v 256). lia.
Qed.

(** A cause list that pointed to [ino] points nowhere or is gone. *)
Lemma dirty_count_drop cs cs' p c ino :
  cs !! p = Some c -> cl_inode c = Some ino ->
  (cs' = delete p cs \/ exists c', cl_inode c' = None /\ cs' = <[p := c']> cs) ->
  forall i, dirty_count cs' i = if decide (i = ino) then dirty_count cs i - 1 else dirty_count cs i.
Proof.
  intros Hp Hc Hcs i. assert (Hf : filter (points_to i) cs' = delete p (filter (points_to i) cs)).
  { destruct Hcs as [->|(c' & Hc' & ->)]; [by rewrite map_filter_delete |].
    rewrite map_filter_insert_False; [by rewrite map_filter_delete |].
    unfold points_to. simpl. congruence. }
  unfold dirty_count. rewrite Hf. destruct (decide (i = ino)) as [->|Hne].
  - assert (Hl : filter (points_to ino) cs !! p = Some c) by (by apply map_lookup_filter_Some).
    rewrite map_size_delete_Some by eauto. assert (size (filter (points_to ino) cs) <> 0%nat); [|lia].
    intros H0%map_size_empty_inv. by rewrite H0 in Hl.
  - rewrite delete_id; [done |]. apply map_lookup_filter_None. right.
    intros c0 Hc0. unfold points_to. simpl. congruence.
Qed.

(** A cause list that pointed nowhere points to [ino] now. *)
Lemma dirty_count_gain cs p c c' ino :
  cs !! p = Some c -> cl_inode c = None -> cl_inode c' = Some ino ->
  forall i, dirty_count (<[p := c']> cs) i = if decide (i = ino) then dirty_count cs i + 1 else dirty_count cs i.
Proof.
  intros Hp Hc Hc' i. unfold dirty_count. destruct (decide (i = ino)) as [->|Hne].
  - rewrite map_filter_insert_True by done. rewrite map_size_insert_None; [lia |].
    apply map_lookup_filter_None. right. intros c0 Hc0. unfold points_to. simpl. congruence.
  - rewrite map_filter_insert_False by (unfold points_to; simpl; congruence).
    rewrite map_filter_delete, delete_id; [done |]. apply map_lookup_filter_None. right.
    intros c0 Hc0. unfold points_to. simpl. congruence.
Qed.

Lemma counted_sub m cs cs' ins p c ino v :
  counted m cs ins -> cs !! p = Some c -> cl_inode c = Some ino -> ins !! ino = Some v ->
  (cs' = delete p cs \/ exists c', cl_inode c' = None /\ cs' = <[p := c']> cs) ->
  counted m cs' (<[ino := inode_dec_dirty_pages m v 1]> ins).
Proof.
  intros [Hm Hs Hc] Hp Hi Hv Hcs. pose proof (dirty_count_drop cs cs' p c ino Hp Hi Hcs) as Hd.
  assert (Hpos : 1 <= dirty_count cs ino).
  { pose proof (dirty_count_range (delete p cs) ino) as [H _].
    rewrite (dirty_count_drop cs (delete p cs) p c ino) in H by auto. rewrite decide_True in H by done. lia. }
  split; [done | |].
  - destruct Hcs as [->|(c' & _ & ->)].
    + rewrite map_size_delete_Some by eauto. lia.
    + by rewrite map_size_insert_Some by eauto.
  - intros i w. rewrite Hd. destruct (decide (i = ino)) as [->|Hne].
    + rewrite lookup_insert_eq. intros [= <-]. specialize (Hc ino v Hv).
      destruct (decide (tagged m v)) as [Ht|Ht]; [|lia].
      pose proof (dirty_count_range cs ino).
      rewrite dec_tagged; [|done | by eapply count_near; [| |exact Hc|lia] | lia].
      destruct (Z.ltb_spec (inode_get_dirty_pages v) 1); [lia |].
      replace (v - 1 * 256) with (v + (-1) * 256) by lia.
      rewrite decide_True by (by apply shift_tag). rewrite shift_count. lia.
    + rewrite lookup_insert_ne by done. apply Hc.
Qed.

Lemma counted_add m cs ins p c c' ino v :
  counted m cs ins -> cs !! p = Some c -> cl_inode c = None -> cl_inode c' = Some ino -> ins !! ino = Some v ->
  counted m (<[p := c']> cs) (<[ino := inode_inc_dirty_pages m v 1]> ins).
Proof.
  intros [Hm Hs Hc] Hp Hi Hi' Hv. split; [done | by rewrite map_size_insert_Some by eauto |].
  intros i w. rewrite (dirty_count_gain cs p c c' ino) by done. destruct (decide (i = ino)) as [->|Hne].
  - rewrite lookup_insert_eq. intros [= <-]. specialize (Hc ino v Hv).
    pose proof (dirty_count_range cs ino). destruct (decide (tagged m v)) as [Ht|Ht].
    + rewrite inc_tagged; [|done | by eapply count_near; [| |exact Hc|lia] | lia].
      rewrite decide_True by (by apply shift_tag). rewrite shift_count. lia.
    + rewrite inc_untagged by (done || lia).
      rewrite decide_True by (by apply shift_tag). rewrite shift_count, get_dirty_div, Z.div_small; lia.
  - rewrite lookup_insert_ne by done. apply Hc.
Qed.

Lemma alter_as_insert (cs : gmap ptr cause_list) f p c :
  cs !! p = Some c -> alter f p cs = <[p := f c]> cs.
Proof.
  intros Hp. apply map_eq. intros i. rewrite lookup_alter, lookup_insert. case_decide as H; [|done].
  subst i. by rewrite Hp.
Qed.

(** A cause list that points nowhere may change. *)
Lemma counted_same m cs ins p c c' :
  counted m cs ins -> cs !! p = Some c -> cl_inode c = None -> cl_inode c' = None ->
  counted m (<[p := c']> cs) ins.
Proof.
  intros [Hm Hs Hc] Hp Hi Hi'. split; [done | by rewrite map_size_insert_Some by eauto |].
  intros ino v Hv. specialize (Hc ino v Hv).
  assert (E : dirty_count (<[p := c']> cs) ino = dirty_count cs ino); [|by rewrite E].
  unfold dirty_count. rewrite map_filter_insert_False by (unfold points_to; simpl; congruence).
  rewrite map_filter_delete, delete_id; [done |]. apply map_lookup_filter_None. right.
  intros c0 Hc0. unfold points_to. simpl. congruence.
Qed.

Lemma counted_delete m cs ins p c :
  counted m cs ins -> cs !! p = Some c -> cl_inode c = None -> counted m (delete p cs) ins.
Proof.
  intros [Hm Hs Hc] Hp Hi. split; [done | rewrite map_size_delete_Some by eauto; lia |].
  intros ino v Hv. specialize (Hc ino v Hv).
  assert (E : dirty_count (delete p cs) ino = dirty_count cs ino); [|by rewrite E].
  unfold dirty_count. rewrite map_filter_delete, delete_id; [done |]. apply map_lookup_filter_None. right.
  intros c0 Hc0. unfold points_to. simpl. congruence.
Qed.

Definition dl_counted (s : dl) : Prop := counted (magic (dd s)) (k_causes (kern s)) (inodes s).

(** ** Waiting for write-back *)

Section Fsync.
Context {K : KernelFns} {KO : KernelOk K} {J : JiffyFns}.

(** Nobody dirties the file while its [fsync] sleeps, and the inode stays. *)
Definition calm (env : nat -> dl -> dl) (ino : ptr) (m : Z) : Prop :=
  forall n s v, magic (dd s) = m -> inodes s !! ino = Some v -> tagged m v ->
    0 <= inode_get_dirty_pages v -> magic (dd (env n s)) = m /\
    exists v', inodes (env n s) !! ino = Some v' /\ tagged m v' /\
               0 <= inode_get_dirty_pages v' <= inode_get_dirty_pages v.

Lemma issue_wb_run ino nr s :
  exists rv s', issue_async_inode_wb ino nr s = Ok (rv, s') /\
    inodes s' = inodes s /\ dd s' = dd s.
Proof.
  unfold issue_async_inode_wb, in_clock, in_kern, in_world, zoom, bind, kmalloc, modify, ret. simpl.
  destruct (w_alloc _ _); simpl; eauto 8.
Qed.

Lemma near_of_count m v c : tagged m v -> inode_get_dirty_pages v = c -> 0 <= c < 0x80000000 -> near v.
Proof.
  intros _ Hc Hr. unfold near. rewrite get_dirty_div in Hc.
  pose proof (Z.div_mod v 256). pose proof (Z.mod_pos_bound v 256). lia.
Qed.

(** One sleep: the count goes down. *)
Lemma fsync_loop_ends env ino m fuel n s v c :
  calm env ino m -> magic (dd s) = m -> inodes s !! ino = Some v -> tagged m v ->
  inode_get_dirty_pages v = c -> 0 <= c < 0x80000000 -> (Z.to_nat c < fuel)%nat ->
  exists s' v', fsync_loop env fuel n ino c s = Ok (true, s') /\
    inodes s' !! ino = Some v' /\ 0 <= inode_get_dirty_pages v' < DIRTY_PAGE_THRES.
Proof.
  intros Henv. revert n s v c. induction fuel as [|fuel IH]; intros n s v c Hm Hv Ht Hc Hr Hf; [lia |].
  simpl. unfold DIRTY_PAGE_THRES. destruct (Z.geb_spec c 100) as [Hge|Hlt].
  2: { exists s, v. split_and!; auto; lia. }
  destruct (issue_wb_run ino FSYNC_WB_PAGES s) as (rv & s1 & E1 & I1 & D1).
  rewrite (bind_ok _ _ _ tt s1) by (unfold fsync_issue; by rewrite (bind_ok _ _ _ _ _ E1)). unfold bind at 1, modify.
  destruct (Henv n s1 v) as (Hm2 & v2 & Hv2 & Ht2 & Hle); [congruence | congruence | done | lia |].
  set (s2 := env n s1) in *. unfold fsync_wake, bind at 1, bind at 1, get_inode at 1. rewrite Hv2.
  destruct (Z.eqb_spec c (inode_get_dirty_pages v2)) as [Heq|Hne].
  - unfold bind at 1, sub_dirty, bind at 1, get_inode at 1. rewrite Hv2. unfold modify.
    assert (Hd : inode_dec_dirty_pages m v2 100 = v2 + (-100) * 256).
    { rewrite dec_tagged; [|done | by eapply near_of_count | lia].
      destruct (Z.ltb_spec (inode_get_dirty_pages v2) 100); lia. }
    rewrite Hm2. unfold FSYNC_WB_PAGES. rewrite Hd. unfold bind, get_inode. simpl.
    rewrite lookup_insert_eq. rewrite shift_count, <- Heq.
    rewrite s32_small by (unfold is_s32; lia).
    eapply (IH _ _ (v2 + (-100) * 256)); simpl; auto; try lia.
    + by rewrite lookup_insert_eq.
    + by apply shift_tag.
    + rewrite shift_count. lia.
  - unfold bind at 1, ret. unfold bind, get_inode. rewrite Hv2. rewrite s32_small by (unfold is_s32; lia).
    eapply (IH _ _ v2); auto; lia.
Qed.

Lemma get_acct_run id s :
  accts_wf (dd_accts (dd s)) ->
  exists o h w, get_acct id s = Ok (o, s <| dd ::= fun d => d <| dd_accts := h |> |>
                                        <| kern ::= fun k => k <| k_world := w |> |>) /\
    accts_wf h /\
    (forall p, find_account (dd_accts (dd s)) id = Some p -> o = Some p /\ h = dd_accts (dd s)).
Proof.
  intros Hw. destruct (acct_get_run id (dd_accts (dd s)) (k_world (kern s)) Hw) as (o & h & w & Eg & Hh & _).
  exists o, h, w. split.
  - unfold get_acct, zoom. rewrite Eg. done.
  - split; [done |]. intros p Hp. unfold get_account, bind, gets in Eg. simpl in Eg.
    rewrite Hp in Eg. unfold ret in Eg. by simplify_eq.
Qed.

Lemma fsync_desc_run file datasync s :
  exists d w, in_clock (get_fsync_desc file datasync) s = Ok (d, s <| kern ::= fun k => k <| k_world := w |> |>) /\
    let mem := w_alloc (k_world (kern s)) (w_nalloc (k_world (kern s))) in
    match d with inl _ => mem = true | inr err => err = - ENOMEM /\ mem = false end.
Proof.
  unfold in_clock, in_kern, in_world, zoom, get_fsync_desc, do_gettimeofday, getnstimeofday, bind, kmalloc, ret.
  simpl. destruct (w_alloc _ _); simpl; eexists _, _; by split.
Qed.

(** How the first part ends. *)
Lemma fsync_enter_run cur file ino datasync uniq s v :
  accts_wf (dd_accts (dd s)) -> inodes s !! ino = Some v ->
  exists r h w, let s1 := s <| dd ::= fun d => d <| dd_accts := h |> |> <| kern ::= fun k => k <| k_world := w |> |> in
    fsync_enter cur file ino datasync uniq s = Ok (r, s1) /\ accts_wf h /\
    match r with
    | inr err => (err = - ENOMEM /\ w_alloc (k_world (kern s)) (w_nalloc (k_world (kern s))) = false) \/
                 (err = -1 /\ uniq <> q_sched_uniq s)
    | inl (desc, need_wb, n) =>
        w_alloc (k_world (kern s)) (w_nalloc (k_world (kern s))) = true /\ uniq = q_sched_uniq s /\
        n = s32 (inode_get_dirty_pages v) /\
        (need_wb = true <-> exists p a, f_acct desc = Some p /\ a_heap h !! p = Some a /\ account_id a = cur /\ fsync_expire a = 200)
    end.
Proof.
  intros Hw Hv. unfold fsync_enter. destruct (fsync_desc_run file datasync s) as (d & w0 & Ed & Hd).
  rewrite (bind_ok _ _ _ _ _ Ed). destruct d as [desc|err].
  2: { exists (inr err), (dd_accts (dd s)), w0. split; [by destruct s as [? ? ? ? ? ? []] |]. split; [done |]. by left. }
  unfold bind at 1, gets at 1. simpl. destruct (Z.eqb_spec uniq (q_sched_uniq s)) as [He|He]; simpl.
  2: { exists (inr (-1)), (dd_accts (dd s)), w0. split; [by destruct s as [? ? ? ? ? ? []] |]. split; [done |]. by right. }
  set (s1 := s <| kern ::= fun k => k <| k_world := w0 |> |>).
  destruct (acct_get_run cur (dd_accts (dd s)) w0 Hw) as (o & h & w & Eg & Hh & Ho).
  rewrite (bind_ok _ _ _ o (s1 <| dd ::= fun d => d <| dd_accts := h |> |> <| kern ::= fun k => k <| k_world := w |> |>)).
  2: { unfold get_acct, zoom. simpl. by rewrite Eg. }
  unfold bind at 1, gets. unfold bind, get_inode. simpl. rewrite Hv. eexists (inl _), h, w. split; [reflexivity |].
  split; [done |]. split_and!; [done | done | done |]. destruct o as [p|].
  - destruct Ho as (a & Ha & Hid & _). rewrite Ha. split.
    + intros H200%Z.eqb_eq. by exists p, a.
    + intros (p' & a' & [= <-] & Ha' & _ & H200). rewrite Ha in Ha'. injection Ha' as ->. by apply Z.eqb_eq.
  - split; [done |]. by intros (p & a & ? & _).
Qed.


End Fsync.
