(* ===== verification/DeadlineInv.v ===== *)
(** * Split-deadline scheduler: the invariant

    [dl_inv]: a waiting request is in the tree and in the FIFO of its direction and
    in no other list, the trees are in the order of sectors, and the request a batch
    goes on with is a waiting one.  [tags_ok] is what the scheduler relies on of the
    tags of the bios.  The lemmas run the operations the handlers are made of. *)

From S2P Require Import Prelude CInt Kernel HashTable CauseTags IoctlHelper RbTree Jiffies.
From S2P Require Import SplitAccount SplitSched Deadline DeadlineDirty.

(** ** Lists *)

Section Lists.
Context {A : Type} `{EqDecision A}.

Lemma succ_in_elem (x y : A) l : succ_in x l = Some y -> y ∈ l.
Proof.
  induction l as [|z l IH]; simpl; [done |]. destruct (decide (x = z)).
  - destruct l; simpl; [done |]. intros [= ->]. right. left.
  - intros H. right. auto.
Qed.

Lemma succ_in_ne (x y : A) l : NoDup l -> succ_in x l = Some y -> y <> x.
Proof.
  induction 1 as [|z l Hz Hl IH]; simpl; [done |]. destruct (decide (x = z)) as [->|]; [|auto].
  destruct l; simpl; [done |]. intros [= ->] ->. apply Hz. left.
Qed.

(** In a list in the order of a key, nothing is between an entry and its successor. *)
Lemma succ_in_sorted (key : A -> Z) (x y : A) l :
  StronglySorted (key_le key) l -> succ_in x l = Some y ->
  key x <= key y /\ forall z, z ∈ l -> key z <= key x \/ key y <= key z.
Proof.
  induction 1 as [|z l Hl IH Hz]; simpl; [done |]. rewrite list.Forall_forall in Hz.
  destruct (decide (x = z)) as [->|Hne].
  - destruct l as [|w l]; simpl; [done |]. intros [= ->]. split; [apply Hz; left |].
    inversion_clear Hl as [|? ? _ Hy]. rewrite list.Forall_forall in Hy.
    intros v [->|[->|Hv]%elem_of_cons]%elem_of_cons; [left; lia | right; lia | right; by apply Hy].
  - intros Hs. destruct (IH Hs) as [Hle Hb]. split; [done |].
    intros v [->|Hv]%elem_of_cons; [|auto]. destruct (decide (x ∈ l)) as [Hx|Hx].
    + left. by apply Hz.
    + exfalso. clear -Hs Hx. induction l as [|w l IHl]; simpl in *; [done |].
      apply not_elem_of_cons in Hx as [? ?]. rewrite decide_False in Hs by done. auto.
Qed.

Lemma succ_in_none (key : A -> Z) (x : A) l :
  StronglySorted (key_le key) l -> x ∈ l -> succ_in x l = None ->
  forall z, z ∈ l -> key z <= key x.
Proof.
  induction 1 as [|z l Hl IH Hz]; simpl; [by intros ?%elem_of_nil |].
  rewrite list.Forall_forall in Hz. intros Hx Hs v Hv. destruct (decide (x = z)) as [->|Hne].
  - destruct l; [|done]. apply list_elem_of_singleton in Hv as ->. lia.
  - apply elem_of_cons in Hx as [->|Hx]; [done |].
    apply elem_of_cons in Hv as [->|Hv]; [by apply Hz | auto].
Qed.
End Lists.

Lemma elem_of_list_del x y l : y ∈ list_del x l <-> y <> x /\ y ∈ l.
Proof. unfold list_del. by rewrite list_elem_of_filter. Qed.

Lemma list_del_notin x l : x ∉ l -> list_del x l = l.
Proof.
  induction l as [|y l IH]; [done |]. intros [Hne Hl]%not_elem_of_cons. unfold list_del.
  rewrite filter_cons_True by congruence. f_equal. by apply IH.
Qed.

Lemma list_del_perm x l : NoDup l -> x ∈ l -> l ≡ₚ x :: list_del x l.
Proof.
  induction 1 as [|y l Hy Hl IH]; [by intros ?%elem_of_nil |]. unfold list_del.
  intros [->|Hx]%elem_of_cons.
  - rewrite filter_cons_False by tauto. fold (list_del y l). by rewrite list_del_notin.
  - rewrite filter_cons_True by (intros ->; done). fold (list_del x l).
    rewrite IH at 1 by done. apply perm_swap.
Qed.

#[export] Instance list_del_proper x : Proper (Permutation ==> Permutation) (list_del x).
Proof. intros l l' H. unfold list_del. by rewrite H. Qed.

(** ** Arrays of two *)

Definition other (d : dir) : dir := match d with READ => WRITE | WRITE => READ end.

Lemma sel_put {A} d (x : A) p : sel d (put d x p) = x.
Proof. by destruct d. Qed.
Lemma sel_put_other {A} d (x : A) p : sel (other d) (put d x p) = sel (other d) p.
Proof. by destruct d. Qed.
Lemma sel_put_ne {A} d d' (x : A) p : d' <> d -> sel d' (put d x p) = sel d' p.
Proof. by destruct d, d'. Qed.

(** ** The invariant *)

Definition waiting (s : dl) (d : dir) : list ptr := sel d (fifo_list (dd s)).
Definition in_order (s : dl) (d : dir) : list ptr := inorder (sel d (sort_list (dd s))).

Section Inv.
Context {K : KernelFns} {KO : KernelOk K}.

Record dl_inv (s : dl) : Prop := {
  di_both : forall d, in_order s d ≡ₚ waiting s d;
  di_nodup : NoDup (waiting s READ ++ waiting s WRITE ++ dispatch_list s);
  di_rq : forall d rq, rq ∈ waiting s d -> exists r, rqs s !! rq = Some r /\ rq_data_dir r = d;
  di_sorted : forall d, StronglySorted (key_le (posof (rqs s))) (in_order s d);
  di_next : forall d rq, sel d (next_rq (dd s)) = Some rq -> rq ∈ waiting s d;
  di_one : on_read (next_rq (dd s)) = None \/ on_write (next_rq (dd s)) = None;
  di_batching : 0 <= batching (dd s) < 0x100000000;
  di_starved : 0 <= starved (dd s) < 0x100000000;
  di_accts : accts_wf (dd_accts (dd s));
}.

Lemma inv_notin_dispatch s d rq : dl_inv s -> rq ∈ waiting s d -> rq ∉ dispatch_list s.
Proof.
  intros Hi Hrq Hd. pose proof (di_nodup _ Hi) as Hn. rewrite app_assoc in Hn.
  apply list.NoDup_app in Hn as (_ & Hn & _). apply (Hn rq); [|done].
  apply elem_of_app. destruct d; auto.
Qed.

Lemma inv_one_dir s d d' rq : dl_inv s -> rq ∈ waiting s d -> rq ∈ waiting s d' -> d = d'.
Proof.
  intros Hi (r & Hr & Hd)%(di_rq _ Hi) (r' & Hr' & Hd')%(di_rq _ Hi). congruence.
Qed.

Lemma inv_waiting_nodup s d : dl_inv s -> NoDup (waiting s d).
Proof.
  intros Hi. pose proof (di_nodup _ Hi) as Hn. apply list.NoDup_app in Hn as (Hr & _ & Hn).
  apply list.NoDup_app in Hn as (Hw & _). by destruct d.
Qed.

Lemma inv_order_nodup s d : dl_inv s -> NoDup (in_order s d).
Proof. intros Hi. rewrite (di_both _ Hi). by apply inv_waiting_nodup. Qed.

(** The tags of the bios: what the scheduler relies on when it submits a write. *)
Record tags_ok (k : kernel) (rs : gmap ptr request) (ins : gmap ptr Z) : Prop := {
  to_cll : forall rq r b l, rs !! rq = Some r -> b ∈ rq_bio r -> bi_cll b = Some l ->
    cll_item_count l <= Z.of_nat (length (cll_items l)) /\
    forall i, 0 <= i < cll_item_count l ->
      exists p, cll_items l !! Z.to_nat i = Some (Some p) /\ is_Some (k_causes k !! p);
  to_inode : forall p c ino, k_causes k !! p = Some c -> cl_inode c = Some ino -> is_Some (ins !! ino);
}.
Definition dl_tags (s : dl) : Prop := tags_ok (kern s) (rqs s) (inodes s).

(** Two states that differ in the tags and the clock only. *)
Record same_core (s s' : dl) : Prop := {
  sc_rqs : rqs s' = rqs s;
  sc_dispatch : dispatch_list s' = dispatch_list s;
  sc_dd : dd s' = dd s;
  sc_uniq : q_sched_uniq s' = q_sched_uniq s;
}.

#[export] Instance same_core_trans : PreOrder same_core.
Proof.
  split; [by intros [] |]. intros s1 s2 s3 [? ? ? ?] [? ? ? ?]. split; congruence.
Qed.

Lemma inv_same_core s s' : same_core s s' -> dl_inv s -> dl_inv s'.
Proof.
  intros [E1 E2 E3 _] [H1 H2 H3 H4 H5 H6 H7 H8 H9].
  unfold waiting, in_order in *. split; unfold waiting, in_order; rewrite ?E1, ?E2, ?E3; auto.
Qed.

(** ** Submitting the tags of a write *)

Lemma sub_dirty_run ino num s :
  is_Some (inodes s !! ino) ->
  exists v, inodes s !! ino = Some v /\
    sub_dirty ino num s =
      Ok (tt, s <| inodes ::= <[ino := inode_dec_dirty_pages (magic (dd s)) v num]> |>).
Proof.
  intros [v Hv]. exists v. split; [done |]. unfold sub_dirty, bind, get_inode, modify.
  by rewrite Hv.
Qed.

Lemma tags_write k rs ins p f :
  tags_ok k rs ins -> (forall c, cl_inode (f c) = None) ->
  tags_ok (k <| k_causes ::= alter f p |>) rs ins.
Proof.
  intros [H1 H2] Hf. split; simpl.
  - intros rq r b l Hr Hb Hl. destruct (H1 rq r b l Hr Hb Hl) as [Hn Hi]. split; [done |].
    intros i Hlt. destruct (Hi i Hlt) as (q & Hq & Hs). exists q. split; [done |].
    by apply lookup_alter_is_Some.
  - intros q c ino. rewrite lookup_alter. case_decide; [|eauto].
    destruct (k_causes k !! p) eqn:Ek; simpl; [|done]. intros [= <-]. by rewrite Hf.
Qed.

Lemma tags_inode k rs ins ino v : tags_ok k rs ins -> tags_ok k rs (<[ino := v]> ins).
Proof.
  intros [H1 H2]. split; [done |]. intros p c i Hp Hc.
  destruct (decide (i = ino)) as [->|]; [rewrite lookup_insert_eq | rewrite lookup_insert_ne by done]; eauto.
Qed.

(** What submitting tags keeps; each cause list that is submitted is taken off the
    count of its inode. *)
Definition tag_frame (s s' : dl) : Prop :=
  same_core s s' /\ dl_tags s' /\
  (forall p, is_Some (k_causes (kern s) !! p) -> is_Some (k_causes (kern s') !! p)) /\
  (dl_counted s -> dl_counted s').

Lemma submit_causes_run l i s :
  dl_tags s ->
  (exists p, cll_items l !! Z.to_nat i = Some (Some p) /\ is_Some (k_causes (kern s) !! p)) -> 0 <= i ->
  exists s', submit_causes l i s = Ok (tt, s') /\ tag_frame s s'.
Proof.
  intros Ht (p & Hp & [c Hc]) Hi. unfold submit_causes, bind, lift, array_get, in_kern, zoom, read_causes.
  rewrite decide_True by done. rewrite Hp. simpl. rewrite Hc. simpl.
  destruct (cl_inode c) as [ino|] eqn:Ei.
  - match goal with |- context [sub_dirty ino 1 ?s0] =>
      destruct (sub_dirty_run ino 1 s0) as (v & Hv & E); [eapply Ht; eauto | rewrite E] end.
    eexists. split; [reflexivity |]. split; [done |]. split_and!.
    + apply tags_write; [|done]. by apply tags_inode.
    + intros q Hq. simpl. by apply lookup_alter_is_Some.
    + intros Hct. unfold dl_counted. cbn. rewrite (alter_as_insert _ _ _ _ Hc).
      eapply counted_sub; [exact Hct | exact Hc | exact Ei | exact Hv |]. right. eexists. split; [|done]. done.
  - simpl. eexists. split; [reflexivity |]. split; [done |]. split_and!.
    + by apply tags_write.
    + intros q Hq. simpl. by apply lookup_alter_is_Some.
    + intros Hct. unfold dl_counted. cbn. rewrite (alter_as_insert _ _ _ _ Hc).
      by eapply counted_same.
Qed.

Lemma tag_frame_trans s1 s2 s3 : tag_frame s1 s2 -> tag_frame s2 s3 -> tag_frame s1 s3.
Proof. intros (H1 & H2 & H3 & H7) (H4 & H5 & H6 & H8). split_and!; eauto. by etrans. Qed.

Lemma for_each_tags {A} (l : list A) (body : A -> ST dl unit) s :
  dl_tags s ->
  (forall x s1, x ∈ l -> tag_frame s s1 -> exists s2, body x s1 = Ok (tt, s2) /\ tag_frame s1 s2) ->
  exists s', for_each l body s = Ok (tt, s') /\ tag_frame s s'.
Proof.
  intros Ht. assert (H0 : tag_frame s s) by (split_and!; auto; done).
  revert H0. generalize s at 2 4. induction l as [|x l IH]; intros s1 H1 Hb; simpl; [by exists s1 |].
  destruct (Hb x s1) as (s2 & E & H2); [left | done |]. unfold bind. rewrite E.
  apply IH; [by eapply tag_frame_trans |]. intros y s3 Hy. apply Hb. by right.
Qed.

Lemma submit_rq_run rq r s :
  dl_tags s -> rqs s !! rq = Some r ->
  exists s', inode_dec_dirty_for_submitted_rq rq s = Ok (tt, s') /\ tag_frame s s'.
Proof.
  intros Ht Hr. unfold inode_dec_dirty_for_submitted_rq, bind at 1, get_rq. rewrite Hr.
  destruct (rq_data_dir r); [by exists s; split_and!; auto |].
  apply for_each_tags; [done |]. intros b s1 Hb F1. unfold submit_bio.
  destruct (bi_cll b) as [l|] eqn:El.
  2: { exists s1. split; [done |]. destruct F1 as (_ & Ht1 & _ & _). by split_and!. }
  destruct (to_cll _ _ _ Ht rq r b l Hr Hb El) as [_ Hitems].
  apply for_each_tags; [apply F1 |]. intros i s2 Hin F2.
  apply elem_of_seqZ in Hin. destruct F2 as (Hc2 & Ht2 & Hd2 & _).
  destruct (submit_causes_run l i s2) as (s3 & E3 & F3); [done | | lia |].
  - destruct (Hitems i) as (p & Hp & Hs); [lia |]. exists p. split; [done |]. apply Hd2, F1, Hs.
  - by exists s3.
Qed.

End Inv.
