(* ===== verification/DeadlineOps.v ===== *)
(** * Split-deadline scheduler: taking a request out

    What removing and dispatching one waiting request do to the state, and that
    both keep the invariant. *)

From S2P Require Import Prelude CInt Kernel HashTable CauseTags IoctlHelper RbTree Jiffies.
From S2P Require Import SplitAccount SplitSched Deadline DeadlineDirty DeadlineInv.

(** The data after [rq] of direction [d] has been removed; [t] is the tree the
    kernel leaves. *)
Definition removed_dd (rq : ptr) (d : dir) (t : tree ptr) (x : deadline_data) : deadline_data :=
  x <| fifo_list := put d (list_del rq (sel d (fifo_list x))) (fifo_list x) |>
    <| next_rq := if bool_decide (sel d (next_rq x) = Some rq)
                  then put d (succ_in rq (inorder (sel d (sort_list x)))) (next_rq x)
                  else next_rq x |>
    <| sort_list := put d t (sort_list x) |>.

(** The data after [rq] has been dispatched. *)
Definition served_dd (rq : ptr) (d : dir) (t : tree ptr) (sector issued : Z) (x : deadline_data)
    : deadline_data :=
  x <| batching := u32 (batching x + 1) |>
    <| next_rq := put d (succ_in rq (inorder (sel d (sort_list x)))) (PerDir None None) |>
    <| last_sector := sector |>
    <| fifo_list := put d (list_del rq (sel d (fifo_list x))) (fifo_list x) |>
    <| sort_list := put d t (sort_list x) |>
    <| last_issued := put d issued (last_issued x) |>.

Section Ops.
Context {K : KernelFns} {KO : KernelOk K} {R : RbFns} {RO : RbOk R} {E : ElvFns} {EO : ElvOk E}.

Lemma queuelist_del_waiting s d rq :
  dl_inv s -> rq ∈ waiting s d ->
  queuelist_del rq s =
  s <| dd ::= fun x => x <| fifo_list := put d (list_del rq (sel d (fifo_list x))) (fifo_list x) |> |>.
Proof.
  intros Hi Hrq. pose proof (inv_notin_dispatch _ _ _ Hi Hrq) as Hd.
  assert (Ho : rq ∉ waiting s (other d)).
  { intros Ho. pose proof (inv_one_dir _ _ _ _ Hi Hrq Ho). by destruct d. }
  unfold queuelist_del, waiting in *. destruct s as [k rs ins disp u w x], x. simpl in *.
  rewrite (list_del_notin rq disp Hd).
  destruct d; simpl in *; by rewrite (list_del_notin _ _ Ho).
Qed.

Lemma remove_request_run s d rq :
  dl_inv s -> rq ∈ waiting s d ->
  exists t, inorder t = list_del rq (in_order s d) /\
    deadline_remove_request rq s = Ok (tt, s <| dd ::= removed_dd rq d t |>).
Proof.
  intros Hi Hrq. destruct (di_rq _ Hi d rq Hrq) as (r & Hr & Hd).
  destruct (elv_rb_del_inorder (sel d (sort_list (dd s))) rq) as (t & Et & Ht).
  { fold (in_order s d). by rewrite (di_both _ Hi). }
  exists t. split; [done |].
  unfold deadline_remove_request, bind at 1, modify.
  rewrite (queuelist_del_waiting s d rq Hi Hrq).
  unfold deadline_del_rq_rb, rb_root_del, deadline_latter_request, bind, get_rq, gets, lift, upd_dd, modify, ret.
  simpl. rewrite Hr, Hd. unfold removed_dd. simpl.
  destruct (bool_decide _); simpl; rewrite Hr, Hd; simpl; rewrite Et; [by rewrite rb_next_inorder | done].
Qed.

Lemma nodup_perm {A} (l l' : list A) : l ≡ₚ l' -> NoDup l -> NoDup l'.
Proof. intros H. by rewrite H. Qed.

Lemma removed_nodup s d rq (l : per_dir (list ptr)) disp :
  dl_inv s -> l = put d (list_del rq (waiting s d)) (fifo_list (dd s)) ->
  (disp = dispatch_list s \/ disp = dispatch_list s ++ [rq] /\ rq ∈ waiting s d) ->
  NoDup (on_read l ++ on_write l ++ disp).
Proof.
  intros Hi -> Hdisp. pose proof (di_nodup _ Hi) as Hn.
  pose proof (inv_waiting_nodup s d Hi) as Hw.
  assert (Hsub : forall y, NoDup (y ++ waiting s d) -> NoDup (y ++ list_del rq (waiting s d))).
  { intros y (H1 & H2 & H3)%list.NoDup_app. apply list.NoDup_app. split_and!; [done | |].
    - intros x Hx [_ Hx']%elem_of_list_del. by apply (H2 x).
    - by apply list.NoDup_filter. }
  assert (Hall : NoDup ((dispatch_list s ++ waiting s (other d)) ++ waiting s d)).
  { eapply nodup_perm; [|exact Hn]. destruct d; simpl; solve_Permutation. }
  destruct Hdisp as [->|[-> Hrq]].
  - eapply nodup_perm; [|apply (Hsub _ Hall)]. unfold waiting.
    destruct d; simpl; solve_Permutation.
  - assert (Hp : (dispatch_list s ++ [rq]) ++ waiting s (other d) ++ list_del rq (waiting s d)
                 ≡ₚ (dispatch_list s ++ waiting s (other d)) ++ waiting s d).
    { rewrite (list_del_perm rq (waiting s d)) at 2 by done. solve_Permutation. }
    eapply nodup_perm; [|rewrite <- Hp in Hall; exact Hall]. unfold waiting.
    destruct d; simpl; solve_Permutation.
Qed.

(** [rq] leaves the lists of its direction; [next] and the counters may change. *)
Record leaves (rq : ptr) (d : dir) (s s' : dl) : Prop := {
  lv_waiting : fifo_list (dd s') = put d (list_del rq (waiting s d)) (fifo_list (dd s));
  lv_order : in_order s' d = list_del rq (in_order s d);
  lv_order_other : in_order s' (other d) = in_order s (other d);
  lv_rqs : rqs s' = rqs s;
  lv_accts : dd_accts (dd s') = dd_accts (dd s);
  lv_batching : 0 <= batching (dd s') < 0x100000000;
  lv_starved : starved (dd s') = starved (dd s);
}.

Lemma leaves_waiting rq d s s' d' x :
  leaves rq d s s' -> x ∈ waiting s' d' <-> x ∈ waiting s d' /\ (d' = d -> x <> rq).
Proof.
  intros H. unfold waiting at 1. rewrite (lv_waiting _ _ _ _ H). destruct (decide (d' = d)) as [->|Hne].
  - rewrite sel_put, elem_of_list_del. naive_solver.
  - rewrite sel_put_ne by done. fold (waiting s d'). naive_solver.
Qed.

Lemma leaves_inv rq d s s' :
  dl_inv s -> leaves rq d s s' ->
  (dispatch_list s' = dispatch_list s \/ dispatch_list s' = dispatch_list s ++ [rq] /\ rq ∈ waiting s d) ->
  (forall d' x, sel d' (next_rq (dd s')) = Some x -> x ∈ waiting s' d') ->
  (on_read (next_rq (dd s')) = None \/ on_write (next_rq (dd s')) = None) ->
  dl_inv s'.
Proof.
  intros Hi Hl Hdisp Hnext Hone. assert (Ho : forall d', d' = d \/ d' = other d) by (intros []; destruct d; auto).
  split; auto.
  - intros d'. destruct (Ho d') as [->| ->].
    + rewrite (lv_order _ _ _ _ Hl), (di_both _ Hi). unfold waiting.
      rewrite (lv_waiting _ _ _ _ Hl). by rewrite sel_put.
    + rewrite (lv_order_other _ _ _ _ Hl), (di_both _ Hi). unfold waiting.
      rewrite (lv_waiting _ _ _ _ Hl). by rewrite sel_put_other.
  - by eapply removed_nodup; [exact Hi | apply Hl |].
  - intros d' x [Hx _]%(leaves_waiting _ _ _ _ _ _ Hl). rewrite (lv_rqs _ _ _ _ Hl). by apply Hi.
  - intros d'. rewrite (lv_rqs _ _ _ _ Hl). destruct (Ho d') as [->| ->].
    + rewrite (lv_order _ _ _ _ Hl). apply sorted_filter, Hi.
    + rewrite (lv_order_other _ _ _ _ Hl). apply Hi.
  - apply Hl.
  - rewrite (lv_starved _ _ _ _ Hl). apply Hi.
  - rewrite (lv_accts _ _ _ _ Hl). apply Hi.
Qed.

Lemma succ_in_leaves rq d s s' x :
  dl_inv s -> leaves rq d s s' -> succ_in rq (in_order s d) = Some x -> x ∈ waiting s' d.
Proof.
  intros Hi Hl Hs. apply (leaves_waiting _ _ _ _ _ _ Hl). split.
  - rewrite <- (di_both _ Hi). by eapply succ_in_elem.
  - intros _. eapply succ_in_ne; [|exact Hs]. by apply inv_order_nodup.
Qed.

Lemma removed_leaves rq d t s :
  dl_inv s -> inorder t = list_del rq (in_order s d) -> leaves rq d s (s <| dd ::= removed_dd rq d t |>).
Proof.
  intros Hi Ht. split; simpl; auto; try apply Hi.
  - unfold in_order. simpl. by rewrite sel_put.
  - unfold in_order. simpl. by rewrite sel_put_other.
Qed.

(** Removing a waiting request keeps the invariant. *)
Lemma removed_inv rq d t s :
  dl_inv s -> inorder t = list_del rq (in_order s d) -> dl_inv (s <| dd ::= removed_dd rq d t |>).
Proof.
  intros Hi Ht. pose proof (removed_leaves rq d t s Hi Ht) as Hl.
  eapply leaves_inv; [exact Hi | exact Hl | by left | |]; simpl.
  - intros d' x Hx. destruct (bool_decide_reflect (sel d (next_rq (dd s)) = Some rq)) as [Hn|Hn].
    + destruct (decide (d' = d)) as [->|Hne].
      * rewrite sel_put in Hx. by eapply succ_in_leaves.
      * rewrite sel_put_ne in Hx by done. apply (leaves_waiting _ _ _ _ _ _ Hl). split; [by apply Hi | done].
    + apply (leaves_waiting _ _ _ _ _ _ Hl). split; [by apply Hi |]. intros -> ->. done.
  - destruct (bool_decide_reflect (sel d (next_rq (dd s)) = Some rq)) as [Hn|Hn]; [|apply Hi].
    destruct (di_one _ Hi) as [H|H], d; simpl in *; rewrite ?H in *; auto; done.
Qed.

(** ** Dispatching one request *)

Record served (rq : ptr) (d : dir) (s s' : dl) : Prop := {
  sv_waits : rq ∈ waiting s d;
  sv_dd : exists t sector issued, inorder t = list_del rq (in_order s d) /\
            dd s' = served_dd rq d t sector issued (dd s);
  sv_dispatch : dispatch_list s' = dispatch_list s ++ [rq];
  sv_rqs : rqs s' = rqs s;
  sv_uniq : q_sched_uniq s' = q_sched_uniq s;
  sv_counted : dl_counted s -> dl_counted s';
}.

Lemma served_leaves rq d s s' : dl_inv s -> served rq d s s' -> leaves rq d s s'.
Proof.
  intros Hi [Hw (t & sec & iss & Ht & Ed) _ Hr _ _]. split; try (rewrite Ed; simpl); auto.
  - unfold in_order. rewrite Ed. simpl. by rewrite sel_put.
  - unfold in_order. rewrite Ed. simpl. by rewrite sel_put_other.
  - apply Z.mod_pos_bound. lia.
Qed.

Lemma served_inv rq d s s' : dl_inv s -> served rq d s s' -> dl_inv s'.
Proof.
  intros Hi Hs. pose proof (served_leaves _ _ _ _ Hi Hs) as Hl.
  destruct (sv_dd _ _ _ _ Hs) as (t & sec & iss & Ht & Ed).
  eapply leaves_inv; [exact Hi | exact Hl | right; split; apply Hs | |]; rewrite Ed; simpl.
  - intros d' x Hx. destruct (decide (d' = d)) as [->|Hne].
    + rewrite sel_put in Hx. by eapply succ_in_leaves.
    + rewrite sel_put_ne in Hx by done. by destruct d'.
  - destruct d; auto.
Qed.

Lemma dispatch_request_run rq d s :
  dl_inv s -> dl_tags s -> rq ∈ waiting s d ->
  exists s', dispatch_request rq s = Ok (1, s') /\ served rq d s s' /\ dl_tags s'.
Proof.
  intros Hi Ht Hw. destruct (di_rq _ Hi d rq Hw) as (r & Hr & Hd).
  set (next := put d (succ_in rq (in_order s d)) (PerDir None None)).
  set (s1 := s <| dd ::= fun x => x <| batching := u32 (batching (dd s) + 1) |> <| next_rq := next |>
                    <| last_sector := u64 (blk_rq_pos r + blk_rq_sectors r) |> |>).
  assert (Hi1 : dl_inv s1).
  { destruct Hi as [H1 H2 H3 H4 H5 H6 H7 H8 H9]. split; auto.
    - intros d' x Hx. simpl in Hx. unfold next in Hx. destruct (decide (d' = d)) as [->|Hne].
      + rewrite sel_put in Hx. change (x ∈ waiting s d). rewrite <- H1. by eapply succ_in_elem.
      + rewrite sel_put_ne in Hx by done. by destruct d'.
    - simpl. unfold next. destruct d; auto.
    - simpl. apply Z.mod_pos_bound. lia. }
  destruct (remove_request_run s1 d rq Hi1 Hw) as (t & Et & Er).
  assert (En : sel d (next_rq (dd s1)) <> Some rq).
  { simpl. unfold next. rewrite sel_put. intros Hs.
    eapply succ_in_ne; [|exact Hs | done]. by apply inv_order_nodup. }
  destruct (submit_rq_run rq r (s1 <| dd ::= removed_dd rq d t |>)) as (s2 & E2 & Hc & Ht2 & _ & Hct); [done | done |].
  assert (Em : deadline_move_request rq (s <| dd ::= fun x => x <| batching := u32 (batching (dd s) + 1) |> |>)
               = deadline_move_to_dispatch rq s1).
  { unfold deadline_move_request, deadline_latter_request, bind, get_rq, gets, upd_dd, modify.
    simpl. rewrite Hr, Hd. simpl. by rewrite rb_next_inorder. }
  unfold dispatch_request, bind, upd_dd, modify at 1. simpl in Em. simpl. rewrite Em.
  unfold deadline_move_to_dispatch, bind, get_rq, upd_dd, modify. rewrite Er, E2.
  assert (Hr2 : rqs s2 !! rq = Some r) by (by rewrite (sc_rqs _ _ Hc)).
  rewrite Hr2. eexists. split; [reflexivity |]. split; [|by destruct Ht2; split].
  split; simpl; auto; try apply Hc.
  - exists t. eexists _, _. split; [done |]. rewrite (sc_dd _ _ Hc), Hd. simpl. rewrite bool_decide_false by done.
    reflexivity.
  - rewrite elv_dispatch_add_tail_app, (sc_dispatch _ _ Hc). done.
Qed.

End Ops.
