(* ===== verification/DeadlineDispatch.v ===== *)
(** * Split-deadline scheduler: dispatching

    [deadline_dispatch_requests] as a whole: it takes exactly one waiting request if
    there is one, goes on with a batch in the order of sectors, starts a batch with
    the head of the FIFO when that has expired, and does not let reads starve writes
    for longer than the settings say. *)

From S2P Require Import Prelude CInt Kernel HashTable CauseTags IoctlHelper RbTree Jiffies.
From S2P Require Import SplitAccount SplitSched Deadline DeadlineDirty DeadlineInv DeadlineOps.

Section Dispatch.
Context {K : KernelFns} {KO : KernelOk K} {R : RbFns} {RO : RbOk R} {E : ElvFns} {EO : ElvOk E}.

(** The jiffies the next reading of the clock delivers. *)
Definition now (s : dl) : Z := w_jiffies (k_world (kern s)) (w_tick (k_world (kern s))).
Definition expired (s : dl) (rq : ptr) : bool :=
  match rqs s !! rq with Some r => time_after (now s) (fifo_time r) | None => false end.

Lemma nonempty_true {A} (l : list A) : nonempty l = true <-> l <> [].
Proof. by destruct l. Qed.
Lemma nonempty_false {A} (l : list A) : nonempty l = false <-> l = [].
Proof. by destruct l. Qed.

Lemma inv_root s d : dl_inv s -> waiting s d <> [] -> RB_EMPTY_ROOT (sel d (sort_list (dd s))) = false.
Proof.
  intros Hi Hne. pose proof (di_both _ Hi d) as Hp. unfold in_order in Hp.
  destruct (sel d (sort_list (dd s))); [|done]. simpl in Hp.
  by apply Permutation_nil in Hp.
Qed.

(** The direction of the next batch and the new count of starvation. *)
Definition choice (s : dl) (o : option dir) (v : Z) : Prop :=
  match o with
  | None => waiting s READ = [] /\ waiting s WRITE = [] /\ v = starved (dd s)
  | Some READ => waiting s READ <> [] /\
      (waiting s WRITE = [] /\ v = starved (dd s) \/
       waiting s WRITE <> [] /\ starved (dd s) < u32 (writes_starved (dd s)) /\ v = starved (dd s) + 1)
  | Some WRITE => waiting s WRITE <> [] /\ v = 0 /\
      (waiting s READ = [] \/ u32 (writes_starved (dd s)) <= starved (dd s))
  end.

Lemma select_dir_run s :
  dl_inv s ->
  exists o v, choice s o v /\
    select_dir (nonempty (waiting s READ)) (nonempty (waiting s WRITE)) s
    = Ok (o, s <| dd ::= fun x => x <| starved := v |> |>).
Proof.
  intros Hi. pose proof (inv_root s READ Hi) as HR. pose proof (inv_root s WRITE Hi) as HW.
  simpl in HR, HW.
  destruct (nonempty (waiting s READ)) eqn:Er, (nonempty (waiting s WRITE)) eqn:Ew;
    first [apply nonempty_true in Er | apply nonempty_false in Er];
    first [apply nonempty_true in Ew | apply nonempty_false in Ew];
    unfold select_dir, dispatch_writes, bind, gets, lift, bug_on, upd_dd, modify, ret; simpl;
    rewrite ?HR, ?HW by done.
  - destruct (Z.geb_spec (starved (dd s)) (u32 (writes_starved (dd s)))) as [Hge|Hlt].
    + simpl. rewrite ?HW by done. simpl. exists (Some WRITE), 0. split; [|done].
      split_and!; auto; right; lia.
    + exists (Some READ), (starved (dd s) + 1). split; [split; auto; right; split_and!; auto; lia |].
      simpl. unfold u32 at 1. rewrite Z.mod_small; [done |].
      pose proof (di_starved _ Hi). pose proof (Z.mod_pos_bound (writes_starved (dd s)) 0x100000000).
      unfold u32 in Hlt. lia.
  - exists (Some READ), (starved (dd s)). split; [split; auto |]. by destruct s as [? ? ? ? ? ? []].
  - simpl. exists (Some WRITE), 0. split; [split_and!; auto | done].
  - exists None, (starved (dd s)). split; [done |]. by destruct s as [? ? ? ? ? ? []].
Qed.

(** The request a batch in direction [d] starts with. *)
Definition batch_start (s : dl) (d : dir) (rq : ptr) : Prop :=
  exists h, head (waiting s d) = Some h /\
    rq = match expired s h, sel d (next_rq (dd s)) with
         | false, Some n => n
         | _, _ => h
         end.

Lemma find_request_run s d :
  dl_inv s -> waiting s d <> [] ->
  exists rq, batch_start s d rq /\ rq ∈ waiting s d /\
    dispatch_find_request d s =
      Ok (rq, s <| kern ::= fun k => k <| k_world ::= clock_step |> |>).
Proof.
  intros Hi Hne. destruct (waiting s d) as [|h l] eqn:Ew; [done |].
  destruct (di_rq _ Hi d h) as (r & Hr & Hd); [rewrite Ew; left |].
  assert (Ef : forall line s', dd s' = dd s -> fifo_head line d s' = Ok (h, s')).
  { intros line s' Es. unfold fifo_head, bind, gets, lift. rewrite Es. unfold waiting in Ew. by rewrite Ew. }
  unfold dispatch_find_request, deadline_check_fifo, bind, gets, ret.
  rewrite Ef by done. unfold in_clock, in_kern, in_world, zoom, read_jiffies, get_rq. simpl. rewrite Hr.
  assert (Ex : expired s h = time_after (now s) (fifo_time r)) by (unfold expired; by rewrite Hr).
  unfold now in Ex.
  destruct (time_after _ (fifo_time r)) eqn:Et.
  - exists h. split; [exists h; rewrite Ew, Ex; done |]. split; [left | by rewrite Ef].
  - destruct (sel d (next_rq (dd s))) as [n|] eqn:En.
    + exists n. split; [exists h; rewrite Ew, Ex, En; done |]. split; [|cbn [dd]; rewrite ?En; done].
      rewrite <- Ew. by apply Hi.
    + exists h. split; [exists h; rewrite Ew, Ex, En; done |]. split; [left | cbn [dd]; rewrite ?En; by rewrite Ef].
Qed.

Lemma batch_next_waits s rq :
  dl_inv s -> batch_next (dd s) = Some rq ->
  exists d, sel d (next_rq (dd s)) = Some rq /\ sel (other d) (next_rq (dd s)) = None /\
            batching (dd s) < u32 (fifo_batch (dd s)).
Proof.
  intros Hi. unfold batch_next.
  destruct (on_write (next_rq (dd s))) as [w|] eqn:Ew.
  - destruct (Z.ltb_spec (batching (dd s)) (u32 (fifo_batch (dd s)))); [|done]. intros [= ->].
    exists WRITE. split_and!; auto. destruct (di_one _ Hi); simpl; congruence.
  - destruct (on_read (next_rq (dd s))) as [w|] eqn:Er; [|done].
    destruct (Z.ltb_spec (batching (dd s)) (u32 (fifo_batch (dd s)))); [|done]. intros [= ->].
    exists READ. by split_and!.
Qed.

(** How a request of direction [d] came to be dispatched: in a batch, or as the
    first of a new one. *)
Definition in_batch (s : dl) (d : dir) (rq : ptr) (s' : dl) : Prop :=
  sel d (next_rq (dd s)) = Some rq /\ sel (other d) (next_rq (dd s)) = None /\
  batching (dd s) < u32 (fifo_batch (dd s)) /\
  batching (dd s') = batching (dd s) + 1 /\ starved (dd s') = starved (dd s).
Definition new_batch (s : dl) (d : dir) (rq : ptr) (s' : dl) : Prop :=
  batch_next (dd s) = None /\ batch_start s d rq /\
  batching (dd s') = 1 /\ choice s (Some d) (starved (dd s')).

(** [rq] of direction [d] has been dispatched: it waited, it is at the end of the
    dispatch list now and waits no more, and all other requests are where they were. *)
Record one_dispatched (rq : ptr) (d : dir) (s s' : dl) : Prop := {
  od_waits : rq ∈ waiting s d;
  od_dispatch : dispatch_list s' = dispatch_list s ++ [rq];
  od_waiting : waiting s' d = list_del rq (waiting s d);
  od_other : waiting s' (other d) = waiting s (other d);
  od_rqs : rqs s' = rqs s;
  od_next : next_rq (dd s') = put d (succ_in rq (in_order s d)) (PerDir None None);
  od_fifo_batch : fifo_batch (dd s') = fifo_batch (dd s);
  od_writes_starved : writes_starved (dd s') = writes_starved (dd s);
}.

Lemma served_one rq d s s1 s' :
  served rq d s1 s' -> rqs s1 = rqs s -> dispatch_list s1 = dispatch_list s ->
  fifo_list (dd s1) = fifo_list (dd s) -> sort_list (dd s1) = sort_list (dd s) ->
  fifo_batch (dd s1) = fifo_batch (dd s) -> writes_starved (dd s1) = writes_starved (dd s) ->
  one_dispatched rq d s s'.
Proof.
  intros [Hw (t & sec & iss & Ht & Ed) Hd Hr _ _] E1 E2 E3 E4 E5 E6.
  unfold waiting, in_order in *. split; unfold waiting, in_order; rewrite ?Ed; simpl;
    rewrite ?sel_put, ?sel_put_other, <- ?E1, <- ?E2, <- ?E3, <- ?E4, <- ?E5, <- ?E6; auto.
Qed.

Lemma dispatch_requests_run s :
  dl_inv s -> dl_tags s ->
  exists rv s', deadline_dispatch_requests s = Ok (rv, s') /\ dl_inv s' /\ dl_tags s' /\
    (dl_counted s -> dl_counted s') /\
    ((rv = 0 /\ s' = s /\ forall d, waiting s d = []) \/
     (rv = 1 /\ exists rq d, one_dispatched rq d s s' /\ (in_batch s d rq s' \/ new_batch s d rq s'))).
Proof.
  intros Hi Ht. unfold deadline_dispatch_requests, bind at 1, gets.
  destruct (batch_next (dd s)) as [rq|] eqn:Eb.
  - destruct (batch_next_waits s rq Hi Eb) as (d & Hn & Ho & Hlt).
    destruct (dispatch_request_run rq d s Hi Ht) as (s' & Es & Hs & Ht'); [by apply Hi |].
    exists 1, s'. split_and!; auto; [by eapply served_inv | exact (sv_counted _ _ _ _ Hs) |]. right. split; [done |].
    exists rq, d. split; [by eapply served_one |]. left.
    destruct (sv_dd _ _ _ _ Hs) as (t & sec & iss & _ & Ed).
    unfold in_batch. rewrite Ed. simpl. split_and!; auto.
    pose proof (di_batching _ Hi). pose proof (Z.mod_pos_bound (fifo_batch (dd s)) 0x100000000).
    unfold u32 in *. apply Z.mod_small. lia.
  - destruct (select_dir_run s Hi) as (o & v & Hc & Es). unfold waiting in Es. cbn [sel] in Es.
    unfold bind at 1. rewrite Es. destruct o as [d|].
    2: { destruct Hc as (H1 & H2 & ->). exists 0, s. split_and!; auto.
         - by destruct s as [? ? ? ? ? ? []].
         - left. split_and!; auto. by intros []. }
    set (s1 := s <| dd ::= fun x => x <| starved := v |> |>).
    assert (Hv : 0 <= v < 0x100000000).
    { pose proof (di_starved _ Hi). pose proof (Z.mod_pos_bound (writes_starved (dd s)) 0x100000000).
      unfold u32 in *. destruct d; simpl in Hc; [|lia]. unfold u32 in Hc. lia. }
    assert (Hi1 : dl_inv s1) by (destruct Hi; split; auto).
    assert (Hne : waiting s1 d <> []) by (destruct d; apply Hc).
    destruct (find_request_run s1 d Hi1 Hne) as (rq & Hb & Hw & Ef). unfold bind at 1. rewrite Ef.
    unfold bind, upd_dd, modify.
    match goal with |- context [dispatch_request rq ?x] => set (s2 := x) end.
    assert (Hi2 : dl_inv s2) by (destruct Hi1; split; auto; simpl; lia).
    destruct (dispatch_request_run rq d s2 Hi2) as (s' & E' & Hs & Ht'); [by destruct Ht; split | done |].
    exists 1, s'. split_and!; auto; [by eapply served_inv | exact (sv_counted _ _ _ _ Hs) |]. right. split; [done |].
    exists rq, d. split; [by eapply served_one |]. right.
    destruct (sv_dd _ _ _ _ Hs) as (t & sec & iss & _ & Ed).
    unfold new_batch. rewrite Ed. split_and!; auto.
Qed.

(** Dispatching takes exactly one request if one waits, and says so.  The
    request goes to the end of the dispatch list and leaves the FIFO and the tree of
    its direction, all others stay; no request waits in vain, and if none waits
    nothing changes and 0 is returned.  Neither of the BUG_ONs fires. *)
Theorem deadline_dispatch_takes_one s :
  dl_inv s -> dl_tags s ->
  exists rv s', deadline_dispatch_requests s = Ok (rv, s') /\ dl_inv s' /\
    (rv = 0 -> s' = s /\ forall d, waiting s d = []) /\
    (rv <> 0 -> rv = 1 /\ exists rq d,
       one_dispatched rq d s s' /\ in_order s' d ≡ₚ list_del rq (in_order s d)).
Proof.
  intros Hi Ht. destruct (dispatch_requests_run s Hi Ht) as (rv & s' & Es & Hi' & Ht' & _ & Hrv).
  exists rv, s'. split_and!; auto.
  - intros ->. destruct Hrv as [(_ & -> & Hn)|[? _]]; [auto | done].
  - intros Hne. destruct Hrv as [[-> _]|(-> & rq & d & Hod & _)]; [done |].
    split; [done |]. exists rq, d. split; [done |]. rewrite (di_both _ Hi'), (di_both _ Hi).
    by rewrite (od_waiting _ _ _ _ Hod).
Qed.

(** C21: a batch starts with the oldest request of its direction when that has
    expired.  If the running batch has used up its share, or has nowhere to go, and
    the head of the FIFO of the direction that is chosen has expired, then the head
    is what is dispatched, wherever it is on the disk. *)
Theorem deadline_expired_first s s' d rq h :
  dl_inv s -> dl_tags s -> batch_next (dd s) = None ->
  deadline_dispatch_requests s = Ok (1, s') -> dispatch_list s' = dispatch_list s ++ [rq] ->
  rq ∈ waiting s d -> head (waiting s d) = Some h -> expired s h = true -> rq = h.
Proof.
  intros Hi Ht Hb Es Hd Hw Hh He.
  destruct (dispatch_requests_run s Hi Ht) as (rv & s'' & Es' & _ & _ & _ & [(-> & _)|(-> & rq' & d' & Hod & Hk)]);
    rewrite Es in Es'; simplify_eq.
  rewrite (od_dispatch _ _ _ _ Hod) in Hd. simplify_list_eq.
  pose proof (inv_one_dir _ _ _ _ Hi Hw (od_waits _ _ _ _ Hod)) as ->.
  destruct Hk as [(Hn & _ & Hlt & _)|(_ & (h' & Hh' & ->) & _)].
  - exfalso. unfold batch_next in Hb. destruct (Z.ltb_spec (batching (dd s)) (u32 (fifo_batch (dd s)))); [|lia].
    destruct d'; simpl in Hn.
    + destruct (on_write (next_rq (dd s))); [done |]. by rewrite Hn in Hb.
    + by rewrite Hn in Hb.
  - assert (h' = h) as -> by congruence. by rewrite He.
Qed.

(** [n] comes next above [x]: none of the list is between them. *)
Definition neighbours (key : ptr -> Z) (x n : ptr) (l : list ptr) : Prop :=
  key x <= key n /\ forall z, z ∈ l -> key z <= key x \/ key n <= key z.

(** A batch that goes on has the request that comes next. *)
Lemma batch_goes_on s d n :
  dl_inv s -> sel d (next_rq (dd s)) = Some n -> batching (dd s) < u32 (fifo_batch (dd s)) ->
  batch_next (dd s) = Some n.
Proof.
  intros Hi Hn Hlt. unfold batch_next. destruct (Z.ltb_spec (batching (dd s)) (u32 (fifo_batch (dd s)))); [|lia].
  destruct d; simpl in Hn; [|by rewrite Hn]. destruct (di_one _ Hi); simpl in *; [congruence |].
  destruct (on_write (next_rq (dd s))); [congruence | by rewrite Hn].
Qed.

(** C22: a batch sweeps the disk in one direction.  While it goes on (there is a
    request that comes next, and fewer than fifo_batch were dispatched), that very request is
    what is dispatched, whatever waits longer, and the batch counts it.  The request that comes next
    after a dispatch is the neighbour of the one dispatched in the order of
    sectors: none of the waiting requests of its direction lies between them, and
    when no neighbour is left the last one had the highest sector. *)
Theorem deadline_batch_sweeps s s' rq :
  dl_inv s -> dl_tags s ->
  deadline_dispatch_requests s = Ok (1, s') -> dispatch_list s' = dispatch_list s ++ [rq] ->
  exists d, rq ∈ waiting s d /\
    (forall d' n, sel d' (next_rq (dd s)) = Some n -> batching (dd s) < u32 (fifo_batch (dd s)) ->
       d' = d /\ rq = n /\ batching (dd s') = batching (dd s) + 1) /\
    sel (other d) (next_rq (dd s')) = None /\
    match sel d (next_rq (dd s')) with
    | Some n => n ∈ waiting s' d /\ neighbours (posof (rqs s)) rq n (waiting s' d)
    | None => forall z, z ∈ waiting s d -> posof (rqs s) z <= posof (rqs s) rq
    end.
Proof.
  intros Hi Ht Es Hd.
  destruct (dispatch_requests_run s Hi Ht) as (rv & s'' & Es' & Hi' & _ & _ & [(-> & _)|(-> & rq' & d & Hod & Hk)]);
    rewrite Es in Es'; simplify_eq.
  rewrite (od_dispatch _ _ _ _ Hod) in Hd. simplify_list_eq. exists d.
  split; [apply Hod |]. split.
  { intros d' n Hn Hlt. pose proof (batch_goes_on _ _ _ Hi Hn Hlt) as Hb.
    destruct Hk as [(Hn' & Ho & _ & Ec & _)|[Hb' _]]; [|congruence].
    destruct (decide (d' = d)) as [->|Hne]; [split_and!; congruence |].
    destruct d, d'; simpl in *; congruence. }
  pose proof (di_next _ Hi' d) as Hnw.
  rewrite (od_next _ _ _ _ Hod) in *. rewrite sel_put in *. rewrite sel_put_other.
  split; [by destruct d |].
  destruct (succ_in rq (in_order s d)) as [n|] eqn:En.
  - split; [by apply Hnw |]. destruct (succ_in_sorted _ _ _ _ (di_sorted _ Hi d) En) as [Hle Hb].
    split; [done |]. intros z Hz. apply Hb. rewrite (di_both _ Hi).
    rewrite (od_waiting _ _ _ _ Hod) in Hz. by apply elem_of_list_del in Hz as [_ Hz].
  - intros z Hz. eapply succ_in_none; [apply (di_sorted _ Hi d) | | exact En |];
      rewrite (di_both _ Hi); [apply Hod | done].
Qed.

(** ** Starvation *)

(** The reads that can still be dispatched while a write waits. *)
Definition share (s : dl) : Z := Z.max 1 (u32 (fifo_batch (dd s))).
Definition batch_rest (s : dl) : Z :=
  match on_read (next_rq (dd s)) with
  | Some _ => Z.max 0 (u32 (fifo_batch (dd s)) - batching (dd s))
  | None => 0
  end.
Definition patience (s : dl) : Z :=
  Z.max 0 (u32 (writes_starved (dd s)) - starved (dd s)) * share s + batch_rest s.

Lemma patience_bound s :
  dl_inv s -> 0 <= patience s <= (u32 (writes_starved (dd s)) + 1) * share s.
Proof.
  intros Hi. pose proof (di_starved _ Hi) as Hs. pose proof (di_batching _ Hi) as Hb.
  unfold patience, batch_rest, share.
  pose proof (Z.mod_pos_bound (writes_starved (dd s)) 0x100000000).
  pose proof (Z.mod_pos_bound (fifo_batch (dd s)) 0x100000000). unfold u32 in *.
  destruct (on_read _); nia.
Qed.

(** Each read that overtakes a waiting write costs some of it. *)
Lemma read_costs_patience s s' rq :
  dl_inv s -> waiting s WRITE <> [] -> one_dispatched rq READ s s' ->
  (in_batch s READ rq s' \/ new_batch s READ rq s') -> patience s' + 1 <= patience s.
Proof.
  intros Hi Hw Hod Hk. unfold patience, batch_rest, share.
  rewrite (od_fifo_batch _ _ _ _ Hod), (od_writes_starved _ _ _ _ Hod), (od_next _ _ _ _ Hod). simpl.
  destruct Hk as [(Hn & _ & Hlt & -> & ->)|(_ & _ & -> & _ & [[? _]|(_ & Hlt & ->)])]; [| done |].
  - simpl in Hn. rewrite Hn. destruct (succ_in _ _); lia.
  - set (F := u32 (fifo_batch (dd s))). assert (0 <= F) by (apply Z.mod_pos_bound; lia).
    assert (match succ_in rq (in_order s READ) with Some _ => Z.max 0 (F - 1) | None => 0 end <= Z.max 1 F - 1)
      by (destruct (succ_in _ _); lia).
    assert (0 <= match on_read (next_rq (dd s)) with Some _ => Z.max 0 (F - batching (dd s)) | None => 0 end)
      by (destruct (on_read _); lia).
    nia.
Qed.

End Dispatch.
