(* ===== verification/DeadlineHandlers.v ===== *)
(** * Split-deadline scheduler: the other handlers

    Requests come in, are merged, and pages are marked dirty; each handler keeps the
    invariant, faults nowhere and takes nothing from the patience of the writes. *)

From S2P Require Import Prelude CInt Kernel HashTable CauseTags IoctlHelper RbTree Jiffies.
From S2P Require Import SplitAccount SplitSched Deadline DeadlineDirty DeadlineInv DeadlineOps DeadlineDispatch.

(** ** Lists in the order of a key *)

Section Sorted.
Context {A : Type}.

Lemma sorted_ext (key key' : A -> Z) l :
  (forall x, x ∈ l -> key' x = key x) -> StronglySorted (key_le key) l -> StronglySorted (key_le key') l.
Proof.
  intros Hk Hs. induction Hs as [|x l Hl IH Hx]; constructor.
  - apply IH. intros y Hy. apply Hk. by right.
  - rewrite list.Forall_forall in *. intros y Hy. unfold key_le in *.
    rewrite !Hk; [auto | by right | left].
Qed.

Lemma insert_key_ext (key key' : A -> Z) x l :
  (forall y, key' y = key y) -> insert_key key' x l = insert_key key x l.
Proof. intros Hk. induction l as [|y l IH]; simpl; [done |]. by rewrite !Hk, IH. Qed.
End Sorted.

Lemma insert_behind_perm x y l : y ∈ l -> insert_behind x y l ≡ₚ x :: l.
Proof.
  induction l as [|z l IH]; simpl; [by intros ?%elem_of_nil |].
  destruct (decide (z = y)) as [->|Hne]; [intros _; apply perm_swap |].
  intros [->|Hy]%elem_of_cons; [done |]. rewrite IH by done. apply perm_swap.
Qed.

Lemma insert_behind_notin x y l : y ∉ l -> insert_behind x y l = l.
Proof.
  induction l as [|z l IH]; simpl; [done |]. intros [Hne Hl]%not_elem_of_cons.
  rewrite decide_False by done. by rewrite IH.
Qed.

Lemma insert_behind_sorted (key : ptr -> Z) x y l :
  StronglySorted (key_le key) l -> key x = key y -> StronglySorted (key_le key) (insert_behind x y l).
Proof.
  intros Hs Hk. induction Hs as [|z l Hl IH Hz]; simpl; [constructor |].
  destruct (decide (z = y)) as [->|Hne].
  - repeat constructor; auto; unfold key_le in *; [|lia]. eapply Forall_mono; [|exact Hz]. simpl. lia.
  - constructor; [done |]. destruct (decide (y ∈ l)) as [Hy|Hy].
    + rewrite insert_behind_perm by done. constructor; [|done].
      rewrite list.Forall_forall in Hz. specialize (Hz y Hy). unfold key_le in *. lia.
    + by rewrite insert_behind_notin.
Qed.

Section Handlers.
Context {K : KernelFns} {KO : KernelOk K} {R : RbFns} {RO : RbOk R} {E : ElvFns} {EO : ElvOk E}.

Lemma posof_alter f rq rs x :
  (forall r, blk_rq_pos (f r) = blk_rq_pos r) -> posof (alter f rq rs) x = posof rs x.
Proof.
  intros Hf. unfold posof. rewrite lookup_alter. case_decide as Heq; [subst |done].
  destruct (rs !! x); simpl; auto.
Qed.

Lemma posof_alter_ne f rq rs x : x <> rq -> posof (alter f rq rs) x = posof rs x.
Proof. intros Hne. unfold posof. by rewrite lookup_alter_ne. Qed.

(** Changing a request outside of its direction and its bios. *)
Lemma alter_rq_some f (rq : ptr) (rs : gmap ptr request) (x : ptr) d :
  (forall r, rq_data_dir (f r) = rq_data_dir r) ->
  (exists r, rs !! x = Some r /\ rq_data_dir r = d) ->
  exists r, alter f rq rs !! x = Some r /\ rq_data_dir r = d.
Proof.
  intros Hf (r & Hr & Hd). rewrite lookup_alter. case_decide as Heq; [subst |eauto].
  rewrite Hr. exists (f r). split; [done |]. by rewrite Hf.
Qed.

Lemma tags_alter_rq f rq s :
  (forall r, rq_bio (f r) = rq_bio r) -> dl_tags s -> tags_ok (kern s) (alter f rq (rqs s)) (inodes s).
Proof.
  intros Hf [H1 H2]. split; [|done]. intros x r b l. rewrite lookup_alter.
  case_decide as Heq; [subst | by apply (H1 x)].
  destruct (rqs s !! x) as [r0|] eqn:E0; simpl; [|done]. intros [= <-]. rewrite Hf. by apply (H1 x).
Qed.

Lemma inv_alter_time rq t s :
  dl_inv s -> dl_inv (s <| rqs ::= alter (fun r => r <| fifo_time := t |>) rq |>).
Proof.
  intros [H1 H2 H3 H4 H5 H6 H7 H8 H9]. split; auto.
  - intros d x Hx. apply alter_rq_some; [done |]. by apply H3.
  - intros d. eapply sorted_ext; [|exact (H4 d)]. intros x _. by apply posof_alter.
Qed.

(** ** A request comes in *)

(** The data after the request has been queued; [t] is the tree. *)
Definition added_dd (rq : ptr) (d : dir) (t : tree ptr) (x : deadline_data) : deadline_data :=
  x <| last_accepted := put d (s32 (sel d (last_accepted x) + 1)) (last_accepted x) |>
    <| sort_list := put d t (sort_list x) |>
    <| fifo_list := put d (sel d (fifo_list x) ++ [rq]) (fifo_list x) |>.

Lemma dl_add_request_run rq r s :
  dl_inv s -> rqs s !! rq = Some r ->
  let d := rq_data_dir r in
  exists t, inorder t = insert_key (posof (rqs s)) rq (in_order s d) /\
    deadline_add_request rq s =
    Ok (tt, s <| rqs ::= alter (fun r => r <| fifo_time := u64 (now s + sel d (fifo_expire (dd s))) |>) rq |>
              <| kern ::= fun k => k <| k_world ::= clock_step |> |>
              <| dd ::= added_dd rq d t |>).
Proof.
  intros Hi Hr d. exists (elv_rb_add (posof (rqs s)) (sel d (sort_list (dd s))) rq).
  split; [apply elv_rb_add_inorder, Hi |].
  unfold deadline_add_request, deadline_add_rq_rb, bind, get_rq, upd_dd, modify, in_clock, in_kern,
    in_world, zoom, read_jiffies, gets, upd_rq. simpl. rewrite Hr. simpl. by rewrite Hr.
Qed.

Lemma added_inv rq d t s :
  dl_inv s -> (exists r, rqs s !! rq = Some r /\ rq_data_dir r = d) ->
  (forall d', rq ∉ waiting s d') -> rq ∉ dispatch_list s ->
  inorder t = insert_key (posof (rqs s)) rq (in_order s d) ->
  dl_inv (s <| dd ::= added_dd rq d t |>).
Proof.
  intros [H1 H2 H3 H4 H5 H6 H7 H8 H9] Hr Hw Hd Ht.
  assert (Ho : forall d', d' <> d -> waiting (s <| dd ::= added_dd rq d t |>) d' = waiting s d').
  { intros d' Hne. unfold waiting. simpl. by rewrite sel_put_ne. }
  assert (Hs : waiting (s <| dd ::= added_dd rq d t |>) d = waiting s d ++ [rq])
    by (unfold waiting; simpl; by rewrite sel_put).
  assert (Oo : forall d', d' <> d -> in_order (s <| dd ::= added_dd rq d t |>) d' = in_order s d').
  { intros d' Hne. unfold in_order. simpl. by rewrite sel_put_ne. }
  assert (Os : in_order (s <| dd ::= added_dd rq d t |>) d = insert_key (posof (rqs s)) rq (in_order s d))
    by (unfold in_order; simpl; by rewrite sel_put).
  split; auto.
  - intros d'. destruct (decide (d' = d)) as [->|Hne]; [|by rewrite Ho, Oo].
    rewrite Hs, Os, insert_key_perm, H1. apply Permutation_cons_append.
  - assert (Hp : waiting (s <| dd ::= added_dd rq d t |>) READ ++
                 waiting (s <| dd ::= added_dd rq d t |>) WRITE ++ dispatch_list s
                 ≡ₚ rq :: waiting s READ ++ waiting s WRITE ++ dispatch_list s).
    { unfold waiting. simpl. destruct d; simpl; solve_Permutation. }
    simpl. rewrite Hp. constructor; [|done]. rewrite !elem_of_app.
    intros [?|[?|?]]; [by eapply (Hw READ) | by eapply (Hw WRITE) | done].
  - intros d' x Hx. destruct (decide (d' = d)) as [->|Hne]; [|rewrite Ho in Hx by done; by apply H3].
    rewrite Hs in Hx. apply elem_of_app in Hx as [Hx|Hx]; [by apply H3 |].
    by apply list_elem_of_singleton in Hx as ->.
  - intros d'. destruct (decide (d' = d)) as [->|Hne]; [|rewrite Oo by done; apply H4].
    rewrite Os. apply insert_key_sorted, H4.
  - intros d' x Hx%H5. destruct (decide (d' = d)) as [->|Hne]; [|by rewrite Ho].
    rewrite Hs. apply elem_of_app. by left.
Qed.

(** The request with its expiry time. *)
Definition stamped (s : dl) (r : request) : request :=
  r <| fifo_time := u64 (now s + sel (rq_data_dir r) (fifo_expire (dd s))) |>.

(** A request that comes in waits at the end of the FIFO of its direction, with
    an expiry time the setting of that direction ahead, and in the tree behind the
    requests of lower or the same sector; the invariant is kept and nothing else is
    touched. *)
Theorem deadline_add_request_queues rq r s :
  dl_inv s -> dl_tags s -> rqs s !! rq = Some r ->
  (forall d, rq ∉ waiting s d) -> rq ∉ dispatch_list s ->
  let d := rq_data_dir r in
  exists s', deadline_add_request rq s = Ok (tt, s') /\ dl_inv s' /\ dl_tags s' /\
    waiting s' d = waiting s d ++ [rq] /\ waiting s' (other d) = waiting s (other d) /\
    in_order s' d = insert_key (posof (rqs s)) rq (in_order s d) /\
    rqs s' !! rq = Some (stamped s r) /\
    dispatch_list s' = dispatch_list s.
Proof.
  intros Hi Ht Hr Hw Hd d. destruct (dl_add_request_run rq r s Hi Hr) as (t & Et & ->). fold d in Et |- *.
  eexists. split; [reflexivity |]. split; [|split; [|split_and!]].
  - apply added_inv; auto.
    + eapply inv_same_core; [|apply (inv_alter_time rq (u64 (now s + sel d (fifo_expire (dd s)))) s Hi)]. done.
    + apply alter_rq_some; eauto.
    + simpl. rewrite Et. symmetry. apply insert_key_ext. intros y. by apply posof_alter.
  - destruct (tags_alter_rq (fun r => r <| fifo_time := u64 (now s + sel d (fifo_expire (dd s))) |>) rq s)
      as [T1 T2]; [done | done |]. by split.
  - unfold waiting. simpl. by rewrite sel_put.
  - unfold waiting. simpl. by rewrite sel_put_other.
  - unfold in_order. simpl. by rewrite sel_put.
  - simpl. rewrite lookup_alter_eq, Hr. done.
  - done.
Qed.

(** ** Merging *)

(** The sector behind a bio. *)
Definition bio_end (b : bio) : Z := u64 (bi_sector b + Z.shiftr (bi_size b) 9).

Lemma merge_run bio_dir b s :
  dl_inv s ->
  exists ty o, deadline_merge bio_dir b s = Ok ((ty, o), s) /\
    match o with
    | Some rq => ty = ELEVATOR_FRONT_MERGE /\ rq ∈ waiting s bio_dir /\
        posof (rqs s) rq = bio_end b
    | None => ty = ELEVATOR_NO_MERGE
    end.
Proof.
  intros Hi. unfold deadline_merge, bind at 1, gets.
  destruct (negb _); [|by eexists _, None].
  pose proof (elv_rb_find_inorder (posof (rqs s)) (sel bio_dir (sort_list (dd s)))
                (u64 (bi_sector b + Z.shiftr (bi_size b) 9)) (di_sorted _ Hi bio_dir)) as Hf.
  destruct (elv_rb_find _ _ _) as [rq|]; [|by eexists _, None]. destruct Hf as [Hin Hpos].
  assert (Hw : rq ∈ waiting s bio_dir) by (rewrite <- (di_both _ Hi); done).
  destruct (di_rq _ Hi _ _ Hw) as (r & Hr & _). unfold bind, get_rq. rewrite Hr.
  assert (Hp : posof (rqs s) rq = blk_rq_pos r) by (unfold posof; by rewrite Hr).
  rewrite <- Hp, Hpos, Z.eqb_refl. simpl.
  destruct (elv_rq_merge_ok r b); [eexists _, (Some rq) | by eexists _, None]. done.
Qed.

(** A bio is offered for a front merge only to a waiting request of its
    direction that starts where the bio ends; the BUG_ON of the check never fires
    and nothing changes. *)
Theorem deadline_merge_finds_neighbour bio_dir b s :
  dl_inv s ->
  exists ty o, deadline_merge bio_dir b s = Ok ((ty, o), s) /\
    match o with
    | Some rq => ty = ELEVATOR_FRONT_MERGE /\ rq ∈ waiting s bio_dir /\
        posof (rqs s) rq = bio_end b
    | None => ty = ELEVATOR_NO_MERGE
    end.
Proof. apply merge_run. Qed.

(** The block layer has merged a bio in front of [req], which starts at [pos] now,
    and tells the scheduler. *)
Definition grown (pos sectors : Z) (r : request) : request :=
  r <| blk_rq_pos := pos |> <| blk_rq_sectors := sectors |>.
Definition front_merged (req : ptr) (pos sectors : Z) : ST dl unit :=
  upd_rq req (grown pos sectors);;
  deadline_merged_request req ELEVATOR_FRONT_MERGE.

Lemma front_merged_run req d pos sectors s :
  dl_inv s -> req ∈ waiting s d ->
  let f := grown pos sectors in
  exists t, inorder t = insert_key (posof (alter f req (rqs s))) req (list_del req (in_order s d)) /\
    StronglySorted (key_le (posof (alter f req (rqs s)))) (inorder t) /\
    front_merged req pos sectors s =
      Ok (tt, s <| rqs ::= alter f req |> <| dd ::= fun x => x <| sort_list := put d t (sort_list x) |> |>).
Proof.
  intros Hi Hw f. destruct (di_rq _ Hi _ _ Hw) as (r & Hr & Hd).
  destruct (elv_rb_del_inorder (sel d (sort_list (dd s))) req) as (t1 & E1 & H1).
  { fold (in_order s d). by rewrite (di_both _ Hi). }
  assert (Hs1 : StronglySorted (key_le (posof (alter f req (rqs s)))) (inorder t1)).
  { rewrite H1. eapply sorted_ext; [|apply sorted_filter, (di_sorted _ Hi d)].
    intros x [Hne _]%list_elem_of_filter. by apply posof_alter_ne. }
  exists (elv_rb_add (posof (alter f req (rqs s))) t1 req).
  rewrite elv_rb_add_inorder by done. split; [by rewrite H1 |].
  split; [by apply insert_key_sorted |].
  assert (Hr' : alter f req (rqs s) !! req = Some (f r)) by (by rewrite lookup_alter_eq, Hr).
  unfold front_merged, deadline_merged_request, rb_root_del, deadline_add_rq_rb, bind, upd_rq, upd_dd, modify,
    get_rq, gets, lift. cbn -[grown]. fold f. rewrite Hr'. cbn -[grown].
  rewrite (eq_refl : rq_data_dir (f r) = rq_data_dir r), Hd, E1. cbn -[grown]. fold f. rewrite Hr'. cbn -[grown].
  rewrite (eq_refl : rq_data_dir (f r) = rq_data_dir r), Hd.
  by rewrite sel_put; destruct d.
Qed.

Lemma front_merged_inv req d pos sectors s :
  dl_inv s -> dl_tags s -> req ∈ waiting s d ->
  exists s', front_merged req pos sectors s = Ok (tt, s') /\ dl_inv s' /\ dl_tags s' /\
    fifo_list (dd s') = fifo_list (dd s) /\ dispatch_list s' = dispatch_list s /\
    patience s' = patience s.
Proof.
  intros Hi Ht Hw. destruct (front_merged_run req d pos sectors s Hi Hw) as (t & Et & Hst & ->).
  set (f := grown pos sectors) in *.
  eexists. split; [reflexivity |]. split; [|split_and!; auto;
    change (tags_ok (kern s) (alter f req (rqs s)) (inodes s)); by apply tags_alter_rq].
  assert (Hperm : inorder t ≡ₚ in_order s d).
  { rewrite Et, insert_key_perm, <- list_del_perm; [done | by apply inv_order_nodup |].
    by rewrite (di_both _ Hi). }
  destruct Hi as [H1 H2 H3 H4 H5 H6 H7 H8 H9]. split; auto.
  - intros d'. unfold in_order. simpl. destruct (decide (d' = d)) as [->|Hne].
    + rewrite sel_put, Hperm. apply H1.
    + rewrite sel_put_ne by done. apply H1.
  - intros d' x Hx. simpl. apply alter_rq_some; [done |]. by apply H3.
  - intros d'. unfold in_order. simpl. destruct (decide (d' = d)) as [->|Hne].
    + by rewrite sel_put.
    + rewrite sel_put_ne by done. eapply sorted_ext; [|apply H4]. intros x Hx.
      apply posof_alter_ne. intros ->. apply Hne.
      assert (Hx' : req ∈ waiting s d') by (rewrite <- H1; exact Hx).
      destruct (H3 _ _ Hx') as (r1 & Hr1 & <-), (H3 _ _ Hw) as (r2 & Hr2 & <-). congruence.
Qed.

End Handlers.
