(* ===== verification/DeadlineMerge.v ===== *)
(** * Split-deadline scheduler: two requests become one

    [deadline_merged_requests]: the request that is left inherits the earlier of the
    two expiry times and the place that belongs to it in the FIFO. *)

From S2P Require Import Prelude CInt Kernel HashTable CauseTags IoctlHelper RbTree Jiffies.
From S2P Require Import SplitAccount SplitSched Deadline DeadlineDirty DeadlineInv DeadlineOps DeadlineDispatch.
From S2P Require Import DeadlineHandlers.

Section Merge.
Context {K : KernelFns} {KO : KernelOk K} {R : RbFns} {RO : RbOk R} {E : ElvFns} {EO : ElvOk E}.

(** The FIFO after [req] has moved behind [next]. *)
Definition moved_fifo (req next : ptr) (l : list ptr) : list ptr := insert_behind req next (list_del req l).

Lemma moved_fifo_perm req next l :
  NoDup l -> req ∈ l -> next ∈ l -> req <> next -> moved_fifo req next l ≡ₚ l.
Proof.
  intros Hn Hr Hx Hne. unfold moved_fifo. rewrite insert_behind_perm by (by apply elem_of_list_del).
  symmetry. by apply list_del_perm.
Qed.

Definition moved (req next : ptr) (d : dir) (s : dl) : dl :=
  s <| dd ::= fun x => x <| fifo_list := put d (moved_fifo req next (sel d (fifo_list x))) (fifo_list x) |> |>.

Lemma queuelist_move s d req next :
  dl_inv s -> req ∈ waiting s d -> next ∈ waiting s d ->
  queuelist_add_behind req next (queuelist_del req s) = moved req next d s.
Proof.
  intros Hi Hr Hn. rewrite (queuelist_del_waiting s d req Hi Hr).
  pose proof (inv_notin_dispatch _ _ _ Hi Hn) as Hd.
  assert (Ho : next ∉ waiting s (other d)).
  { intros Ho. pose proof (inv_one_dir _ _ _ _ Hi Hn Ho). by destruct d. }
  unfold queuelist_add_behind, moved, moved_fifo, waiting in *. destruct s as [k rs ins disp u w x], x.
  simpl in *. rewrite (insert_behind_notin req next disp Hd).
  destruct d; simpl in *; by rewrite (insert_behind_notin _ _ _ Ho).
Qed.

Lemma moved_inv s d req next :
  dl_inv s -> req ∈ waiting s d -> next ∈ waiting s d -> req <> next -> dl_inv (moved req next d s).
Proof.
  intros Hi Hr Hn Hne. pose proof (inv_waiting_nodup s d Hi) as Hnd.
  pose proof (moved_fifo_perm req next (waiting s d) Hnd Hr Hn Hne) as Hp.
  assert (Hw : forall d', waiting (moved req next d s) d' ≡ₚ waiting s d').
  { intros d'. unfold waiting at 1. simpl. destruct (decide (d' = d)) as [->|Hd].
    - rewrite sel_put. exact Hp.
    - by rewrite sel_put_ne. }
  destruct Hi as [H1 H2 H3 H4 H5 H6 H7 H8 H9]. split; auto.
  - intros d'. rewrite Hw. apply H1.
  - rewrite !Hw. exact H2.
  - intros d' x Hx. rewrite Hw in Hx. by apply H3.
  - intros d' x Hx. rewrite Hw. by apply H5.
Qed.

Lemma on_queuelist_waiting s d rq : rq ∈ waiting s d -> on_queuelist s rq = true.
Proof.
  intros H. apply bool_decide_eq_true. rewrite !elem_of_app. destruct d; auto.
Qed.

Lemma next_patience rq d t s :
  patience (s <| dd ::= removed_dd rq d t |>) <= patience s.
Proof.
  unfold patience, batch_rest, share. simpl.
  assert (Hr : (match on_read (if bool_decide (sel d (next_rq (dd s)) = Some rq)
     then put d (succ_in rq (inorder (sel d (sort_list (dd s))))) (next_rq (dd s)) else next_rq (dd s)) with
     | Some _ => Z.max 0 (u32 (fifo_batch (dd s)) - batching (dd s)) | None => 0 end
     <= match on_read (next_rq (dd s)) with
        | Some _ => Z.max 0 (u32 (fifo_batch (dd s)) - batching (dd s)) | None => 0 end)).
  { case_bool_decide as Hn; [|lia]. destruct d; simpl in *; [|lia]. rewrite Hn. destruct (succ_in _ _); lia. }
  lia.
Qed.

(** The state after the merge, up to the tree: [next] removed, and [req] moved and
    its time set if [next] expires first. *)
Lemma merged_requests_run s d req next r n :
  dl_inv s -> req ∈ waiting s d -> next ∈ waiting s d -> req <> next ->
  rqs s !! req = Some r -> rqs s !! next = Some n ->
  let s1 := if time_before (fifo_time n) (fifo_time r)
            then (moved req next d s) <| rqs ::= alter (fun r => r <| fifo_time := fifo_time n |>) req |>
            else s in
  exists t, inorder t = list_del next (in_order s d) /\ dl_inv s1 /\
    deadline_merged_requests req next s = Ok (tt, s1 <| dd ::= removed_dd next d t |>).
Proof.
  intros Hi Hr Hn Hne Er En s1.
  assert (Hi1 : dl_inv s1).
  { unfold s1. destruct (time_before _ _); [|done]. by apply inv_alter_time, moved_inv. }
  assert (Hw1 : next ∈ waiting s1 d).
  { unfold s1. destruct (time_before _ _); [|done]. unfold waiting. simpl. rewrite sel_put.
    fold (waiting s d). rewrite moved_fifo_perm; auto. by apply inv_waiting_nodup. }
  destruct (remove_request_run s1 d next Hi1 Hw1) as (t & Et & Erm).
  exists t. split; [by unfold s1 in Et; destruct (time_before _ _) |]. split; [done |].
  unfold deadline_merged_requests, bind at 1, gets.
  rewrite !(on_queuelist_waiting s d) by done. simpl andb. cbn iota.
  unfold bind, get_rq. rewrite Er, En. unfold s1 in Erm |- *.
  destruct (time_before (fifo_time n) (fifo_time r)); [|exact Erm].
  unfold modify, upd_rq, modify. rewrite (queuelist_move s d req next Hi Hr Hn). exact Erm.
Qed.

Lemma merged_requests_inv s d req next :
  dl_inv s -> dl_tags s -> req ∈ waiting s d -> next ∈ waiting s d -> req <> next ->
  exists s', deadline_merged_requests req next s = Ok (tt, s') /\ dl_inv s' /\ dl_tags s' /\
    waiting s' d ≡ₚ list_del next (waiting s d) /\ waiting s' (other d) = waiting s (other d) /\
    dispatch_list s' = dispatch_list s /\ patience s' <= patience s.
Proof.
  intros Hi Ht Hr Hn Hne. destruct (di_rq _ Hi _ _ Hr) as (r & Er & _), (di_rq _ Hi _ _ Hn) as (n & En & _).
  destruct (merged_requests_run s d req next r n Hi Hr Hn Hne Er En) as (t & Et & Hi1 & ->).
  set (s1 := if time_before _ _ then _ else _) in *.
  assert (Hs1 : dl_tags s1 /\ waiting s1 d ≡ₚ waiting s d /\ waiting s1 (other d) = waiting s (other d) /\
                in_order s1 d = in_order s d /\ dispatch_list s1 = dispatch_list s /\ patience s1 = patience s).
  { unfold s1. destruct (time_before _ _); [|by split_and!]. split_and!; auto.
    - destruct (tags_alter_rq (fun r => r <| fifo_time := fifo_time n |>) req s) as [T1 T2]; [done | done |].
      by split.
    - unfold waiting at 1. simpl. rewrite sel_put. apply moved_fifo_perm; auto. by apply inv_waiting_nodup.
    - unfold waiting. simpl. by rewrite sel_put_other. }
  destruct Hs1 as (T & W1 & W2 & O & D & P).
  eexists. split; [reflexivity |]. split_and!.
  - apply removed_inv; [done |]. by rewrite O.
  - by destruct T; split.
  - unfold waiting at 1. simpl. rewrite sel_put. fold (waiting s1 d). by rewrite W1.
  - unfold waiting at 1. simpl. rewrite sel_put_other. exact W2.
  - exact D.
  - rewrite <- P. apply next_patience.
Qed.

(** ** Expiry times *)

Definition timeof (rs : gmap ptr request) (p : ptr) : Z :=
  match rs !! p with Some r => fifo_time r | None => 0 end.

(** The FIFO is in the order of expiry. *)
Definition fifo_ordered (s : dl) (d : dir) : Prop := StronglySorted (key_le (timeof (rqs s))) (waiting s d).

(** Merging two waiting requests keeps the FIFO in the order of expiry.  The
    second one is gone, the first one expires at the earlier of both times, and the
    other requests keep their times; in particular the oldest request of the FIFO
    still comes first. *)
Theorem deadline_merged_requests_expiry s d req next :
  dl_inv s -> dl_tags s -> req ∈ waiting s d -> next ∈ waiting s d -> req <> next ->
  fifo_ordered s d ->
  (forall x, x ∈ waiting s d -> 0 <= timeof (rqs s) x < 0x8000000000000000) ->
  exists s', deadline_merged_requests req next s = Ok (tt, s') /\ dl_inv s' /\ fifo_ordered s' d /\
    waiting s' d ≡ₚ list_del next (waiting s d) /\
    timeof (rqs s') req = Z.min (timeof (rqs s) req) (timeof (rqs s) next) /\
    forall x, x <> req -> timeof (rqs s') x = timeof (rqs s) x.
Proof.
  intros Hi Ht Hr Hn Hne Ho Hrange.
  destruct (di_rq _ Hi _ _ Hr) as (r & Er & _), (di_rq _ Hi _ _ Hn) as (n & En & _).
  destruct (merged_requests_inv s d req next Hi Ht Hr Hn Hne) as (s' & Es & Hi' & _ & Hw & _).
  exists s'. split; [done |]. split; [done |].
  destruct (merged_requests_run s d req next r n Hi Hr Hn Hne Er En) as (t & _ & _ & Es').
  rewrite Es in Es'. injection Es' as ->.
  assert (Tr : timeof (rqs s) req = fifo_time r) by (unfold timeof; by rewrite Er).
  assert (Tn : timeof (rqs s) next = fifo_time n) by (unfold timeof; by rewrite En).
  assert (Hb : time_before (fifo_time n) (fifo_time r) = (fifo_time n <? fifo_time r)).
  { unfold time_before. pose proof (Hrange _ Hr). pose proof (Hrange _ Hn).
    rewrite <- (u64_small (fifo_time r)), <- (u64_small (fifo_time n)) at 1 by (unfold is_u64; lia).
    apply time_after_near; [unfold is_s64 |]; lia. }
  rewrite Hb in *. destruct (Z.ltb_spec (fifo_time n) (fifo_time r)) as [Hlt|Hge].
  - assert (Hx : forall x, x <> req -> timeof (alter (fun r => r <| fifo_time := fifo_time n |>) req (rqs s)) x
                                       = timeof (rqs s) x)
      by (intros x Hxn; unfold timeof; by rewrite lookup_alter_ne).
    assert (Hq : timeof (alter (fun r => r <| fifo_time := fifo_time n |>) req (rqs s)) req = fifo_time n)
      by (unfold timeof; by rewrite lookup_alter_eq, Er).
    split; [|split_and!; [done | etrans; [exact Hq | lia] | exact Hx]].
    unfold fifo_ordered, waiting. simpl. rewrite sel_put. apply sorted_filter. rewrite sel_put.
    apply insert_behind_sorted; [|etrans; [exact Hq | symmetry; etrans; [exact (Hx next (not_eq_sym Hne)) | exact Tn]]].
    eapply sorted_ext; [|apply sorted_filter, Ho].
    intros x [Hxn _]%list_elem_of_filter. exact (Hx x Hxn).
  - split; [|split_and!; [done | simpl; lia | done]].
    unfold fifo_ordered, waiting. simpl. rewrite sel_put. apply sorted_filter, Ho.
Qed.

End Merge.
