(* ===== verification/DeadlineRuns.v ===== *)
(** * Split-deadline scheduler: runs

    A run starts with [deadline_init_queue] and goes on with calls of the handlers,
    in any order, and with what the rest of the kernel does in between.  No handler
    faults in any run, the scheduler is a pool of requests that gives each of them
    out once, reads overtake a waiting write only so often, and the dirty pages are
    counted exactly. *)

From S2P Require Import Prelude CInt Kernel HashTable CauseTags IoctlHelper RbTree Jiffies.
From S2P Require Import SplitAccount SplitSched Deadline DeadlineDirty DeadlineInv DeadlineOps DeadlineDispatch.
From S2P Require Import DeadlineHandlers DeadlineMerge.

(** The entry points ([iosched_deadline.ops], the attributes and the callbacks), but for setting up, which begins a run,
    and tearing down, which ends it ([disk_life] of [DeadlineStack]). *)
Inductive handler :=
  | AddRequest (rq : ptr)
  | Dispatch
  | Merge (bio_dir : dir) (b : bio)
  | MergedRequest (req : ptr) (pos sectors : Z)   (* a front merge has changed req *)
  | MergedRequests (req next : ptr)
  | CausesDirty (causes inode : ptr)
  | CausesFree (causes : ptr)                     (* the cause list is freed then *)
  | FsyncEnter (cur : Z) (file inode : ptr) (datasync sched_uniq : Z)   (* fsync_entry, up to its loop *)
  | FsyncIssue (inode : ptr)                      (* a turn of the loop, before the sleep *)
  | FsyncWake (inode : ptr) (num_dirty_pages : Z) (* and after it *)
  | FsyncStamp (desc : fsync_desc)                (* what is left of fsync_entry *)
  | FsyncReturn (desc : fsync_desc)
  | KvSet (id : Z) (key : string) (val : Z)
  | SchedThread
  | ReadExpireStore (v : Z)
  | WriteExpireStore (v : Z)
  | WritesStarvedStore (v : Z)
  | FrontMergesStore (v : Z)
  | FifoBatchStore (v : Z).

Section Runs.
Context {K : KernelFns} {KO : KernelOk K} {R : RbFns} {RO : RbOk R} {E : ElvFns} {EO : ElvOk E} {J : JiffyFns}.

Definition run_handler (h : handler) : ST dl unit :=
  match h with
  | AddRequest rq => deadline_add_request rq
  | Dispatch => deadline_dispatch_requests;; ret tt
  | Merge bio_dir b => deadline_merge bio_dir b;; ret tt
  | MergedRequest req pos sectors => front_merged req pos sectors
  | MergedRequests req next => deadline_merged_requests req next
  | CausesDirty causes inode => deadline_causes_dirty causes inode
  | CausesFree causes =>
      deadline_causes_free causes;; in_kern (modify (fun k => k <| k_causes ::= delete causes |>))
  | FsyncEnter cur file inode datasync uniq => fsync_enter cur file inode datasync uniq;; ret tt
  | FsyncIssue inode => fsync_issue inode
  | FsyncWake inode n => fsync_wake inode n;; ret tt
  | FsyncStamp desc => fsync_stamp desc;; ret tt
  | FsyncReturn desc => deadline_fsync_return desc;; ret tt
  | KvSet id key val => deadline_kv_set_callback id key val
  | SchedThread => sched_thread_turn;; ret tt
  | ReadExpireStore v => deadline_read_expire_store v
  | WriteExpireStore v => deadline_write_expire_store v
  | WritesStarvedStore v => deadline_writes_starved_store v
  | FrontMergesStore v => deadline_front_merges_store v
  | FifoBatchStore v => deadline_fifo_batch_store v
  end.

(** What the kernel promises of its arguments when it calls a handler. *)
Definition callable (h : handler) (s : dl) : Prop :=
  match h with
  | AddRequest rq => is_Some (rqs s !! rq) /\ (forall d, rq ∉ waiting s d) /\ rq ∉ dispatch_list s
  | MergedRequest req _ _ => exists d, req ∈ waiting s d
  | MergedRequests req next => req <> next /\ exists d, req ∈ waiting s d /\ next ∈ waiting s d
  | CausesDirty causes inode => is_Some (k_causes (kern s) !! causes) /\ is_Some (inodes s !! inode)
  | CausesFree causes => is_Some (k_causes (kern s) !! causes) /\
      tags_ok ((kern s) <| k_causes ::= delete causes |>) (rqs s) (inodes s)
  | FsyncEnter _ _ inode _ _ | FsyncWake inode _ => is_Some (inodes s !! inode)
  | _ => True
  end.

(** What the rest of the kernel may do in between: it leaves the scheduler's data
    and where the waiting requests are on the disk alone. *)
Record kernel_step (s s' : dl) : Prop := {
  ks_dd : dd s' = dd s;
  ks_rqs : forall d rq r, rq ∈ waiting s d -> rqs s !! rq = Some r ->
    exists r', rqs s' !! rq = Some r' /\ rq_data_dir r' = rq_data_dir r /\ blk_rq_pos r' = blk_rq_pos r;
  ks_dispatch : NoDup (dispatch_list s') /\ forall d rq, rq ∈ waiting s d -> rq ∉ dispatch_list s';
  ks_tags : dl_tags s';
}.

Inductive reachable : dl -> Prop :=
  | reach_init s q eq_ok thread_ok random disks d disks' w' :
      dl_tags s -> NoDup (dispatch_list s) ->
      deadline_init_queue q eq_ok thread_ok random disks (k_world (kern s)) = Ok ((0, Some d, disks'), w') ->
      reachable (s <| kern ::= fun k => k <| k_world := w' |> |> <| dd := d |>)
  | reach_kernel s s' : reachable s -> kernel_step s s' -> reachable s'
  | reach_handler h s s' :
      reachable s -> callable h s -> run_handler h s = Ok (tt, s') -> reachable s'.

(** ** The specification: a pool of requests and the list of those given out *)

Definition pool (s : dl) : list ptr := waiting s READ ++ waiting s WRITE.

Definition spec_step (h : handler) (s s' : dl) : Prop :=
  match h with
  | AddRequest rq => pool s' ≡ₚ rq :: pool s /\ dispatch_list s' = dispatch_list s
  | Dispatch => (pool s = [] /\ s' = s) \/
      exists rq, pool s ≡ₚ rq :: pool s' /\ dispatch_list s' = dispatch_list s ++ [rq]
  | MergedRequests _ next => pool s ≡ₚ next :: pool s' /\ dispatch_list s' = dispatch_list s
  | _ => pool s' = pool s /\ dispatch_list s' = dispatch_list s
  end.

(** Handlers that neither dispatch nor change a setting. *)
Definition patient (h : handler) : bool :=
  match h with Dispatch | WritesStarvedStore _ | FifoBatchStore _ => false | _ => true end.

(** Handlers that keep the dirty pages counted: not a turn of the loop of [fsync], which may take pages off that are
    dirty. *)
Definition counting (h : handler) : bool := match h with FsyncWake _ _ => false | _ => true end.

Record good_step (h : handler) (s s' : dl) : Prop := {
  gs_inv : dl_inv s';
  gs_tags : dl_tags s';
  gs_spec : spec_step h s s';
  gs_counted : counting h = true -> dl_counted s -> dl_counted s';
  gs_patience : patient h = true -> patience s' <= patience s;
}.

(** ** The handlers one by one *)

Lemma pool_leaves s s' d x :
  dl_inv s -> x ∈ waiting s d -> waiting s' d ≡ₚ list_del x (waiting s d) ->
  waiting s' (other d) = waiting s (other d) -> pool s ≡ₚ x :: pool s'.
Proof.
  intros Hi Hx Hw Ho. pose proof (list_del_perm x _ (inv_waiting_nodup s d Hi) Hx) as Hp.
  rewrite <- Hw in Hp. unfold pool.
  destruct d; cbn [other] in Ho; rewrite Hp, Ho; solve_Permutation.
Qed.

Lemma add_good rq s : dl_inv s -> dl_tags s -> callable (AddRequest rq) s ->
  exists s', deadline_add_request rq s = Ok (tt, s') /\ good_step (AddRequest rq) s s'.
Proof.
  intros Hi Ht ([r Hr] & Hw & Hd). destruct (dl_add_request_run rq r s Hi Hr) as (t & Et & ->).
  eexists. split; [reflexivity |]. set (d := rq_data_dir r) in *. split.
  - apply added_inv; auto.
    + eapply inv_same_core; [|apply (inv_alter_time rq (u64 (now s + sel d (fifo_expire (dd s)))) s Hi)]. done.
    + apply alter_rq_some; eauto.
    + simpl. rewrite Et. symmetry. apply insert_key_ext. intros y. by apply posof_alter.
  - destruct (tags_alter_rq (fun r => r <| fifo_time := u64 (now s + sel d (fifo_expire (dd s))) |>) rq s)
      as [T1 T2]; [done | done |]. by split.
  - split; [|done]. unfold pool, waiting. simpl. destruct d; simpl; solve_Permutation.
  - by intros _.
  - intros _. apply Z.le_refl.
Qed.

Lemma dispatch_good s : dl_inv s -> dl_tags s ->
  exists s', run_handler Dispatch s = Ok (tt, s') /\ good_step Dispatch s s'.
Proof.
  intros Hi Ht. destruct (dispatch_requests_run s Hi Ht) as (rv & s' & Es & Hi' & Ht' & Hc & Hrv).
  exists s'. split; [simpl; unfold bind; by rewrite Es |]. split; auto; [|done].
  destruct Hrv as [(_ & -> & Hn)|(_ & rq & d & Hod & _)].
  - left. split; [|done]. unfold pool. by rewrite !Hn.
  - right. exists rq. split; [|apply Hod]. eapply (pool_leaves _ _ d); eauto; [apply Hod | | apply Hod].
    by rewrite (od_waiting _ _ _ _ Hod).
Qed.

Lemma core_good h s s' :
  dl_inv s -> same_core s s' -> dl_tags s' -> (counting h = true -> dl_counted s -> dl_counted s') ->
  (spec_step h s s' <-> pool s' = pool s /\ dispatch_list s' = dispatch_list s) -> good_step h s s'.
Proof.
  intros Hi Hc Ht Hct Hsp. split; auto.
  - by eapply inv_same_core.
  - apply Hsp. destruct Hc as [_ E1 E2 _]. unfold pool, waiting. by rewrite E2.
  - intros _. unfold patience, batch_rest, share. rewrite (sc_dd _ _ Hc). lia.
Qed.

Lemma merge_good bio_dir b s : dl_inv s -> dl_tags s ->
  exists s', run_handler (Merge bio_dir b) s = Ok (tt, s') /\ good_step (Merge bio_dir b) s s'.
Proof.
  intros Hi Ht. destruct (merge_run bio_dir b s Hi) as (ty & o & Em & _).
  exists s. split; [simpl; unfold bind; by rewrite Em |]. by apply core_good.
Qed.

Lemma causes_dirty_good c ino s : dl_inv s -> dl_tags s -> callable (CausesDirty c ino) s ->
  exists s', deadline_causes_dirty c ino s = Ok (tt, s') /\ good_step (CausesDirty c ino) s s'.
Proof.
  intros Hi Ht ([cl Hcl] & [v Hv]). unfold deadline_causes_dirty, in_kern, zoom, bind, read_causes.
  rewrite Hcl. destruct s as [k rs ins disp u wb x]. simpl in *.
  destruct (cl_inode cl) as [i|] eqn:Ei.
  { eexists. split; [reflexivity |]. by apply core_good. }
  unfold write_causes, modify, add_dirty, bind, get_inode, modify. simpl. rewrite Hv.
  eexists. split; [reflexivity |]. apply core_good; auto; [done | |].
  - destruct Ht as [T1 T2]. split; simpl in *.
    + intros rq r b l Hr Hb Hl. destruct (T1 rq r b l Hr Hb Hl) as [Hn Hit]. split; [done |].
      intros i Hlt. destruct (Hit i Hlt) as (q & Hq & Hs). exists q. split; [done |].
      by apply lookup_alter_is_Some.
    + intros q c0 i0. rewrite lookup_alter. case_decide as Hq.
      * rewrite Hcl. simpl. intros [= <-]. simpl. intros [= <-]. rewrite lookup_insert_eq. eauto.
      * intros H1 H2. destruct (decide (i0 = ino)) as [->|]; [rewrite lookup_insert_eq; eauto |].
        rewrite lookup_insert_ne by done. eauto.
  - unfold dl_counted. cbn. intros _ Hct. rewrite (alter_as_insert _ _ _ _ Hcl). by eapply counted_add.
Qed.

Lemma causes_free_good c s : dl_inv s -> dl_tags s -> callable (CausesFree c) s ->
  exists s', run_handler (CausesFree c) s = Ok (tt, s') /\ good_step (CausesFree c) s s'.
Proof.
  intros Hi Ht ([cl Hcl] & Hdel). simpl.
  unfold deadline_causes_free, in_kern, zoom, bind, read_causes, modify. rewrite Hcl.
  destruct s as [k rs ins disp u wb x]. simpl in *. destruct (cl_inode cl) as [ino|] eqn:Ei.
  - match goal with |- context [sub_dirty ino 1 ?s0] =>
      destruct (sub_dirty_run ino 1 s0) as (v & Hv & Es); [eapply Ht; eauto | rewrite Es] end.
    simpl. eexists. split; [reflexivity |]. apply core_good; auto; [done | by apply tags_inode |].
    unfold dl_counted. cbn. intros _ Hct. eapply counted_sub; [exact Hct | exact Hcl | exact Ei | exact Hv |].
    by left.
  - eexists. split; [reflexivity |]. apply core_good; auto; [done |].
    unfold dl_counted. cbn. intros _ Hct. by eapply counted_delete.
Qed.

Lemma set_expire_wf key val p h : accts_wf h -> accts_wf (h <| a_heap ::= alter (set_expire key val) p |>).
Proof.
  assert (Hid : forall a, account_id (set_expire key val a) = account_id a).
  { intros a. unfold set_expire. by destruct (String.eqb key "read_expire"), (String.eqb key "fsync_expire"). }
  assert (Hb : forall a, sim_batch (set_expire key val a) = sim_batch a).
  { intros a. unfold set_expire. by destruct (String.eqb key "read_expire"), (String.eqb key "fsync_expire"). }
  intros [Ht Hn Hi Hbs].
  assert (Eid : forall q, id_of (h <| a_heap ::= alter (set_expire key val) p |>) q = id_of h q).
  { intros q. unfold id_of. simpl. rewrite list_lookup_alter. case_decide as Hq; [subst |done].
    destruct (a_heap h !! q); simpl; auto. }
  split; simpl.
  - destruct Ht as [Hl Hf]. split; [done |]. intros i c n Hc Hin. rewrite Eid. eauto.
  - by rewrite length_alter.
  - assert (Ef : account_id <$> alter (set_expire key val) p (a_heap h) = account_id <$> a_heap h); [|by rewrite Ef].
    apply list_eq. intros i. rewrite !list_lookup_fmap, list_lookup_alter.
    case_decide as Hq; [subst |done]. destruct (a_heap h !! i); simpl; [by rewrite Hid | done].
  - rewrite list.Forall_forall in *. intros a (i & Hi')%list_elem_of_lookup.
    rewrite list_lookup_alter in Hi'. case_decide as Hq; [subst | by eapply Hbs, list_elem_of_lookup_2].
    destruct (a_heap h !! i) as [a0|] eqn:Ea; simplify_eq/=. rewrite Hb. by eapply Hbs, list_elem_of_lookup_2.
Qed.

(** A handler that leaves the queues alone and changes other data. *)
Lemma data_good h s k ins x :
  dl_inv s -> dl_tags (s <| kern := k |> <| inodes := ins |>) ->
  (dl_counted s -> counted (magic x) (k_causes k) ins) ->
  sort_list x = sort_list (dd s) -> fifo_list x = fifo_list (dd s) -> next_rq x = next_rq (dd s) ->
  batching x = batching (dd s) -> starved x = starved (dd s) -> accts_wf (dd_accts x) ->
  (patient h = true -> fifo_batch x = fifo_batch (dd s) /\ writes_starved x = writes_starved (dd s)) ->
  let s' := s <| kern := k |> <| inodes := ins |> <| dd := x |> in
  (pool s' = pool s /\ dispatch_list s' = dispatch_list s -> spec_step h s s') -> good_step h s s'.
Proof.
  intros [H1 H2 H3 H4 H5 H6 H7 H8 H9] Ht Hc E1 E2 E3 E4 E5 Ha Hp s' Hs. split; auto.
  - unfold waiting, in_order in *. split; unfold waiting, in_order; simpl; rewrite ?E1, ?E2, ?E3, ?E4, ?E5; auto.
  - apply Hs. unfold pool, waiting. simpl. by rewrite E2.
  - intros [E6 E7]%Hp. unfold patience, batch_rest, share. simpl. rewrite E3, E4, E5, E6, E7. lia.
Qed.

Ltac data_step :=
  match goal with |- good_step ?h ?s ?s' =>
    let g := constr:(data_good h s (kern s') (inodes s') (dd s')) in
    refine (g _ _ _ _ _ _ _ _ _ _ _)
  end.

Lemma kv_set_good id key val s : dl_inv s -> dl_tags s ->
  exists s', deadline_kv_set_callback id key val s = Ok (tt, s') /\ good_step (KvSet id key val) s s'.
Proof.
  intros Hi Ht. destruct (get_acct_run id s (di_accts _ Hi)) as (o & h & w & Eg & Hh & _).
  unfold deadline_kv_set_callback, bind. rewrite Eg. destruct s as [k rs ins disp u wb x].
  destruct o as [p|]; eexists; (split; [reflexivity |]); data_step; auto; first [by destruct Ht; split | by apply set_expire_wf].
Qed.

Lemma setting_good h f s : dl_inv s -> dl_tags s ->
  let x := f (dd s) in
  magic x = magic (dd s) -> sort_list x = sort_list (dd s) -> fifo_list x = fifo_list (dd s) ->
  next_rq x = next_rq (dd s) -> batching x = batching (dd s) -> starved x = starved (dd s) ->
  dd_accts x = dd_accts (dd s) ->
  (patient h = true -> fifo_batch x = fifo_batch (dd s) /\ writes_starved x = writes_starved (dd s)) ->
  (forall s', pool s' = pool s /\ dispatch_list s' = dispatch_list s -> spec_step h s s') ->
  good_step h s (s <| dd ::= f |>).
Proof.
  intros Hi Ht x Em E1 E2 E3 E4 E5 E6 Hp Hs. destruct s as [k rs ins disp u wb y]. simpl in *.
  apply (data_good h (DL k rs ins disp u wb y) k ins x); auto.
  - unfold dl_counted. simpl. by rewrite Em.
  - rewrite E6. apply Hi.
Qed.

Lemma fsync_return_good desc s : dl_inv s -> dl_tags s ->
  exists s', run_handler (FsyncReturn desc) s = Ok (tt, s') /\ good_step (FsyncReturn desc) s s'.
Proof.
  intros Hi Ht. simpl.
  assert (Er : exists o, deadline_fsync_return desc s = Ok (o, s <| kern ::= fun k => k <| k_world ::= clock_step |> |>)).
  { unfold deadline_fsync_return, in_clock, in_kern, in_world, zoom, do_gettimeofday, getnstimeofday, bind, gets, ret.
    simpl. destruct (_ || _); eauto. }
  destruct Er as [o Er]. unfold bind. rewrite Er. eexists. split; [reflexivity |]. apply core_good; auto; first [done | by destruct Ht; split].
Qed.

Lemma fsync_enter_good cur file ino datasync uniq s : dl_inv s -> dl_tags s -> is_Some (inodes s !! ino) ->
  exists s', run_handler (FsyncEnter cur file ino datasync uniq) s = Ok (tt, s') /\
    good_step (FsyncEnter cur file ino datasync uniq) s s'.
Proof.
  intros Hi Ht [v Hv]. destruct (fsync_enter_run cur file ino datasync uniq s v (di_accts _ Hi) Hv) as (r & h & w & Er & Hh & _).
  eexists. split; [simpl; by rewrite (bind_ok _ _ _ _ _ Er) |]. destruct s as [k rs ins disp u wb x]. data_step; auto; by destruct Ht; split.
Qed.

Lemma fsync_issue_good ino s : dl_inv s -> dl_tags s ->
  exists s', run_handler (FsyncIssue ino) s = Ok (tt, s') /\ good_step (FsyncIssue ino) s s'.
Proof.
  intros Hi Ht. simpl. unfold fsync_issue, issue_async_inode_wb, in_clock, in_kern, in_world, zoom, bind, kmalloc, modify, ret. simpl.
  destruct (w_alloc _ _); simpl; (eexists; split; [reflexivity |]); apply core_good; auto; first [done | by destruct Ht; split].
Qed.

Lemma fsync_wake_good ino n s : dl_inv s -> dl_tags s -> is_Some (inodes s !! ino) ->
  exists s', run_handler (FsyncWake ino n) s = Ok (tt, s') /\ good_step (FsyncWake ino n) s s'.
Proof.
  intros Hi Ht [v Hv]. simpl. unfold fsync_wake, bind, get_inode at 1. rewrite Hv. destruct (n =? _).
  - destruct (sub_dirty_run ino FSYNC_WB_PAGES s) as (v1 & _ & ->); [by eexists |]. simpl.
    unfold get_inode. simpl. rewrite lookup_insert_eq. eexists. split; [reflexivity |].
    apply core_good; auto; [done | by apply tags_inode | done].
  - unfold ret, get_inode. rewrite Hv. exists s. split; [done |]. by apply core_good.
Qed.

Lemma fsync_stamp_good desc s : dl_inv s -> dl_tags s ->
  exists s', run_handler (FsyncStamp desc) s = Ok (tt, s') /\ good_step (FsyncStamp desc) s s'.
Proof.
  intros Hi Ht. eexists. split; [reflexivity |]. apply core_good; auto; first [done | by destruct Ht; split].
Qed.

(** Every handler, called as promised, runs to its end and does what it should. *)
Lemma dl_handler_run h s : dl_inv s -> dl_tags s -> callable h s ->
  exists s', run_handler h s = Ok (tt, s') /\ good_step h s s'.
Proof.
  intros Hi Ht Hc. destruct h as [rq| |bd b|req pos sec|req next|c ino|c|cur file ino ds uniq|ino|ino n|desc|desc|id key val| |v|v|v|v|v].
  1: by apply add_good.
  1: by apply dispatch_good.
  1: by apply merge_good.
  3: by apply causes_dirty_good.
  3: by apply causes_free_good.
  3: by apply fsync_enter_good.
  3: by apply fsync_issue_good.
  3: by apply fsync_wake_good.
  3: by apply fsync_stamp_good.
  3: by apply fsync_return_good.
  3: by apply kv_set_good.
  - destruct Hc as [d Hd]. destruct (front_merged_inv req d pos sec s Hi Ht Hd) as (s' & Es & Hi' & Ht' & Ef & Ed & Ep).
    destruct (front_merged_run req d pos sec s Hi Hd) as (t & _ & _ & Es2). simpl. exists s'. split; [done |].
    split; auto; [|rewrite Es in Es2; by injection Es2 as -> | intros _; lia].
    split; [|done]. unfold pool, waiting. by rewrite Ef.
  - destruct Hc as (Hne & d & Hr & Hn).
    destruct (merged_requests_inv s d req next Hi Ht Hr Hn Hne) as (s' & Es & Hi' & Ht' & Hw & Ho & Ed & Hp).
    destruct (di_rq _ Hi _ _ Hr) as (r & Er & _), (di_rq _ Hi _ _ Hn) as (n & En & _).
    destruct (merged_requests_run s d req next r n Hi Hr Hn Hne Er En) as (t & _ & _ & Es2).
    simpl. exists s'. split; [done |]. split; auto; [split; [by eapply pool_leaves | done] |].
    rewrite Es in Es2. injection Es2 as ->. intros _ H. by destruct (time_before _ _).
  - eexists. split; [reflexivity |]. by apply setting_good.
  - eexists. split; [reflexivity |]. by apply setting_good.
  - eexists. split; [reflexivity |]. by apply setting_good.
  - eexists. split; [reflexivity |]. by apply setting_good.
  - eexists. split; [reflexivity |]. by apply setting_good.
  - eexists. split; [reflexivity |]. by apply setting_good.
Qed.

(** ** Runs *)

Lemma kernel_step_inv s s' : dl_inv s -> kernel_step s s' -> dl_inv s' /\ dl_tags s'.
Proof.
  intros [H1 H2 H3 H4 H5 H6 H7 H8 H9] [Ed Hr [Hn Hd] Ht]. split; [|done].
  unfold waiting, in_order in *. split; unfold waiting, in_order; rewrite ?Ed; auto.
  - rewrite app_assoc in *. apply list.NoDup_app in H2 as (H2 & _ & _). apply list.NoDup_app.
    split_and!; auto. intros x [Hx|Hx]%elem_of_app; [by apply (Hd READ) | by apply (Hd WRITE)].
  - intros d rq Hq. destruct (H3 d rq Hq) as (r & Er & Edir). destruct (Hr d rq r Hq Er) as (r' & Er' & E1 & _).
    exists r'. split; [done | congruence].
  - intros d. eapply sorted_ext; [|apply H4]. intros x Hx. rewrite H1 in Hx.
    destruct (H3 d x Hx) as (r & Er & _). destruct (Hr d x r Hx Er) as (r' & Er' & _ & E2).
    unfold posof. by rewrite Er, Er'.
Qed.

Lemma init_inv s q eq_ok thread_ok random disks d disks' w' :
  dl_tags s -> NoDup (dispatch_list s) ->
  deadline_init_queue q eq_ok thread_ok random disks (k_world (kern s)) = Ok ((0, Some d, disks'), w') ->
  let s' := s <| kern ::= fun k => k <| k_world := w' |> |> <| dd := d |> in dl_inv s' /\ dl_tags s'.
Proof.
  intros Ht Hn Hinit s'. split; [|by destruct Ht; split]. revert Hinit.
  unfold deadline_init_queue, bind, kmalloc, ret. destruct eq_ok; [|done]. simpl.
  destruct (w_alloc _ _); [|done]. simpl. destruct thread_ok; [|done]. simpl. intros [= <- _ _].
  split; simpl; auto; try lia.
  - by intros [].
  - by intros [] ? ?%elem_of_nil.
  - intros []; constructor.
  - by intros [].
  - apply accts_wf_init.
Qed.

Lemma dl_reachable_inv s : reachable s -> dl_inv s /\ dl_tags s.
Proof.
  induction 1 as [s q e t r ds d ds' w' Ht Hn Hin|s s' _ [Hi Ht] Hk|h s s' _ [Hi Ht] Hc Hr].
  - by eapply init_inv.
  - by eapply kernel_step_inv.
  - destruct (dl_handler_run h s Hi Ht Hc) as (s2 & E2 & [Hi2 Ht2 _ _ _]). rewrite Hr in E2. by simplify_eq.
Qed.

(** In no run of the scheduler does a handler fault: no BUG_ON fires, no NULL
    pointer is followed, no array is left, whatever the order of the calls, the
    times, the settings, and the memory available; and the invariant holds all the
    time. *)
Theorem deadline_no_fault h s :
  reachable s -> callable h s -> exists s', run_handler h s = Ok (tt, s') /\ dl_inv s'.
Proof.
  intros [Hi Ht]%dl_reachable_inv Hc. destruct (dl_handler_run h s Hi Ht Hc) as (s' & Es & Hg).
  exists s'. split; [done | apply Hg].
Qed.

(** C8: the scheduler refines a pool of requests.  Whatever is called, a request
    enters the pool when it is added and leaves it when it is dispatched or merged
    away, in each case exactly once; dispatching gives out one request as long as
    the pool is not empty, at the end of the dispatch list; nothing else changes the
    pool or the list. *)
Theorem deadline_refines_pool h s s' :
  reachable s -> callable h s -> run_handler h s = Ok (tt, s') -> spec_step h s s'.
Proof.
  intros [Hi Ht]%dl_reachable_inv Hc Er. destruct (dl_handler_run h s Hi Ht Hc) as (s2 & E2 & Hg).
  rewrite Er in E2. simplify_eq. apply Hg.
Qed.

(** ** Writes are not starved *)

(** [n] reads are dispatched while a write waits, with anything in between but a
    write that is dispatched or a setting that is changed. *)
Inductive overtaking : nat -> dl -> dl -> Prop :=
  | ot_done s : overtaking 0 s s
  | ot_kernel n s s' s'' : kernel_step s s' -> overtaking n s' s'' -> overtaking n s s''
  | ot_handler n h s s' s'' : patient h = true -> callable h s -> run_handler h s = Ok (tt, s') ->
      overtaking n s' s'' -> overtaking n s s''
  | ot_read n rq s s' s'' : waiting s WRITE <> [] -> deadline_dispatch_requests s = Ok (1, s') ->
      dispatch_list s' = dispatch_list s ++ [rq] -> rq ∈ waiting s READ ->
      overtaking n s' s'' -> overtaking (S n) s s''.

Lemma overtaking_patience n s s' :
  dl_inv s -> dl_tags s -> overtaking n s s' -> Z.of_nat n <= patience s.
Proof.
  intros Hi Ht Ho. induction Ho as [s|n s s' s'' Hk _ IH|n h s s' s'' Hp Hc Hr _ IH|n rq s s' s'' Hw Es Hd Hrq _ IH].
  - apply (patience_bound s Hi).
  - destruct (kernel_step_inv s s' Hi Hk) as [Hi' Ht']. specialize (IH Hi' Ht').
    revert IH. unfold patience, batch_rest, share. by rewrite (ks_dd _ _ Hk).
  - destruct (dl_handler_run h s Hi Ht Hc) as (s2 & E2 & Hg). rewrite Hr in E2. simplify_eq.
    specialize (IH (gs_inv _ _ _ Hg) (gs_tags _ _ _ Hg)). pose proof (gs_patience _ _ _ Hg Hp). lia.
  - destruct (dispatch_requests_run s Hi Ht) as (rv & s2 & E2 & Hi' & Ht' & _ & Hrv). rewrite Es in E2. simplify_eq.
    destruct Hrv as [[? _]|(_ & rq' & d & Hod & Hk)]; [done |].
    rewrite (od_dispatch _ _ _ _ Hod) in Hd. apply app_inv_head in Hd as [= ->].
    pose proof (inv_one_dir _ _ _ _ Hi Hrq (od_waits _ _ _ _ Hod)) as <-.
    pose proof (read_costs_patience s s2 rq Hi Hw Hod Hk). specialize (IH Hi' Ht'). lia.
Qed.

(** C20: reads do not starve writes.  However reads keep coming in, at most
    [writes_starved + 1] batches of them, of [fifo_batch] requests each, are
    dispatched while a write waits. *)
Theorem deadline_writes_not_starved n s s' :
  reachable s -> overtaking n s s' ->
  Z.of_nat n <= (u32 (writes_starved (dd s)) + 1) * Z.max 1 (u32 (fifo_batch (dd s))).
Proof.
  intros [Hi Ht]%dl_reachable_inv Ho. pose proof (overtaking_patience n s s' Hi Ht Ho).
  pose proof (patience_bound s Hi) as [_ Hb]. unfold share in Hb. lia.
Qed.

(** Dirty pages are counted exactly.  If each inode with the mark of the
    scheduler counts the cause lists that point to it, it does so after each call:
    marking a page dirty adds one to its inode, and dispatching a write or freeing a
    cause list takes off one for each cause list that had been counted. *)
Theorem deadline_counts_dirty_pages h s s' :
  reachable s -> callable h s -> counting h = true -> dl_counted s -> run_handler h s = Ok (tt, s') -> dl_counted s'.
Proof.
  intros [Hi Ht]%dl_reachable_inv Hc Hn Hct Er. destruct (dl_handler_run h s Hi Ht Hc) as (s2 & E2 & Hg).
  rewrite Er in E2. simplify_eq. by apply Hg.
Qed.

End Runs.
