(* ===== verification/DeadlineExamples.v ===== *)
(** * Split-deadline scheduler: a small machine

    Two reads and a write on one disk, one tagged page, in a kernel that computes.
    The theorems on the scheduler are applied to its states. *)

From S2P Require Import Prelude CInt Kernel HashTable CauseTags IoctlHelper RbTree Jiffies.
From S2P Require Import SplitAccount SplitSched Deadline DeadlineDirty DeadlineInv DeadlineOps DeadlineDispatch.
From S2P Require Import DeadlineHandlers DeadlineMerge DeadlineRuns.

Definition ex_world : world :=
  World (fun n => Timespec (Z.of_nat n) 0) (fun n => 1000 * Z.of_nat n) (fun _ => true) (fun _ => 0) 0 0.

(** The page of the write is tagged with the cause list 1. *)
Definition ex_causes : cause_list := CauseList 1 SPLIT_DATA [3] 1 None 0 4096 None 0.
Definition ex_kernel : kernel := Kern ex_world {[ 1%positive := ex_causes ]} 2%positive 0 0 0 0 [].
Definition ex_cll : cause_list_list := CauseListList (Some 1%positive) 4096 1 1 [Some 1%positive].

Definition ex_read1 : request := Rq READ 800 8 0 [].
Definition ex_read2 : request := Rq READ 400 8 0 [].
Definition ex_write : request := Rq WRITE 100 8 0 [Bio 100 4096 (Some ex_cll)].
Definition ex_rqs : gmap ptr request :=
  <[1%positive := ex_read1]> (<[2%positive := ex_read2]> (<[3%positive := ex_write]> ∅)).

Definition ex_dd : deadline_data :=
  match deadline_init_queue 1 true true 66 [] ex_world with
  | Ok ((_, Some d, _), _) => d
  | _ => DData (AcctHash [] []) 0 (PerDir 0 0) (PerDir 0 0) (PerDir Leaf Leaf) (PerDir [] [])
           (PerDir None None) 0 0 0 (PerDir 0 0) 0 0 0
  end.
Definition ex_before : dl := DL ex_kernel ex_rqs {[ 7%positive := 0 ]} [] 5 [] ex_dd.
Definition s0 : dl := ex_before <| kern ::= fun k => k <| k_world := alloc_step (alloc_step ex_world) |> |>
                                <| dd := ex_dd |>.

Definition step (h : handler) (s : dl) : dl :=
  match run_handler h s with Ok (_, s') => s' | Fault _ => s end.

Definition s1 : dl := step (AddRequest 1) s0.
Definition s2 : dl := step (AddRequest 2) s1.
Definition s3 : dl := step (CausesDirty 1 7) s2.
Definition s4 : dl := step (AddRequest 3) s3.
Definition s5 : dl := step Dispatch s4.
Definition s6 : dl := step (KvSet 3 "fsync_expire" 6000) s5.

(** The states, read off. *)
Example ex_states :
  waiting s4 READ = [1; 2]%positive /\ in_order s4 READ = [2; 1]%positive /\
  waiting s4 WRITE = [3%positive] /\ dispatch_list s5 = [1%positive] /\
  (inode_get_dirty_pages <$> inodes s4 !! 7%positive) = Some 1 /\
  waiting (step Dispatch (step Dispatch s5)) WRITE = [] /\
  (inode_get_dirty_pages <$> inodes (step Dispatch (step Dispatch s5)) !! 7%positive) = Some 0.
Proof. vm_compute. repeat split. Qed.

(** ** They are reachable *)

Lemma ex_tags : dl_tags ex_before.
Proof.
  split.
  - intros rq r b l Hr Hb Hl. simpl in Hr. unfold ex_rqs in Hr.
    repeat (apply lookup_insert_Some in Hr as [[<- <-]|[_ Hr]];
            [simpl in Hb; repeat (apply elem_of_cons in Hb as [->|Hb]); try by apply elem_of_nil in Hb |]).
    + simpl in Hl. injection Hl as <-. split; [simpl; lia |]. intros i Hi. simpl in Hi.
      assert (i = 0) as -> by lia. exists 1%positive. split; [done |]. simpl. rewrite lookup_singleton_eq. eauto.
    + by rewrite lookup_empty in Hr.
  - intros p c ino Hp Hc. simpl in Hp. apply lookup_singleton_Some in Hp as [_ <-]. done.
Qed.

Lemma d0_reachable : reachable s0.
Proof.
  apply (reach_init ex_before 1 true true 66 [] ex_dd [1%positive] (alloc_step (alloc_step ex_world))).
  - exact ex_tags.
  - constructor.
  - vm_compute. reflexivity.
Qed.

Lemma step_run h s : reachable s -> callable h s -> run_handler h s = Ok (tt, step h s).
Proof.
  intros [Hi Ht]%dl_reachable_inv Hc. destruct (dl_handler_run h s Hi Ht Hc) as (s' & Es & _).
  unfold step. by rewrite Es.
Qed.

Lemma step_reachable h s : reachable s -> callable h s -> reachable (step h s).
Proof. intros Hs Hc. eapply reach_handler; [exact Hs | exact Hc | by apply step_run]. Qed.

(** A request may be added: decided by computation. *)
Definition addable (rq : ptr) (s : dl) : bool :=
  bool_decide (is_Some (rqs s !! rq)) && bool_decide (rq ∉ waiting s READ) &&
  bool_decide (rq ∉ waiting s WRITE) && bool_decide (rq ∉ dispatch_list s).
Lemma addable_callable rq s : addable rq s = true -> callable (AddRequest rq) s.
Proof.
  unfold addable. rewrite !andb_true_iff, !bool_decide_eq_true. intros [[[H1 H2] H3] H4].
  simpl. split_and!; auto. by intros [].
Qed.

Lemma d1_reachable : reachable s1.
Proof. apply step_reachable; [exact d0_reachable | apply addable_callable; vm_compute; reflexivity]. Qed.
Lemma d2_reachable : reachable s2.
Proof. apply step_reachable; [exact d1_reachable | apply addable_callable; vm_compute; reflexivity]. Qed.
Lemma s2_dirty : callable (CausesDirty 1 7) s2.
Proof. split; apply (bool_decide_unpack _); vm_compute; exact I. Qed.
Lemma d3_reachable : reachable s3.
Proof. apply step_reachable; [exact d2_reachable | exact s2_dirty]. Qed.
Lemma d4_reachable : reachable s4.
Proof. apply step_reachable; [exact d3_reachable | apply addable_callable; vm_compute; reflexivity]. Qed.
Lemma d5_reachable : reachable s5.
Proof. apply step_reachable; [exact d4_reachable | exact I]. Qed.
Lemma d6_reachable : reachable s6.
Proof. apply step_reachable; [exact d5_reachable | exact I]. Qed.

(** ** Witnesses *)

Lemma deadline_no_fault_witness : exists s', run_handler Dispatch s4 = Ok (tt, s') /\ dl_inv s'.
Proof. apply (deadline_no_fault Dispatch s4 d4_reachable). exact I. Defined.

Lemma deadline_refines_pool_witness : spec_step Dispatch s4 s5.
Proof.
  apply (deadline_refines_pool Dispatch s4 s5 d4_reachable).
  - exact I.
  - vm_compute. reflexivity.
Defined.

Lemma deadline_dispatch_takes_one_witness :
  exists rv s', deadline_dispatch_requests s4 = Ok (rv, s') /\ dl_inv s' /\ rv = 1.
Proof.
  destruct (dl_reachable_inv s4 d4_reachable) as [Hi Ht].
  destruct (deadline_dispatch_takes_one s4 Hi Ht) as (rv & s' & Es & Hi' & _ & H1).
  exists rv, s'. split; [exact Es |]. split; [exact Hi' |]. apply H1. clear Hi Ht Hi' H1.
  revert Es. vm_compute. intros [= <- _]. congruence.
Defined.

(** The head of the FIFO of reads has expired. *)
Lemma deadline_expired_first_witness : exists rq, dispatch_list s5 = dispatch_list s4 ++ [rq] /\ rq = 1%positive.
Proof.
  exists 1%positive. split; [vm_compute; reflexivity |].
  destruct (dl_reachable_inv s4 d4_reachable) as [Hi Ht].
  apply (deadline_expired_first s4 s5 READ 1%positive 1%positive Hi Ht).
  - vm_compute. reflexivity.
  - vm_compute. reflexivity.
  - vm_compute. reflexivity.
  - apply (bool_decide_unpack _). vm_compute. exact I.
  - vm_compute. reflexivity.
  - vm_compute. reflexivity.
Defined.

Lemma deadline_batch_sweeps_witness :
  exists d, 1%positive ∈ waiting s4 d /\ sel (other d) (next_rq (dd s5)) = None.
Proof.
  destruct (dl_reachable_inv s4 d4_reachable) as [Hi Ht].
  destruct (deadline_batch_sweeps s4 s5 1%positive Hi Ht) as (d & H1 & _ & H2 & _).
  - vm_compute. reflexivity.
  - vm_compute. reflexivity.
  - exists d. exact (conj H1 H2).
Defined.

(** A read overtakes the write that waits. *)
Lemma s4_overtaking : overtaking 1 s4 s5.
Proof.
  eapply (ot_read 0 1%positive s4 s5 s5).
  - vm_compute. congruence.
  - vm_compute. reflexivity.
  - vm_compute. reflexivity.
  - apply (bool_decide_unpack _). vm_compute. exact I.
  - apply ot_done.
Qed.

Lemma deadline_writes_not_starved_witness :
  Z.of_nat 1 <= (u32 (writes_starved (dd s4)) + 1) * Z.max 1 (u32 (fifo_batch (dd s4))).
Proof. apply (deadline_writes_not_starved 1 s4 s5 d4_reachable s4_overtaking). Defined.

Lemma deadline_add_request_queues_witness :
  exists s', deadline_add_request 2 s1 = Ok (tt, s') /\ waiting s' READ = [1; 2]%positive.
Proof.
  destruct (dl_reachable_inv s1 d1_reachable) as [Hi Ht].
  assert (Hc : callable (AddRequest 2) s1) by (apply addable_callable; vm_compute; reflexivity).
  destruct Hc as (_ & Hw & Hd).
  destruct (deadline_add_request_queues 2 ex_read2 s1 Hi Ht eq_refl Hw Hd) as (s' & Es & _ & _ & Hq & _).
  exists s'. split; [exact Es | exact Hq].
Defined.

Lemma deadline_merge_finds_neighbour_witness :
  exists ty o, deadline_merge READ (Bio 392 4096 None) s2 = Ok ((ty, o), s2) /\
    match o with
    | Some rq => ty = ELEVATOR_FRONT_MERGE /\ rq ∈ waiting s2 READ /\
        posof (rqs s2) rq = bio_end (Bio 392 4096 None)
    | None => ty = ELEVATOR_NO_MERGE
    end.
Proof.
  destruct (dl_reachable_inv s2 d2_reachable) as [Hi _].
  exact (deadline_merge_finds_neighbour READ (Bio 392 4096 None) s2 Hi).
Defined.

(** The younger read takes the time and the place of the older one. *)
Lemma deadline_merged_requests_expiry_witness :
  exists s', deadline_merged_requests 2 1 s2 = Ok (tt, s') /\ timeof (rqs s') 2 = timeof (rqs s2) 1.
Proof.
  destruct (dl_reachable_inv s2 d2_reachable) as [Hi Ht].
  destruct (deadline_merged_requests_expiry s2 READ 2 1 Hi Ht) as (s' & Es & _ & _ & _ & Hm & _).
  - apply (bool_decide_unpack _). vm_compute. exact I.
  - apply (bool_decide_unpack _). vm_compute. exact I.
  - congruence.
  - unfold fifo_ordered. vm_compute waiting.
    repeat (apply SSorted_cons || apply SSorted_nil || constructor); unfold key_le; vm_compute; congruence.
  - intros x Hx. apply (elem_of_cons _ x 1%positive) in Hx as [->|Hx]; [vm_compute; split; congruence |].
    apply list_elem_of_singleton in Hx as ->. vm_compute. split; congruence.
  - exists s'. split; [exact Es |]. rewrite Hm. vm_compute. reflexivity.
Defined.

(** The first dirty page of the inode. *)
Lemma s2_counted : dl_counted s2.
Proof.
  split; [vm_compute; split; congruence | vm_compute; reflexivity |].
  intros ino v Hv. assert (Hi : inodes s2 = {[ 7%positive := 0 ]}) by (vm_compute; reflexivity).
  rewrite Hi in Hv. apply lookup_singleton_Some in Hv as [<- <-]. vm_compute. reflexivity.
Qed.

Lemma deadline_counts_dirty_pages_witness : dl_counted s3.
Proof.
  apply (deadline_counts_dirty_pages (CausesDirty 1 7) s2 s3 d2_reachable s2_dirty eq_refl s2_counted).
  vm_compute. reflexivity.
Defined.

(** 250 dirty pages of the mark 66, and a file nobody writes to meanwhile. *)
Definition s7 : dl := s6 <| inodes := {[ 7%positive := 250 * 256 + 66 ]} |>.

Lemma s7_calm : calm (fun _ s => s) 7 (magic (dd s7)).
Proof. intros n s v Hm Hv Ht Hc. split; [exact Hm |]. exists v. split_and!; auto; lia. Qed.

