(* ===== verification/DeadlineHost.v ===== *)
(** * The split-deadline scheduler under the file systems

    The scheduler keeps its promises to the code that dirties pages and frees cause lists ([HostOk],
    [FsHostOk]).  So the dirty pages of an inode, which it counts in its hooks, are the
    cause lists of that inode to which some buffer, page or bio still points, in any run of the
    operations of Buffers.v. *)

From S2P Require Import Prelude CInt Kernel HashTable CauseTags CauseRefs IoctlHelper RbTree Jiffies.
From S2P Require Import SplitAccount SplitSched Deadline DeadlineDirty DeadlineInv.
From S2P Require Import Buffers BuffersInv BuffersOps BuffersRuns.

(** The number of lists that point to an inode depends on nothing else. *)
Lemma dirty_count_ext cs cs' ino :
  (forall p, (exists c, cs !! p = Some c /\ cl_inode c = Some ino) <-> (exists c, cs' !! p = Some c /\ cl_inode c = Some ino)) ->
  dirty_count cs ino = dirty_count cs' ino.
Proof.
  intros Hp. unfold dirty_count. rewrite <- !size_dom. do 2 f_equal. apply set_eq. intros p.
  rewrite !elem_of_dom. split; intros [c [Hc Hi]%map_lookup_filter_Some]; destruct (Hp p) as [H1 H2].
  - destruct H1 as (c' & Hc' & Hi'); [by exists c |]. exists c'. by apply map_lookup_filter_Some.
  - destruct H2 as (c' & Hc' & Hi'); [by exists c |]. exists c'. by apply map_lookup_filter_Some.
Qed.

Lemma counted_ext m cs cs' ins :
  counted m cs ins -> Z.of_nat (size cs') < 0x10000000000 ->
  (forall ino, dirty_count cs ino = dirty_count cs' ino) -> counted m cs' ins.
Proof. intros [H1 H2 H3] Hs Hd. split; auto. intros ino v Hv. rewrite <- Hd. by apply H3. Qed.

Section DlHost.
(** [wb]: the loop of [fsync] may run, which takes pages off the count that are dirty. *)
Context (q0 : ptr) (wb : bool).

(** The scheduler runs on the queue [q0]; the disks of other queues have none with hooks.
    [sched_uniq] of [q0] is that of the scheduler's state. *)
Definition dl_host : Host dl := {|
  ker := kern;
  set_ker k s := s <| kern := k |>;
  queue_sched_uniq q s := if decide (q = q0) then q_sched_uniq s else 0;
  elevator_causes_free_fn q s := if decide (q = q0) then Some deadline_causes_free else None;
|}.
#[local] Existing Instance dl_host.

(** The inodes it knows are files on its disk. *)
Definition dl_fs : FsHost dl := {|
  inode_queue inode s := match inodes s !! inode with Some _ => Some q0 | None => None end;
  elevator_causes_dirty_fn q s :=
    if decide (q = q0) then Some (fun causes _ inode _ => deadline_causes_dirty causes inode) else None;
|}.
#[local] Existing Instance dl_fs.

(** At most so many cause lists were ever allocated that a count of them fits. *)
Definition MANY : Z := 0x10000000000.

Record dl_host_inv (s : dl) : Prop := {
  dh_queue : forall p c, k_causes (kern s) !! p = Some c -> callback_q c = None \/ callback_q c = Some q0;
  dh_inode : forall p c ino, k_causes (kern s) !! p = Some c -> cl_inode c = Some ino ->
    is_Some (inodes s !! ino) /\ callback_q c = Some q0 /\ cl_sched_uniq c = q_sched_uniq s;
  dh_lists : lists (kern s) <= allocs (kern s);
  dh_counted : wb = false -> 0 <= magic (dd s) < 128 -> allocs (kern s) < MANY -> dl_counted s;
}.

Lemma dl_inv_evolves k s : dl_host_inv s -> evolves (kern s) k -> dl_host_inv (s <| kern := k |>).
Proof.
  intros [H1 H2 H3 H4] [Hp Ha Hl]. assert (Hback : forall p c', k_causes k !! p = Some c' ->
    (cl_inode c' = None /\ callback_q c' = None) \/ exists c, k_causes (kern s) !! p = Some c /\
      cl_inode c' = cl_inode c /\ callback_q c' = callback_q c /\ (callback_q c <> None -> cl_sched_uniq c' = cl_sched_uniq c)).
  { intros p c' Hc'. specialize (Hp p). rewrite Hc' in Hp. destruct (k_causes (kern s) !! p) as [c|]; [right; eauto | left; apply Hp]. }
  split; simpl.
  - intros p c' Hc'. destruct (Hback p c' Hc') as [[_ ?]|(c & Hc & _ & E & _)]; [by left |]. rewrite E. eauto.
  - intros p c' ino Hc' Hi. destruct (Hback p c' Hc') as [[? _]|(c & Hc & Ei & Eq & Eu)]; [congruence |].
    rewrite Ei in Hi. destruct (H2 p c ino Hc Hi) as (? & Hq & Hu). rewrite Eq, Eu by (by rewrite Hq). auto.
  - lia.
  - intros Hwb Hm Hlt. assert (Hct : dl_counted s) by (apply H4; [done | done | lia]). eapply counted_ext; [exact Hct | |].
    + simpl. fold (lists k). unfold MANY in *. lia.
    + intros ino. apply dirty_count_ext. intros p. simpl. specialize (Hp p).
      destruct (k_causes (kern s) !! p) as [c|], (k_causes k !! p) as [c'|]; simpl in Hp.
      * destruct Hp as (E & _). split; intros (d & [= <-] & Hd); eexists; (split; [done | congruence]).
      * destruct Hp as [E _]. split; [intros (d & [= <-] & Hd); congruence | by intros (? & ? & _)].
      * destruct Hp as [E _]. split; [by intros (? & ? & _) | intros (d & [= <-] & Hd); congruence].
      * done.
Qed.

(** Without the list [p], which points to no inode. *)
Lemma dl_inv_delete p c s k :
  dl_host_inv s -> k_causes (kern s) !! p = Some c -> cl_inode c = None ->
  k_causes k = delete p (k_causes (kern s)) -> k_world k = k_world (kern s) -> dl_host_inv (s <| kern := k |>).
Proof.
  intros [H1 H2 H3 H4] Hc Hi Ek Ew. assert (Ha : allocs k = allocs (kern s)) by (unfold allocs; by rewrite Ew).
  split; simpl; rewrite ?Ek, ?Ha.
  - intros q d [_ Hd]%lookup_delete_Some. eauto.
  - intros q d ino [_ Hd]%lookup_delete_Some. eauto.
  - unfold lists in *. rewrite Ek, map_size_delete_Some by eauto. lia.
  - intros Hwb Hm Hlt. specialize (H4 Hwb Hm Hlt). unfold dl_counted in *. simpl. rewrite Ek. by eapply counted_delete.
Qed.

(** The list [p] of an inode goes, and its page is taken off. *)
Lemma dl_inv_free p c ino v s k :
  dl_host_inv s -> k_causes (kern s) !! p = Some c -> cl_inode c = Some ino -> inodes s !! ino = Some v ->
  k_causes k = delete p (k_causes (kern s)) -> k_world k = k_world (kern s) ->
  dl_host_inv (s <| inodes ::= <[ino := inode_dec_dirty_pages (magic (dd s)) v 1]> |> <| kern := k |>).
Proof.
  intros [H1 H2 H3 H4] Hc Hi Hv Ek Ew. assert (Ha : allocs k = allocs (kern s)) by (unfold allocs; by rewrite Ew).
  split; simpl; rewrite ?Ek, ?Ha.
  - intros q d [_ Hd]%lookup_delete_Some. eauto.
  - intros q d i [_ Hd]%lookup_delete_Some Hdi. destruct (H2 q d i Hd Hdi) as (Hs & ? & ?). split; [|done].
    rewrite lookup_insert. case_decide; [by eexists | done].
  - unfold lists in *. rewrite Ek, map_size_delete_Some by eauto. lia.
  - intros Hwb Hm Hlt. specialize (H4 Hwb Hm Hlt). unfold dl_counted in *. simpl. rewrite Ek. eapply counted_sub; eauto.
Qed.

#[local] Instance dl_host_ok : HostOk dl.
Proof.
  refine {| host_inv := dl_host_inv |}.
  - done.
  - by intros [].
  - intros k s Hs Hk. by apply dl_inv_evolves.
  - intros s p c Hs Hc. simpl in Hc. assert (Hsame : same_refs (kern s) (kern s)) by done.
    assert (Hnot : cl_inode c = None -> exists s', ret tt s = Ok (tt, s') /\ same_refs (kern s) (kern s') /\
      forall k, k_causes k = delete p (k_causes (kern s')) -> k_world k = k_world (kern s') -> dl_host_inv (s' <| kern := k |>)).
    { intros Hi. exists s. split_and!; auto. intros k Ek Ew. by eapply dl_inv_delete. }
    unfold notify. destruct (callback_q c) as [q|] eqn:Eq.
    2: { apply Hnot. destruct (cl_inode c) eqn:Ei; [|done]. destruct (dh_inode _ Hs p c _ Hc Ei) as (_ & ? & _). congruence. }
    assert (q = q0) as ->. { destruct (dh_queue _ Hs p c Hc); congruence. }
    cbn [queue_sched_uniq elevator_causes_free_fn dl_host]. unfold bind, gets. rewrite !decide_True by done.
    destruct (Z.eqb_spec (q_sched_uniq s) (cl_sched_uniq c)) as [Eu|Eu].
    2: { apply Hnot. destruct (cl_inode c) eqn:Ei; [|done]. destruct (dh_inode _ Hs p c _ Hc Ei) as (_ & _ & ?). congruence. }
    unfold deadline_causes_free, in_kern, zoom, bind, read_causes. rewrite Hc.
    assert (Es : s <| kern := kern s |> = s) by (by destruct s). rewrite Es. destruct (cl_inode c) as [ino|] eqn:Ei; [|by apply Hnot].
    destruct (dh_inode _ Hs p c _ Hc Ei) as (Hin & _). destruct (sub_dirty_run ino 1 s Hin) as (v & Hv & ->).
    eexists. split; [reflexivity |]. split; [done |]. intros k Ek Ew. by eapply dl_inv_free.
Defined.

(** A list is changed and the pages are counted again. *)
Lemma dl_inv_replace p c c' s ins :
  let s' := s <| kern ::= fun k => k <| k_causes ::= <[p := c']> |> |> <| inodes := ins |> in
  dl_host_inv s -> k_causes (kern s) !! p = Some c ->
  (callback_q c' = None \/ callback_q c' = Some q0) ->
  (forall ino, cl_inode c' = Some ino -> is_Some (ins !! ino) /\ callback_q c' = Some q0 /\ cl_sched_uniq c' = q_sched_uniq s) ->
  (forall ino, is_Some (inodes s !! ino) -> is_Some (ins !! ino)) ->
  (dl_counted s -> dl_counted s') -> dl_host_inv s'.
Proof.
  intros s' [H1 H2 H3 H4] Hc Hq Hi Hins Hct. split; simpl.
  - intros x d. rewrite lookup_insert. case_decide; [by intros [= <-] | eauto].
  - intros x d ino. rewrite lookup_insert. case_decide; [intros [= <-]; apply Hi |].
    intros Hd Hdi. destruct (H2 x d ino Hd Hdi) as (? & ? & ?). auto.
  - unfold lists, allocs in *. simpl. by rewrite map_size_insert_Some by eauto.
  - intros Hwb Hm Hlt. apply Hct. apply H4; done.
Qed.

Lemma refs_insert (k : kernel) p c c' :
  k_causes k !! p = Some c -> refcount c' = refcount c -> refcount <$> <[p := c']> (k_causes k) = refcount <$> k_causes k.
Proof.
  intros Hc E. rewrite fmap_insert, E. apply insert_id. by rewrite lookup_fmap, Hc.
Qed.

(** The hook, on a list that is tagged with this scheduler. *)
Lemma dl_dirty_run p c inode s :
  dl_host_inv s -> k_causes (kern s) !! p = Some c -> callback_q c = Some q0 -> cl_sched_uniq c = q_sched_uniq s ->
  is_Some (inodes s !! inode) ->
  exists s', deadline_causes_dirty p inode s = Ok (tt, s') /\ dl_host_inv s' /\ same_refs (kern s) (kern s').
Proof.
  intros Hs Hc Hq Hu [v Hv]. unfold deadline_causes_dirty, in_kern, zoom, bind, read_causes. rewrite Hc.
  assert (Es : s <| kern := kern s |> = s) by (by destruct s). rewrite Es.
  destruct (cl_inode c) as [i|] eqn:Ei; [by exists s |].
  unfold write_causes, modify, add_dirty, bind, get_inode, modify. simpl. rewrite Hv.
  set (c' := c <| cl_inode := Some inode |>).
  pose proof (dl_inv_replace p c c' s (<[inode := inode_inc_dirty_pages (magic (dd s)) v 1]> (inodes s)) Hs Hc) as Hr.
  eexists. split; [reflexivity |]. cbn. rewrite (alter_as_insert _ _ _ _ Hc). split.
  - apply Hr; [by right | | |].
    + simpl. intros ino [= <-]. rewrite lookup_insert_eq. split_and!; [by eexists | done | done].
    + intros ino Hin. rewrite lookup_insert. case_decide; [by eexists | done].
    + unfold dl_counted. simpl. intros Hct. by eapply counted_add.
  - split; [done |]. simpl. by eapply refs_insert.
Qed.

#[local] Instance dl_fs_ok : FsHostOk dl.
Proof.
  split. intros s inode q p c task pos size Hs Hq Hc. simpl in Hq, Hc.
  destruct (inodes s !! inode) as [v|] eqn:Ev; [|done]. injection Hq as <-.
  assert (Hdirty : forall s1 c1, dl_host_inv s1 -> k_causes (kern s1) !! p = Some c1 -> callback_q c1 = Some q0 ->
    inodes s1 = inodes s -> same_refs (kern s) (kern s1) ->
    exists s', (let! causes_dirty_fn := gets (elevator_causes_dirty_fn q0) in
      match causes_dirty_fn with
      | Some causes_dirty_fn =>
          let! c := in_kernel (read_causes 57 p) in
          let! uniq := gets (queue_sched_uniq q0) in
          if uniq =? cl_sched_uniq c then causes_dirty_fn p task inode pos else ret tt
      | None => ret tt end) s1 = Ok (tt, s') /\ dl_host_inv s' /\ same_refs (kern s) (kern s')).
  { intros s1 c1 Hs1 Hc1 Hq1 Ei [N1 R1]. cbn [elevator_causes_dirty_fn dl_fs]. unfold bind at 1, gets. rewrite decide_True by done.
    rewrite (bind_ok _ _ _ c1 s1) by (by apply in_kernel_read). unfold bind at 1. cbn [queue_sched_uniq dl_host].
    rewrite decide_True by done. destruct (Z.eqb_spec (q_sched_uniq s1) (cl_sched_uniq c1)) as [Eu|Eu]; [|by exists s1].
    destruct (dl_dirty_run p c1 inode s1 Hs1 Hc1 Hq1 (eq_sym Eu)) as (s' & E & Hs' & [N2 R2]); [rewrite Ei, Ev; by eexists |].
    exists s'. split_and!; auto. split; congruence. }
  unfold tell_scheduler. destruct (callback_q c) as [q|] eqn:Eq.
  - assert (q = q0) as -> by (destruct (dh_queue _ Hs p c Hc); congruence). by apply (Hdirty s c).
  - set (c1 := c <| callback_q := Some q0 |> <| cl_sched_uniq := q_sched_uniq s |> <| cl_size := u64 size |>).
    assert (Hi : cl_inode c = None).
    { destruct (cl_inode c) eqn:Ei; [|done]. destruct (dh_inode _ Hs p c _ Hc Ei) as (_ & ? & _). congruence. }
    rewrite (bind_ok _ _ _ tt (s <| kern ::= fun k => k <| k_causes ::= <[p := c1]> |> |> <| inodes := inodes s |>)).
    + apply (Hdirty _ c1); [|simpl; apply lookup_insert_eq | done | done |].
      * apply (dl_inv_replace p c); [done | done | by right | simpl; congruence | done |].
        unfold dl_counted. simpl. intros Hct. by eapply counted_same.
      * split; [done |]. simpl. by eapply refs_insert.
    + unfold bind, gets, in_kernel, zoom, write_causes, modify. cbn. rewrite decide_True by done.
      rewrite (alter_as_insert _ _ _ _ Hc). by destruct s.
Qed.

(** A file has as many dirty pages, for the split-deadline scheduler, as it has pages
    and buffers that wait to be written: in every run of the file systems and the block layer on its
    disk, the number in the inode is the number of cause lists that point to the inode,
    and to each of them there is still a pointer in a buffer, a page or a bio (as long as fewer
    than 2^40 allocations were made, and if the mark of the scheduler is not negative). *)
Theorem dirty_pages_are_held g ino v :
  wb = false -> greach g -> 0 <= magic (dd (g_host g)) < 128 -> allocs (kern (g_host g)) < MANY ->
  inodes (g_host g) !! ino = Some v -> tagged (magic (dd (g_host g))) v ->
  inode_get_dirty_pages v = dirty_count (k_causes (kern (g_host g))) ino /\
  forall p c, k_causes (kern (g_host g)) !! p = Some c -> cl_inode c = Some ino -> 0 < holders (g_mem g) p.
Proof.
  intros Hwb Hg Hm Ha Hv Ht. destruct (greach_inv _ Hg) as (Hh & Ho & _). split.
  - pose proof (ct_count _ _ _ (dh_counted _ Hh Hwb Hm Ha) ino v Hv) as Hc. by rewrite decide_True in Hc.
  - intros p c Hc _. pose proof (ow_refs _ _ Ho p) as Hp. simpl in Hp. rewrite Hc in Hp. lia.
Qed.

End DlHost.

(** ** Example: two tasks write to the same buffer, which is then written out *)

#[local] Instance ex_host : Host dl := dl_host 3.
#[local] Instance ex_fs : FsHost dl := dl_fs 3.
#[local] Instance ex_host_ok : HostOk dl := dl_host_ok 3 false.
#[local] Instance ex_fs_ok : FsHostOk dl := dl_fs_ok 3 false.

Definition ex_dl : dl :=
  DL (Kern CauseTags.ex_world ∅ 1 0 0 0 0 []) ∅ {[ 7%positive := 0 ]} [] 5 []
    (DData (AcctHash [] []) 66 (PerDir 0 0) (PerDir 0 0) (PerDir Leaf Leaf) (PerDir [] [])
       (PerDir None None) 0 0 0 (PerDir 0 0) 0 0 0).
Definition ex_start : glue dl := Glue ex_dl (boot_memory 1).

Lemma ex_start_reach : greach ex_start.
Proof.
  apply gr_boot; [|done]. split; simpl; try done. intros _ _ _. split; simpl; [lia | done |].
  intros ino v [_ <-]%lookup_singleton_Some. by vm_compute.
Qed.

Definition ex_writes : list op :=
  [Fork 1 2; AllocBuffer 1; AllocBuffer 2; CommitWrite [1%positive; 2%positive] 1024 1 4 7 0;
   CommitWrite [1%positive] 1024 2 5 7 0; BioAlloc 1; SubmitBh true 1024 1 1024 1].
Definition ex_written : option (glue dl) := run_ops ex_writes ex_start.

(** Both buffers are dirty; when the bio of the first one is done, one is. *)
Example ex_dirty :
  (inode_get_dirty_pages <$> (ex_written ≫= fun g => inodes (g_host g) !! 7%positive)) = Some 2 /\
  (inode_get_dirty_pages <$> ((ex_written ≫= run_ops [BioFree 1]) ≫= fun g => inodes (g_host g) !! 7%positive)) = Some 1.
Proof. vm_compute. split; reflexivity. Qed.

Lemma dirty_pages_are_held_witness :
  exists g v, ex_written = Some g /\ inodes (g_host g) !! 7%positive = Some v /\
    2 = dirty_count (k_causes (kern (g_host g))) 7.
Proof.
  assert (Hok : match ex_written with
                | Some g => (magic (dd (g_host g)) =? 66) && (allocs (kern (g_host g)) <? MANY) &&
                    match inodes (g_host g) !! 7%positive with
                    | Some v => bool_decide (tagged 66 v) && (inode_get_dirty_pages v =? 2) | None => false end
                | None => false end = true) by (vm_compute; reflexivity).
  destruct ex_written as [g|] eqn:E; [|discriminate Hok].
  apply andb_prop in Hok. destruct Hok as [Hok Hv]. apply andb_prop in Hok. destruct Hok as [Em%Z.eqb_eq Ha%Z.ltb_lt].
  destruct (inodes (g_host g) !! 7%positive) as [v|] eqn:Ev; [|discriminate Hv].
  apply andb_prop in Hv. destruct Hv as [Ht%bool_decide_eq_true Hd%Z.eqb_eq].
  exists g, v. split; [reflexivity |]. split; [exact Ev |].
  destruct (dirty_pages_are_held 3 false g 7 v eq_refl) as [Hc _].
  - eapply run_ops_reach; [apply ex_start_reach | exact E].
  - rewrite Em. lia.
  - exact Ha.
  - exact Ev.
  - rewrite Em. exact Ht.
  - rewrite Hd in Hc. exact Hc.
Defined.
