(* ===== verification/DeadlineAloof.v ===== *)
(** * Split-deadline scheduler: what the handlers leave alone

    Whatever a handler does, if it returns it has changed of the cause lists only where they point: dispatching a write
    takes a list off its inode and off the queue.  The reference counts, the sizes, the bios of the
    requests and the mark of the scheduler are as before.  This goes through the text of the
    handlers, with no invariant. *)

From S2P Require Import Prelude Partial CInt Kernel HashTable CauseTags CauseRefs IoctlHelper RbTree Jiffies.
From S2P Require Import SplitAccount SplitSched Deadline DeadlineDirty DeadlineInv DeadlineHandlers DeadlineRuns.

(** ** The change of a cause list *)

Record settled (c c' : cause_list) : Prop := {
  st_refs : refcount c' = refcount c;
  st_size : cl_size c' = cl_size c;
  st_items : items c' = items c /\ item_count c' = item_count c;
  st_place : (cl_inode c' = cl_inode c /\ callback_q c' = callback_q c /\ cl_sched_uniq c' = cl_sched_uniq c) \/
             (cl_inode c' = None /\ callback_q c' = None);
}.

#[export] Instance settled_preorder : PreOrder settled.
Proof.
  split; [intros c; split; auto |]. intros c1 c2 c3 [A1 A2 [A3 A4] A5] [B1 B2 [B3 B4] B5].
  split; [congruence | congruence | split; congruence |].
  destruct B5 as [(E1 & E2 & E3)|?]; [|by right]. destruct A5 as [(F1 & F2 & F3)|[F1 F2]]; [left | right]; split_and!; congruence.
Qed.

Definition settled_at (o o' : option cause_list) : Prop :=
  match o, o' with Some c, Some c' => settled c c' | None, None => True | _, _ => False end.

Record kept (s0 s : dl) : Prop := {
  kp_causes : forall p, settled_at (k_causes (kern s0) !! p) (k_causes (kern s) !! p);
  kp_next : k_next (kern s) = k_next (kern s0);
  kp_works : k_works (kern s) = k_works (kern s0);
  kp_allocs : allocs (kern s0) <= allocs (kern s);
  kp_inodes : forall ino, is_Some (inodes s0 !! ino) -> is_Some (inodes s !! ino);
  kp_uniq : q_sched_uniq s = q_sched_uniq s0;
  kp_magic : magic (dd s) = magic (dd s0);
  kp_bios : rq_bio <$> rqs s = rq_bio <$> rqs s0;
}.

Lemma kept_refl s : kept s s.
Proof. split; auto; [|lia]. intros p. destruct (_ !! p); simpl; [reflexivity | done]. Qed.

(** The same lists. *)
Lemma kept_refs s0 s : kept s0 s -> same_refs (kern s0) (kern s).
Proof.
  intros Hk. split; [apply Hk |]. apply map_eq. intros p. rewrite !lookup_fmap. pose proof (kp_causes _ _ Hk p) as Hp.
  destruct (k_causes (kern s0) !! p), (k_causes (kern s) !! p); simpl in *; try done. by rewrite (st_refs _ _ Hp).
Qed.

Lemma kept_size s0 s : kept s0 s -> size (k_causes (kern s)) = size (k_causes (kern s0)).
Proof. intros Hk. pose proof (sr_refs _ _ (kept_refs _ _ Hk)) as E. apply (f_equal size) in E. by rewrite !map_size_fmap in E. Qed.

Section Kept.
Context {K : KernelFns} {R : RbFns} {E : ElvFns} {J : JiffyFns} (s0 : dl).

Lemma stable_dd f : (forall d, magic (f d) = magic d) -> stable (kept s0) (upd_dd f).
Proof. intros Hf. apply stable_modify. intros s [H1 H2 H3 H4 H5 H6 H7 H8]. split; auto. simpl. by rewrite Hf. Qed.

Lemma stable_rq rq f : (forall r, rq_bio (f r) = rq_bio r) -> stable (kept s0) (upd_rq rq f).
Proof.
  intros Hf. apply stable_modify. intros s [H1 H2 H3 H4 H5 H6 H7 H8]. split; auto. simpl. rewrite <- H8.
  apply map_eq. intros x. rewrite !lookup_fmap, lookup_alter. case_decide; [subst x | done]. destruct (rqs s !! rq); simpl; [by rewrite Hf | done].
Qed.

Lemma stable_read_rq line rq : stable (kept s0) (get_rq line rq).
Proof. apply stable_reads. intros s a s'. unfold get_rq. by case_match; intros; simplify_eq. Qed.

(** More allocations, and nothing else. *)
Definition more (n : nat) (w : world) : Prop := (n <= w_nalloc w)%nat.

Lemma stable_more_kmalloc n : stable (more n) kmalloc.
Proof. intros w a w' Hw [= <- <-]. unfold more in *. simpl. lia. Qed.
Lemma stable_more_jiffies n : stable (more n) read_jiffies.
Proof. by intros w a w' Hw [= <- <-]. Qed.
Lemma stable_more_time n : stable (more n) do_gettimeofday.
Proof. by intros w a w' Hw [= <- <-]. Qed.
Lemma stable_more_account n id : stable (more n) (new_account id).
Proof.
  unfold new_account, sim_batch_new. repeat first [apply stable_more_kmalloc | apply stable_more_jiffies | apply stable_ret | apply stable_gets | stable_step].
Qed.

Lemma stable_in_clock {A} (m : ST world A) : (forall n, stable (more n) m) -> stable (kept s0) (in_clock m).
Proof.
  intros Hm s a s' [H1 H2 H3 H4 H5 H6 H7 H8]. unfold in_clock, in_kern, in_world, zoom.
  destruct (m (k_world (kern s))) as [[b w]|] eqn:Ew; [|done]. intros [= <- <-]. split; auto. unfold allocs in *. simpl.
  pose proof (Hm (w_nalloc (k_world (kern s))) _ _ _ (le_n _) Ew) as Hn. unfold more in Hn. lia.
Qed.

Lemma stable_get_acct id : stable (kept s0) (get_acct id).
Proof.
  intros s a s' [H1 H2 H3 H4 H5 H6 H7 H8]. unfold get_acct, zoom.
  destruct (get_account id _) as [[o [h w]]|] eqn:Eg; [|done]. intros [= <- <-].
  assert (Hn : more (w_nalloc (k_world (kern s))) w).
  { assert (Hst : stable (fun hw : acct_hash * world => more (w_nalloc (k_world (kern s))) (snd hw)) (get_account id)).
    - unfold get_account. apply stable_bind; [apply stable_gets |]. intros h0. destruct (find_account h0 id); [apply stable_ret |].
      apply stable_bind.
      + eapply partial_zoom; [apply (stable_more_account (w_nalloc (k_world (kern s)))) | done | done].
      + intros [x|]; [|apply stable_ret]. apply stable_bind; [by apply stable_modify | intros; apply stable_ret].
    - refine (Hst _ _ _ _ Eg). unfold more. simpl. lia. }
  split; auto. unfold allocs, more in *. simpl. lia.
Qed.

Lemma stable_queuelist f :
  (forall s, kern (f s) = kern s /\ rqs (f s) = rqs s /\ inodes (f s) = inodes s /\ q_sched_uniq (f s) = q_sched_uniq s /\ magic (dd (f s)) = magic (dd s)) ->
  stable (kept s0) (modify f).
Proof.
  intros Hf. apply stable_modify. intros s [H1 H2 H3 H4 H5 H6 H7 H8]. destruct (Hf s) as (E1 & E2 & E3 & E4 & E5).
  split; rewrite ?E1, ?E2, ?E3, ?E4, ?E5; auto.
Qed.

Lemma stable_sub_dirty ino n : stable (kept s0) (sub_dirty ino n).
Proof.
  unfold sub_dirty. apply stable_bind; [apply stable_reads; intros s a s'; unfold get_inode; by case_match; intros; simplify_eq |].
  intros v. apply stable_modify. intros s [H1 H2 H3 H4 H5 H6 H7 H8]. split; auto. intros i Hi. simpl.
  rewrite lookup_insert. case_decide; [by eexists | auto].
Qed.

Lemma stable_off_inode p :
  stable (kept s0) (in_kern (write_causes p (fun c => c <| cl_inode := None |> <| callback_q := None |>))).
Proof.
  intros s a s' [H1 H2 H3 H4 H5 H6 H7 H8] [= <- <-]. split; auto. intros q. simpl. rewrite lookup_alter.
  case_decide; [subst q | apply H1]. specialize (H1 p). destruct (k_causes (kern s0) !! p) as [c0|], (k_causes (kern s) !! p) as [c|]; try done.
  simpl in *. transitivity c; [done |]. split; auto.
Qed.

Lemma stable_dl_read line p : stable (kept s0) (in_kern (read_causes line p)).
Proof.
  apply stable_reads. intros s a s'. unfold in_kern, zoom, read_causes. destruct (k_causes (kern s) !! p); [|done].
  intros [= <- <-]. by destruct s.
Qed.

#[local] Hint Resolve stable_ret stable_lift stable_gets stable_read_rq stable_get_acct stable_sub_dirty stable_off_inode stable_dl_read : kept.
#[local] Hint Extern 1 (partial _ (upd_dd _) _) => apply stable_dd; done : kept.
#[local] Hint Extern 1 (partial _ (upd_rq _ _) _) => apply stable_rq; done : kept.
#[local] Hint Extern 1 (partial _ (modify _) _) => apply stable_queuelist; done : kept.
#[local] Hint Extern 1 (partial _ (in_clock read_jiffies) _) => apply stable_in_clock, stable_more_jiffies : kept.
#[local] Hint Extern 1 (partial _ (in_clock do_gettimeofday) _) => apply stable_in_clock, stable_more_time : kept.
Ltac kept := repeat first [solve [eauto 2 with kept nocore] | stable_step].

Lemma stable_add_rb rq : stable (kept s0) (deadline_add_rq_rb rq).
Proof. unfold deadline_add_rq_rb. kept. Qed.
Lemma stable_root_del rq : stable (kept s0) (rb_root_del rq).
Proof. unfold rb_root_del. kept. Qed.
#[local] Hint Resolve stable_add_rb stable_root_del : kept.
Lemma stable_remove rq : stable (kept s0) (deadline_remove_request rq).
Proof. unfold deadline_remove_request, deadline_del_rq_rb, deadline_latter_request. kept. Qed.
Lemma stable_submitted rq : stable (kept s0) (inode_dec_dirty_for_submitted_rq rq).
Proof. unfold inode_dec_dirty_for_submitted_rq, submit_bio, submit_causes. kept. Qed.
#[local] Hint Resolve stable_remove stable_submitted : kept.
Lemma stable_dispatch_request rq : stable (kept s0) (dispatch_request rq).
Proof. unfold dispatch_request, deadline_move_request, deadline_move_to_dispatch, deadline_latter_request. kept. Qed.
Lemma stable_dispatch_dir r w : stable (kept s0) (select_dir r w).
Proof. unfold select_dir, dispatch_writes. kept. Qed.
#[local] Hint Resolve stable_dispatch_request stable_dispatch_dir : kept.
Lemma stable_dispatch_requests : stable (kept s0) deadline_dispatch_requests.
Proof. unfold deadline_dispatch_requests, dispatch_find_request, deadline_check_fifo, fifo_head. kept. Qed.

Lemma stable_get_inode line ino : stable (kept s0) (get_inode line ino).
Proof. apply stable_reads. intros s a s'. unfold get_inode. by case_match; intros; simplify_eq. Qed.
Lemma stable_more_desc n file datasync : stable (more n) (get_fsync_desc file datasync).
Proof.
  unfold get_fsync_desc. apply stable_bind; [apply stable_more_kmalloc |]. intros []; [|apply stable_ret].
  apply stable_bind; [apply stable_more_time | intros; apply stable_ret].
Qed.

#[local] Hint Resolve stable_dispatch_requests stable_get_inode : kept.
#[local] Hint Extern 1 (partial _ (in_clock kmalloc) _) => apply stable_in_clock, stable_more_kmalloc : kept.
#[local] Hint Extern 1 (partial _ (in_clock (get_fsync_desc _ _)) _) => apply stable_in_clock; intros; apply stable_more_desc : kept.

(** The handlers that the file systems do not call. *)
Definition not_hook (h : handler) : bool := match h with CausesDirty _ _ | CausesFree _ => false | _ => true end.

Lemma stable_dl_handler h : not_hook h = true -> stable (kept s0) (run_handler h).
Proof.
  destruct h; intros Hh; try done; cbn [run_handler];
    unfold deadline_add_request, deadline_merge, front_merged, deadline_merged_request, deadline_merged_requests,
      fsync_enter, fsync_issue, issue_async_inode_wb, fsync_wake, fsync_stamp, deadline_fsync_return, deadline_kv_set_callback, sched_thread_turn, deadline_read_expire_store,
      deadline_write_expire_store, deadline_writes_starved_store, deadline_front_merges_store, deadline_fifo_batch_store; kept.
Qed.
End Kept.
