(* ===== verification/DeadlineStack.v ===== *)
(** * The split-deadline scheduler in the kernel that is patched for it

    The whole machine: file systems, journal and block layer with the patches (Buffers.v), the
    scheduler on their disk, and requests made of their bios.  That the tags of the requests are in order is proved,
    from the reference counts; and the dirty pages that the scheduler counts are followed from the
    write to the dispatch. *)

From S2P Require Import Prelude Partial CInt Kernel IoBatch HashTable CauseTags CauseRefs IoctlHelper Registry RbTree Jiffies.
From S2P Require Import SplitAccount SplitSched Deadline DeadlineDirty DeadlineInv DeadlineHandlers DeadlineRuns.
From S2P Require Import Buffers BuffersInv BuffersOps BuffersRuns BuffersFit StackLib RequestTags DeadlineHost DeadlineAloof.

(** ** The machine *)

(** [dk_bios] has the addresses of the bios of each request. *)
Record disk := Disk { dk_glue : glue dl; dk_bios : gmap ptr (list ptr) }.
#[export] Instance eta_disk : Eta disk := fun x => Disk (dk_glue x) (dk_bios x).

Abbreviation dk_host x := (g_host (dk_glue x)).
Abbreviation dk_mem x := (g_mem (dk_glue x)).

Inductive dact :=
  | DFs (o : op)                                   (* the code of the patches *)
  | DHandle (h : handler)                          (* a handler of the scheduler *)
  | DNewRequest (rq : ptr) (data_dir : dir) (pos sectors : Z)
  | DAddBio (rq bi : ptr) (sector size sectors : Z) (front : bool)   (* a bio joins a request *)
  | DJoin (rq next : ptr)                          (* the bios of a request join another's *)
  | DStart (rq : ptr)                              (* the driver takes a request *)
  | DFree (rq : ptr).

Section Stack.
(** [wb]: the loop of [fsync], which may take pages off the count of an inode that are dirty, may run. *)
Context {K : KernelFns} {KO : KernelOk K} {R : RbFns} {RO : RbOk R} {E : ElvFns} {EO : ElvOk E} {J : JiffyFns} (q0 : ptr) (wb : bool).
#[local] Instance dk_the_host : Host dl := dl_host q0.
#[local] Instance dk_the_fs : FsHost dl := dl_fs q0.
#[local] Instance dk_the_host_ok : HostOk dl := dl_host_ok q0 wb.
#[local] Instance dk_the_fs_ok : FsHostOk dl := dl_fs_ok q0 wb.

Definition at_glue {A} (m : ST (glue dl) A) : ST disk A := zoom dk_glue (fun g x => x <| dk_glue := g |>) m.
Definition at_dl {A} (m : ST dl A) : ST disk A := at_glue (in_host m).
Definition put_rqs (f : gmap ptr request -> gmap ptr request) : ST disk unit :=
  at_dl (modify (fun s => s <| rqs ::= f |>)).

Definition run_dact (a : dact) : ST disk unit :=
  match a with
  | DFs o => at_glue (run_op o)
  | DHandle h => at_dl (run_handler h)
  | DNewRequest rq data_dir pos sectors =>
      put_rqs <[rq := Rq data_dir pos sectors 0 []]>;;
      modify (fun x => x <| dk_bios ::= <[rq := []]> |>)
  | DAddBio rq bi sector size sectors front =>
      let! v := at_glue (get_bio 0 bi) in
      let v := v <| bi_sector := sector |> <| bi_size := size |> in
      at_glue (set_bio bi v);;
      put_rqs (alter (fun r => r <| rq_bio ::= join_bio front v |> <| blk_rq_sectors := sectors |>) rq);;
      modify (fun x => x <| dk_bios ::= alter (join_bio front bi) rq |>)
  | DJoin rq next =>
      let! n := at_dl (get_rq 0 next) in
      let! bs := gets (fun x => default [] (dk_bios x !! next)) in
      put_rqs (fun m => alter (fun r => r <| rq_bio := [] |>) next (alter (fun r => r <| rq_bio ::= fun l => l ++ rq_bio n |>) rq m));;
      modify (fun x => x <| dk_bios ::= fun m => <[next := []]> (alter (fun l => l ++ bs) rq m) |>)
  | DStart rq => at_dl (modify (fun s => s <| dispatch_list ::= list_del rq |>))
  | DFree rq =>
      put_rqs (delete rq);;
      modify (fun x => x <| dk_bios ::= delete rq |>)
  end.

(** A bio that a request has. *)
Definition dk_flight (x : disk) (bi : ptr) : Prop := has_bio (dk_bios x) bi.

(** What the kernel around the patches and the scheduler promises. *)
Definition dact_ready (a : dact) (x : disk) : Prop :=
  match a with
  | DFs o => ready o (dk_mem x) /\ roomy (dk_glue x) /\ sizes_ok o /\ Forall (fun bi => ~ dk_flight x bi) (touched o)
  | DHandle h => not_hook h = true /\ callable h (dk_host x) /\ (wb = false -> counting h = true)
  | DNewRequest rq _ _ _ => rqs (dk_host x) !! rq = None
  | DAddBio rq bi sector _ _ _ =>
      is_Some (rqs (dk_host x) !! rq) /\ is_Some (bios (dk_mem x) !! bi) /\ ~ dk_flight x bi /\ 0 <= sector < 0x4000000000000
  | DJoin rq next => is_Some (rqs (dk_host x) !! rq) /\ is_Some (rqs (dk_host x) !! next) /\ rq <> next
  | DStart _ => True
  | DFree rq => is_Some (rqs (dk_host x) !! rq) /\ rq ∉ pool (dk_host x)
  end.

(** The memory that an act cannot do without (see [enough] of BuffersRuns.v). *)
Definition dact_enough (a : dact) (x : disk) : Prop := match a with DFs o => enough o (dk_glue x) | _ => True end.
#[export] Instance dact_enough_dec a x : Decision (dact_enough a x).
Proof. destruct a; simpl; apply _. Defined.

(** At first nothing has been written, and [i_private1] of every inode is zero, as fs-inode.c.patch has it. *)
Inductive dreach : disk -> Prop :=
  | dr_boot s init q eq_ok thread_ok random disks d disks' w' :
      k_causes (kern s) = ∅ -> k_works (kern s) = [] -> rqs s = ∅ -> dispatch_list s = [] -> (forall ino v, inodes s !! ino = Some v -> v = 0) ->
      deadline_init_queue q eq_ok thread_ok random disks (k_world (kern s)) = Ok ((0, Some d, disks'), w') ->
      dreach (Disk (Glue (s <| kern ::= fun k => k <| k_world := w' |> |> <| dd := d |>) (boot_memory init)) ∅)
  | dr_act a x x' : dreach x -> dact_ready a x -> run_dact a x = Ok (tt, x') -> dreach x'.

(** ** The invariant *)

(** The bios of the requests, which have no cause list of their own. *)
Definition chains (s : dl) : tag_map := (fun r => (rq_bio r, None)) <$> rqs s.

Record disk_wf (x : disk) : Prop := {
  ki_host : dl_host_inv q0 wb (dk_host x);
  ki_rqs : requests_ok (kern (dk_host x)) (dk_mem x) (dk_bios x) (chains (dk_host x));
}.

Definition disk_inv (x : disk) : Prop := disk_wf x /\ dl_inv (dk_host x).

Lemma disk_glue x : disk_wf x -> ginv (dk_glue x).
Proof. intros [Hh Hr]. split_and!; [done | apply Hr | apply Hr]. Qed.

Lemma chains_lookup s rq r : rqs s !! rq = Some r -> chains s !! rq = Some (rq_bio r, None).
Proof. intros Hr. unfold chains. by rewrite lookup_fmap, Hr. Qed.

(** The tags of the requests are in order. *)
Lemma disk_tags x : disk_wf x -> dl_tags (dk_host x).
Proof.
  intros [Hh Hq]. split.
  - intros rq r b l Hr Hb Hl. destruct (rk_link _ _ _ _ Hq _ _ _ (chains_lookup _ _ _ Hr)) as (bs & _ & Hlk).
    destruct (linked_in _ _ _ _ Hlk Hb) as (bi & Hbi & _).
    by destruct (bio_lists_there _ _ bi b l (rk_owned _ _ _ _ Hq) Hbi (rk_bios _ _ _ _ Hq bi b Hbi) Hl) as (_ & _ & ? & ?).
  - intros p c ino Hc Hi. by destruct (dh_inode q0 wb _ Hh p c ino Hc Hi).
Qed.

(** ** Every act keeps it *)

Lemma at_glue_run {A} (m : ST (glue dl) A) g b a g' : m g = Ok (a, g') -> at_glue m (Disk g b) = Ok (a, Disk g' b).
Proof. intros Em. unfold at_glue, zoom. simpl. by rewrite Em. Qed.

Lemma at_dl_run {A} (m : ST dl A) h M b a h' :
  m h = Ok (a, h') -> at_dl m (Disk (Glue h M) b) = Ok (a, Disk (Glue h' M) b).
Proof. intros Em. apply at_glue_run. unfold in_host. simpl. by rewrite Em. Qed.

(** What the hooks leave alone. *)
Definition dl_safe (works : list (option ptr)) (s0 s : dl) : Prop := heap_fits works none (kern s) /\ same_core s0 s.

Lemma safe_dirty works s0 ino n (f : Z -> Z -> Z -> Z) :
  stable (dl_safe works s0) (let! v := get_inode 82 ino in modify (fun s => s <| inodes ::= <[ino := f (magic (dd s)) v n]> |>)).
Proof.
  apply stable_bind; [apply stable_reads; intros s a s'; unfold get_inode; by case_match; intros; simplify_eq |].
  intros v. apply stable_modify. intros s [H1 [G1 G2 G3 G4]]. by split.
Qed.

Lemma safe_read works s0 line p : stable (dl_safe works s0) (in_kern (read_causes line p)).
Proof.
  apply stable_reads. intros s a s'. unfold in_kern, zoom, read_causes. destruct (k_causes (kern s) !! p); [|done].
  intros [= <- <-]. by destruct s.
Qed.

Lemma dl_safe_obliging works s0 : Obliging works (dl_safe works s0).
Proof.
  split; simpl.
  - done.
  - by intros s [H _].
  - intros s k [_ [G1 G2 G3 G4]] Hk. by split.
  - intros q fn p s Ef. case_decide; [|done]. injection Ef as <-. unfold deadline_causes_free.
    apply stable_bind; [apply safe_read |]. intros c. destruct (cl_inode c); [apply safe_dirty | apply stable_ret].
  - intros q fn p task inode pos s Ef. case_decide; [|done]. injection Ef as <-. unfold deadline_causes_dirty.
    apply stable_bind; [apply safe_read |]. intros c. destruct (cl_inode c); [apply stable_ret |].
    apply stable_bind; [|intros _; apply safe_dirty].
    intros s1 a s2 [H1 [G1 G2 G3 G4]] [= <- <-]. split; [|done]. apply (fits_alter works none); [done | | done].
    by intros d [[? ?] ?].
Qed.

Lemma dfs_run o x :
  disk_inv x -> dact_ready (DFs o) x -> dact_enough (DFs o) x ->
  exists x', run_dact (DFs o) x = Ok (tt, x') /\ disk_inv x' /\ same_core (dk_host x) (dk_host x').
Proof.
  intros [Hx Hi] (Hr & Hm & Hs & Hf) He. destruct x as [g b].
  destruct (op_run o g (disk_glue _ Hx) Hr Hm He) as (g' & Eo & (Hh' & Ho' & Hm') & [[new El] _]).
  exists (Disk g' b). split; [by apply at_glue_run |]. rewrite list.Forall_forall in Hf. pose proof (ki_rqs _ Hx) as Hq. simpl in Hq.
  set (works := k_works (kern (g_host g))).
  pose proof (@op_fits dl _ _ works (dl_safe works (g_host g)) (dl_safe_obliging works _) (touched o) (bios (g_mem g)) o Hs (fun bi H => H)) as Hfit.
  destruct (Hfit g tt g') as [[Hk Hc] Hb Hkept]; [|exact Eo|].
  { split; [split; [apply Hq | done] | apply Hq | done]. }
  split; [|exact Hc]. split; [|by eapply inv_same_core]. split; [done |]. cbn [dk_glue dk_bios].
  unfold chains. rewrite (sc_rqs _ _ Hc). eapply rk_fs; [exact Hq | done | done | done | done | | exact El].
  intros bi Hbi. apply Hkept. intros Hin. by apply (Hf bi Hin).
Qed.

Lemma host_inv_kept s s' :
  dl_host_inv q0 wb s -> kept s s' -> (wb = false -> dl_counted s -> dl_counted s') -> dl_host_inv q0 wb s'.
Proof.
  intros [H1 H2 H3 H4] Hk Hct. assert (Hback : forall p c', k_causes (kern s') !! p = Some c' ->
    exists c, k_causes (kern s) !! p = Some c /\ settled c c').
  { intros p c' Hc'. pose proof (kp_causes _ _ Hk p) as Hp. rewrite Hc' in Hp. destruct (k_causes (kern s) !! p) as [c|]; [by exists c | done]. }
  split.
  - intros p c' Hc'. destruct (Hback p c' Hc') as (c & Hc & [_ _ _ [(_ & -> & _)|[_ ->]]]); [by eapply H1 | by left].
  - intros p c' ino Hc' Hi. destruct (Hback p c' Hc') as (c & Hc & [_ _ _ [(E1 & E2 & E3)|[E1 _]]]); [|congruence].
    rewrite E1 in Hi. destruct (H2 p c ino Hc Hi) as (G1 & G2 & G3). rewrite E2, E3, (kp_uniq _ _ Hk).
    split_and!; [by apply (kp_inodes _ _ Hk) | done | done].
  - unfold lists in *. rewrite (kept_size _ _ Hk). pose proof (kp_allocs _ _ Hk). lia.
  - rewrite (kp_magic _ _ Hk). intros Hwb Hm Ha. apply Hct, H4; [done | done | done |]. pose proof (kp_allocs _ _ Hk). lia.
Qed.

Lemma fits_kept works s s' : heap_fits works none (kern s) -> kept s s' -> heap_fits works none (kern s').
Proof.
  intros [H1 H2 H3] Hk. split; [|done | by rewrite (kp_works _ _ Hk)]. intros p c' Hc'. pose proof (kp_causes _ _ Hk p) as Hp.
  rewrite Hc' in Hp. destruct (k_causes (kern s) !! p) as [c|] eqn:Ec; [|done]. destruct Hp as [_ E2 [E3 E4] _].
  destruct (H1 p c Ec) as [[Hn Hc] Hs]. split; [split; by rewrite ?E3, ?E4 | by rewrite E2].
Qed.

Lemma dhandle_run h x :
  disk_inv x -> dact_ready (DHandle h) x ->
  exists s', run_dact (DHandle h) x = Ok (tt, Disk (Glue s' (dk_mem x)) (dk_bios x)) /\
    disk_inv (Disk (Glue s' (dk_mem x)) (dk_bios x)) /\ spec_step h (dk_host x) s'.
Proof.
  intros [Hx Hi] (Ht & Hc & Hwb). destruct x as [[s M] b]. simpl in *.
  destruct (dl_handler_run h s Hi (disk_tags _ Hx) Hc) as (s' & Es & [Gi Gt Gs Gc _]). exists s'. split; [by apply at_dl_run |].
  split; [|done]. split; [|done].
  assert (Hk : kept s s') by (eapply (stable_dl_handler s h Ht); [apply kept_refl | exact Es]).
  split; cbn [dk_glue dk_bios g_host g_mem]; [eapply host_inv_kept; [apply (ki_host _ Hx) | done | auto] |].
  assert (Ec : chains s' = chains s).
  { unfold chains. apply map_eq. intros rq. rewrite !lookup_fmap. pose proof (f_equal (lookup rq) (kp_bios _ _ Hk)) as Eb.
    rewrite !lookup_fmap in Eb. destruct (rqs s' !! rq), (rqs s !! rq); simpl in *; congruence. }
  rewrite Ec. eapply (rk_written (kern s)); [apply (ki_rqs _ Hx) | by apply kept_refs | apply Hk |].
  eapply fits_kept; [|exact Hk]. apply (rk_fits _ _ _ _ (ki_rqs _ Hx)).
Qed.

(** ** Requests come and go *)

Lemma host_inv_rqs s rs l : dl_host_inv q0 wb s -> dl_host_inv q0 wb (s <| rqs := rs |> <| dispatch_list := l |>).
Proof. by intros [H1 H2 H3 H4]. Qed.

(** The block layer changes requests that keep their place on the disk. *)
Lemma disk_inv_block s M b rs l M' b' :
  disk_inv (Disk (Glue s M) b) -> disk_wf (Disk (Glue (s <| rqs := rs |> <| dispatch_list := l |>) M') b') ->
  (forall d rq r, rq ∈ waiting s d -> rqs s !! rq = Some r ->
     exists r', rs !! rq = Some r' /\ rq_data_dir r' = rq_data_dir r /\ blk_rq_pos r' = blk_rq_pos r) ->
  NoDup l -> (forall x, x ∈ l -> x ∈ dispatch_list s) ->
  disk_inv (Disk (Glue (s <| rqs := rs |> <| dispatch_list := l |>) M') b').
Proof.
  intros [_ Hi] Hx' Hr Hl Hsub. split; [done |]. apply (kernel_step_inv s); [exact Hi |]. split; simpl; auto.
  - split; [done |]. intros d rq Hw Hin%Hsub. by eapply inv_notin_dispatch.
  - exact (disk_tags _ Hx').
Qed.

Lemma dispatch_nodup s : dl_inv s -> NoDup (dispatch_list s).
Proof. intros Hi. pose proof (di_nodup _ Hi) as Hn. apply list.NoDup_app in Hn as (_ & _ & Hn). by apply list.NoDup_app in Hn as (_ & _ & ?). Qed.

(** One request has other bios, all of the memory. *)
Lemma disk_inv_chain s M b rq r r' bs' :
  disk_inv (Disk (Glue s M) b) -> rqs s !! rq = Some r -> rq_data_dir r' = rq_data_dir r -> blk_rq_pos r' = blk_rq_pos r ->
  linked M bs' (rq_bio r') ->
  disk_inv (Disk (Glue (s <| rqs := <[rq := r']> (rqs s) |> <| dispatch_list := dispatch_list s |>) M) (<[rq := bs']> b)).
Proof.
  intros Hx Hr Ed Ep Hl. pose proof Hx as [[Hh Hq] Hi]. apply (disk_inv_block s M b); auto using dispatch_nodup.
  - split; [by apply host_inv_rqs |]. unfold chains. simpl. rewrite fmap_insert.
    apply (rk_chain (kern s) M b (chains s) rq (rq_bio r) None); [done | by apply chains_lookup | done].
  - intros d rq' r1 _ Hr1. rewrite lookup_insert. case_decide; [subst; exists r'; split_and!; congruence | by exists r1].
Qed.

Lemma dnew_run rq d pos sectors x :
  disk_inv x -> dact_ready (DNewRequest rq d pos sectors) x ->
  exists x', run_dact (DNewRequest rq d pos sectors) x = Ok (tt, x') /\ disk_inv x' /\ pool (dk_host x') = pool (dk_host x).
Proof.
  intros Hx Hn. destruct x as [[s M] b]. simpl in Hn. pose proof Hx as [[Hh Hq] Hi].
  exists (Disk (Glue (s <| rqs := <[rq := Rq d pos sectors 0 []]> (rqs s) |> <| dispatch_list := dispatch_list s |>) M) (<[rq := []]> b)).
  split; [|split; [|done]].
  - simpl. unfold put_rqs. erewrite bind_ok by (apply at_dl_run; reflexivity). by destruct s.
  - apply (disk_inv_block s M b); auto using dispatch_nodup.
    + split; [by apply host_inv_rqs |]. unfold chains. simpl. rewrite fmap_insert. apply (rk_bare (kern s)); [done |].
      unfold chains. simpl. by rewrite lookup_fmap, Hn.
    + intros d' rq' r1 _ Hr1. exists r1. rewrite lookup_insert_ne by congruence. done.
Qed.

Lemma djoin_run rq next x :
  disk_inv x -> dact_ready (DJoin rq next) x ->
  exists x', run_dact (DJoin rq next) x = Ok (tt, x') /\ disk_inv x' /\ pool (dk_host x') = pool (dk_host x).
Proof.
  intros Hx ([r Hr] & [n Hn] & Hne). destruct x as [[s M] b]. simpl in Hr, Hn. pose proof (ki_rqs _ (proj1 Hx)) as Hq.
  destruct (rk_link _ _ _ _ Hq rq _ _ (chains_lookup s rq r Hr)) as (bs & Hbs & Hl).
  destruct (rk_link _ _ _ _ Hq next _ _ (chains_lookup s next n Hn)) as (bn & Hbn & Hln). simpl in Hbs, Hl, Hbn, Hln.
  assert (Hj : linked M (bs ++ bn) (rq_bio r ++ rq_bio n)) by (by apply Forall2_app).
  set (r' := r <| rq_bio ::= fun l => l ++ rq_bio n |>). set (n' := n <| rq_bio := [] |>).
  assert (H1 := disk_inv_chain s M b rq r r' (bs ++ bn) Hx Hr eq_refl eq_refl Hj).
  eapply (disk_inv_chain _ _ _ next n n' []) in H1; [|simpl; by rewrite lookup_insert_ne | done | done | constructor].
  eexists. split; [|split; [exact H1 | done]]. simpl.
  erewrite bind_ok by (apply at_dl_run; unfold get_rq; rewrite Hn; reflexivity).
  unfold bind at 1, gets. simpl. rewrite Hbn. unfold put_rqs. erewrite bind_ok by (apply at_dl_run; reflexivity).
  unfold modify. simpl. rewrite (alter_known _ _ _ _ Hbs), (alter_known _ _ _ _ Hr).
  rewrite (alter_known _ _ next n) by (by rewrite lookup_insert_ne). reflexivity.
Qed.

Lemma dstart_run rq x :
  disk_inv x -> exists x', run_dact (DStart rq) x = Ok (tt, x') /\ disk_inv x' /\ pool (dk_host x') = pool (dk_host x).
Proof.
  intros Hx. destruct x as [[s M] b]. pose proof Hx as [Hwf Hi].
  exists (Disk (Glue (s <| rqs := rqs s |> <| dispatch_list := list_del rq (dispatch_list s) |>) M) b). split; [|split; [|done]].
  - simpl. unfold at_dl. by destruct s.
  - apply (disk_inv_block s M b); auto.
    + destruct Hwf as [Hh Hq]. split; [by apply host_inv_rqs | exact Hq].
    + intros d rq' r _ Hr. by exists r.
    + apply NoDup_filter. by apply dispatch_nodup.
    + intros y Hy. by apply elem_of_list_del in Hy as [_ ?].
Qed.

Lemma dfree_run rq x :
  disk_inv x -> dact_ready (DFree rq) x ->
  exists x', run_dact (DFree rq) x = Ok (tt, x') /\ disk_inv x' /\ pool (dk_host x') = pool (dk_host x).
Proof.
  intros Hx [[r Hr] Hp]. destruct x as [[s M] b]. simpl in Hr, Hp. pose proof Hx as [Hwf Hi].
  exists (Disk (Glue (s <| rqs := delete rq (rqs s) |> <| dispatch_list := dispatch_list s |>) M) (delete rq b)). split; [|split; [|done]].
  - simpl. unfold put_rqs. erewrite bind_ok by (apply at_dl_run; reflexivity). by destruct s.
  - apply (disk_inv_block s M b); auto using dispatch_nodup.
    + destruct Hwf as [Hh Hq]. split; [by apply host_inv_rqs |]. unfold chains. simpl. rewrite fmap_delete.
      eapply (rk_free (kern s)); [exact Hq | by apply (chains_lookup s rq r) | done | done | by left].
    + intros d rq' r1 Hw Hr1. exists r1. rewrite lookup_delete_ne; [done |]. intros <-. apply Hp.
      unfold pool. apply elem_of_app. destruct d; auto.
Qed.

Lemma dadd_bio_run rq bi sector size sectors front x :
  disk_inv x -> dact_ready (DAddBio rq bi sector size sectors front) x ->
  exists x', run_dact (DAddBio rq bi sector size sectors front) x = Ok (tt, x') /\ disk_inv x' /\ pool (dk_host x') = pool (dk_host x).
Proof.
  intros Hx ([r Hr] & [v Hv] & Hfl & Hsec). destruct x as [[s M] b]. simpl in *. pose proof Hx as [[Hh Hq] Hi]. simpl in Hh, Hq.
  destruct (rk_link _ _ _ _ Hq rq _ _ (chains_lookup s rq r Hr)) as (bs & Hbs & _).
  set (v' := v <| bi_sector := sector |> <| bi_size := size |>). set (r' := r <| rq_bio ::= join_bio front v' |> <| blk_rq_sectors := sectors |>).
  exists (Disk (Glue (s <| rqs := <[rq := r']> (rqs s) |> <| dispatch_list := dispatch_list s |>) (M <| bios ::= <[bi := v']> |>)) (<[rq := join_bio front bi bs]> b)).
  split; [|split; [|done]].
  - erewrite bind_ok by (apply at_glue_run; unfold get_bio, in_mem; simpl; rewrite Hv; reflexivity).
    erewrite bind_ok by (apply at_glue_run; reflexivity). unfold put_rqs. erewrite bind_ok by (apply at_dl_run; reflexivity).
    unfold modify. simpl. rewrite (alter_known _ _ _ _ Hbs), (alter_known _ _ _ _ Hr). by destruct s.
  - apply (disk_inv_block s M b); auto using dispatch_nodup.
    + split; [by apply host_inv_rqs |]. unfold chains. simpl. rewrite fmap_insert.
      apply (rk_add (kern s) M b (chains s) rq (rq_bio r) None bs bi v sector size front); [done | by apply chains_lookup | done..].
    + intros d rq' r1 _ Hr1. rewrite lookup_insert. case_decide; [subst; exists r'; simpl in *; split_and!; congruence | by exists r1].
Qed.

(** ** Runs *)

(** What an act may do to the pool of requests. *)
Definition dact_spec (a : dact) (s s' : dl) : Prop :=
  match a with DHandle h => spec_step h s s' | _ => pool s' = pool s end.

Lemma core_pool s s' : same_core s s' -> pool s' = pool s.
Proof. intros Hc. unfold pool, waiting. by rewrite (sc_dd _ _ Hc). Qed.

Lemma dact_short a x : ~ dact_enough a x -> run_dact a x = Fault (BUG 100).
Proof.
  intros Hn. destruct a as [o| | | | | |]; try by exfalso; apply Hn. simpl in *. unfold at_glue, zoom. by rewrite (op_short o _ Hn).
Qed.

Lemma dact_ok_enough a x x' : run_dact a x = Ok (tt, x') -> dact_enough a x.
Proof. intros Ex. destruct (decide (dact_enough a x)) as [|Hn]; [done |]. by rewrite (dact_short a x Hn) in Ex. Qed.

Lemma dact_run a x :
  disk_inv x -> dact_ready a x -> dact_enough a x ->
  exists x', run_dact a x = Ok (tt, x') /\ disk_inv x' /\ dact_spec a (dk_host x) (dk_host x').
Proof.
  intros Hx Ha He. destruct a as [o|h|rq d pos sectors|rq bi sector size sectors front|rq next|rq|rq].
  - destruct (dfs_run o x Hx Ha He) as (x' & Ex & Hx' & Hc). exists x'. split_and!; [done | done | by apply core_pool].
  - destruct (dhandle_run h x Hx Ha) as (s' & Ex & Hx' & Hs). eauto.
  - by apply dnew_run.
  - by apply dadd_bio_run.
  - by apply djoin_run.
  - by apply dstart_run.
  - by apply dfree_run.
Qed.

Lemma dboot_inv s init q eq_ok thread_ok random disks d disks' w' :
  k_causes (kern s) = ∅ -> k_works (kern s) = [] -> rqs s = ∅ -> dispatch_list s = [] ->
  (forall ino v, inodes s !! ino = Some v -> v = 0) ->
  deadline_init_queue q eq_ok thread_ok random disks (k_world (kern s)) = Ok ((0, Some d, disks'), w') ->
  disk_inv (Disk (Glue (s <| kern ::= fun k => k <| k_world := w' |> |> <| dd := d |>) (boot_memory init)) ∅).
Proof.
  intros Ek Ew Er Ed Ei Hinit. split; [split|]; cbn [dk_glue dk_bios g_host g_mem].
  - split; simpl; unfold lists; rewrite ?Ek; try done; [unfold allocs; simpl; rewrite map_size_empty; lia |].
    intros _ Hm _. split; simpl; [exact Hm | done |]. intros ino v Hv. rewrite (Ei ino v Hv). by case_decide.
  - unfold chains. simpl. rewrite Er, fmap_empty. by apply rk_boot.
  - eapply init_inv; [| |exact Hinit].
    + split; [intros rq r b l Hr; by rewrite Er in Hr | intros p c ino Hc; by rewrite Ek in Hc].
    + rewrite Ed. constructor.
Qed.

Lemma dreach_inv x : dreach x -> disk_inv x.
Proof.
  induction 1 as [s init q eq_ok thread_ok random disks d disks' w' Ek Ew Er Ed Ei Hi|a x x' _ IH Ha Ex].
  - by eapply dboot_inv.
  - destruct (dact_run a x IH Ha (dact_ok_enough _ _ _ Ex)) as (x1 & E1 & Hx1 & _). congruence.
Qed.

(** The life of the machine with the registry of disks, from the set-up of the scheduler on [q0]. *)
Definition dboots (disks : disk_list) (reg : bool) (x : disk) (disks' : disk_list) : Prop :=
  exists s init eq_ok thread_ok random d w',
    k_causes (kern s) = ∅ /\ k_works (kern s) = [] /\ rqs s = ∅ /\ dispatch_list s = [] /\
    (forall ino v, inodes s !! ino = Some v -> v = 0) /\
    deadline_init_queue q0 eq_ok thread_ok random disks (k_world (kern s)) = Ok ((0, Some d, disks'), w') /\
    reg = w_alloc w' (pred (w_nalloc w')) /\
    x = Disk (Glue (s <| kern ::= fun k => k <| k_world := w' |> |> <| dd := d |>) (boot_memory init)) ∅.
Definition dacts (x x' : disk) : Prop := exists a, dact_ready a x /\ run_dact a x = Ok (tt, x').
Definition disk_life : bool -> disk -> disk_list -> Prop := life q0 dboots dacts.

Lemma life_dreach reg x disks : disk_life reg x disks -> dreach x.
Proof.
  apply (life_keeps q0 dboots dacts dreach).
  - intros ds r y ds' (s & init & e & t & rn & d & w & Ek & Ew & Er & El & Ei & Eq & _ & ->). by eapply dr_boot.
  - intros y y' Hy (a & Ha & Ex). by eapply dr_act.
Qed.

Lemma dboots_registers disks reg x disks' : dboots disks reg x disks' -> disks' = snd (ioctl_helper_register_disk reg disks q0).
Proof.
  intros (s & init & eq_ok & thread_ok & rn & d & w & _ & _ & _ & _ & _ & Hinit & -> & _). revert Hinit.
  unfold deadline_init_queue, bind, kmalloc, ret. destruct eq_ok; [|done]. simpl.
  destruct (w_alloc _ _); [|done]. simpl. destruct thread_ok; [|done]. simpl. by intros [= _ <- <-].
Qed.

(** How [deadline_exit_queue] ends. *)
Definition dexits (reg : bool) (d : deadline_data) (disks : disk_list) : Prop :=
  match on_read (fifo_list d), on_write (fifo_list d), reg with
  | _ :: _, _, _ => deadline_exit_queue q0 d disks = Fault (BUG 819)
  | [], _ :: _, _ => deadline_exit_queue q0 d disks = Fault (BUG 820)
  | [], [], false => deadline_exit_queue q0 d disks = Fault (BUG 108)
  | [], [], true => exists accts disks', deadline_exit_queue q0 d disks = Ok (accts, disks') /\ q0 ∉ disks'
  end.

Lemma dexit_run reg x disks : disk_life reg x disks -> dexits reg (dd (dk_host x)) disks.
Proof.
  intros Hl. pose proof (life_unregister q0 dboots dacts dboots_registers reg x disks Hl) as Hu.
  unfold dexits, deadline_exit_queue. destruct (on_read _); [|done]. destruct (on_write _); [|done]. simpl.
  destruct reg; [destruct Hu as (disks' & -> & Hn); by eexists _, disks' | by rewrite Hu].
Qed.

(** C2: the patched kernel with the split-deadline scheduler crashes in known ways only.  From the boot on,
    whatever is written, committed and written back, whatever requests are made of the bios, added,
    merged, dispatched, taken by the driver and freed, whoever waits in [fsync] (whose hook goes in turns), and whichever
    allocations fail, every operation of the
    file systems and the block layer on cause lists and every handler of the scheduler, called as the kernel promises
    ([dact_ready]), runs to its end:
    no BUG_ON fires and no cause list is used after it was freed.  The one exception is btrfs's [prepare_pages] when there is no
    memory for the [struct cause_list_locked] of a page, which ends in its BUG_ON.  When the scheduler is taken off the
    queue, [deadline_exit_queue] returns if no request waits and the disk could be registered when the scheduler was set up; else it
    runs into its own BUG_ONs or that of ioctl_helper.c.  The tags of the requests are in
    order, and the scheduler remains a pool of requests, which only its handlers touch. *)
Theorem deadline_kernel_no_fault reg x disks :
  disk_life reg x disks ->
  (forall a, dact_ready a x ->
     if decide (dact_enough a x) then
       exists x', run_dact a x = Ok (tt, x') /\ disk_life reg x' disks /\
         dl_tags (dk_host x') /\ dact_spec a (dk_host x) (dk_host x')
     else run_dact a x = Fault (BUG 100)) /\
  match waiting (dk_host x) READ, waiting (dk_host x) WRITE, reg with
  | _ :: _, _, _ => deadline_exit_queue q0 (dd (dk_host x)) disks = Fault (BUG 819)
  | [], _ :: _, _ => deadline_exit_queue q0 (dd (dk_host x)) disks = Fault (BUG 820)
  | [], [], false => deadline_exit_queue q0 (dd (dk_host x)) disks = Fault (BUG 108)
  | [], [], true => exists accts disks', deadline_exit_queue q0 (dd (dk_host x)) disks = Ok (accts, disks') /\ q0 ∉ disks'
  end.
Proof.
  intros Hl. split; [|exact (dexit_run reg x disks Hl)].
  intros a Ha. destruct (decide (dact_enough a x)) as [He|He]; [|by apply dact_short].
  destruct (dact_run a x (dreach_inv _ (life_dreach _ _ _ Hl)) Ha He) as (x' & Ex & Hx' & Hs). exists x'.
  split_and!; [done | eapply life_step; [exact Hl | by exists a] | by apply disk_tags, Hx' | done].
Qed.

End Stack.
