(* ===== verification/DeadlineStackExamples.v ===== *)
(** * The patched kernel with the split-deadline scheduler: a concrete run

    A file is written, its buffers are submitted, and requests are made of the bios, merged,
    dispatched and freed; the dirty pages of the file are counted on the way. *)

From S2P Require Import Prelude Partial CInt Kernel HashTable CauseTags CauseRefs IoctlHelper Registry RbTree Jiffies.
From S2P Require Import SplitAccount SplitSched Deadline DeadlineDirty DeadlineInv DeadlineHandlers DeadlineRuns DeadlineExamples.
From S2P Require Import Buffers BuffersInv BuffersOps BuffersRuns BuffersFit StackLib RequestTags DeadlineHost DeadlineAloof DeadlineStack.

(** ** Running acts whose conditions can be checked *)

Definition dchecked (a : dact) (x : disk) : Prop :=
  match a with
  | DFs o => ready o (dk_mem x) /\ low_counts (kern (dk_host x)) /\ sizes_ok o /\ Forall (fun bi => bi ∉ flying (dk_bios x)) (touched o)
  | DHandle Dispatch => True
  | DHandle (AddRequest rq) => is_Some (rqs (dk_host x) !! rq) /\ rq ∉ pool (dk_host x) /\ rq ∉ dispatch_list (dk_host x)
  | DHandle (MergedRequests rq next) => rq <> next /\ rq ∈ waiting (dk_host x) WRITE /\ next ∈ waiting (dk_host x) WRITE
  | DNewRequest rq _ _ _ => rqs (dk_host x) !! rq = None
  | DAddBio rq bi sector _ _ _ =>
      is_Some (rqs (dk_host x) !! rq) /\ is_Some (bios (dk_mem x) !! bi) /\ bi ∉ flying (dk_bios x) /\ 0 <= sector < 0x4000000000000
  | DJoin rq next => is_Some (rqs (dk_host x) !! rq) /\ is_Some (rqs (dk_host x) !! next) /\ rq <> next
  | DStart _ => True
  | DFree rq => is_Some (rqs (dk_host x) !! rq) /\ rq ∉ pool (dk_host x)
  | _ => False
  end.
#[local] Instance dchecked_dec a x : Decision (dchecked a x).
Proof. destruct a as [|[]| | | | |]; simpl; apply _. Defined.

Lemma not_in_pool s rq : rq ∉ pool s -> forall d, rq ∉ waiting s d.
Proof. intros Hn d Hd. apply Hn. unfold pool. apply elem_of_app. destruct d; auto. Qed.

Lemma dchecked_ready q0 wb a x : disk_inv q0 wb x -> dchecked a x -> dact_ready wb a x.
Proof.
  intros [Hx _]. destruct a as [o|[]|rq d pos sectors|rq bi sector size sectors front|rq next|rq|rq]; simpl; try done.
  - intros (Hr & Hl & Hs & Hf). split_and!; [done | | done |].
    + by apply (@low_roomy dl (dl_host q0) (dl_host_ok q0 wb) (dk_glue x) (disk_glue _ _ _ Hx)).
    + eapply Forall_impl; [exact Hf |]. intros bi. apply flying_spec.
  - intros (Hr & Hn & Hd). split_and!; [done | done | by apply not_in_pool | done | done].
  - intros (Hne & H1 & H2). split_and!; [done | done | by exists WRITE | done].
  - intros (H1 & H2 & H3 & H4). split_and!; try done; try lia. by apply flying_spec.
Qed.

Fixpoint run_dacts (q0 : ptr) (acts : list dact) (x : disk) : option disk :=
  match acts with
  | [] => Some x
  | a :: acts =>
      if decide (dchecked a x) then match run_dact q0 a x with Ok (_, x') => run_dacts q0 acts x' | Fault _ => None end
      else None
  end.

Lemma run_dacts_reach q0 wb acts x x' : dreach q0 wb x -> run_dacts q0 acts x = Some x' -> dreach q0 wb x'.
Proof.
  revert x. induction acts as [|a acts IH]; intros x Hx; cbn [run_dacts]; [by intros [= <-] |].
  case_decide as Hc; [|done]. destruct (run_dact q0 a x) as [[[] x1]|] eqn:Ex; [|done]. apply IH.
  eapply dr_act; [exact Hx | | exact Ex]. eapply dchecked_ready; [by eapply dreach_inv | done].
Qed.

Lemma run_dacts_life q0 wb reg disks acts x x' :
  disk_life q0 wb reg x disks -> run_dacts q0 acts x = Some x' -> disk_life q0 wb reg x' disks.
Proof.
  revert x. induction acts as [|a acts IH]; intros x Hx; cbn [run_dacts]; [by intros [= <-] |].
  case_decide as Hc; [|done]. destruct (run_dact q0 a x) as [[[] x1]|] eqn:Ex; [|done]. apply IH.
  eapply life_step; [exact Hx |]. exists a. split; [|exact Ex].
  eapply dchecked_ready; [eapply dreach_inv, life_dreach, Hx | done].
Qed.

(** ** The run *)

(** Nothing has been written; inode 7 is a file on the disk of queue 3. *)
Definition dk_machine : dl := DL (Kern DeadlineExamples.ex_world ∅ 1 0 0 0 0 []) ∅ {[ 7%positive := 0 ]} [] 5 [] ex_dd.
Definition dk_boot : disk :=
  Disk (Glue (dk_machine <| kern ::= fun k => k <| k_world := alloc_step (alloc_step DeadlineExamples.ex_world) |> |> <| dd := ex_dd |>) (boot_memory 1)) ∅.

Lemma dk_boot_reach wb : dreach 3 wb dk_boot.
Proof.
  apply (dr_boot 3 wb dk_machine 1 1%positive true true 66 [] ex_dd [1%positive] (alloc_step (alloc_step DeadlineExamples.ex_world))); try done.
  intros ino v Hv. simpl in Hv. apply lookup_singleton_Some in Hv as [_ <-]. done.
Qed.

(** Three buffers are written; two of them are submitted and wait in two requests. *)
Definition dk_acts : list dact :=
  [DFs (AllocBuffer 1); DFs (AllocBuffer 2); DFs (AllocBuffer 3);
   DFs (CommitWrite [1%positive; 2%positive; 3%positive] 1024 1 4 7 0);
   DFs (BioAlloc 1); DFs (SubmitBh true 1024 1 1024 1); DFs (BioAlloc 2); DFs (SubmitBh true 1024 2 1024 2);
   DNewRequest 1 WRITE 8 2; DAddBio 1 1 8 1024 2 false; DHandle (AddRequest 1);
   DNewRequest 2 WRITE 10 2; DAddBio 2 2 10 1024 2 false; DHandle (AddRequest 2)].
Definition dk_written : disk := default dk_boot (run_dacts 3 dk_acts dk_boot).

Lemma dk_run : run_dacts 3 dk_acts dk_boot = Some dk_written.
Proof.
  assert (E : match run_dacts 3 dk_acts dk_boot with Some _ => true | None => false end = true) by (vm_compute; reflexivity).
  unfold dk_written. by destruct (run_dacts 3 dk_acts dk_boot).
Qed.

Lemma dk_written_reach wb : dreach 3 wb dk_written.
Proof. eapply run_dacts_reach; [apply dk_boot_reach | apply dk_run]. Qed.

Definition dk_dirty (x : option disk) : option Z := inode_get_dirty_pages <$> (x ≫= fun x => inodes (dk_host x) !! 7%positive).

(** The requests are merged and dispatched: two of the three pages are clean from then on, also when the
    bios end. *)
Definition dk_served : option disk :=
  run_dacts 3 [DJoin 1 2; DHandle (MergedRequests 1 2); DHandle Dispatch; DStart 1; DFree 2; DFree 1] dk_written.
Example dk_counts :
  dk_dirty (Some dk_written) = Some 3 /\ dk_dirty dk_served = Some 1 /\
  dk_dirty (dk_served ≫= run_dacts 3 [DFs (BioFree 1); DFs (BioFree 2)]) = Some 1.
Proof. vm_compute. repeat split. Qed.

(** The same run with the registry, and with the loop of [fsync]. *)
Lemma dk_written_life : disk_life 3 true true dk_written [3%positive].
Proof.
  eapply run_dacts_life; [|apply dk_run]. eapply (life_boot _ _ _ _ []); [by apply not_elem_of_nil |].
  exists dk_machine, 1%positive, true, true, 66, ex_dd, (alloc_step (alloc_step DeadlineExamples.ex_world)).
  do 4 (split; [done |]). split; [|done].
  intros ino v Hv. simpl in Hv. apply lookup_singleton_Some in Hv as [_ <-]. done.
Qed.

(** A dispatch, a turn of [fsync], and an exit while requests wait. *)
Lemma deadline_kernel_no_fault_witness :
  (exists x', run_dact 3 (DHandle Dispatch) dk_written = Ok (tt, x') /\ dl_tags (dk_host x')) /\
  (exists x', run_dact 3 (DHandle (FsyncWake 7 3)) dk_written = Ok (tt, x') /\ dl_tags (dk_host x')) /\
  deadline_exit_queue 3 (dd (dk_host dk_written)) [3%positive] = Fault (BUG 820).
Proof.
  destruct (deadline_kernel_no_fault 3 true true dk_written [3%positive] dk_written_life) as [H Hex]. split; [|split].
  - destruct (H (DHandle Dispatch)) as (x' & Ex & _ & Ht & _); [split; [reflexivity |]; split; [exact I | discriminate] |].
    exists x'. split; [exact Ex | exact Ht].
  - destruct (H (DHandle (FsyncWake 7 3))) as (x' & Ex & _ & Ht & _).
    + split; [reflexivity |]. split; [|discriminate]. apply (bool_decide_unpack _). vm_compute. exact I.
    + exists x'. split; [exact Ex | exact Ht].
  - assert (Hw : waiting (dk_host dk_written) READ = [] /\ waiting (dk_host dk_written) WRITE = [1; 2]%positive)
      by (vm_compute; split; reflexivity).
    destruct Hw as [Hr Hw]. rewrite Hr, Hw in Hex. exact Hex.
Defined.

