(* ===== verification/DeadlineAttrs.v ===== *)
(** * Split-deadline scheduler: its attributes in sysfs (split_deadline_sched.c)

    Five numbers can be read from and written to files: printed with [sprintf] and read
    with [simple_strtol].  What was read can be written back. *)

From Stdlib Require Import Ascii String DecimalString DecimalZ Decimal.
From S2P Require Import Prelude CInt Kernel HashTable CauseTags IoctlHelper RbTree Jiffies.
From S2P Require Import SplitAccount SplitSched Deadline.

(** ** Numbers in a page *)

Definition NEWLINE : string := String (ascii_of_nat 10) EmptyString.

(** [simple_strtol(p, &p, 10)] of lib/vsprintf.c, *)
Class StrtolFns := { simple_strtol : string -> Z }.
(** which stops at what is not a digit. *)
Class StrtolOk (F : StrtolFns) : Prop := {
  simple_strtol_dec : forall z, is_s64 z -> simple_strtol (dec z ++ NEWLINE) = z;
}.

Definition deadline_var_show (var : Z) : string := (dec var ++ NEWLINE)%string.

(** The value, and the number of bytes that were taken. *)
Definition deadline_var_store {F : StrtolFns} (page : string) (count : Z) : Z * Z := (s32 (simple_strtol page), count).

Section Attrs.
Context {J : JiffyFns} {F : StrtolFns}.

(** [SHOW_FUNCTION] *)
Definition var_show (var : Z) (conv : bool) : string :=
  deadline_var_show (if conv then s32 (jiffies_to_msecs var) else var).

Definition deadline_read_expire_show (d : deadline_data) : string := var_show (on_read (fifo_expire d)) true.
Definition deadline_write_expire_show (d : deadline_data) : string := var_show (on_write (fifo_expire d)) true.
Definition deadline_writes_starved_show (d : deadline_data) : string := var_show (writes_starved d) false.
Definition deadline_front_merges_show (d : deadline_data) : string := var_show (front_merges d) false.
Definition deadline_fifo_batch_show (d : deadline_data) : string := var_show (fifo_batch d) false.

(** [deadline_attrs]: the files, what reads them and what a page written to them does. *)
Record attr := Attr { attr_name : string; show : deadline_data -> string; store : Z -> ST dl unit }.
Definition deadline_attrs : list attr :=
  [Attr "read_expire" deadline_read_expire_show deadline_read_expire_store;
   Attr "write_expire" deadline_write_expire_show deadline_write_expire_store;
   Attr "writes_starved" deadline_writes_starved_show deadline_writes_starved_store;
   Attr "front_merges" deadline_front_merges_show deadline_front_merges_store;
   Attr "fifo_batch" deadline_fifo_batch_show deadline_fifo_batch_store].

(** Writing a page to a file of [deadline_attrs]. *)
Definition attr_store (a : attr) (page : string) : ST dl unit := store a (fst (deadline_var_store page 0)).

(** The constants at the top of the file. *)
Definition read_expire : Z := c_div HZ 2.
Definition write_expire : Z := 5 * HZ.
End Attrs.

(** ** An implementation of simple_strtol *)

Definition digit (c : ascii) : option Z :=
  let n := Z.of_N (N_of_ascii c) in if (48 <=? n) && (n <=? 57) then Some (n - 48) else None.

(** An optional minus sign and all digits that follow. *)
Fixpoint strtoul (acc : Z) (s : string) : Z :=
  match s with
  | EmptyString => acc
  | String c s' => match digit c with Some d => strtoul (u64 (acc * 10 + d)) s' | None => acc end
  end.
Definition ref_simple_strtol (s : string) : Z :=
  match s with
  | String "-" s' => s64 (- strtoul 0 s')
  | _ => s64 (strtoul 0 s)
  end.

Fixpoint uint_value (acc : Z) (u : uint) : Z :=
  match u with
  | Nil => acc
  | D0 u => uint_value (acc * 10 + 0) u | D1 u => uint_value (acc * 10 + 1) u
  | D2 u => uint_value (acc * 10 + 2) u | D3 u => uint_value (acc * 10 + 3) u
  | D4 u => uint_value (acc * 10 + 4) u | D5 u => uint_value (acc * 10 + 5) u
  | D6 u => uint_value (acc * 10 + 6) u | D7 u => uint_value (acc * 10 + 7) u
  | D8 u => uint_value (acc * 10 + 8) u | D9 u => uint_value (acc * 10 + 9) u
  end.

Lemma uint_value_acc u a : uint_value (Zpos a) u = Zpos (Pos.of_uint_acc u a).
Proof. revert a. induction u; intros a; simpl; try rewrite <- IHu; auto; f_equal; lia. Qed.

Lemma uint_value_of u : uint_value 0 u = Z.of_uint u.
Proof. unfold Z.of_uint. induction u; simpl; auto; (apply IHu || apply uint_value_acc). Qed.

Lemma uint_value_mono u acc : 0 <= acc -> acc <= uint_value acc u.
Proof.
  revert acc. induction u; intros acc Ha; simpl; try lia;
    (etransitivity; [|apply IHu; lia]; lia).
Qed.

Lemma strtoul_uint u acc rest :
  0 <= acc -> uint_value acc u < 0x10000000000000000 ->
  strtoul acc (NilEmpty.string_of_uint u ++ NEWLINE ++ rest) = uint_value acc u.
Proof.
  revert acc. induction u; intros acc Ha Hv; cbn [uint_value] in *; [reflexivity |..];
    (match type of Hv with uint_value ?x u < _ =>
       assert (Hx : 0 <= x) by lia; pose proof (uint_value_mono u x Hx) as Hm;
       assert (Hs : u64 x = x) by (apply u64_small; unfold is_u64; lia);
       transitivity (strtoul (u64 x) (NilEmpty.string_of_uint u ++ NEWLINE ++ rest)); [reflexivity |];
       rewrite Hs; by apply IHu end).
Qed.

Lemma uint_value_nonneg u : 0 <= Z.of_uint u.
Proof. rewrite <- uint_value_of. by apply uint_value_mono. Qed.

Lemma uint_no_sign u rest :
  match (NilEmpty.string_of_uint u ++ NEWLINE ++ rest)%string with String "-" _ => False | _ => True end.
Proof. by destruct u. Qed.

Lemma append_nil s : (s ++ "")%string = s.
Proof. induction s as [|c s IH]; [reflexivity |]. exact (f_equal (String c) IH). Qed.

(** A number and a newline are read as the number. *)
Lemma ref_strtol_dec z : is_s64 z -> ref_simple_strtol (dec z ++ NEWLINE) = z.
Proof.
  unfold is_s64. intros Hz. unfold dec. pose proof (DecimalZ.of_to z) as Hof.
  rewrite <- (append_nil NEWLINE). destruct (Z.to_int z) as [u|u]; simpl in Hof; pose proof (uint_value_nonneg u) as Hn.
  - assert (Hs : strtoul 0 (NilEmpty.string_of_uint u ++ NEWLINE ++ "") = z)
      by (rewrite strtoul_uint, uint_value_of; rewrite ?uint_value_of; lia).
    pose proof (uint_no_sign u "") as Hsign. cbn [NilEmpty.string_of_int].
    transitivity (s64 (strtoul 0 (NilEmpty.string_of_uint u ++ NEWLINE ++ ""))); [|rewrite Hs; by apply s64_small].
    unfold ref_simple_strtol. destruct (NilEmpty.string_of_uint u ++ NEWLINE ++ "")%string as [|c s']; [done |].
    destruct c as [[] [] [] [] [] [] [] []]; done.
  - transitivity (s64 (- strtoul 0 (NilEmpty.string_of_uint u ++ NEWLINE ++ ""))); [reflexivity |].
    rewrite strtoul_uint, uint_value_of; rewrite ?uint_value_of; [|lia..].
    rewrite Hof. by apply s64_small.
Qed.

#[export] Instance ref_strtol : StrtolFns := {| simple_strtol := ref_simple_strtol |}.
#[export] Instance ref_strtol_ok : StrtolOk ref_strtol.
Proof. split. apply ref_strtol_dec. Qed.

(** ** What is read can be written back *)

(** C29: the attributes of the scheduler can be read and written back: a page read from one of
    the five files and written to the same file leaves all settings as they are, provided that they are
    such as the files accept (ints, [front_merges] 0 or 1, [fifo_batch] not negative), and that each expiry time, in
    milliseconds, fits an [int] and is converted back to the same number of jiffies.  Without the last two it
    is not so, see [expire_overflows] below. *)
Theorem attrs_show_store {J : JiffyFns} {F : StrtolFns} {FO : StrtolOk F} a s :
  a ∈ deadline_attrs ->
  (forall j, j = on_read (fifo_expire (dd s)) \/ j = on_write (fifo_expire (dd s)) ->
    is_s32 j /\ 0 <= jiffies_to_msecs j <= 0x7fffffff /\ msecs_to_jiffies (jiffies_to_msecs j) = j) ->
  is_s32 (writes_starved (dd s)) -> 0 <= front_merges (dd s) <= 1 -> 0 <= fifo_batch (dd s) <= 0x7fffffff ->
  attr_store a (show a (dd s)) s = Ok (tt, s).
Proof.
  intros Ha Hj Hw Hf Hb. assert (Hr : forall v, is_s32 v -> s32 (simple_strtol (deadline_var_show v)) = v).
  { intros v Hv. unfold deadline_var_show. rewrite simple_strtol_dec by (unfold is_s32, is_s64 in *; lia). by apply s32_small. }
  assert (Hst : forall v MIN MAX, is_s32 v -> MIN <= v <= MAX -> var_store v MIN MAX false = v).
  { intros v MIN MAX Hv Hm. unfold var_store. rewrite s32_small by done.
    destruct (Z.ltb_spec v MIN); [lia |]. rewrite Z.gtb_ltb. destruct (Z.ltb_spec MAX v); [lia | done]. }
  assert (Hex : forall j, j = on_read (fifo_expire (dd s)) \/ j = on_write (fifo_expire (dd s)) ->
    var_store (s32 (simple_strtol (var_show j true))) 0 INT_MAX true = j).
  { intros j [Hj1 [Hj2 Hj3]]%Hj. unfold var_show. assert (Hm : is_s32 (jiffies_to_msecs j)) by (unfold is_s32; lia).
    rewrite (s32_small (jiffies_to_msecs j)), Hr by done. unfold var_store. rewrite (s32_small (jiffies_to_msecs j)) by done.
    destruct (Z.ltb_spec (jiffies_to_msecs j) 0); [lia |]. rewrite Z.gtb_ltb.
    destruct (Z.ltb_spec INT_MAX (jiffies_to_msecs j)); [lia |]. rewrite Hj3. by apply s32_small. }
  destruct s as [k r i dl u w d]. destruct d as [acc m la li sl fl nr ba ls st [fr fw] fb ws fm]. simpl in *.
  assert (Hfb : is_s32 fb) by (unfold is_s32; lia). assert (Hfm : is_s32 fm) by (unfold is_s32; lia).
  unfold attr_store, deadline_var_store. unfold deadline_attrs in Ha.
  repeat (apply elem_of_cons in Ha as [->|Ha]); [..|by apply elem_of_nil in Ha]; cbn [store show fst].
  all: unfold deadline_read_expire_store, deadline_write_expire_store, deadline_writes_starved_store,
    deadline_front_merges_store, deadline_fifo_batch_store, deadline_read_expire_show, deadline_write_expire_show,
    deadline_writes_starved_show, deadline_front_merges_show, deadline_fifo_batch_show, upd_dd, modify; simpl.
  - rewrite Hex by auto. done.
  - rewrite Hex by auto. done.
  - unfold var_show. rewrite Hr, Hst by (done || (unfold is_s32 in *; lia)). done.
  - unfold var_show. rewrite Hr, Hst by (done || lia). done.
  - unfold var_show. rewrite Hr, Hst by (done || lia). done.
Qed.

Lemma attrs_show_store_witness :
  let d := DData (AcctHash [] []) 66 (PerDir 0 0) (PerDir 0 0) (PerDir Leaf Leaf) (PerDir [] [])
             (PerDir None None) 0 0 0 (PerDir read_expire write_expire) 16 2 1 in
  let s := DL (Kern CauseTags.ex_world ∅ 1 0 0 0 0 []) ∅ ∅ [] 5 [] d in
  let a := Attr "write_expire" deadline_write_expire_show deadline_write_expire_store in
  show a d = ("5000" ++ NEWLINE)%string /\ attr_store a (show a (dd s)) s = Ok (tt, s).
Proof.
  split; [vm_compute; reflexivity |]. apply attrs_show_store.
  - unfold deadline_attrs. right. left.
  - intros j [->| ->]; vm_compute; repeat split; discriminate.
  - vm_compute. split; [discriminate | reflexivity].
  - vm_compute. split; discriminate.
  - vm_compute. split; discriminate.
Defined.

(** The largest number that can be written to write_expire, at 250 ticks a second, is read back as a negative one,
    which, written again, sets the expiry time to 0. *)
Lemma expire_overflows :
  let d := DData (AcctHash [] []) 66 (PerDir 0 0) (PerDir 0 0) (PerDir Leaf Leaf) (PerDir [] [])
             (PerDir None None) 0 0 0 (PerDir read_expire write_expire) 16 2 1 in
  let s := DL (Kern CauseTags.ex_world ∅ 1 0 0 0 0 []) ∅ ∅ [] 5 [] d in
  let a := Attr "write_expire" deadline_write_expire_show deadline_write_expire_store in
  exists s1 s2, attr_store a ("2147483647" ++ NEWLINE) s = Ok (tt, s1) /\
    show a (dd s1) = ("-2147483648" ++ NEWLINE)%string /\
    attr_store a (show a (dd s1)) s1 = Ok (tt, s2) /\ on_write (fifo_expire (dd s2)) = 0.
Proof.
  eexists _, _. split; [reflexivity |]. split; [vm_compute; reflexivity |]. split; [reflexivity | vm_compute; reflexivity].
Qed.
