(* ===== verification/Afq.v ===== *)
(** * Actually fair queuing: data and accounting (src/modules/acct_afq_sched.c)

    The AFQ scheduler serves the account with the least virtual I/O: each charge
    adds [TOTAL_SHARE / ioprio] to the counter of an account.  What an account waits
    for, a read request or a system call ([write], [mkdir], [fsync]), is an [io_work]
    on its list; the scheduler picks works in batches, lets them go, and as a rule
    starts the next batch when all works of the last have returned.

    This file has the state of the scheduler and the code that charges accounts;
    [AfqOps] has the lists of works, the batches and the handlers.

    The functions run under the queue lock, except where they say; the spin lock
    [afq_data->lock] is a flag, and taking it when it is held is a fault. *)

From S2P Require Import Prelude CInt Kernel DiskSim IoBatch HashTable CauseTags Jiffies.
From S2P Require Import SplitAccount SplitSched.

(** ** Data *)

Definition MAX_CAUSE_COUNT : Z := 32.
Definition WRITE_ALLOWANCE : Z := 204800.
Definition TOTAL_SHARE : Z := 840.
Definition MAX_VIO_COUNTER_THRESHOLD : Z := c_div LONG_MAX 4.
Definition ALLOW_NEW_BATCH : Z := 0.
Definition NO_NEW_BATCH : Z := 1.
Definition KEEP_IN_FLIGHT : Z := 2.
Definition MIN_IN_FLIGHT : Z := 2.
Definition IOPRIO_BE_NR : Z := 8.
Definition SEQ_THRESHOLD : Z := 12.
Definition SEQ_DIST : Z := 1024.

(** An account is named by its place in the heap of [acct_hash]. *)
Record afq_data := AfqData {
  ad_accts : acct_hash;
  active_acct_list : list nat;
  min_acct : option nat;
  global_min_vio_counter : Z;
  global_min_vio_counter2 : Z;
  last_served_acct : option nat;
  lock : bool;                        (* is the spin lock held? *)
  keep_wait : Z;
  batch_dead : Z;
  inflight : Z;
  ad_sim_batch : io_batch;
  batch_wait_timer : option Z;        (* expiry of the timer, if it is pending *)
  batch_dead_timer : option Z;
  disk_full_count : Z;
  prio_served_rqs : list Z;           (* [IOPRIO_BE_NR] *)
  caust_count_dist : list Z;          (* [MAX_CAUSE_COUNT] *)
  journal_cct : list Z;               (* [MAX_CAUSE_COUNT] *)
}.
#[export] Instance eta_ad : Eta afq_data := fun d =>
  AfqData (ad_accts d) (active_acct_list d) (min_acct d) (global_min_vio_counter d)
    (global_min_vio_counter2 d) (last_served_acct d) (lock d) (keep_wait d) (batch_dead d)
    (inflight d) (ad_sim_batch d) (batch_wait_timer d) (batch_dead_timer d) (disk_full_count d)
    (prio_served_rqs d) (caust_count_dist d) (journal_cct d).

(** The fields of [struct request] in use; [rq_desc] and [RQ_CAUSES] are the two
    private pointers. *)
Record request := Rq {
  rq_write : bool;                    (* cmd_flags & REQ_WRITE *)
  blk_rq_pos : Z;
  rq_bio : list bio;
  rq_desc : option req_desc;
  RQ_CAUSES : option ptr;
}.
#[export] Instance eta_request : Eta request := fun r =>
  Rq (rq_write r) (blk_rq_pos r) (rq_bio r) (rq_desc r) (RQ_CAUSES r).

(** The descriptor of a system call. *)
Inductive call_desc :=
  | WrCall (d : wrdesc)
  | FsyncCall (d : fsync_desc)
  | MkdirCall (d : mkdir_desc).

(** The descriptor, and whether its completion was signalled. *)
Record call := Call { c_desc : call_desc; c_done : bool }.
#[export] Instance eta_call : Eta call := fun c => Call (c_desc c) (c_done c).

Record io_batch_desc := IoBatchDesc { work_selected : list io_ref; one_loop_work : Z }.
#[export] Instance eta_batch_desc : Eta io_batch_desc := fun b =>
  IoBatchDesc (work_selected b) (one_loop_work b).

(** The state a handler runs on: the request queue with its elevator data, the
    requests, the descriptors of system calls and of batches that are allocated,
    the inodes ([i_private1] of each) and the rest of the kernel. *)
Record afq := AFQ {
  kern : kernel;
  rqs : gmap ptr request;
  calls : gmap ptr call;
  batches : gmap ptr io_batch_desc;
  next_desc : ptr;                    (* the next address for a descriptor *)
  inodes : gmap ptr Z;
  dispatch_list : list ptr;           (* requests the driver has, or will take next *)
  q_sched_uniq : Z;
  ad : afq_data;
}.
#[export] Instance eta_afq : Eta afq := fun s =>
  AFQ (kern s) (rqs s) (calls s) (batches s) (next_desc s) (inodes s) (dispatch_list s)
    (q_sched_uniq s) (ad s).

(** ** Access to the state *)

Definition upd_ad (f : afq_data -> afq_data) : ST afq unit := modify (fun s => s <| ad ::= f |>).
Definition in_kern {A} (m : ST kernel A) : ST afq A := zoom kern (fun k s => s <| kern := k |>) m.
Definition in_clock {A} (m : ST world A) : ST afq A := in_kern (in_world m).
Definition jiffies : ST afq Z := in_clock read_jiffies.

Definition heap (s : afq) : list account := a_heap (ad_accts (ad s)).
Definition acct (line : Z) (p : nat) : ST afq account := fun s =>
  match heap s !! p with Some a => Ok (a, s) | None => Fault (NullDeref line) end.
Definition upd_acct (p : nat) (f : account -> account) : ST afq unit :=
  upd_ad (fun d => d <| ad_accts ::= fun h => h <| a_heap ::= alter f p |> |>).

Definition get_rq (line : Z) (rq : ptr) : ST afq request := fun s =>
  match rqs s !! rq with Some r => Ok (r, s) | None => Fault (NullDeref line) end.
Definition upd_rq (rq : ptr) (f : request -> request) : ST afq unit :=
  modify (fun s => s <| rqs ::= alter f rq |>).

(** [acct_hash_for_each]: the accounts in the order of the table. *)
Definition all_accts : ST afq (list nat) := gets (fun s => hash_nodes (a_table (ad_accts (ad s)))).

Definition spin_lock (line : Z) : ST afq unit := fun s =>
  if lock (ad s) then Fault (Deadlock line) else upd_ad (fun d => d <| lock := true |>) s.
Definition spin_unlock : ST afq unit := upd_ad (fun d => d <| lock := false |>).

(** [abs] on a 64-bit value. *)
Definition abs64 (x : Z) : Z := let x := s64 x in if x <? 0 then s64 (- x) else x.

(** [a[i]++] on an array of [int]. *)
Definition array_inc (line : Z) (l : list Z) (i : Z) : result (list Z) :=
  let? n := array_get line l i in array_set line l i (s32 (n + 1)).

(** *** Private fields *)

Definition inode_get_pos (line : Z) (inode : ptr) : ST afq Z := fun s =>
  match inodes s !! inode with Some v => Ok (v, s) | None => Fault (NullDeref line) end.
Definition inode_set_pos (line : Z) (inode : ptr) (pos : Z) : ST afq unit :=
  inode_get_pos line inode;; modify (fun s => s <| inodes ::= <[inode := pos]> |>).
Definition causes_set_cost (p : ptr) (cost : Z) : ST kernel unit :=
  write_causes p (fun c => c <| cl_private := cost |>).
Definition causes_get_cost (c : cause_list) : Z := cl_private c.

(** ** Virtual I/O *)

Definition prio_to_stride (prio : Z) : Z := prio.

Section Accounting.
Context {K : KernelFns} {J : JiffyFns}.

Definition ACCT_MAX_SLEEP_TIME : Z := 300 * HZ.

(** [get_account] on the accounts of the scheduler; [None] is NULL. *)
Definition get_acct (id : Z) : ST afq (option nat) :=
  zoom (fun s => (ad_accts (ad s), k_world (kern s)))
       (fun hw s => s <| ad ::= fun d => d <| ad_accts := fst hw |> |>
                      <| kern ::= fun k => k <| k_world := snd hw |> |>)
       (get_account id).

(** The account, where the code follows the pointer without a check at [line]. *)
Definition need_acct (line : Z) (id : Z) : ST afq nat :=
  let! o := get_acct id in lift (deref line o).

(** One turn of the loop of [update_active_min]. *)
Definition active_min_turn (best : Z * option nat) (p : nat) : ST afq (Z * option nat) :=
  let! cur_acct := acct 1106 p in
  if account_id cur_acct =? 0 then ret best
  else
    let! now := jiffies in
    if time_before now (u64 (last_end_request cur_acct + c_div ACCT_MAX_SLEEP_TIME 15))
       && (vio_counter cur_acct <? fst best)
    then ret (vio_counter cur_acct, Some p) else ret best.

Definition update_active_min : ST afq unit :=
  let! l := all_accts in
  let! r := for_acc l (MAX_VIO_COUNTER_THRESHOLD, None) active_min_turn in
  let '(min_vio_counter, min) := r in
  if negb (min_vio_counter =? MAX_VIO_COUNTER_THRESHOLD)
  then upd_ad (fun d => d <| global_min_vio_counter2 := min_vio_counter |> <| min_acct := min |>)
  else ret tt.

Definition reset_vio (a : account) : account :=
  a <| vio_counter := 0 |> <| vio_reset ::= fun n => s32 (n + 1) |>.

(** What one charge adds to the counter. *)
Definition vio_share (a : account) : Z :=
  let stride := prio_to_stride (ioprio a) in
  c_div TOTAL_SHARE (if stride =? 0 then 1 else stride).

(** [quantity] is not used. *)
Definition add_vio_counter (p : nat) (quantity : Z) : ST afq unit :=
  acct 147 p;;
  upd_acct p (fun a => a <| vio_counter ::= fun v => s64 (v + vio_share a) |>);;
  let! min := gets (fun s => min_acct (ad s)) in
  (if bool_decide (min = Some p) || bool_decide (min = None)
   then update_active_min else ret tt);;
  let! a := acct 158 p in
  if vio_counter a >? MAX_VIO_COUNTER_THRESHOLD then
    let! l := all_accts in
    for_each l (fun q => upd_acct q reset_vio);;
    upd_ad (fun d => d <| global_min_vio_counter := 0 |> <| global_min_vio_counter2 := 0 |>)
  else ret tt.

Definition add_estimate_vio (p : nat) (quantity : Z) : ST afq unit :=
  acct 169 p;;
  upd_acct p (fun a => a <| estimate ::= fun e => s64 (e + quantity) |>);;
  add_vio_counter p quantity.

(** ** Charging for I/O *)

(** The position of a served request, whether the account is sequential, and the
    statistics; jiffies are read only if the request was not accounted before. *)
Definition seq_step (pos : Z) (a : account) : account :=
  if abs64 (last_sector a - pos) <? SEQ_DIST then
    if seq_counter a <? SEQ_THRESHOLD then a <| seq_counter ::= fun n => s32 (n + 1) |> else a
  else
    if seq_counter a >? 0 then a <| seq_counter ::= fun n => s32 (n - 2) |> else a.

Definition afq_accout_pos_seq_update (p : nat) (r : request) : ST afq unit :=
  let! a := acct 201 p in
  let idx := Z.rem (s32 (IOPRIO_BE_NR - ioprio a)) IOPRIO_BE_NR in
  if u64 (last_sector a) =? blk_rq_pos r then ret tt
  else
    let! served := gets (fun s => prio_served_rqs (ad s)) in
    let! served := lift (array_inc 210 served idx) in
    upd_ad (fun d => d <| prio_served_rqs := served |>);;
    upd_acct p (seq_step (blk_rq_pos r));;
    upd_acct p (fun a => a <| last_sector := s32 (blk_rq_pos r) |>);;
    let! now := jiffies in
    upd_acct p (fun a => a <| last_end_request := now |>).

(** [full] is the flag of the loop. *)
Definition batch_cause (c : cause_list) (offset : Z) (full : bool) (account_id : Z) : ST afq bool :=
  let size := s32 (cl_size c) in
  let causes_cost := s32 (causes_get_cost c) in
  let! p := need_acct 257 account_id in
  let! a := acct 257 p in
  let! r := lift (iobatch_add_request (sim_batch a) offset size) in
  upd_acct p (fun a => a <| sim_batch := snd r |>);;
  let! f := lift (iobatch_full (snd r)) in
  (* amount we have already charged for req being added to batch *)
  upd_acct p (fun a => a <| batch_estimate ::= fun e =>
                u64 (e + safe_div causes_cost (item_count c)) |>);;
  ret (full || f).

(** One turn of the loop that charges the accounts of a full batch. *)
Definition charge_account (combined_cost summed_cost : Z) (p : nat) : ST afq unit :=
  let! a := acct 274 p in
  let! r := lift (iobatch_get_cost (sim_batch a)) in
  let basic_charge := fst r in
  upd_acct p (fun a => a <| sim_batch := snd r |>);;
  let adjusted_charge := u64 (safe_div (u64 (combined_cost * basic_charge)) summed_cost) in
  (if negb (adjusted_charge =? 0) then add_vio_counter p (s32 adjusted_charge) else ret tt);;
  (* refund estimate *)
  let! a := acct 281 p in
  add_estimate_vio p (s32 (u64 (- batch_estimate a)));;
  upd_acct p (fun a => a <| batch_estimate := 0 |>);;
  upd_acct p (fun a => a <| sim_batch ::= iobatch_clear |>).

(** The block run when a batch is full. *)
Definition settle_batches : ST afq unit :=
  upd_ad (fun d => d <| disk_full_count ::= fun n => s32 (n + 1) |>);;
  let! d := gets ad in
  let! r := lift (iobatch_get_cost (ad_sim_batch d)) in
  let combined_cost := fst r in
  upd_ad (fun d => d <| ad_sim_batch := iobatch_clear (snd r) |>);;
  let! l := all_accts in
  let! summed_cost := for_acc l 0 (fun summed p =>
    let! a := acct 270 p in
    let! r := lift (iobatch_get_cost (sim_batch a)) in
    upd_acct p (fun a => a <| sim_batch := snd r |>);;
    ret (u64 (summed + fst r))) in
  for_each l (charge_account combined_cost summed_cost).

Definition do_disk_accounting (causes : ptr) (offset : Z) : ST afq unit :=
  let! c := in_kern (read_causes 238 causes) in
  let size := s32 (cl_size c) in
  (* update global sim_batch and account batches *)
  let! d := gets ad in
  let! r := lift (iobatch_add_request (ad_sim_batch d) offset size) in
  upd_ad (fun d => d <| ad_sim_batch := snd r |>);;
  let! full := lift (iobatch_full (snd r)) in
  let! full := for_acc (items c) full (batch_cause c offset) in
  if full then settle_batches else ret tt.

Definition account_for_causes (causes : ptr) (offset size : Z) : ST afq unit :=
  let! c := in_kern (read_causes 294 causes) in
  (match callback_q c with
   | Some _ => in_kern (write_causes causes (fun c => c <| callback_q := None |>))
   | None =>
       if item_count c >? 0 then
         in_kern (causes_set_cost causes (s64 size));;
         let amt := s32 (safe_div size (item_count c)) in
         for_each (items c) (fun account_id =>
           let! p := need_acct 169 account_id in
           add_estimate_vio p amt)
       else ret tt
   end);;
  do_disk_accounting causes offset.

(** The loop over the causes that follows the charge. *)
Definition pos_seq_causes (r : request) (c : cause_list) : ST afq unit :=
  for_each (items c) (fun account_id =>
    let! p := need_acct 201 account_id in
    afq_accout_pos_seq_update p r).

(** The test [bio->cll && bio->cll->uniq_causes->item_count]. *)
Definition bio_tagged (b : bio) : ST afq bool :=
  match bi_cll b with
  | None => ret false
  | Some l =>
      let! u := lift (deref 332 (uniq_causes l)) in
      let! cu := in_kern (read_causes 332 u) in
      ret (negb (item_count cu =? 0))
  end.

(** One turn of the loop over the cause lists of a bio; returns the next offset. *)
Definition account_for_item (r : request) (l : cause_list_list) (offset i : Z) : ST afq Z :=
  let! slot := lift (array_get 334 (cll_items l) i) in
  let! causes := lift (deref 335 slot) in
  let! c := in_kern (read_causes 335 causes) in
  account_for_causes causes offset (cl_size c);;
  let! c := in_kern (read_causes 336 causes) in
  let offset := s64 (offset + cl_size c) in
  pos_seq_causes r c;;
  ret offset.

Definition account_for_bio (r : request) (b : bio) : ST afq unit :=
  let offset := s64 (u64 (bi_sector b * 512)) in
  let! tagged := bio_tagged b in
  match bi_cll b, tagged with
  | Some l, true => for_acc (seqZ 0 (cll_item_count l)) offset (account_for_item r l);; ret tt
  | _, _ =>
      match RQ_CAUSES r with
      | Some causes =>
          account_for_causes causes offset (bi_size b);;
          let! c := in_kern (read_causes 345 causes) in
          pos_seq_causes r c
      | None => ret tt
      end
  end.

Definition afq_account_request2 (d : req_desc) : ST afq unit :=
  let! r := get_rq 357 (r_rq d) in
  for_each (rq_bio r) (account_for_bio r).

(** *** The older accounting, which nothing calls *)

Definition bio_uniq_causes (b : bio) : ST kernel (option ptr) :=
  match bi_cll b with
  | None => ret None
  | Some l =>
      match uniq_causes l with
      | None => ret None
      | Some u => let! c := read_causes 228 u in
                  ret (if negb (item_count c =? 0) then Some u else None)
      end
  end.

Definition charge_one (r : request) (p : nat) : ST afq unit :=
  add_vio_counter p 1;; afq_accout_pos_seq_update p r.

(** [cur] is the account id of the current task. *)
Definition afq_account_request (cur : Z) (d : req_desc) : ST afq unit :=
  let! r := get_rq 374 (r_rq d) in
  if rq_write r then
    for_each (rq_bio r) (fun b =>
      let! u := in_kern (bio_uniq_causes b) in
      match u with
      | Some causes =>
          let! c := in_kern (read_causes 381 causes) in
          for_each (items c) (fun account_id =>
            let! p := need_acct 147 account_id in charge_one r p)
      | None => let! p := need_acct 147 cur in charge_one r p
      end)
  else let! p := lift (deref 147 (r_acct d)) in charge_one r p.

(** *** Statistics of the cause lists *)

Definition count_causes (l : cause_list_list) (i : Z) : ST afq unit :=
  let! slot := lift (array_get 458 (cll_items l) i) in
  match slot with
  | None => ret tt
  | Some causes =>
      let! c := in_kern (read_causes 459 causes) in
      let count := item_count c in
      if cl_type c =? SPLIT_CHECKPOINT then
        if count >=? MAX_CAUSE_COUNT then ret tt
        else
          let! dist := gets (fun s => caust_count_dist (ad s)) in
          let! dist := lift (array_inc 465 dist count) in
          upd_ad (fun d => d <| caust_count_dist := dist |>)
      else if cl_type c =? SPLIT_JOURNAL_META then
        if count >=? MAX_CAUSE_COUNT then ret tt
        else
          let! cct := gets (fun s => journal_cct (ad s)) in
          let! cct := lift (array_inc 473 cct count) in
          upd_ad (fun d => d <| journal_cct := cct |>)
      else ret tt
  end.

Definition cause_list_size_stat2 (r : request) : ST afq unit :=
  if rq_write r then
    for_each (rq_bio r) (fun b =>
      match bi_cll b with
      | Some l => for_each (seqZ 0 (cll_item_count l)) (count_causes l)
      | None => ret tt
      end)
  else ret tt.

(** ** Hooks of the file systems *)

(** [new_id] is the account id of the task that dirties the page. *)
Definition basic_sched_causes_dirty (causes : ptr) (new_id : Z) (inode : ptr) (pos : Z) : ST afq unit :=
  let! c := in_kern (read_causes 1049 causes) in
  let! tot_cost :=
    (if causes_get_cost c <=? 0 then
       let! ipos := inode_get_pos 1053 inode in
       let tot_cost := s64 (seek_time pos ipos + cl_size c) in
       in_kern (causes_set_cost causes tot_cost);; ret tot_cost
     else ret (causes_get_cost c)) in
  inode_set_pos 1056 inode (s64 (pos + cl_size c));;
  for_each (items c) (fun account_id =>
    let! p := need_acct 1061 account_id in
    let! a := acct 1061 p in
    let charge := s32 (safe_div tot_cost (item_count c)) in
    let charge := if negb (SplitAccount.account_id a =? new_id)
                  then s32 (charge - safe_div tot_cost (s32 (item_count c - 1))) else charge in
    add_estimate_vio p charge).

Definition basic_sched_causes_free (causes : ptr) : ST afq unit :=
  let! c := in_kern (read_causes 1074 causes) in
  for_each (items c) (fun account_id =>
    let! p := need_acct 147 account_id in
    let refund := s32 (safe_div (cl_size c) (item_count c)) in
    add_vio_counter p (s32 (- refund))).

End Accounting.
