(* ===== verification/AfqOps.v ===== *)
(** * Actually fair queuing: works, batches and handlers (src/modules/acct_afq_sched.c)

    The second half of the scheduler: the lists of works of the accounts, how a batch
    is selected and submitted, the hooks around the system calls, the timers, the
    threads, and setting up and tearing down.

    An entry hook that has to wait returns [Waits desc]: the caller sleeps in
    [wait_for_completion] until the completion of [desc] is signalled.

    [__blk_run_queue] runs the driver, which asks the elevator for requests as often
    as it likes: how often is a parameter, the class [Driver]. *)

From S2P Require Import Prelude CInt Kernel DiskSim IoBatch HashTable CauseTags Jiffies.
From S2P Require Import SplitAccount SplitSched IoctlHelper Afq.

Definition MAX_BATCH_SIZE : Z := 100.
Definition MIN_BATCH_SIZE : Z := 5.

Class Driver := { drv_asks : afq -> nat }.

(** ** Descriptors *)

Definition list_del {A} `{EqDecision A} (x : A) (l : list A) : list A := filter (fun y => y <> x) l.

Definition get_call (line : Z) (p : ptr) : ST afq call := fun s =>
  match calls s !! p with Some c => Ok (c, s) | None => Fault (UseAfterFree line) end.
Definition put_call (p : ptr) (d : call_desc) : ST afq unit :=
  modify (fun s => s <| calls ::= alter (fun c => c <| c_desc := d |>) p |>).
Definition complete (p : ptr) : ST afq unit :=
  modify (fun s => s <| calls ::= alter (fun c => c <| c_done := true |>) p |>).
(** [kfree] of a descriptor. *)
Definition free_call (p : ptr) : ST afq unit := modify (fun s => s <| calls ::= delete p |>).

(** A fresh descriptor, not completed. *)
Definition new_call (d : call_desc) : ST afq ptr :=
  let! p := gets next_desc in
  modify (fun s => s <| next_desc ::= Pos.succ |> <| calls ::= <[p := Call d false]> |>);;
  ret p.

(** [container_of] of an [io_work]: the descriptor and its address. *)
Definition WR_IO (line : Z) (w : io_ref) : ST afq (ptr * wrdesc) :=
  match w with
  | OfCall p =>
      let! c := get_call line p in
      match c_desc c with WrCall d => ret (p, d) | _ => lift (Fault (BadCast line)) end
  | OfReq _ => lift (Fault (BadCast line))
  end.
Definition FSYNC_IO (line : Z) (w : io_ref) : ST afq (ptr * fsync_desc) :=
  match w with
  | OfCall p =>
      let! c := get_call line p in
      match c_desc c with FsyncCall d => ret (p, d) | _ => lift (Fault (BadCast line)) end
  | OfReq _ => lift (Fault (BadCast line))
  end.
Definition MKDIR_IO (line : Z) (w : io_ref) : ST afq (ptr * mkdir_desc) :=
  match w with
  | OfCall p =>
      let! c := get_call line p in
      match c_desc c with MkdirCall d => ret (p, d) | _ => lift (Fault (BadCast line)) end
  | OfReq _ => lift (Fault (BadCast line))
  end.

(** [rq->elv.priv[0]], where the code follows it. *)
Definition get_desc (line : Z) (rq : ptr) : ST afq req_desc := fun s =>
  match rqs s !! rq with
  | Some r => match rq_desc r with Some d => Ok (d, s) | None => Fault (NullDeref line) end
  | None => Fault (UseAfterFree line)
  end.
Definition upd_desc (rq : ptr) (f : req_desc -> req_desc) : ST afq unit :=
  upd_rq rq (fun r => r <| rq_desc ::= fmap f |>).
Definition REQ_IO (line : Z) (w : io_ref) : ST afq (ptr * req_desc) :=
  match w with
  | OfReq rq => let! d := get_desc line rq in ret (rq, d)
  | OfCall _ => lift (Fault (BadCast line))
  end.

Definition call_work (c : call_desc) : io_work :=
  match c with WrCall d => w_io_work d | FsyncCall d => f_io_work d | MkdirCall d => m_io_work d end.
Definition get_io_work (line : Z) (w : io_ref) : ST afq io_work :=
  match w with
  | OfCall p => let! c := get_call line p in ret (call_work (c_desc c))
  | OfReq rq => let! d := get_desc line rq in ret (r_io_work d)
  end.

Definition get_batch (line : Z) (b : ptr) : ST afq io_batch_desc := fun s =>
  match batches s !! b with Some d => Ok (d, s) | None => Fault (UseAfterFree line) end.
Definition upd_batch (b : ptr) (f : io_batch_desc -> io_batch_desc) : ST afq unit :=
  modify (fun s => s <| batches ::= alter f b |>).
Definition free_batch (b : ptr) : ST afq unit := modify (fun s => s <| batches ::= delete b |>).

Definition list_add_active (p : nat) : ST afq unit :=
  upd_ad (fun d => d <| active_acct_list ::= fun l => l ++ [p] |>).
Definition list_del_active (p : nat) : ST afq unit :=
  upd_ad (fun d => d <| active_acct_list ::= list_del p |>).


Section Ops.
Context {K : KernelFns} {J : JiffyFns}.

Definition START_IN_FLIGHT_TIME : Z := c_div HZ 5.
Definition AFQ_BATCH_DEAD_INTVAL : Z := c_div HZ 100.
Definition AFQ_SCLICE_IDLE : Z := c_div HZ 50.
Definition AFQ_MAX_SLICE : Z := c_div HZ 4.

(** [elv_dispatch_sort(q, rq)] *)
Definition dispatch_sort (rq : ptr) : ST afq unit :=
  modify (fun s => s <| dispatch_list ::= fun l =>
    elv_dispatch_sort (fun p => match rqs s !! p with Some r => blk_rq_pos r | None => 0 end) l rq |>).

(** ** Timers *)

(** A timer that fires is no longer pending. *)
Definition new_batch_wait_timer_func : ST afq unit :=
  upd_ad (fun d => d <| batch_wait_timer := None |>);;
  spin_lock 176;;
  let! w := gets (fun s => keep_wait (ad s)) in
  (if w =? NO_NEW_BATCH then upd_ad (fun d => d <| keep_wait := KEEP_IN_FLIGHT |>) else ret tt);;
  spin_unlock.

Definition batch_dead_timer_func : ST afq unit :=
  upd_ad (fun d => d <| batch_dead_timer := None |>);;
  spin_lock 186;;
  upd_ad (fun d => d <| batch_dead := 0 |>);;
  spin_unlock.

(** ** Works *)

Definition acct_no_pending_io (a : account) : bool := bool_decide (io_work_list_head a = []).

Definition add_io_work_to_acct (w : io_ref) (p : nat) : ST afq unit :=
  let! a := acct 415 p in
  (if acct_no_pending_io a then
     list_add_active p;;
     let! now := jiffies in
     if time_before (u64 (last_end_request a + ACCT_MAX_SLEEP_TIME)) now
     then let! v := gets (fun s => global_min_vio_counter2 (ad s)) in
          upd_acct p (fun a => a <| vio_counter := v |>)
     else ret tt
   else ret tt);;
  upd_acct p (fun a => a <| io_work_list_head ::= fun l => l ++ [w] |>).

(** [live]: is [afq_data] not NULL? *)
Definition dec_check_cleanup_batch (live : bool) (batch_desc : option ptr) : ST afq unit :=
  let! b := lift (deref 432 batch_desc) in
  get_batch 432 b;;
  upd_batch b (fun d => d <| one_loop_work ::= fun n => s32 (n - 1) |>);;
  let! d := get_batch 433 b in
  if one_loop_work d =? 0 then
    (if live then
       spin_lock 439;;
       upd_ad (fun d => d <| keep_wait := ALLOW_NEW_BATCH |>);;
       spin_unlock
     else ret tt);;
    free_batch b
  else ret tt.

(** ** Requests *)

(** [split_set_request] and [split_put_request] on the private pointers of [rq]. *)
Definition on_private {A} (rq : ptr) (m : ST rq_state A) : ST afq A :=
  let! r := get_rq 156 rq in
  zoom (fun s => RqState (kern s) (rq_desc r) (RQ_CAUSES r))
       (fun p s => s <| kern := rs_kern p |>
                     <| rqs ::= alter (fun r => r <| rq_desc := priv0 p |> <| RQ_CAUSES := priv1 p |>) rq |>)
       m.
Definition basic_sched_set_request (q rq : ptr) : ST afq Z :=
  let! r := get_rq 156 rq in on_private rq (split_set_request q rq (rq_write r)).
Definition basic_sched_put_request (rq : ptr) : ST afq unit := on_private rq split_put_request.

(** [cur] is the account id of the current task. *)
Definition basic_sched_add_request (cur : Z) (rq : ptr) : ST afq unit :=
  let! r := get_rq 484 rq in
  cause_list_size_stat2 r;;
  in_kern (__cause_list_add (RQ_CAUSES r) cur);;
  if rq_write r then
    upd_ad (fun d => d <| inflight ::= fun n => s32 (n + 1) |>);;
    let! d := get_desc 356 rq in
    afq_account_request2 d;;
    dispatch_sort rq
  else
    let! o := get_acct cur in
    get_desc 501 rq;;
    upd_desc rq (fun d => d <| r_acct := o |>);;
    match o with
    | None => dispatch_sort rq
    | Some p =>
        let! a := acct 502 p in
        if negb (account_id a =? 0) then add_io_work_to_acct (OfReq rq) p
        else dispatch_sort rq
    end.

Definition basic_sched_merged_request (rq next : ptr) : ST afq unit := lift (bug_on 511 true).

Definition basic_sched_complte_request (rq : ptr) : ST afq unit :=
  upd_ad (fun d => d <| inflight ::= fun n => s32 (n - 1) |>);;
  let! d := get_desc 521 rq in
  match r_owner_batch d with
  | Some b => dec_check_cleanup_batch true (Some b)
  | None => ret tt
  end.

(** ** Selecting a batch *)

(** [list_for_each_entry_safe] over the works of the account, until the batch is
    full; returns [batch_size]. *)
Fixpoint move_works (b : ptr) (p : nat) (works : list io_ref) (batch_size : Z) : ST afq Z :=
  match works with
  | [] => ret batch_size
  | w :: works' =>
      upd_acct p (fun a => a <| io_work_list_head ::= list_del w |>);;
      upd_batch b (fun d => d <| work_selected ::= fun l => l ++ [w] |>);;
      let batch_size := s32 (batch_size + 1) in
      if batch_size >=? MAX_BATCH_SIZE then ret batch_size
      else move_works b p works' batch_size
  end.

(** From [acct_no_pending_io(min_acct)] at line 621 to the end; [again] is
    [goto add_io_work]. *)
Definition serve_acct (b : ptr) (p : nat) (batch_size : Z) (again : Z -> ST afq Z) : ST afq Z :=
  let! a := acct 621 p in
  if acct_no_pending_io a then free_batch b;; ret (-1)
  else
    let! batch_size := move_works b p (io_work_list_head a) batch_size in
    let! a := acct 637 p in
    (if acct_no_pending_io a then list_del_active p else ret tt);;
    if (batch_size <? MIN_BATCH_SIZE) && (seq_counter a <? SEQ_THRESHOLD)
    then again batch_size else ret 1.

(** The account with the least counter. *)
Definition least_turn (best : Z * option nat) (p : nat) : ST afq (Z * option nat) :=
  let! a := acct 595 p in
  ret (if vio_counter a <? fst best then (vio_counter a, Some p) else best).

(** The code from the label [add_io_work]; each turn but the last takes an
    account off the active list, so one turn more than there are accounts on it is
    enough. *)
Fixpoint add_io_work (fuel : nat) (b : ptr) (batch_size : Z) (more_io_work : bool) : ST afq Z :=
  match fuel with
  | O => lift (Fault (Diverges 591))
  | S fuel =>
      let! l := gets (fun s => active_acct_list (ad s)) in
      let! r := for_acc l (MAX_VIO_COUNTER_THRESHOLD * 2, None) least_turn in
      let '(min_vio_counter, min) := r in
      match min with
      | None => if more_io_work then ret 1 else free_batch b;; ret (-1)
      | Some p =>
          upd_ad (fun d => d <| last_served_acct := Some p |>
                             <| global_min_vio_counter := min_vio_counter |>);;
          let! now := jiffies in
          upd_acct p (fun a => a <| slice_begin := now |>);;
          let! now := jiffies in
          upd_acct p (fun a => a <| slice_end := u64 (now + AFQ_MAX_SLICE) |>);;
          serve_acct b p batch_size (fun n => add_io_work fuel b n true)
      end
  end.

(** [idle_for_last_acct]: the account served last is sequential and in its slice. *)
Definition idle_for_last : ST afq bool :=
  let! last := gets (fun s => last_served_acct (ad s)) in
  match last with
  | None => ret false
  | Some p =>
      let! now := jiffies in
      let! a := acct 562 p in
      if negb (time_before now (u64 (last_end_request a + AFQ_SCLICE_IDLE))) then ret false
      else
        let! now := jiffies in
        ret (time_before now (slice_end a) && (seq_counter a >=? SEQ_THRESHOLD))
  end.

(** The return value and [*work_selected]. *)
Definition basic_sched_select_io_work : ST afq (Z * option ptr) :=
  let! l := gets (fun s => active_acct_list (ad s)) in
  if bool_decide (l = []) then ret (0, None)
  else
    let! idle := idle_for_last in
    let! last := gets (fun s => last_served_acct (ad s)) in
    let! stay :=
      (match last, idle with
       | Some p, true => let! a := acct 569 p in ret (acct_no_pending_io a)
       | _, _ => ret false
       end) in
    if stay : bool then ret (0, None)
    else
      let! ok := in_clock kmalloc in
      if negb ok then ret (0, None)
      else
        let! b := gets next_desc in
        modify (fun s => s <| next_desc ::= Pos.succ |> <| batches ::= <[b := IoBatchDesc [] 0]> |>);;
        let again n := add_io_work (S (length l)) b n true in
        let! rv :=
          (match last, idle with
           | Some p, true => serve_acct b p 0 again
           | _, _ => add_io_work (S (length l)) b 0 false
           end) in
        ret (rv, if rv =? 1 then Some b else None).

(** ** Submitting a batch *)

Definition submit_work (b : ptr) (w : io_ref) : ST afq unit :=
  let unlink := upd_batch b (fun d => d <| work_selected ::= list_del w |>) in
  let count := upd_batch b (fun d => d <| one_loop_work ::= fun n => s32 (n + 1) |>) in
  let! io_work := get_io_work 670 w in
  match iow_type io_work with
  | SCHED_SYS_FSYNC =>
      let! x := FSYNC_IO 673 w in let '(p, d) := x in
      unlink;; put_call p (FsyncCall (d <| f_owner_batch := Some b |>));; count;; complete p
  | SCHED_SYS_WRITE =>
      let! x := WR_IO 683 w in let '(p, d) := x in
      unlink;; put_call p (WrCall (d <| w_owner_batch := Some b |>));; count;; complete p
  | SCHED_SYS_MKDIR =>
      let! x := MKDIR_IO 693 w in let '(p, d) := x in
      unlink;; put_call p (MkdirCall (d <| m_owner_batch := Some b |>));; count;; complete p
  | SCHED_READ_REQ =>
      let! x := REQ_IO 703 w in let '(rq, d) := x in
      upd_desc rq (fun d => d <| r_owner_batch := Some b |>);;
      upd_ad (fun d => d <| inflight ::= fun n => s32 (n + 1) |>);;
      afq_account_request2 d;;
      unlink;; count;;
      dispatch_sort (r_rq d)
  | SCHED_WRITE_REQ => unlink
  end.

(** [jiffies + delay]; the timer is deleted first if it is pending. *)
Definition basic_sched_submit_io_work (b : ptr) : ST afq unit :=
  let! d := get_batch 668 b in
  for_each (work_selected d) (submit_work b);;
  spin_lock 723;;
  upd_ad (fun d => d <| keep_wait := NO_NEW_BATCH |>);;
  spin_unlock;;
  upd_ad (fun d => d <| batch_wait_timer := None |>);;
  let! now := jiffies in
  upd_ad (fun d => d <| batch_wait_timer := Some (u64 (now + START_IN_FLIGHT_TIME)) |>);;
  upd_ad (fun d => d <| batch_dead_timer := None |>);;
  let! now := jiffies in
  upd_ad (fun d => d <| batch_dead_timer := Some (u64 (now + AFQ_BATCH_DEAD_INTVAL)) |>).

Definition basic_sched_want_dispatch : ST afq Z :=
  spin_lock 753;;
  let! d := gets ad in
  spin_unlock;;
  if negb (batch_dead d =? 0) then ret 0
  else if keep_wait d =? ALLOW_NEW_BATCH then ret 1
  else
    let! n := gets (fun s => inflight (ad s)) in
    if (keep_wait d =? KEEP_IN_FLIGHT) && (n <? MIN_IN_FLIGHT) then ret 2 else ret 0.

(** [force] is not looked at. *)
Definition basic_sched_dispatch (force : bool) : ST afq Z :=
  let! want := basic_sched_want_dispatch in
  if want =? 0 then ret 0
  else
    let! r := basic_sched_select_io_work in
    match r with
    | (rv, Some b) => if (rv =? -1) || (rv =? 0) then ret 0
                      else basic_sched_submit_io_work b;; ret 1
    | (rv, None) => if (rv =? -1) || (rv =? 0) then ret 0 else lift (Fault (NullDeref 668))
    end.

(** ** System calls *)

Context {D : Driver}.

Fixpoint ask_elevator (n : nat) : ST afq unit :=
  match n with O => ret tt | S n => basic_sched_dispatch false;; ask_elevator n end.
Definition __blk_run_queue : ST afq unit := fun s => ask_elevator (drv_asks s) s.

(** What an entry hook does: return, with [*opaque] if it was written, or wait for
    the completion of a descriptor, which is then in [*opaque]. *)
Inductive entry_result :=
  | Returns (rv : Z) (opaque : option (option ptr))
  | Waits (desc : ptr).

(** [vio_counter < global_min_vio_counter] of an account that is scheduled. *)
Definition lower_global_min (a : account) : ST afq unit :=
  let! g := gets (fun s => global_min_vio_counter (ad s)) in
  if negb (account_id a =? 0) && (vio_counter a <? g)
  then upd_ad (fun d => d <| global_min_vio_counter := vio_counter a |>) else ret tt.

(** The account of the caller, with the minimum lowered to its counter. *)
Definition caller_acct (line cur : Z) : ST afq (option nat) :=
  let! o := get_acct cur in
  (match o with Some p => let! a := acct line p in lower_global_min a | None => ret tt end);;
  ret o.

(** A pointer to an account whose id is not 0. *)
Definition scheduled (o : option nat) : ST afq (option nat) :=
  match o with
  | None => ret None
  | Some p => let! a := acct 836 p in ret (if account_id a =? 0 then None else Some p)
  end.

(** Queueing the descriptor of a call and waking the driver, under the queue lock. *)
Definition queue_call (d : call_desc) (p : nat) : ST afq ptr :=
  let! desc := new_call d in
  add_io_work_to_acct (OfCall desc) p;;
  __blk_run_queue;;
  ret desc.

(** The part of [basic_sched_write_entry] before the label [sched_write]: either
    the call returns, or the account has to schedule it.  [afq_data->lock] is held,
    and not the queue lock. *)
Definition write_entry_admit (cur : Z) (o_direct : bool) (sched_uniq : Z)
    : ST afq (entry_result + nat) :=
  spin_lock 817;;
  let! uniq := gets q_sched_uniq in
  if negb (sched_uniq =? uniq) then ret (inl (Returns (-1) (Some None)))
  else
    let! o := caller_acct 829 cur in
    spin_unlock;;
    let! o := scheduled o in
    match o with
    | None => ret (inl (Returns 0 (Some None)))
    | Some p =>
        upd_acct p (fun a => a <| num_write_call ::= fun n => s32 (n + 1) |>);;
        if o_direct then ret (inr p)
        else
          let! a := acct 846 p in
          let! g := gets (fun s => global_min_vio_counter2 (ad s)) in
          if s64 (vio_counter a - g) <=? WRITE_ALLOWANCE then
            upd_acct p (fun a => a <| num_write_passed ::= fun n => s32 (n + 1) |>);;
            ret (inl (Returns 0 (Some None)))
          else ret (inr p)
    end.

(** From the label [sched_write]. *)
Definition write_entry_sched (p : nat) (file : ptr) (count pos : Z) : ST afq entry_result :=
  upd_acct p (fun a => a <| num_write_blocked ::= fun n => s32 (n + 1) |>);;
  let! d := in_clock (get_wrdesc file count pos) in
  match d with
  | inr err => ret (Returns err None)
  | inl d => let! desc := queue_call (WrCall (d <| w_acct := Some p |>)) p in ret (Waits desc)
  end.

Definition basic_sched_write_entry (cur : Z) (file : ptr) (o_direct : bool) (count pos sched_uniq : Z)
    : ST afq entry_result :=
  let! r := write_entry_admit cur o_direct sched_uniq in
  match r with
  | inl r => ret r
  | inr p => write_entry_sched p file count pos
  end.

(** [put_]: the descriptor is freed after its batch has been told. *)
Definition call_return (owner_batch : option ptr) (desc : ptr) (sched_uniq : Z) : ST afq unit :=
  let! uniq := gets q_sched_uniq in
  dec_check_cleanup_batch (uniq =? sched_uniq) owner_batch;;
  free_call desc.

Definition basic_sched_write_return (opaque : option ptr) (sched_uniq : Z) : ST afq unit :=
  match opaque with
  | None => ret tt
  | Some p => let! x := WR_IO 891 (OfCall p) in call_return (w_owner_batch (snd x)) p sched_uniq
  end.

(** The part of [basic_sched_mkdir_entry] before the descriptor. *)
Definition mkdir_entry_admit (cur sched_uniq : Z) : ST afq (entry_result + nat) :=
  let! uniq := gets q_sched_uniq in
  if negb (sched_uniq =? uniq) then ret (inl (Returns (-1) (Some None)))
  else
    let! o := caller_acct 912 cur in
    let! o := scheduled o in
    match o with
    | None => ret (inl (Returns 0 (Some None)))
    | Some p =>
        let! a := acct 922 p in
        let! g := gets (fun s => global_min_vio_counter2 (ad s)) in
        if s64 (vio_counter a - g) <=? WRITE_ALLOWANCE then ret (inl (Returns 0 (Some None)))
        else ret (inr p)
    end.

Definition mkdir_entry_sched (p : nat) (dir dentry : ptr) (mode : Z) : ST afq entry_result :=
  let! d := in_clock (get_mkdir_desc dir dentry mode) in
  match d with
  | inr err => ret (Returns err None)
  | inl d => let! desc := queue_call (MkdirCall (d <| m_acct := Some p |>)) p in ret (Waits desc)
  end.

Definition basic_sched_mkdir_entry (cur : Z) (dir dentry : ptr) (mode sched_uniq : Z)
    : ST afq entry_result :=
  let! r := mkdir_entry_admit cur sched_uniq in
  match r with
  | inl r => ret r
  | inr p => mkdir_entry_sched p dir dentry mode
  end.

Definition basic_sched_mkdir_return (opaque : option ptr) (sched_uniq : Z) : ST afq unit :=
  match opaque with
  | None => ret tt
  | Some p => let! x := MKDIR_IO 962 (OfCall p) in call_return (m_owner_batch (snd x)) p sched_uniq
  end.

(** The descriptor is allocated before the lock is taken; where it is freed again
    it does not get an address here. *)
Definition basic_sched_fsync_entry (cur : Z) (file : ptr) (datasync sched_uniq : Z)
    : ST afq entry_result :=
  let! d := in_clock (get_fsync_desc file datasync) in
  match d with
  | inr err => ret (Returns err None)
  | inl d =>
      let! uniq := gets q_sched_uniq in
      if negb (sched_uniq =? uniq) then ret (Returns (-1) (Some None))
      else
        let! o := get_acct cur in
        let! o := scheduled o in
        match o with
        | None => ret (Returns 0 (Some None))
        | Some p => let! desc := queue_call (FsyncCall (d <| f_acct := Some p |>)) p in
                    ret (Waits desc)
        end
  end.

Definition basic_sched_fsync_return (opaque : option ptr) (sched_uniq : Z) : ST afq unit :=
  match opaque with
  | None => ret tt
  | Some p => let! x := FSYNC_IO 1036 (OfCall p) in call_return (f_owner_batch (snd x)) p sched_uniq
  end.

(** ** Threads *)

(** [others]: what the rest of the system does during each [msleep], until the
    thread is told to stop. *)
Definition sched_thread_func (others : list (ST afq unit)) : ST afq Z :=
  for_each others (fun other => __blk_run_queue;; other);; ret 0.
Definition min_thread_func (others : list (ST afq unit)) : ST afq Z :=
  for_each others (fun other => update_active_min;; other);; ret 0.

(** ** Settings *)

Definition basic_kv_set_callback (id : Z) (key : string) (val : Z) : ST afq unit :=
  let! o := get_acct id in
  match o with
  | None => ret tt
  | Some p =>
      let! a := acct 1170 p in
      (if String.eqb key "ioprio" && negb (val =? ioprio a)
       then upd_acct p (fun a => a <| ioprio := s32 val |>) else ret tt);;
      let! a := acct 1177 p in
      if String.eqb key "vio_counter" && negb (val =? vio_counter a)
      then upd_acct p (fun a => a <| vio_counter := val |>) else ret tt
  end.

(** ** Setting up and tearing down *)

(** [sched_thread_ok] and [min_thread_ok]: does [kthread_create] succeed?  The disk
    list is that of ioctl_helper.c; without [afq_data] the elevator is not set up. *)
Definition basic_sched_init_data (sched_thread_ok min_thread_ok : bool) (q : ptr) (disks : disk_list)
    : ST world (Z * option afq_data * disk_list) :=
  let! eq_ok := kmalloc in
  if negb eq_ok then ret (- ENOMEM, None, disks)
  else
    let! ad_ok := kmalloc in
    if negb ad_ok then ret (- ENOMEM, None, disks)
    else
      let! b := sim_batch_new in
      match b with
      | None => ret (- ENOMEM, None, disks)
      | Some sim_batch =>
          let d := {| ad_accts := init_acct_hash (AcctHash [] []); active_acct_list := [];
                      min_acct := None; global_min_vio_counter := MAX_VIO_COUNTER_THRESHOLD;
                      global_min_vio_counter2 := MAX_VIO_COUNTER_THRESHOLD;
                      last_served_acct := None; lock := false; keep_wait := ALLOW_NEW_BATCH;
                      batch_dead := 0; inflight := 0; ad_sim_batch := sim_batch;
                      batch_wait_timer := None; batch_dead_timer := None; disk_full_count := 0;
                      prio_served_rqs := replicate (Z.to_nat IOPRIO_BE_NR) 0;
                      caust_count_dist := replicate (Z.to_nat MAX_CAUSE_COUNT) 0;
                      journal_cct := replicate (Z.to_nat MAX_CAUSE_COUNT) 0 |} in
          if negb sched_thread_ok || negb min_thread_ok then ret (- ENOMEM, None, disks)
          else
            let! di_ok := kmalloc in
            ret (0, Some d, snd (ioctl_helper_register_disk di_ok disks q))
      end.

(** What is left when [afq_data] is freed: the timers that are still pending, and
    the disks.  Both branches delete [batch_dead_timer]. *)
Definition basic_sched_exit_data (q : ptr) (d : afq_data) (disks : disk_list)
    : result (afq_data * disk_list) :=
  let d := match batch_dead_timer d with Some _ => d <| batch_dead_timer := None |> | None => d end in
  let d := match batch_wait_timer d with Some _ => d <| batch_dead_timer := None |> | None => d end in
  let? disks := ioctl_helper_unregister_disk disks q in
  Ok (d <| ad_accts ::= free_accounts |>, disks).

End Ops.
