(* ===== verification/AfqInv.v ===== *)
(** * Actually fair queuing: the invariant

    [data_inv] says that the data the accounting works on is well formed; it holds at
    every point of the code.  [calm] says that no counter is beyond the threshold and
    no batch of simulated requests is full, which holds whenever the accounting is
    done.  [work_inv] is about the works: the active accounts are those with pending
    works, every system call that waits is on the list of exactly one account, and
    each batch counts the works that it let go and that have not returned.

    [frame] is what the accounting leaves alone. *)

From S2P Require Import Prelude Keeps CInt Kernel DiskSim IoBatch HashTable CauseTags Tags Jiffies.
From S2P Require Import SplitAccount SplitSched IoctlHelper Afq AfqOps.

#[export] Instance tagged_request : Tagged request := {| tag_bios := rq_bio; tag_causes := RQ_CAUSES |}.

(** The priorities for which the index of [prio_served_rqs] is in range. *)
Definition prio_ok (prio : Z) : Prop := -0x7ffffff7 <= prio <= 8.

(** ** Works *)

Definition works_of (s : afq) (p : nat) : list io_ref :=
  match heap s !! p with Some a => io_work_list_head a | None => [] end.
Definition pending (s : afq) : list io_ref := flat_map (works_of s) (active_acct_list (ad s)).

Definition call_owner (c : call_desc) : option ptr :=
  match c with
  | WrCall d => w_owner_batch d | FsyncCall d => f_owner_batch d | MkdirCall d => m_owner_batch d
  end.
Definition call_type (c : call_desc) : io_type :=
  match c with
  | WrCall _ => SCHED_SYS_WRITE | FsyncCall _ => SCHED_SYS_FSYNC | MkdirCall _ => SCHED_SYS_MKDIR
  end.
Definition rq_owner (s : afq) (rq : ptr) : option ptr :=
  match rqs s !! rq with
  | Some r => match rq_desc r with Some d => r_owner_batch d | None => None end
  | None => None
  end.

(** The works that a batch let go and that have not returned. *)
Definition calls_of (b : ptr) (s : afq) : gmap ptr call :=
  filter (fun x : ptr * call => call_owner (c_desc (snd x)) = Some b) (calls s).
Definition reqs_of (b : ptr) (s : afq) : list ptr :=
  filter (fun rq => rq_owner s rq = Some b) (dispatch_list s).
Definition outstanding (b : ptr) (s : afq) : Z :=
  Z.of_nat (base.size (calls_of b s) + length (reqs_of b s)).

(** The descriptor of a request is that of this request. *)
Definition has_desc (s : afq) (rq : ptr) (d : req_desc) : Prop :=
  (exists r, rqs s !! rq = Some r /\ rq_desc r = Some d) /\ r_rq d = rq.

Definition waiting (s : afq) (w : io_ref) : Prop :=
  match w with
  | OfCall p => exists c, calls s !! p = Some c /\ c_done c = false
  | OfReq rq => (exists d, has_desc s rq d /\ iow_type (r_io_work d) = SCHED_READ_REQ /\
                   r_owner_batch d = None) /\ rq ∉ dispatch_list s
  end.

(** [sel] is the batch that is being made, if there is one, and [lim] are the works
    that are on no account's list and not yet let go: those the batch has selected,
    or the one that is about to be queued. *)
Definition batch_ok (sel : option ptr) (lim : list io_ref) (s : afq) (b : ptr) : Prop :=
  match batches s !! b with
  | None => outstanding b s = 0 /\ sel <> Some b
  | Some d =>
      one_loop_work d = outstanding b s /\
      if decide (sel = Some b)
      then work_selected d = lim /\ outstanding b s + Z.of_nat (length lim) <= MAX_BATCH_SIZE
      else work_selected d = [] /\ 0 < outstanding b s <= MAX_BATCH_SIZE
  end.

Record call_ok (waits : Prop) (c : call) : Prop := {
  ck_type : iow_type (call_work (c_desc c)) = call_type (c_desc c);
  ck_done : if c_done c then is_Some (call_owner (c_desc c))
            else call_owner (c_desc c) = None /\ waits;
}.

Record work_inv (sel : option ptr) (lim : list io_ref) (s : afq) : Prop := {
  wi_active_nodup : NoDup (active_acct_list (ad s));
  wi_active : forall p, p ∈ active_acct_list (ad s) <-> works_of s p <> [];
  wi_nodup : NoDup (pending s ++ lim);
  wi_waiting : forall w, w ∈ pending s ++ lim -> waiting s w;
  wi_calls : forall p c, calls s !! p = Some c -> call_ok (OfCall p ∈ pending s ++ lim) c;
  wi_list_nodup : NoDup (dispatch_list s);
  wi_list : forall rq, rq ∈ dispatch_list s -> exists d, has_desc s rq d;
  wi_batches : forall b, batch_ok sel lim s b;
  wi_next : forall p, is_Some (calls s !! p) \/ is_Some (batches s !! p) -> (p < next_desc s)%positive;
}.

(** ** Data *)

(** What is known of the tags of the requests: that they are in order ([tagged_env], the default), or
    nothing ([bare_env]), while the file systems are at work on them. *)
Class Env := {
  env_ok : kernel -> gmap ptr request -> Prop;
  env_same : forall k k' rs, env_ok k rs -> same_causes k k' -> env_ok k' rs;
  env_write : forall k p f rs, env_ok k rs -> (forall c, causes_wf c -> causes_wf (f c)) ->
    (forall c, cl_size (f c) = cl_size c) -> env_ok (k <| k_causes ::= alter f p |>) rs;
}.

#[export] Instance tagged_env : Env := {|
  env_ok := env_wf; env_same := env_wf_same; env_write := env_wf_write;
|}.
Definition bare_env : Env := {|
  env_ok _ _ := True; env_same _ _ _ H _ := H; env_write _ _ _ _ H _ _ := H;
|}.

Section Inv.
Context {K : KernelFns} {EN : Env}.

Record data_inv (s : afq) : Prop := {
  di_accts : accts_wf (ad_accts (ad s));
  di_prio : Forall (fun a => prio_ok (ioprio a)) (heap s);
  di_batch : batch_wf (ad_sim_batch (ad s));
  di_last : forall p, last_served_acct (ad s) = Some p -> is_Some (heap s !! p);
  di_served : length (prio_served_rqs (ad s)) = 8%nat;
  di_dist : length (caust_count_dist (ad s)) = 32%nat;
  di_cct : length (journal_cct (ad s)) = 32%nat;
  di_env : env_ok (kern s) (rqs s);
  di_alloc : forall n, w_alloc (k_world (kern s)) n = true;
}.

Definition vio_ok (s : afq) : Prop :=
  Forall (fun a => vio_counter a <= MAX_VIO_COUNTER_THRESHOLD) (heap s) /\
  global_min_vio_counter2 (ad s) <= MAX_VIO_COUNTER_THRESHOLD.

Definition roomy (s : afq) : Prop :=
  batch_fullb (ad_sim_batch (ad s)) = false /\
  Forall (fun a => batch_fullb (sim_batch a) = false) (heap s).

(** The batches have room, unless the flag of [do_disk_accounting] says otherwise. *)
Definition calm (full : bool) (s : afq) : Prop := vio_ok s /\ (full = false -> roomy s).

Record afq_inv (s : afq) : Prop := {
  inv_data : data_inv s;
  inv_calm : calm false s;
  inv_work : work_inv None [] s;
  inv_lock : lock (ad s) = false;
}.

End Inv.

(** ** The frame of the accounting *)

Record acct_frame (a a' : account) : Prop := {
  af_id : account_id a' = account_id a;
  af_works : io_work_list_head a' = io_work_list_head a;
  af_prio : ioprio a' = ioprio a;
}.

Record frame (s s' : afq) : Prop := {
  fr_rqs : rqs s' = rqs s;
  fr_calls : calls s' = calls s;
  fr_batches : batches s' = batches s;
  fr_next : next_desc s' = next_desc s;
  fr_list : dispatch_list s' = dispatch_list s;
  fr_uniq : q_sched_uniq s' = q_sched_uniq s;
  fr_active : active_acct_list (ad s') = active_acct_list (ad s);
  fr_last : last_served_acct (ad s') = last_served_acct (ad s);
  fr_lock : lock (ad s') = lock (ad s);
  fr_wait : keep_wait (ad s') = keep_wait (ad s);
  fr_dead : batch_dead (ad s') = batch_dead (ad s);
  fr_inflight : inflight (ad s') = inflight (ad s);
  fr_heap : forall p a, heap s !! p = Some a -> exists a', heap s' !! p = Some a' /\ acct_frame a a';
  fr_new : forall p a, heap s' !! p = Some a -> heap s !! p = None -> io_work_list_head a = [];
  fr_causes : forall p, is_Some (k_causes (kern s) !! p) -> is_Some (k_causes (kern s') !! p);
}.

#[export] Instance afq_acct_frame_preorder : PreOrder acct_frame.
Proof.
  split; [by intros a; split |].
  intros a b c [A1 A2 A3] [B1 B2 B3]. split; congruence.
Qed.

#[export] Instance afq_frame_preorder : PreOrder frame.
Proof.
  split.
  - intros s. split; auto; [|congruence]. intros p a Ha. exists a. split; [done | reflexivity].
  - intros s1 s2 s3 [A1 A2 A3 A4 A5 A6 A7 A8 A9 A10 A11 A12 A13 A14 A15]
      [B1 B2 B3 B4 B5 B6 B7 B8 B9 B10 B11 B12 B13 B14 B15].
    split; try congruence; auto.
    + intros p a (a' & Ha' & E)%A13. destruct (B13 p a' Ha') as (a'' & Ha'' & E').
      exists a''. split; [done |]. by transitivity a'.
    + intros p a Ha Hn. destruct (heap s2 !! p) as [a2|] eqn:E2; [|by apply (B14 p a)].
      destruct (B13 p a2 E2) as (a3 & Ha3 & F). simplify_eq.
      rewrite (af_works _ _ F). by apply (A14 p a2).
Qed.

Lemma frame_works s s' p : frame s s' -> works_of s' p = works_of s p.
Proof.
  intros F. unfold works_of. destruct (heap s !! p) as [a|] eqn:Ea.
  - destruct (fr_heap _ _ F _ _ Ea) as (a' & -> & E). apply E.
  - destruct (heap s' !! p) as [a'|] eqn:Ea'; [|done]. by apply (fr_new _ _ F p a').
Qed.

(** ** What the invariant of the works depends on *)

Record same_works (s s' : afq) : Prop := {
  sw_active : active_acct_list (ad s') = active_acct_list (ad s);
  sw_works : forall p, works_of s' p = works_of s p;
  sw_rqs : rqs s' = rqs s;
  sw_calls : calls s' = calls s;
  sw_batches : batches s' = batches s;
  sw_next : next_desc s' = next_desc s;
  sw_list : dispatch_list s' = dispatch_list s;
}.

Lemma frame_same_works s s' : frame s s' -> same_works s s'.
Proof. intros F. split; try apply F. intros p. by apply frame_works. Qed.

Lemma same_works_pending s s' : same_works s s' -> pending s' = pending s.
Proof.
  intros [E1 E2 _ _ _ _ _]. unfold pending. rewrite E1. clear E1.
  induction (active_acct_list (ad s)) as [|p l IH]; cbn [flat_map]; [done |]. by rewrite E2, IH.
Qed.

Lemma same_works_outstanding s s' b : same_works s s' -> outstanding b s' = outstanding b s.
Proof.
  intros [_ _ E1 E2 _ _ E3]. unfold outstanding, calls_of, reqs_of, rq_owner. by rewrite E1, E2, E3.
Qed.

Lemma same_works_waiting s s' w : same_works s s' -> waiting s w -> waiting s' w.
Proof.
  intros [_ _ E1 E2 _ _ E3]. unfold waiting, has_desc. by rewrite E1, E2, E3.
Qed.

Lemma same_works_inv sel lim s s' : same_works s s' -> work_inv sel lim s -> work_inv sel lim s'.
Proof.
  intros E [H1 H2 H3 H4 H5 H6 H7 H8 H9].
  pose proof (same_works_pending _ _ E) as Ep. pose proof E as [E1 E2 E3 E4 E5 E6 E7].
  split; rewrite ?Ep, ?E1, ?E4, ?E5, ?E6, ?E7; auto.
  - intros p. by rewrite E2.
  - intros w Hw. eapply same_works_waiting; eauto.
  - intros rq Hrq. destruct (H7 rq Hrq) as [d Hd]. exists d. unfold has_desc. by rewrite E3.
  - intros b. specialize (H8 b). unfold batch_ok in *.
    by rewrite E5, (same_works_outstanding _ _ _ E).
Qed.

(** ** Accounts *)

Definition put_acct (p : nat) (a : account) (s : afq) : afq :=
  s <| ad ::= fun d => d <| ad_accts ::= fun h => h <| a_heap ::= <[p := a]> |> |> |>.

Lemma afq_acct_run line p s a : heap s !! p = Some a -> acct line p s = Ok (a, s).
Proof. unfold acct. by intros ->. Qed.

Lemma afq_upd_acct_run p f s a :
  heap s !! p = Some a -> upd_acct p f s = Ok (tt, put_acct p (f a) s).
Proof.
  unfold heap. intros Ha. unfold upd_acct, upd_ad, modify, put_acct, upd, update_field.
  by rewrite (list_alter_insert f _ _ _ Ha).
Qed.

Lemma afq_put_lookup p a s q :
  (p < length (heap s))%nat ->
  heap (put_acct p a s) !! q = if decide (q = p) then Some a else heap s !! q.
Proof.
  intros Hp. change (heap (put_acct p a s)) with (<[p := a]> (heap s)).
  rewrite list_lookup_insert. repeat case_decide; naive_solver.
Qed.

Lemma afq_put_put p a b s : put_acct p b (put_acct p a s) = put_acct p b s.
Proof. unfold put_acct. simpl. by rewrite list_insert_insert_eq. Qed.

Section Changes.
Context {K : KernelFns} {EN : Env}.

(** An account may change as long as it keeps its id, its priority and the books of
    its batch. *)
Lemma data_inv_put s p a a' :
  data_inv s -> heap s !! p = Some a -> account_id a' = account_id a ->
  prio_ok (ioprio a') -> batch_wf (sim_batch a') -> data_inv (put_acct p a' s).
Proof.
  intros [H1 H2 H3 H4 H5 H6 H7 H8 H9] Ha Hid Hp Hb. split; auto.
  - by eapply accts_wf_put.
  - by apply Forall_insert.
  - intros q [b Hq]%H4. rewrite afq_put_lookup by (by eapply lookup_lt_Some).
    case_decide; eauto.
Qed.

Lemma frame_put_acct s p a a' :
  heap s !! p = Some a -> acct_frame a a' -> frame s (put_acct p a' s).
Proof.
  intros Ha Hf. pose proof (lookup_lt_Some _ _ _ Ha) as Hl. split; auto.
  - intros q b Hb. rewrite afq_put_lookup by done. case_decide; [subst; simplify_eq; eauto |].
    exists b. split; [done | reflexivity].
  - intros q b. rewrite afq_put_lookup by done. case_decide; [subst; congruence | congruence].
Qed.

(** What the accounting may change of the scheduler besides the accounts. *)
Lemma data_inv_ad s d :
  data_inv s -> ad_accts d = ad_accts (ad s) -> batch_wf (ad_sim_batch d) ->
  (last_served_acct d = last_served_acct (ad s) \/
   exists p, last_served_acct d = Some p /\ is_Some (heap s !! p)) ->
  length (prio_served_rqs d) = 8%nat -> length (caust_count_dist d) = 32%nat ->
  length (journal_cct d) = 32%nat -> data_inv (s <| ad := d |>).
Proof.
  intros [H1 H2 H3 H4 H5 H6 H7 H8 H9] E Hb Hl L1 L2 L3.
  assert (Eh : heap (s <| ad := d |>) = heap s) by (unfold heap; simpl; by rewrite E).
  split; rewrite ?Eh; auto; simpl; [by rewrite E |].
  intros p Hp. destruct Hl as [El|(q & El & Hq)]; rewrite El in Hp; [by apply H4 | by simplify_eq].
Qed.

Lemma frame_ad s d :
  ad_accts d = ad_accts (ad s) -> active_acct_list d = active_acct_list (ad s) ->
  last_served_acct d = last_served_acct (ad s) -> lock d = lock (ad s) ->
  keep_wait d = keep_wait (ad s) -> batch_dead d = batch_dead (ad s) ->
  inflight d = inflight (ad s) -> frame s (s <| ad := d |>).
Proof.
  intros E. assert (Eh : heap (s <| ad := d |>) = heap s) by (unfold heap; simpl; by rewrite E).
  split; auto; rewrite Eh; [|congruence]. intros p a Ha. exists a. split; [done | reflexivity].
Qed.

Lemma data_inv_kern s k :
  data_inv s -> env_ok k (rqs s) -> w_alloc (k_world k) = w_alloc (k_world (kern s)) ->
  data_inv (s <| kern := k |>).
Proof.
  intros [H1 H2 H3 H4 H5 H6 H7 H8 H9] He Hw. split; auto. simpl. by rewrite Hw.
Qed.

Lemma data_inv_world s w :
  data_inv s -> w_alloc w = w_alloc (k_world (kern s)) ->
  data_inv (s <| kern ::= fun k => k <| k_world := w |> |>).
Proof.
  intros Hi Hw. apply (data_inv_kern s ((kern s) <| k_world := w |>)); auto.
  by eapply env_same; [apply Hi |].
Qed.

Lemma frame_kernel s k :
  (forall p, is_Some (k_causes (kern s) !! p) -> is_Some (k_causes k !! p)) ->
  frame s (s <| kern := k |>).
Proof.
  intros H. split; simpl; auto; [|unfold heap; simpl; congruence].
  intros p a Ha. exists a. split; [done | reflexivity].
Qed.

End Changes.
