(* ===== verification/AfqVio.v ===== *)
(** * Actually fair queuing: virtual I/O counters

    What one charge does to the counters: [add_vio_counter] adds the share of the
    account, keeps the minimum of the active accounts up to date, and starts all
    counters again when one of them passes the threshold. *)

From S2P Require Import Prelude Keeps CInt Kernel DiskSim IoBatch HashTable CauseTags Tags Jiffies.
From S2P Require Import SplitAccount SplitSched IoctlHelper Afq AfqOps AfqInv.

(** ** The clock *)

Definition set_tick (n : nat) (s : afq) : afq :=
  s <| kern ::= fun k => k <| k_world ::= fun w => w <| w_tick := n |> |> |>.
Definition ticks (s : afq) : nat := w_tick (k_world (kern s)).

Lemma jiffies_run s :
  jiffies s = Ok (w_jiffies (k_world (kern s)) (ticks s), set_tick (S (ticks s)) s).
Proof. done. Qed.

Lemma set_tick_id s : set_tick (ticks s) s = s.
Proof. destruct s as [[[] ? ? ? ? ? ? ?] ? ? ? ? ? ? ? ?]. done. Qed.

(** ** The accounts, up to what the counters say *)

(** An account without its counters. *)
Definition uncounted (a : account) : account :=
  a <| vio_counter := 0 |> <| vio_reset := 0 |> <| estimate := 0 |>.

(** The state without the clock and the counters: what a charge leaves alone. *)
Definition erase (s : afq) : afq :=
  (set_tick 0 s) <| ad ::= fun d => d <| ad_accts ::= fun h => h <| a_heap ::= fmap uncounted |> |>
    <| min_acct := None |> <| global_min_vio_counter := 0 |> <| global_min_vio_counter2 := 0 |> |>.

Definition vio_frame (s s' : afq) : Prop := erase s' = erase s.

#[export] Instance vio_frame_preorder : PreOrder vio_frame.
Proof. split; [done |]. intros s1 s2 s3 H1 H2. unfold vio_frame in *. by rewrite H2. Qed.

Lemma vf_heap s s' : vio_frame s s' -> uncounted <$> heap s' = uncounted <$> heap s.
Proof. apply (f_equal heap). Qed.

Lemma vio_frame_tick s n : vio_frame s (set_tick n s).
Proof. done. Qed.

Lemma vio_frame_min s m g g2 :
  vio_frame s (s <| ad ::= fun d => d <| min_acct := m |> <| global_min_vio_counter := g |>
                                      <| global_min_vio_counter2 := g2 |> |>).
Proof. done. Qed.

Lemma vio_frame_put s p a a' :
  heap s !! p = Some a -> uncounted a' = uncounted a -> vio_frame s (put_acct p a' s).
Proof.
  unfold heap. intros Ha E. unfold vio_frame, erase, put_acct, set_tick. simpl.
  rewrite list_fmap_insert, list_insert_id; [done |]. by rewrite list_lookup_fmap, Ha, E.
Qed.

Lemma vio_frame_at s s' p a :
  vio_frame s s' -> heap s !! p = Some a ->
  exists a', heap s' !! p = Some a' /\ uncounted a' = uncounted a.
Proof.
  intros F Ha. assert (E : (uncounted <$> heap s') !! p = Some (uncounted a))
    by (rewrite (vf_heap _ _ F), list_lookup_fmap, Ha; done).
  rewrite list_lookup_fmap in E. destruct (heap s' !! p) as [a'|]; [|done].
  exists a'. split; [done |]. by apply (inj Some) in E.
Qed.

Lemma uncounted_frame a a' : uncounted a' = uncounted a -> acct_frame a a'.
Proof. destruct a, a'. intros E. injection E. intros. by split. Qed.

Lemma vio_frame_length s s' : vio_frame s s' -> length (heap s') = length (heap s).
Proof.
  intros F. rewrite <- (length_fmap uncounted (heap s')), (vf_heap _ _ F). apply length_fmap.
Qed.

Lemma vio_frame_frame s s' : vio_frame s s' -> frame s s'.
Proof.
  intros F. pose proof (vio_frame_length _ _ F) as El. pose proof (vio_frame_at s s') as Hat.
  split.
  - exact (f_equal rqs F).
  - exact (f_equal calls F).
  - exact (f_equal batches F).
  - exact (f_equal next_desc F).
  - exact (f_equal dispatch_list F).
  - exact (f_equal q_sched_uniq F).
  - exact (f_equal (fun s => active_acct_list (ad s)) F).
  - exact (f_equal (fun s => last_served_acct (ad s)) F).
  - exact (f_equal (fun s => lock (ad s)) F).
  - exact (f_equal (fun s => keep_wait (ad s)) F).
  - exact (f_equal (fun s => batch_dead (ad s)) F).
  - exact (f_equal (fun s => inflight (ad s)) F).
  - intros p a Ha. destruct (Hat p a F Ha) as (a' & Ha' & E'). eauto using uncounted_frame.
  - intros p a Ha Hn. apply lookup_lt_Some in Ha. apply lookup_ge_None in Hn. lia.
  - intros p. by rewrite (f_equal (fun s => k_causes (kern s)) F : k_causes (kern s') = k_causes (kern s)).
Qed.

(** ** The minimum of the active accounts *)

Section Min.
Context {K : KernelFns} {KO : KernelOk K} {J : JiffyFns} {EN : Env}.

Lemma active_min_turn_run s best p a :
  heap s !! p = Some a ->
  exists best' n, active_min_turn best p s = Ok (best', set_tick n s) /\
    (best' = best \/ (best' = (vio_counter a, Some p) /\ vio_counter a < fst best)).
Proof.
  intros Ha. unfold active_min_turn. rewrite (bind_ok _ _ _ _ _ (afq_acct_run _ _ _ _ Ha)).
  destruct (account_id a =? 0).
  { exists best, (ticks s). rewrite set_tick_id. auto. }
  rewrite (bind_ok _ _ _ _ _ (jiffies_run s)).
  destruct (_ && _) eqn:E; eexists _, _; (split; [done |]); [right | by left].
  bool_to_prop. auto.
Qed.

Lemma set_tick_tick n m s : set_tick n (set_tick m s) = set_tick n s.
Proof. done. Qed.

Lemma active_min_loop l best s :
  (forall p, p ∈ l -> is_Some (heap s !! p)) ->
  exists best' n, for_acc l best active_min_turn s = Ok (best', set_tick n s) /\
    (best' = best \/ exists p a, heap s !! p = Some a /\ best' = (vio_counter a, Some p) /\
       vio_counter a < fst best).
Proof.
  revert best s. induction l as [|p l IH]; intros best s Hl; cbn [for_acc].
  { exists best, (ticks s). rewrite set_tick_id. auto. }
  destruct (Hl p) as [a Ha]; [left |].
  destruct (active_min_turn_run s best p a Ha) as (b1 & n1 & E1 & H1).
  rewrite (bind_ok _ _ _ _ _ E1).
  destruct (IH b1 (set_tick n1 s)) as (b2 & n2 & E2 & H2); [intros q Hq; apply Hl; by right |].
  rewrite E2. exists b2, n2. split; [done |].
  destruct H1 as [->|[-> Hlt]], H2 as [->|(q & c & Hq & -> & Hlt2)]; simpl in *; eauto 6.
  right. exists q, c. split_and!; auto. lia.
Qed.

Lemma nodes_have_accts s p :
  accts_wf (ad_accts (ad s)) -> p ∈ hash_nodes (a_table (ad_accts (ad s))) -> is_Some (heap s !! p).
Proof. intros Hw Hp. by apply (in_nodes _ p Hw) in Hp. Qed.

Lemma update_active_min_run s :
  accts_wf (ad_accts (ad s)) ->
  exists n s', update_active_min s = Ok (tt, s') /\
    (s' = set_tick n s \/ exists p a, heap s !! p = Some a /\
       vio_counter a < MAX_VIO_COUNTER_THRESHOLD /\
       s' = (set_tick n s) <| ad ::= fun d => d <| global_min_vio_counter2 := vio_counter a |>
                                                <| min_acct := Some p |> |>).
Proof.
  intros Hw. unfold update_active_min, all_accts, gets, bind at 1.
  destruct (active_min_loop (hash_nodes (a_table (ad_accts (ad s))))
    (MAX_VIO_COUNTER_THRESHOLD, None) s) as (best & n & E & H).
  { intros p. by apply nodes_have_accts. }
  rewrite (bind_ok _ _ _ _ _ E). destruct H as [->|(p & a & Ha & -> & Hlt)].
  - exists n, (set_tick n s). rewrite Z.eqb_refl. auto.
  - simpl in Hlt. destruct (Z.eqb_spec (vio_counter a) MAX_VIO_COUNTER_THRESHOLD); [lia |].
    exists n. eexists. split; [done |]. right. exists p, a. auto.
Qed.

Lemma update_active_min_frame s :
  accts_wf (ad_accts (ad s)) ->
  exists s', update_active_min s = Ok (tt, s') /\ vio_frame s s' /\ heap s' = heap s /\
    global_min_vio_counter (ad s') = global_min_vio_counter (ad s) /\
    (global_min_vio_counter2 (ad s) <= MAX_VIO_COUNTER_THRESHOLD ->
     global_min_vio_counter2 (ad s') <= MAX_VIO_COUNTER_THRESHOLD).
Proof.
  intros Hw. destruct (update_active_min_run s Hw) as (n & s' & E & H). exists s'.
  split; [done |]. destruct H as [->|(p & a & Ha & Hlt & ->)].
  - split; [apply vio_frame_tick |]. auto.
  - split_and!; auto; [|simpl; lia].
    transitivity (set_tick n s); [apply vio_frame_tick |]. 
    apply (vio_frame_min _ (Some p) (global_min_vio_counter (ad s))).
Qed.

(** ** Charging *)

Lemma vio_frame_data s s' : vio_frame s s' -> data_inv s -> data_inv s'.
Proof.
  intros F [H1 H2 H3 H4 H5 H6 H7 H8 H9]. pose proof (vf_heap _ _ F) as Eh.
  assert (Ep : ioprio <$> heap s' = ioprio <$> heap s).
  { apply (f_equal (fmap ioprio)) in Eh. by rewrite <- !list_fmap_compose in Eh. }
  split.
  - eapply accts_wf_ext; [exact H1 | exact (f_equal (fun s => a_table (ad_accts (ad s))) F) |].
    apply (f_equal (fmap (fun a => (account_id a, sim_batch a)))) in Eh.
    by rewrite <- !list_fmap_compose in Eh.
  - by eapply (Forall_field ioprio).
  - by rewrite (f_equal (fun s => ad_sim_batch (ad s)) F : ad_sim_batch (ad s') = ad_sim_batch (ad s)).
  - intros p Hp. rewrite (fr_last _ _ (vio_frame_frame _ _ F)) in Hp. destruct (H4 p Hp) as [a Ha].
    destruct (vio_frame_at _ _ _ _ F Ha) as (a' & Ha' & _). eauto.
  - by rewrite (f_equal (fun s => prio_served_rqs (ad s)) F : prio_served_rqs (ad s') = prio_served_rqs (ad s)).
  - by rewrite (f_equal (fun s => caust_count_dist (ad s)) F : caust_count_dist (ad s') = caust_count_dist (ad s)).
  - by rewrite (f_equal (fun s => journal_cct (ad s)) F : journal_cct (ad s') = journal_cct (ad s)).
  - rewrite (f_equal rqs F : rqs s' = rqs s). eapply env_same; [exact H8 |]. split.
    + exact (f_equal (fun s => k_causes (kern s)) F).
    + exact (f_equal (fun s => k_next (kern s)) F).
  - intros n. rewrite (f_equal (fun s => w_alloc (k_world (kern s))) F :
      w_alloc (k_world (kern s')) = w_alloc (k_world (kern s))). apply H9.
Qed.

Lemma vio_frame_roomy s s' : vio_frame s s' -> roomy s -> roomy s'.
Proof.
  intros F [H1 H2]. split.
  - by rewrite (f_equal (fun s => ad_sim_batch (ad s)) F : ad_sim_batch (ad s') = ad_sim_batch (ad s)).
  - assert (Eb : sim_batch <$> heap s' = sim_batch <$> heap s).
    { pose proof (f_equal (fmap sim_batch) (vf_heap _ _ F)) as E. by rewrite <- !list_fmap_compose in E. }
    by eapply (Forall_field sim_batch (fun b => batch_fullb b = false)).
Qed.

Definition set_heap (h : list account) (s : afq) : afq :=
  s <| ad ::= fun d => d <| ad_accts ::= fun t => t <| a_heap := h |> |> |>.

Lemma vio_frame_heap s h : uncounted <$> h = uncounted <$> heap s -> vio_frame s (set_heap h s).
Proof. unfold heap. intros E. unfold vio_frame, erase, set_heap, set_tick. simpl. by rewrite E. Qed.

(** A loop that changes each account on its own. *)
Lemma upd_all_run f l s :
  NoDup l -> (forall p, p ∈ l -> is_Some (heap s !! p)) ->
  exists h, for_each l (fun q => upd_acct q f) s = Ok (tt, set_heap h s) /\
    forall i, h !! i = if decide (i ∈ l) then f <$> heap s !! i else heap s !! i.
Proof.
  revert s. induction l as [|p l IH]; intros s Hn Hl; cbn [for_each].
  { exists (heap s). split; [by destruct s as [? ? ? ? ? ? ? ? [[] ? ? ? ? ? ? ? ? ? ? ? ? ? ? ? ?]] |].
    intros i. rewrite decide_False; [done | apply not_elem_of_nil]. }
  apply list.NoDup_cons in Hn as [Hp Hn]. destruct (Hl p) as [a Ha]; [left |].
  rewrite (bind_ok _ _ _ _ _ (afq_upd_acct_run _ _ _ _ Ha)).
  pose proof (lookup_lt_Some _ _ _ Ha) as Hlt.
  destruct (IH (put_acct p (f a) s) Hn) as (h & E & Hh).
  { intros q Hq. rewrite afq_put_lookup by done. case_decide; [eauto |]. apply Hl. by right. }
  exists h. split; [by rewrite E |]. intros i. rewrite Hh, afq_put_lookup by done.
  destruct (decide (i = p)) as [->|Hne].
  - rewrite decide_False, decide_True by (done || left). by rewrite Ha.
  - destruct (decide (i ∈ l)), (decide (i ∈ p :: l)) as [Hi|Hi]; auto.
    + destruct Hi. by right.
    + by apply elem_of_cons in Hi as [|].
Qed.

Lemma upd_all_accts f s :
  accts_wf (ad_accts (ad s)) ->
  for_each (hash_nodes (a_table (ad_accts (ad s)))) (fun q => upd_acct q f) s
  = Ok (tt, set_heap (f <$> heap s) s).
Proof.
  intros Hw. pose proof (ah_nodes _ Hw) as Hn.
  destruct (upd_all_run f (hash_nodes (a_table (ad_accts (ad s)))) s) as (h & E & Hh).
  - rewrite Hn. apply NoDup_seq.
  - intros p. by apply nodes_have_accts.
  - rewrite E. do 3 f_equal. apply list_eq. intros i. rewrite Hh, list_lookup_fmap.
    case_decide as Hi; [done |]. destruct (heap s !! i) eqn:Ei; [|done]. destruct Hi.
    rewrite Hn. apply lookup_lt_Some in Ei. apply elem_of_seq. unfold heap in Ei. lia.
Qed.

(** The accounts after a charge. *)
Definition charged (a : account) : account := a <| vio_counter ::= fun v => s64 (v + vio_share a) |>.
Definition charged_heap (p : nat) (a : account) (h : list account) : list account :=
  let h := <[p := charged a]> h in
  if vio_counter (charged a) <=? MAX_VIO_COUNTER_THRESHOLD then h else reset_vio <$> h.

Lemma add_vio_counter_run s p a quantity :
  data_inv s -> heap s !! p = Some a ->
  exists s', add_vio_counter p quantity s = Ok (tt, s') /\ vio_frame s s' /\
    heap s' = charged_heap p a (heap s) /\
    (global_min_vio_counter2 (ad s) <= MAX_VIO_COUNTER_THRESHOLD ->
     global_min_vio_counter2 (ad s') <= MAX_VIO_COUNTER_THRESHOLD).
Proof.
  intros Hi Ha. unfold add_vio_counter.
  rewrite (bind_ok _ _ _ _ _ (afq_acct_run _ _ _ _ Ha)).
  rewrite (bind_ok _ _ _ _ _ (afq_upd_acct_run _ _ _ _ Ha)). fold (charged a).
  set (s1 := put_acct p (charged a) s).
  assert (F1 : vio_frame s s1) by (eapply vio_frame_put; [exact Ha | by destruct a]).
  assert (Hi1 : data_inv s1) by (by eapply vio_frame_data).
  assert (Hm : exists s2, (if bool_decide (min_acct (ad s1) = Some p) || bool_decide (min_acct (ad s1) = None)
      then update_active_min else ret tt) s1 = Ok (tt, s2) /\ vio_frame s1 s2 /\ heap s2 = heap s1 /\
      (global_min_vio_counter2 (ad s) <= MAX_VIO_COUNTER_THRESHOLD ->
       global_min_vio_counter2 (ad s2) <= MAX_VIO_COUNTER_THRESHOLD)).
  { destruct (_ || _); [|by exists s1].
    destruct (update_active_min_frame s1 (di_accts _ Hi1)) as (s2 & E & F & H & _ & G). exists s2. auto. }
  destruct Hm as (s2 & E2 & F2 & H2 & G2).
  rewrite (bind_ok _ _ s1 (min_acct (ad s1)) s1) by done.
  rewrite (bind_ok _ _ _ _ _ E2). assert (Hi2 : data_inv s2) by (by eapply vio_frame_data).
  assert (Ha2 : heap s2 !! p = Some (charged a)).
  { rewrite H2. unfold s1. rewrite afq_put_lookup by (by eapply lookup_lt_Some). by rewrite decide_True. }
  rewrite (bind_ok _ _ _ _ _ (afq_acct_run _ _ _ _ Ha2)).
  unfold charged_heap. destruct (Z.gtb_spec (vio_counter (charged a)) MAX_VIO_COUNTER_THRESHOLD) as [Hg|Hg].
  - destruct (Z.leb_spec (vio_counter (charged a)) MAX_VIO_COUNTER_THRESHOLD); [lia |].
    unfold all_accts. rewrite (bind_ok _ _ s2 (hash_nodes (a_table (ad_accts (ad s2)))) s2) by done.
    rewrite (bind_ok _ _ _ _ _ (upd_all_accts reset_vio s2 (di_accts _ Hi2))).
    eexists. split; [done |]. split; [|split; [by simpl; rewrite H2 | done]].
    transitivity s1; [done |]. transitivity s2; [done |].
    transitivity (set_heap (reset_vio <$> heap s2) s2); [|apply (vio_frame_min (set_heap (reset_vio <$> heap s2) s2) (min_acct (ad s2)) 0 0)].
    apply vio_frame_heap. rewrite <- list_fmap_compose. by apply list_fmap_ext.
  - destruct (Z.leb_spec (vio_counter (charged a)) MAX_VIO_COUNTER_THRESHOLD); [|lia].
    exists s2. split; [done |]. split; [by transitivity s1 |]. auto.
Qed.

(** Counters that were within the threshold stay there. *)
Lemma charged_heap_ok p a h :
  Forall (fun a => vio_counter a <= MAX_VIO_COUNTER_THRESHOLD) h ->
  Forall (fun a => vio_counter a <= MAX_VIO_COUNTER_THRESHOLD) (charged_heap p a h).
Proof.
  intros H. unfold charged_heap. destruct (Z.leb_spec (vio_counter (charged a)) MAX_VIO_COUNTER_THRESHOLD).
  - by apply Forall_insert.
  - apply Forall_fmap, Forall_true. intros b. simpl. by vm_compute.
Qed.

End Min.

Abbreviation keeps := (Keeps.keeps data_inv frame).

Section Steps.
Context {K : KernelFns} {KO : KernelOk K} {J : JiffyFns} {EN : Env}.

Definition has_acct (p : nat) (s : afq) : Prop := is_Some (heap s !! p).
Definition has_causes (p : ptr) (s : afq) : Prop := is_Some (k_causes (kern s) !! p).

Lemma afq_has_acct_frame p s s' : frame s s' -> has_acct p s -> has_acct p s'.
Proof. intros F [a Ha]. destruct (fr_heap _ _ F p a Ha) as (a' & Ha' & _). by eexists. Qed.
Lemma afq_has_causes_frame p s s' : frame s s' -> has_causes p s -> has_causes p s'.
Proof. intros F. apply (fr_causes _ _ F). Qed.

Lemma vio_frame_calm s s' full :
  vio_frame s s' -> vio_ok s' -> calm full s -> calm full s'.
Proof. intros F Hv [_ Hr]. split; [done |]. intros Hf. eapply vio_frame_roomy; eauto. Qed.

(** Charges keep the counters in bounds and everything but the counters as it was. *)
Lemma add_vio_frame p quantity :
  Keeps.keeps (fun s => data_inv s /\ vio_ok s) vio_frame (has_acct p) (add_vio_counter p quantity)
    (fun _ => has_acct p).
Proof.
  intros s [Hi [V1 V2]] [a Ha].
  destruct (add_vio_counter_run s p a quantity Hi Ha) as (s' & E & F & Hh & Hg).
  exists tt, s'. split_and!; auto; [by eapply vio_frame_data | split; [|by apply Hg] |].
  - rewrite Hh. by apply charged_heap_ok.
  - eapply afq_has_acct_frame; [by apply vio_frame_frame | by eexists].
Qed.

Lemma add_estimate_frame p quantity :
  Keeps.keeps (fun s => data_inv s /\ vio_ok s) vio_frame (has_acct p) (add_estimate_vio p quantity)
    (fun _ => has_acct p).
Proof.
  intros s [Hi [V1 V2]] [a Ha]. unfold add_estimate_vio.
  rewrite (bind_ok _ _ _ _ _ (afq_acct_run _ _ _ _ Ha)).
  rewrite (bind_ok _ _ _ _ _ (afq_upd_acct_run _ _ _ _ Ha)).
  set (a1 := a <| estimate ::= _ |>). pose proof (lookup_lt_Some _ _ _ Ha) as Hl.
  assert (F1 : vio_frame s (put_acct p a1 s)) by (eapply vio_frame_put; [exact Ha | by destruct a]).
  destruct (add_vio_frame p quantity (put_acct p a1 s)) as ([] & s' & E & Hi' & F & Hp).
  - split; [by eapply vio_frame_data |]. split; [|done]. apply Forall_insert; [done |].
    exact (Forall_lookup_1 _ _ _ _ V1 Ha).
  - unfold has_acct. rewrite afq_put_lookup, decide_True by done. by eexists.
  - exists tt, s'. split_and!; auto; try apply Hi'. by transitivity (put_acct p a1 s).
Qed.

(** What keeps the counters alone keeps the frame, and the room in the batches. *)
Lemma keeps_vio {A} full P (m : ST afq A) Q :
  Keeps.keeps (fun s => data_inv s /\ vio_ok s) vio_frame P m Q ->
  keeps (fun s => calm full s /\ P s) m (fun a s => calm full s /\ Q a s).
Proof.
  intros Hm s Hi [Hc HP]. destruct (Hm s (conj Hi (proj1 Hc)) HP) as (a & s' & E & [Hi' V'] & F & HQ).
  exists a, s'. split_and!; auto; [by apply vio_frame_frame | by eapply vio_frame_calm].
Qed.

Lemma keeps_add_vio full p quantity :
  keeps (fun s => calm full s /\ has_acct p s) (add_vio_counter p quantity)
        (fun _ s => calm full s /\ has_acct p s).
Proof. apply keeps_vio, add_vio_frame. Qed.

Lemma keeps_add_estimate full p quantity :
  keeps (fun s => calm full s /\ has_acct p s) (add_estimate_vio p quantity)
        (fun _ s => calm full s /\ has_acct p s).
Proof. apply keeps_vio, add_estimate_frame. Qed.

(** A change of one account that keeps the counter and the batch in bounds. *)
Lemma keeps_upd_acct full p f :
  (forall a, acct_frame a (f a)) -> (forall a, vio_counter (f a) = vio_counter a) ->
  (forall a, sim_batch (f a) = sim_batch a) ->
  keeps (fun s => calm full s /\ has_acct p s) (upd_acct p f)
        (fun _ s => calm full s /\ has_acct p s).
Proof.
  intros Hf Hv Hb s Hi [[[H1 H2] H3] [a Ha]]. pose proof (lookup_lt_Some _ _ _ Ha) as Hl.
  exists tt, (put_acct p (f a) s). split; [by apply afq_upd_acct_run |].
  pose proof (Hf a) as [E1 E2 E3].
  split; [|split; [by eapply frame_put_acct | split; [split; [split |] |]]].
  - eapply data_inv_put; eauto; [rewrite E3 | rewrite Hb].
    + exact (Forall_lookup_1 _ _ _ _ (di_prio _ Hi) Ha).
    + exact (Forall_lookup_1 _ _ _ _ (ah_batches _ (di_accts _ Hi)) Ha).
  - apply Forall_insert; [done |]. rewrite Hv. exact (Forall_lookup_1 _ _ _ _ H1 Ha).
  - done.
  - intros Hx. destruct (H3 Hx) as [R1 R2]. split; [done |]. apply Forall_insert; [done |].
    rewrite Hb. exact (Forall_lookup_1 _ _ _ _ R2 Ha).
  - unfold has_acct. rewrite afq_put_lookup by done. rewrite decide_True by done. by eexists.
Qed.

Lemma afq_keeps_acct P line p :
  keeps (fun s => P s /\ has_acct p s) (acct line p) (fun _ s => P s /\ has_acct p s).
Proof.
  intros s Hi [HP [a Ha]]. exists a, s. rewrite (afq_acct_run _ _ _ _ Ha).
  split_and!; auto; [reflexivity | by eexists].
Qed.

End Steps.
