(* ===== verification/AfqAccount.v ===== *)
(** * Actually fair queuing: the accounting

    The code that charges accounts for I/O, from [do_disk_accounting] up to
    [afq_account_request2] and the hooks for dirtied and freed pages, returns
    whenever memory is available, keeps the data well formed and the counters
    within the threshold, leaves room in all batches, and touches none of the
    works. *)

From S2P Require Import Prelude Keeps CInt Kernel DiskSim IoBatch HashTable CauseTags Tags Jiffies.
From S2P Require Import SplitAccount SplitSched IoctlHelper Afq AfqOps AfqInv AfqVio.

Section Account.
Context {K : KernelFns} {KO : KernelOk K} {J : JiffyFns} {EN : Env}.

(** ** Looking accounts up *)

Lemma afq_get_acct_run s id :
  data_inv s ->
  exists p a s', get_acct id s = Ok (Some p, s') /\ data_inv s' /\ frame s s' /\
    heap s' !! p = Some a /\ account_id a = id /\
    (forall full, calm full s -> calm full s') /\
    (heap s' = heap s \/ (heap s' = heap s ++ [a] /\ fresh_acct a)).
Proof.
  intros Hi. pose proof Hi as [H1 H2 H3 H4 H5 H6 H7 H8 H9].
  destruct (acct_get_alloc id (ad_accts (ad s)) (k_world (kern s)) H1 H9)
    as (p & a & h' & w' & E & Hw & Ew & Ha & Hid & Hh).
  unfold get_acct, zoom. rewrite E. exists p, a. eexists. split; [done |].
  assert (Hsub : forall q b, heap s !! q = Some b -> a_heap h' !! q = Some b).
  { intros q b Hq. destruct Hh as [->|[-> _]]; [done |]. simpl. by apply lookup_app_l_Some. }
  assert (Hnew : forall (P : account -> Prop), Forall P (heap s) -> (fresh_acct a -> P a) ->
    Forall P (a_heap h')).
  { intros P HP Hf. destruct Hh as [->|[-> Hfr]]; [done |]. simpl. apply Forall_app. split; [done |].
    apply Forall_singleton. auto. }
  split_and!; auto.
  - split; simpl; auto.
    + apply (Hnew (fun a => prio_ok (ioprio a))); [done |]. intros [_ _ -> _]. by vm_compute.
    + intros q Hq. destruct (H4 q Hq) as [b Hb]. exists b. by apply Hsub.
    + by eapply env_same; [exact H8 |].
    + by rewrite Ew.
  - split; auto.
    + intros q b Hb. exists b. split; [by apply Hsub | reflexivity].
    + unfold heap. simpl. intros q b Hb Hn. destruct Hh as [->|[-> Hfr]]; [congruence |].
      simpl in Hb. apply lookup_app_Some in Hb as [Hb|[_ Hb]]; [congruence |].
      apply list_lookup_singleton_Some in Hb as [_ <-]. apply Hfr.
  - intros full [[V1 V2] R]. split; [split; [|done] |].
    + apply (Hnew (fun a => vio_counter a <= MAX_VIO_COUNTER_THRESHOLD)); [done |].
      intros [_ -> _ _]. by vm_compute.
    + intros Hf. destruct (R Hf) as [R1 R2]. split; [done |].
      apply (Hnew (fun a => batch_fullb (sim_batch a) = false)); [done |]. by intros [].
  - unfold heap. simpl. destruct Hh as [->|[-> Hfr]]; auto.
Qed.

Lemma keeps_need_acct full line id :
  keeps (calm full) (need_acct line id) (fun p s => calm full s /\ has_acct p s).
Proof.
  intros s Hi Hc. destruct (afq_get_acct_run s id Hi) as (p & a & s' & E & Hi' & F & Ha & _ & Hc' & _).
  exists p, s'. unfold need_acct. rewrite (bind_ok _ _ _ _ _ E). split_and!; auto. by eexists.
Qed.

Lemma keeps_get_acct full id :
  keeps (calm full) (get_acct id)
    (fun o s => calm full s /\ exists p a, o = Some p /\ heap s !! p = Some a /\ account_id a = id).
Proof.
  intros s Hi Hc. destruct (afq_get_acct_run s id Hi) as (p & a & s' & E & Hi' & F & Ha & Hid & Hc' & _).
  exists (Some p), s'. split_and!; eauto.
Qed.

(** ** Batches of simulated requests *)

Definition sims (s : afq) : list io_batch := sim_batch <$> heap s.

Lemma vio_frame_sims s s' : vio_frame s s' -> sims s' = sims s.
Proof.
  intros F. pose proof (f_equal (fmap sim_batch) (vf_heap _ _ F)) as E.
  by rewrite <- !list_fmap_compose in E.
Qed.

Lemma put_sims p a s : sims (put_acct p a s) = <[p := sim_batch a]> (sims s).
Proof. apply list_fmap_insert. Qed.

Lemma acct_batch_wf s p a : data_inv s -> heap s !! p = Some a -> batch_wf (sim_batch a).
Proof. intros Hi Ha. exact (Forall_lookup_1 _ _ _ _ (ah_batches _ (di_accts _ Hi)) Ha). Qed.

(** Changing the batch of an account, and its estimate for it. *)
Lemma keeps_put_batch s p a b e :
  data_inv s -> heap s !! p = Some a -> batch_wf b ->
  data_inv (put_acct p (a <| sim_batch := b |> <| batch_estimate := e |>) s) /\
  frame s (put_acct p (a <| sim_batch := b |> <| batch_estimate := e |>) s) /\
  (vio_ok s -> vio_ok (put_acct p (a <| sim_batch := b |> <| batch_estimate := e |>) s)).
Proof.
  intros Hi Ha Hb. split_and!.
  - eapply data_inv_put; eauto. exact (Forall_lookup_1 _ _ _ _ (di_prio _ Hi) Ha).
  - eapply frame_put_acct; [done |]. by destruct a.
  - intros [V1 V2]. split; [|done]. apply Forall_insert; [done |]. exact (Forall_lookup_1 _ _ _ _ V1 Ha).
Qed.

(** The price of a batch of an account. *)
Lemma get_cost_run b : batch_wf b -> exists c b', iobatch_get_cost b = Ok (c, b') /\ batch_wf b'.
Proof. intros Hb. destruct (iobatch_get_cost_wf b Hb) as (c & b' & E & Hb' & _). eauto. Qed.

(** The charge and the refund of one turn of the settling loop. *)
Lemma charge_refund_frame p charge c refund :
  Keeps.keeps (fun s => data_inv s /\ vio_ok s) vio_frame (has_acct p)
    ((if charge : bool then add_vio_counter p c else ret tt);;
     let! a := acct 281 p in add_estimate_vio p (refund a))
    (fun _ => has_acct p).
Proof.
  eapply (keeps_bind _ _ _ (fun _ => has_acct p)).
  { destruct charge; [apply add_vio_frame | by apply keeps_ret]. }
  intros _. eapply (keeps_bind _ _ _ (fun _ => has_acct p)); [|intros a; apply add_estimate_frame].
  intros s Hi [a Ha]. exists a, s. rewrite (afq_acct_run _ _ _ _ Ha).
  split; [done |]. split; [done |]. split; [reflexivity | by eexists].
Qed.

(** What one turn of the settling loop does. *)
Lemma charge_account_keeps combined summed s p a :
  data_inv s -> vio_ok s -> heap s !! p = Some a ->
  exists s' b, charge_account combined summed p s = Ok (tt, s') /\ data_inv s' /\ frame s s' /\
    vio_ok s' /\ ad_sim_batch (ad s') = ad_sim_batch (ad s) /\
    sims s' = <[p := b]> (sims s) /\ batch_fullb b = false.
Proof.
  intros Hi Hv Ha. destruct (get_cost_run _ (acct_batch_wf _ _ _ Hi Ha)) as (c & b1 & Ec & Hb1).
  unfold charge_account. rewrite (bind_ok _ _ _ _ _ (afq_acct_run _ _ _ _ Ha)), Ec.
  rewrite (bind_ok _ _ s (c, b1) s) by done. rewrite (bind_ok _ _ _ _ _ (afq_upd_acct_run _ _ _ _ Ha)).
  cbn [fst snd]. set (a1 := a <| sim_batch := b1 |>).
  destruct (keeps_put_batch s p a b1 (batch_estimate a) Hi Ha Hb1) as (Hi1 & F1 & V1).
  assert (Ea1 : a <| sim_batch := b1 |> <| batch_estimate := batch_estimate a |> = a1) by (by destruct a).
  rewrite Ea1 in Hi1, F1, V1. specialize (V1 Hv). set (s1 := put_acct p a1 s) in *.
  pose proof (lookup_lt_Some _ _ _ Ha) as Hl.
  assert (Ha1 : heap s1 !! p = Some a1) by (unfold s1; rewrite afq_put_lookup by done; by rewrite decide_True).
  destruct (charge_refund_frame p (negb (u64 (safe_div (u64 (combined * c)) summed) =? 0))
    (s32 (u64 (safe_div (u64 (combined * c)) summed))) (fun a => s32 (u64 (- batch_estimate a))) s1)
    as ([] & s2 & E2 & [Hi2 V2] & F2 & [a2 Ha2]); [done | by eexists |].
  unfold bind at 1 in E2. unfold bind at 1.
  match type of E2 with match ?m s1 with _ => _ end = _ => destruct (m s1) as [[[] s1']|]; [|done] end.
  unfold bind at 1 in E2. unfold bind at 1. destruct (acct 281 p s1') as [[a' s1'']|]; [|done].
  rewrite (bind_ok _ _ _ _ _ E2), (bind_ok _ _ _ _ _ (afq_upd_acct_run _ _ _ _ Ha2)).
  pose proof (lookup_lt_Some _ _ _ Ha2) as Hl2.
  erewrite afq_upd_acct_run by (rewrite afq_put_lookup by done; by rewrite decide_True).
  rewrite afq_put_put. cbn [sim_batch upd update_field].
  destruct (iobatch_clear_wf _ (acct_batch_wf _ _ _ Hi2 Ha2)) as (Hb3 & Hf3 & _).
  destruct (keeps_put_batch s2 p a2 _ 0 Hi2 Ha2 Hb3) as (Hi3 & F3 & V3).
  eexists _, (iobatch_clear (sim_batch a2)). split; [done |]. split; [exact Hi3 |].
  split; [transitivity s1; [done |]; transitivity s2; [by apply vio_frame_frame | exact F3] |].
  split; [by apply V3 |]. split; [exact (f_equal (fun s => ad_sim_batch (ad s)) F2) |].
  split; [|done]. rewrite put_sims, (vio_frame_sims _ _ F2). unfold s1. rewrite put_sims.
  by rewrite list_insert_insert_eq.
Qed.

(** The state while the accounts [0 .. n-1] are settled; those of [done] are. *)
Record settling (n : nat) (done : list nat) (s : afq) : Prop := {
  st_vio : vio_ok s;
  st_global : batch_fullb (ad_sim_batch (ad s)) = false;
  st_length : length (heap s) = n;
  st_done : forall p b, p ∈ done -> sims s !! p = Some b -> batch_fullb b = false;
}.

Lemma settling_acct n don s p : settling n don s -> (p < n)%nat -> exists a, heap s !! p = Some a.
Proof. intros H Hp. apply lookup_lt_is_Some. by rewrite (st_length _ _ _ H). Qed.

Lemma keeps_sum_cost n p summed :
  (p < n)%nat ->
  keeps (settling n [])
    (let! a := acct 270 p in
     let! r := lift (iobatch_get_cost (sim_batch a)) in
     upd_acct p (fun a => a <| sim_batch := snd r |>);;
     ret (u64 (summed + fst r))) (fun _ => settling n []).
Proof.
  intros Hp s Hi Hs. destruct (settling_acct _ _ _ p Hs Hp) as [a Ha].
  destruct (get_cost_run _ (acct_batch_wf _ _ _ Hi Ha)) as (c & b1 & Ec & Hb1).
  rewrite (bind_ok _ _ _ _ _ (afq_acct_run _ _ _ _ Ha)), Ec.
  rewrite (bind_ok _ _ s (c, b1) s) by done. rewrite (bind_ok _ _ _ _ _ (afq_upd_acct_run _ _ _ _ Ha)).
  destruct (keeps_put_batch s p a b1 (batch_estimate a) Hi Ha Hb1) as (Hi1 & F1 & V1).
  assert (Ea1 : a <| sim_batch := b1 |> <| batch_estimate := batch_estimate a |> = a <| sim_batch := b1 |>)
    by (by destruct a).
  rewrite Ea1 in Hi1, F1, V1. eexists _, _. split; [done |]. split; [exact Hi1 |]. split; [exact F1 |].
  destruct Hs as [H1 H2 H3 H4]. split; auto.
  - rewrite <- H3. apply length_insert.
  - by intros q b ?%elem_of_nil.
Qed.

Lemma keeps_charge_account n don combined summed p :
  (p < n)%nat ->
  keeps (settling n don) (charge_account combined summed p) (fun _ => settling n (don ++ [p])).
Proof.
  intros Hp s Hi Hs. destruct (settling_acct _ _ _ p Hs Hp) as [a Ha]. destruct Hs as [H1 H2 H3 H4].
  destruct (charge_account_keeps combined summed s p a Hi H1 Ha) as (s' & b & E & Hi' & F & V & G & Es & Hb).
  exists tt, s'. split_and!; auto. split; [done | by rewrite G | |].
  - rewrite <- H3, <- !(length_fmap sim_batch). fold (sims s) (sims s'). rewrite Es. apply length_insert.
  - intros q c. rewrite Es, elem_of_app, list_elem_of_singleton, list_lookup_insert.
    case_decide as Hd; [by intros _ [= <-] |]. intros [Hq| ->]; [by apply H4 |].
    intros Hc. destruct Hd. split; [done |]. by eapply lookup_lt_Some.
Qed.

Lemma keeps_settle_batches : keeps (calm true) settle_batches (fun _ => calm false).
Proof.
  intros s Hi [Hv _].
  destruct (get_cost_run _ (di_batch _ Hi)) as (c & b' & Ec & Hb').
  destruct (iobatch_clear_wf _ Hb') as (Hcl & Hfl & _).
  set (s2 := s <| ad ::= fun d => d <| disk_full_count ::= fun n => s32 (n + 1) |>
                                    <| ad_sim_batch := iobatch_clear b' |> |>).
  assert (Hi2 : data_inv s2) by (apply data_inv_ad; auto; apply Hi).
  assert (F2 : frame s s2) by (by apply frame_ad).
  set (l := hash_nodes (a_table (ad_accts (ad s)))). set (n := length (heap s)).
  assert (Hl : l ≡ₚ seq 0 n) by apply (di_accts _ Hi).
  assert (Hin : forall i p, l !! i = Some p -> (p < n)%nat).
  { intros i p Hp. apply list_elem_of_lookup_2 in Hp. rewrite Hl in Hp. apply elem_of_seq in Hp. lia. }
  assert (Hk : keeps (settling n [])
    (let! summed_cost := for_acc l 0 (fun summed p =>
       let! a := acct 270 p in
       let! r := lift (iobatch_get_cost (sim_batch a)) in
       upd_acct p (fun a => a <| sim_batch := snd r |>);;
       ret (u64 (summed + fst r))) in
     for_each l (charge_account c summed_cost)) (fun _ => settling n l)).
  { eapply (keeps_bind _ _ _ (fun _ => settling n [])).
    { apply (keeps_for_acc_at _ _ _ (fun _ _ => settling n [])). intros i x p Hp.
      apply keeps_sum_cost. eauto. }
    intros summed. eapply keeps_conseq.
    { apply (keeps_for_each_at l (charge_account c summed) (fun i => settling n (take i l))).
      intros i p Hp. rewrite (take_S_r _ _ _ Hp). apply keeps_charge_account. eauto. }
    - done.
    - intros ? s'. by rewrite firstn_all. }
  destruct (Hk s2 Hi2) as ([] & s' & E & Hi' & F' & [V G L D]).
  { split; auto. by intros p b ?%elem_of_nil. }
  exists tt, s'. split.
  { unfold settle_batches, upd_ad at 1, modify at 1, bind at 1. unfold gets at 1, bind at 1.
    cbn [ad upd update_field ad_sim_batch]. rewrite Ec. unfold lift at 1, bind at 1.
    unfold upd_ad at 1, modify at 1, bind at 1. unfold all_accts, gets at 1, bind at 1. exact E. }
  split; [done |]. split; [by transitivity s2 |]. split; [done |]. intros _. split; [done |].
  apply Forall_lookup_2. intros p a Ha. apply (D p).
  - rewrite Hl. apply elem_of_seq. apply lookup_lt_Some in Ha. lia.
  - unfold sims. by rewrite list_lookup_fmap, Ha.
Qed.

(** ** Cause lists *)

Lemma keeps_peek_causes (P : afq -> Prop) line p :
  keeps (fun s => P s /\ has_causes p s) (in_kern (read_causes line p)) (fun _ s => P s /\ has_causes p s).
Proof.
  intros s Hi [HP [c Hc]]. exists c, s. unfold in_kern, zoom, read_causes. rewrite Hc.
  split; [by destruct s |]. split_and!; [done | reflexivity | done | by eexists].
Qed.

Lemma keeps_wr_causes full p f :
  (forall c, causes_wf c -> causes_wf (f c)) -> (forall c, cl_size (f c) = cl_size c) ->
  keeps (calm full) (in_kern (write_causes p f)) (fun _ => calm full).
Proof.
  intros Hf Hsz s Hi Hc. eexists _, _. split; [done |]. split_and!; [| |done].
  - apply data_inv_kern; auto. apply env_write; auto. apply Hi.
  - apply frame_kernel. simpl. intros q [c Hq]. rewrite lookup_alter. case_decide; subst; rewrite Hq; by eexists.
Qed.

End Account.

(** ** Adding to batches *)

Section Tagged.
Context {K : KernelFns} {KO : KernelOk K} {J : JiffyFns}.


Lemma keeps_rd_causes (P : afq -> Prop) line p :
  keeps (fun s => P s /\ has_causes p s) (in_kern (read_causes line p))
        (fun c s => (P s /\ has_causes p s) /\ causes_wf c /\ 0 <= cl_size c <= MAX_IO).
Proof.
  intros s Hi [HP [c Hc]]. exists c, s. unfold in_kern, zoom, read_causes. rewrite Hc.
  split; [by destruct s |]. split; [done |]. split; [reflexivity |].
  destruct (di_env _ Hi) as [Hk Hs _]. split; [split; [done | by eexists] |].
  split; [by apply (kernel_causes _ Hk p) | by apply (Hs p)].
Qed.

Lemma keeps_batch_one c off full account_id :
  off_ok off -> 0 <= cl_size c <= MAX_IO ->
  keeps (calm full) (batch_cause c off full account_id) calm.
Proof.
  intros Ho Hs. unfold batch_cause.
  eapply keeps_bind; [apply keeps_need_acct |]. intros p s Hi [[Hv Hr] [a Ha]].
  rewrite (bind_ok _ _ _ _ _ (afq_acct_run _ _ _ _ Ha)).
  rewrite (s32_small (cl_size c)) by (unfold is_s32, MAX_IO in *; lia).
  destruct (iobatch_add_total (sim_batch a) off (cl_size c)) as (rv & b' & E & Hb'); auto.
  { by eapply acct_batch_wf. }
  rewrite E, (bind_ok _ _ s (rv, b') s) by done.
  rewrite (bind_ok _ _ _ _ _ (afq_upd_acct_run _ _ _ _ Ha)). cbn [snd].
  rewrite iobatch_full_ok by done. unfold lift at 1.
  erewrite (bind_ok (fun s => Ok (batch_fullb b', s))) by done.
  pose proof (lookup_lt_Some _ _ _ Ha) as Hl.
  erewrite bind_ok by (apply afq_upd_acct_run; rewrite afq_put_lookup by done; by rewrite decide_True).
  rewrite afq_put_put. eexists _, _. split; [done |].
  match goal with |- data_inv (put_acct p (upd batch_estimate _ ?g _) s) /\ _ =>
    destruct (keeps_put_batch s p a b' (g (batch_estimate a)) Hi Ha Hb') as (Hi1 & F1 & V1) end.
  split; [exact Hi1 |]. split; [exact F1 |]. split; [by apply V1 |].
  intros [Hf1 Hf2]%orb_false_iff. destruct (Hr Hf1) as [R1 R2]. split; [done |].
  by apply Forall_insert.
Qed.

Lemma keeps_do_disk_accounting causes off :
  off_ok off ->
  keeps (fun s => calm false s /\ has_causes causes s) (do_disk_accounting causes off)
        (fun _ => calm false).
Proof.
  intros Ho. unfold do_disk_accounting. eapply keeps_bind; [apply keeps_rd_causes |].
  intros c s Hi (([Hv Hr] & _) & _ & Hs).
  rewrite (bind_ok _ _ s (ad s) s), (s32_small (cl_size c)) by
    (done || unfold is_s32, MAX_IO in *; lia).
  destruct (iobatch_add_total (ad_sim_batch (ad s)) off (cl_size c)) as (rv & b' & E & Hb'); auto.
  { apply Hi. }
  rewrite E, (bind_ok _ _ s (rv, b') s) by done.
  erewrite (bind_ok (upd_ad _)) by done. cbn [snd]. rewrite iobatch_full_ok by done.
  unfold lift at 1. erewrite (bind_ok (fun s => Ok (batch_fullb b', s))) by done.
  set (s1 := s <| ad ::= _ |>).
  assert (Hi1 : data_inv s1) by (apply data_inv_ad; auto; apply Hi).
  assert (F1 : frame s s1) by (by apply frame_ad).
  assert (Hr1 : calm (batch_fullb b') s1).
  { split; [done |]. intros Hf. destruct (Hr eq_refl) as [_ H2]. by split. }
  clearbody s1. revert Hr1. generalize (batch_fullb b'). intros full Hr1.
  assert (Hm : keeps (calm full) (let! full := for_acc (items c) full (batch_cause c off) in
    if full then settle_batches else ret tt) (fun _ => calm false)).
  { eapply keeps_bind.
    { apply (keeps_for_acc (items c) full (batch_cause c off) calm).
      intros b x _. by apply keeps_batch_one. }
    intros [|]; [apply keeps_settle_batches | by apply keeps_ret]. }
  destruct (Hm s1 Hi1 Hr1) as (u & s2 & E2 & Hi2 & F2 & Hr2).
  exists u, s2. split_and!; auto. by transitivity s1.
Qed.

(** Charging an account that is looked up. *)
Lemma keeps_charge_id full line id q :
  keeps (calm full) (let! p := need_acct line id in add_estimate_vio p q) (fun _ => calm full).
Proof.
  eapply keeps_bind; [apply keeps_need_acct |]. intros p.
  eapply keeps_conseq; [apply keeps_add_estimate | intros s H; exact H | intros ? s [H _]; exact H].
Qed.

Lemma keeps_charge_causes causes off size :
  off_ok off ->
  keeps (fun s => calm false s /\ has_causes causes s) (account_for_causes causes off size)
        (fun _ s => calm false s /\ has_causes causes s).
Proof.
  intros Ho.
  eapply (keeps_conseq _ (fun s => (calm false s /\ has_causes causes s) /\ has_causes causes s)
    _ _ (fun _ s => calm false s /\ has_causes causes s)); [| tauto | done].
  apply (keeps_carry (has_causes causes)); [intros; by eapply afq_has_causes_frame |].
  unfold account_for_causes. eapply keeps_bind; [apply keeps_rd_causes |]. intros c.
  eapply keeps_bind; [| intros ?; by apply keeps_do_disk_accounting].
  eapply (keeps_conseq _ (fun s => calm false s /\ has_causes causes s)
    _ _ (fun _ s => calm false s /\ has_causes causes s)); [| tauto | done].
  apply (keeps_carry (has_causes causes)); [intros; by eapply afq_has_causes_frame |].
  destruct (callback_q c).
  - apply keeps_wr_causes; [by intros ? [] | done].
  - destruct (item_count c >? 0); [| by apply keeps_ret].
    eapply keeps_bind; [apply keeps_wr_causes; [by intros ? [] | done] |]. intros ?.
    apply keeps_for_each. intros id _. apply keeps_charge_id.
Qed.

(** ** Statistics *)

Lemma array_inc_run line l i :
  0 <= i < Z.of_nat (length l) -> exists l', array_inc line l i = Ok l' /\ length l' = length l.
Proof.
  intros Hi. destruct (lookup_lt_is_Some_2 l (Z.to_nat i)) as [x Hx]; [lia |].
  unfold array_inc, array_get, array_set, rbind. rewrite decide_True, Hx, decide_True by lia.
  eexists. split; [done |]. apply length_insert.
Qed.

Lemma prio_index prio :
  prio_ok prio -> 0 <= Z.rem (s32 (IOPRIO_BE_NR - prio)) IOPRIO_BE_NR < 8.
Proof.
  unfold prio_ok, IOPRIO_BE_NR. intros H. rewrite s32_small by (unfold is_s32; lia).
  pose proof (Z.rem_bound_pos (8 - prio) 8). lia.
Qed.

Lemma keeps_clock_step (P : afq -> Prop) :
  (forall s n, P s -> P (set_tick n s)) -> keeps P jiffies (fun _ => P).
Proof.
  intros HP s Hi Hs. rewrite jiffies_run. eexists _, _. split; [done |]. split_and!.
  - eapply (vio_frame_data s); [apply vio_frame_tick | done].
  - apply vio_frame_frame, vio_frame_tick.
  - by apply HP.
Qed.

Lemma keeps_pos_seq p r :
  keeps (fun s => calm false s /\ has_acct p s) (afq_accout_pos_seq_update p r)
        (fun _ s => calm false s /\ has_acct p s).
Proof.
  unfold afq_accout_pos_seq_update. intros s Hi [Hc [a Ha]].
  rewrite (bind_ok _ _ _ _ _ (afq_acct_run _ _ _ _ Ha)).
  assert (Hhas : has_acct p s) by (by eexists).
  destruct (_ =? blk_rq_pos r).
  { exists tt, s. split_and!; auto. reflexivity. }
  destruct (array_inc_run 210 (prio_served_rqs (ad s)) (Z.rem (s32 (IOPRIO_BE_NR - ioprio a)) IOPRIO_BE_NR))
    as (served & Es & Hlen).
  { rewrite (di_served _ Hi). apply prio_index. exact (Forall_lookup_1 _ _ _ _ (di_prio _ Hi) Ha). }
  rewrite (bind_ok _ _ s (prio_served_rqs (ad s)) s) by done.
  rewrite (bind_ok _ _ s served s) by (by rewrite Es).
  erewrite (bind_ok (upd_ad _)) by done. set (s1 := s <| ad ::= _ |>).
  assert (Hi1 : data_inv s1).
  { apply data_inv_ad; auto; try apply Hi. simpl. rewrite Hlen. apply Hi. }
  assert (F1 : frame s s1) by (by apply frame_ad).
  match goal with |- exists a s', ?m s1 = _ /\ _ =>
    assert (Hm : keeps (fun s => calm false s /\ has_acct p s) m (fun _ s => calm false s /\ has_acct p s)) end.
  { eapply keeps_bind; [apply keeps_upd_acct | intros ?].
    1-3: intros b; unfold seq_step; repeat case_match; by destruct b.
    eapply keeps_bind; [apply keeps_upd_acct; by intros [] | intros ?].
    eapply keeps_bind; [by apply keeps_clock_step | intros ?].
    apply keeps_upd_acct; by intros []. }
  destruct (Hm s1 Hi1) as (u & s2 & E2 & Hi2 & F2 & Hr2); [done |].
  exists u, s2. split_and!; auto; [by transitivity s1 | apply Hr2 | apply Hr2].
Qed.

Lemma keeps_pos_seq_causes r c : keeps (calm false) (pos_seq_causes r c) (fun _ => calm false).
Proof.
  apply keeps_for_each. intros id _. eapply keeps_bind; [apply keeps_need_acct |]. intros p.
  eapply keeps_conseq; [apply keeps_pos_seq | intros s H; exact H | intros ? s [H _]; exact H].
Qed.

(** ** Requests *)

(** The cause lists of a bio are allocated. *)
Definition cll_alloc (l : cause_list_list) (s : afq) : Prop :=
  forall i, 0 <= i < cll_item_count l ->
    exists p, cll_items l !! Z.to_nat i = Some (Some p) /\ has_causes p s.

Lemma cll_alloc_frame l s s' : frame s s' -> cll_alloc l s -> cll_alloc l s'.
Proof.
  intros F H i Hi. destruct (H i Hi) as (p & Hp & Hc). exists p. split; [done |].
  by eapply afq_has_causes_frame.
Qed.

Lemma keeps_charge_item r l off i :
  0 <= i < cll_item_count l -> 0 <= off < 0x3000000000000000 ->
  keeps (fun s => calm false s /\ cll_alloc l s) (account_for_item r l off i)
        (fun off' s => (calm false s /\ cll_alloc l s) /\ off <= off' <= off + MAX_IO).
Proof.
  intros Hi Ho s0 Hi0 Hs0. destruct (proj2 Hs0 i Hi) as (p & Hp & Hc).
  unfold account_for_item, array_get. rewrite decide_True, Hp by lia.
  rewrite (bind_ok _ _ s0 (Some p) s0) by done. cbn beta.
  rewrite (bind_ok _ _ s0 p s0) by done.
  match goal with |- exists a s', ?m s0 = _ /\ _ =>
    enough (Hm : keeps (fun s => (calm false s /\ has_causes p s) /\ cll_alloc l s) m
      (fun off' s => (calm false s /\ off <= off' <= off + MAX_IO) /\ cll_alloc l s)) end.
  { destruct (Hm s0 Hi0) as (a & s' & E & Hi' & F & [H1 H2] & H3).
    { destruct Hs0 as [Hc0 Hl0]. exact (conj (conj Hc0 Hc) Hl0). }
    exists a, s'. split_and!; auto; lia. }
  apply keeps_carry; [intros; by eapply cll_alloc_frame |].
  eapply keeps_bind; [apply keeps_rd_causes |]. intros c.
  eapply keeps_bind.
  { eapply keeps_conseq; [apply (keeps_charge_causes p off (cl_size c)); unfold off_ok; lia | |].
    - tauto.
    - intros ? s H. exact H. }
  intros ?. eapply keeps_bind; [apply keeps_rd_causes |]. intros c'.
  eapply (keeps_conseq _ (fun s => calm false s /\ 0 <= cl_size c' <= MAX_IO)); [| tauto |].
  { apply keeps_pure. intros Hsz. eapply keeps_bind; [apply keeps_pos_seq_causes |]. intros ?.
    apply (keeps_ret (calm false) _ (fun off' s => calm false s /\ off <= off' <= off + MAX_IO)).
    intros s Hc'. split; [done |]. unfold MAX_IO in *. rewrite s64_small by (unfold is_s64; lia). lia. }
  done.
Qed.

Lemma keeps_charge_items r l off :
  0 <= cll_item_count l <= 0x40000000 -> 0 <= off < 0x800000000000000 ->
  keeps (fun s => calm false s /\ cll_alloc l s)
    (for_acc (seqZ 0 (cll_item_count l)) off (account_for_item r l);; ret tt)
    (fun _ => calm false).
Proof.
  intros Hn Ho. eapply keeps_bind.
  { eapply (keeps_conseq _ (fun s => (calm false s /\ cll_alloc l s) /\ 0 <= off <= off + 0 * MAX_IO)).
    - apply (keeps_for_acc_at (seqZ 0 (cll_item_count l)) off (account_for_item r l)
        (fun i off' s => (calm false s /\ cll_alloc l s) /\ 0 <= off' <= off + Z.of_nat i * MAX_IO)).
      intros i off' x Hx. apply lookup_seqZ in Hx as [-> Hx]. apply keeps_pure. intros Hoff'.
      eapply keeps_conseq; [apply keeps_charge_item; unfold MAX_IO in *; lia | done |].
      simpl. intros off'' s [H1 H2]. split; [done |]. lia.
    - intros s Hs. split; [done | lia].
    - intros off' s H. exact H. }
  intros off'. apply keeps_ret. simpl. tauto.
Qed.

(** The tags of a request are in order. *)
Definition tags_ok (r : request) (s : afq) : Prop := request_ok (kern s) r.
Lemma tags_ok_frame r s s' : frame s s' -> tags_ok r s -> tags_ok r s'.
Proof. intros F H. eapply request_ok_dom; [exact H |]. apply (fr_causes _ _ F). Qed.

Lemma keeps_tagged P b :
  (forall s, P s -> bio_ok (kern s) b) -> keeps P (bio_tagged b) (fun _ => P).
Proof.
  intros HP s Hi Hs. unfold bio_tagged. pose proof (bo_cll _ _ (HP s Hs)) as Hb.
  destruct (bi_cll b) as [l|]; [| by apply (keeps_ret P false (fun _ => P))].
  destruct (Hb l eq_refl) as ((u & Hu & [cu Hcu]) & _). rewrite Hu.
  unfold deref. rewrite (bind_ok _ _ s u s) by done.
  rewrite (bind_ok _ _ s cu s) by (unfold in_kern, zoom, read_causes; rewrite Hcu; by destruct s).
  by apply (keeps_ret P _ (fun _ => P)).
Qed.

Lemma keeps_charge_bio r b :
  b ∈ rq_bio r ->
  keeps (fun s => calm false s /\ tags_ok r s) (account_for_bio r b)
        (fun _ s => calm false s /\ tags_ok r s).
Proof.
  intros Hin. apply (keeps_conseq _ (fun s => (calm false s /\ tags_ok r s) /\ tags_ok r s) _ _
    (fun _ s => calm false s /\ tags_ok r s)); [| tauto | done].
  apply (keeps_carry (tags_ok r)); [intros; by eapply tags_ok_frame |].
  assert (Hbo : forall s, tags_ok r s -> bio_ok (kern s) b).
  { intros s H. eapply list.Forall_forall; [apply (ro_bios _ _ H) | done]. }
  unfold account_for_bio. eapply keeps_bind; [apply keeps_tagged |].
  { intros s [_ H]. by apply Hbo. }
  intros tagged s Hi [Hr Hq]. pose proof (bo_sector _ _ (Hbo s Hq)) as Hsec.
  rewrite s64_u64, s64_small by (unfold is_s64; lia).
  assert (Hrq : exists a s', (match RQ_CAUSES r with
      | Some causes => account_for_causes causes (bi_sector b * 512) (bi_size b);;
                       let! c := in_kern (read_causes 345 causes) in pos_seq_causes r c
      | None => ret tt end) s = Ok (a, s') /\ data_inv s' /\ frame s s' /\ calm false s').
  { pose proof (ro_causes _ _ Hq) as Hc. simpl in Hc. destruct (RQ_CAUSES r) as [p|].
    2: by apply (keeps_ret (calm false) tt (fun _ => calm false)).
    assert (Hm : keeps (fun s => calm false s /\ has_causes p s)
      (account_for_causes p (bi_sector b * 512) (bi_size b);;
       let! c := in_kern (read_causes 345 p) in pos_seq_causes r c) (fun _ => calm false)).
    { eapply keeps_bind; [apply keeps_charge_causes; unfold off_ok; lia | intros ?].
      eapply keeps_bind; [apply keeps_rd_causes | intros c].
      eapply keeps_conseq; [apply keeps_pos_seq_causes | tauto | done]. }
    apply Hm; [done |]. split; [done | by apply Hc]. }
  destruct (bi_cll b) as [l|] eqn:El; [destruct tagged |]; [|apply Hrq|apply Hrq].
  destruct (bo_cll _ _ (Hbo s Hq) l El) as (_ & Hn & _ & Hm).
  apply keeps_charge_items; [lia | lia | done |]. by split.
Qed.

Lemma keeps_account_request2 d r :
  keeps (fun s => calm false s /\ rqs s !! r_rq d = Some r) (afq_account_request2 d)
        (fun _ => calm false).
Proof.
  intros s Hi [Hc Hr]. unfold afq_account_request2.
  rewrite (bind_ok _ _ s r s) by (unfold get_rq; by rewrite Hr).
  assert (Hm : keeps (fun s => calm false s /\ tags_ok r s) (for_each (rq_bio r) (account_for_bio r))
    (fun _ s => calm false s /\ tags_ok r s)).
  { apply keeps_for_each. intros b Hb. by apply keeps_charge_bio. }
  destruct (Hm s Hi) as (u & s' & E & Hi' & F & H1 & _).
  { split; [done |]. by eapply (ew_rqs _ _ (di_env _ Hi)). }
  exists u, s'. by split_and!.
Qed.

End Tagged.
