(* ===== verification/AfqHooks.v ===== *)
(** * Actually fair queuing: hooks that move no work

    The hooks for dirtied and freed pages, the statistics of a request, the part of
    the entry hooks that decides whether a call has to wait, the settings and the
    thread that keeps the minimum: they charge or admit, and leave the works where
    they are. *)

From S2P Require Import Prelude Keeps CInt Kernel DiskSim IoBatch HashTable CauseTags Tags Jiffies.
From S2P Require Import SplitAccount SplitSched IoctlHelper Afq AfqOps AfqInv AfqVio AfqAccount.

(** ** Pages that are dirtied or freed *)

Section Pages.
Context {K : KernelFns} {KO : KernelOk K} {J : JiffyFns} {EN : Env}.

Lemma keeps_dirty causes new_id inode pos :
  keeps (fun s => calm false s /\ has_causes causes s /\ is_Some (inodes s !! inode))
    (basic_sched_causes_dirty causes new_id inode pos) (fun _ => calm false).
Proof.
  intros s Hi (Hc & Hp & [ipos Hn]). pose proof Hp as [c Hcc]. unfold basic_sched_causes_dirty.
  rewrite (bind_ok _ _ s c s) by (unfold in_kern, zoom, read_causes; rewrite Hcc; by destruct s).
  assert (Hcost : exists tot s1, (if causes_get_cost c <=? 0 then
       let! ipos := inode_get_pos 1053 inode in
       in_kern (causes_set_cost causes (s64 (seek_time pos ipos + cl_size c)));;
       ret (s64 (seek_time pos ipos + cl_size c))
     else ret (causes_get_cost c)) s = Ok (tot, s1) /\ data_inv s1 /\ frame s s1 /\ calm false s1 /\
     inodes s1 = inodes s).
  { destruct (_ <=? 0).
    - rewrite (bind_ok _ _ s ipos s) by (unfold inode_get_pos; by rewrite Hn).
      destruct (keeps_wr_causes false causes
        (fun c' => c' <| cl_private := s64 (seek_time pos ipos + cl_size c) |>)) with s
        as ([] & s1 & E1 & Hi1 & F1 & Hc1); [by intros ? [] | done | done | done |].
      exists (s64 (seek_time pos ipos + cl_size c)), s1. rewrite (bind_ok _ _ _ _ _ E1).
      split_and!; auto. by injection E1 as <-.
    - eexists _, s. split; [done |]. split_and!; auto. reflexivity. }
  destruct Hcost as (tot & s1 & E1 & Hi1 & F1 & Hc1 & En). rewrite (bind_ok _ _ _ _ _ E1).
  unfold inode_set_pos. rewrite (bind_ok _ _ s1 tt (s1 <| inodes ::= <[inode := s64 (pos + cl_size c)]> |>)).
  2: { rewrite (bind_ok _ _ s1 ipos s1); [done |]. unfold inode_get_pos. by rewrite En, Hn. }
  set (s2 := s1 <| inodes ::= _ |>).
  assert (Hi2 : data_inv s2) by (destruct Hi1; by split).
  assert (F2 : frame s1 s2).
  { split; auto; [|unfold heap; simpl; congruence]. intros p a Ha. exists a. split; [done | reflexivity]. }
  match goal with |- exists a s', ?m s2 = _ /\ _ =>
    assert (Hm : keeps (calm false) m (fun _ => calm false)) end.
  { apply keeps_for_each. intros id _. eapply keeps_bind; [apply keeps_need_acct |]. intros p.
    eapply keeps_bind; [apply afq_keeps_acct |]. intros a.
    eapply keeps_conseq; [apply keeps_add_estimate | intros s' H; exact H | intros ? s' [H _]; exact H]. }
  destruct (Hm s2 Hi2 Hc1) as (u & s3 & E3 & Hi3 & F3 & Hc3).
  exists u, s3. split_and!; auto. transitivity s1; [done |]. by transitivity s2.
Qed.

Lemma keeps_free causes :
  keeps (fun s => calm false s /\ has_causes causes s) (basic_sched_causes_free causes)
        (fun _ => calm false).
Proof.
  unfold basic_sched_causes_free. eapply keeps_bind; [apply keeps_peek_causes |]. intros c.
  eapply keeps_conseq; [| intros s H; exact (proj1 H) | intros ? s H; exact H].
  apply keeps_for_each. intros id _. eapply keeps_bind; [apply keeps_need_acct |]. intros p.
  eapply keeps_conseq; [apply keeps_add_vio | intros s H; exact H | intros ? s [H _]; exact H].
Qed.

End Pages.

Section Hooks.
Context {K : KernelFns} {KO : KernelOk K} {J : JiffyFns}.

(** Code that keeps the invariant and moves no work. *)
Definition quiet {A} (P : afq -> Prop) (m : ST afq A) (Q : A -> afq -> Prop) : Prop :=
  forall s, afq_inv s -> P s -> exists a s', m s = Ok (a, s') /\ afq_inv s' /\ frame s s' /\ Q a s'.

Lemma frame_inv s s' : afq_inv s -> frame s s' -> data_inv s' -> calm false s' -> afq_inv s'.
Proof.
  intros [_ _ Hw Hl] F Hi Hc. split; auto.
  - eapply same_works_inv; [by apply frame_same_works | done].
  - by rewrite (fr_lock _ _ F).
Qed.

Lemma keeps_quiet {A} P (m : ST afq A) Q :
  keeps (fun s => calm false s /\ P s) m (fun a s => calm false s /\ Q a s) -> quiet P m Q.
Proof.
  intros Hm s Hi HP. destruct (Hm s (inv_data _ Hi) (conj (inv_calm _ Hi) HP))
    as (a & s' & E & Hi' & F & Hc & HQ).
  exists a, s'. split_and!; auto. by eapply frame_inv.
Qed.

Lemma afq_quiet_ret {A} P (a : A) (Q : A -> afq -> Prop) : (forall s, P s -> Q a s) -> quiet P (ret a) Q.
Proof. intros H s Hi Hs. exists a, s. split_and!; auto. reflexivity. Qed.

Lemma afq_quiet_bind {A B} P (m : ST afq A) (f : A -> ST afq B) R Q :
  quiet P m R -> (forall a, quiet (R a) (f a) Q) -> quiet P (bind m f) Q.
Proof.
  intros Hm Hf s Hi Hs. destruct (Hm s Hi Hs) as (a & s1 & E1 & Hi1 & F1 & HR).
  destruct (Hf a s1 Hi1 HR) as (b & s2 & E2 & Hi2 & F2 & HQ).
  exists b, s2. rewrite (bind_ok _ _ _ _ _ E1). split_and!; auto. by transitivity s1.
Qed.

(** ** Statistics of the cause lists *)

(** Every cause list of the request names fewer than 2^31 accounts. *)
Definition counts_ok (r : request) (s : afq) : Prop :=
  forall b l p c, b ∈ rq_bio r -> bi_cll b = Some l -> Some p ∈ cll_items l ->
    k_causes (kern s) !! p = Some c -> 0 <= item_count c.

(** The kernel, the requests and the accounts are those of [s0]. *)
Definition same_kernel (s0 s : afq) : Prop :=
  kern s = kern s0 /\ rqs s = rqs s0 /\ heap s = heap s0.

Lemma keeps_array_stat line i (get : afq_data -> list Z) s0
    (set : list Z -> afq_data -> afq_data) :
  (forall s, data_inv s -> length (get (ad s)) = 32%nat) -> 0 <= i < 32 ->
  (forall s l, data_inv s -> length l = 32%nat ->
     data_inv (s <| ad ::= set l |>) /\ frame s (s <| ad ::= set l |>) /\
     heap (s <| ad ::= set l |>) = heap s /\
     (calm false s -> calm false (s <| ad ::= set l |>))) ->
  keeps (fun s => calm false s /\ same_kernel s0 s)
    (let! l := gets (fun s => get (ad s)) in
     let! l := lift (array_inc line l i) in
     upd_ad (set l)) (fun _ s => calm false s /\ same_kernel s0 s).
Proof.
  intros Hg Hi Hset s Hs [Hc Hk]. rewrite (bind_ok _ _ s (get (ad s)) s) by done.
  destruct (array_inc_run line (get (ad s)) i) as (l' & E & Hl); [rewrite Hg by done; lia |].
  rewrite (bind_ok _ _ s l' s) by (by rewrite E). rewrite (Hg s Hs) in Hl.
  destruct (Hset s l' Hs Hl) as (H1 & H2 & H3 & H4). eexists _, _. split; [done |].
  split; [exact H1 |]. split; [exact H2 |]. split; [exact (H4 Hc) |].
  destruct Hk as (Hk1 & Hk2 & Hk3). split_and!; [exact Hk1 | exact Hk2 |]. by etrans.
Qed.

Lemma keeps_count_causes r b l s0 i :
  b ∈ rq_bio r -> bi_cll b = Some l -> bio_ok (kern s0) b -> counts_ok r s0 -> 0 <= i < cll_item_count l ->
  keeps (fun s => calm false s /\ same_kernel s0 s) (count_causes l i)
        (fun _ s => calm false s /\ same_kernel s0 s).
Proof.
  intros Hb Hl Hbo Hcn Hi. destruct (bo_cll _ _ Hbo l Hl) as (_ & _ & _ & Hm).
  destruct (Hm i Hi) as (p & Hp & [c Hc]). intros s Hs [Hca Hk].
  assert (0 <= item_count c) as Hcnt.
  { eapply Hcn; eauto. apply list_elem_of_lookup. eauto. }
  unfold count_causes, array_get. rewrite decide_True, Hp by lia.
  rewrite (bind_ok _ _ s (Some p) s) by done. cbn beta iota.
  rewrite (bind_ok _ _ s c s).
  2: { unfold in_kern, zoom, read_causes. destruct Hk as [E _].
       rewrite E, Hc, <- E. by destruct s. }
  assert (Hret : exists a s', (@ret afq _ tt) s = Ok (a, s') /\ data_inv s' /\ frame s s' /\
    calm false s' /\ same_kernel s0 s').
  { exists tt, s. split_and!; auto; try apply Hk. reflexivity. }
  repeat case_match; bool_to_prop; auto.
  - eapply (keeps_array_stat 465 _ caust_count_dist s0 (fun l d => d <| caust_count_dist := l |>));
      [apply di_dist | unfold MAX_CAUSE_COUNT in *; lia | | done | done].
    intros s1 l1 G1 Hl1. split_and!; auto; [apply data_inv_ad; auto; apply G1 | by apply frame_ad].
  - eapply (keeps_array_stat 473 _ journal_cct s0 (fun l d => d <| journal_cct := l |>));
      [apply di_cct | unfold MAX_CAUSE_COUNT in *; lia | | done | done].
    intros s1 l1 G1 Hl1. split_and!; auto; [apply data_inv_ad; auto; apply G1 | by apply frame_ad].
Qed.

Lemma keeps_size_stat r s0 :
  tags_ok r s0 -> (rq_write r = true -> counts_ok r s0) ->
  keeps (fun s => calm false s /\ same_kernel s0 s) (cause_list_size_stat2 r)
        (fun _ s => calm false s /\ same_kernel s0 s).
Proof.
  intros Ht Hcn. unfold cause_list_size_stat2. destruct (rq_write r); [|by apply keeps_ret].
  specialize (Hcn eq_refl).
  apply keeps_for_each. intros b Hb. destruct (bi_cll b) as [l|] eqn:El; [|by apply keeps_ret].
  apply keeps_for_each. intros i Hi. apply elem_of_seqZ in Hi.
  assert (bio_ok (kern s0) b) by (eapply list.Forall_forall; [apply (ro_bios _ _ Ht) | done]).
  by eapply keeps_count_causes.
Qed.

Lemma keeps_update_min : keeps (calm false) update_active_min (fun _ => calm false).
Proof.
  intros s Hi Hc. destruct (update_active_min_frame s (di_accts _ Hi)) as (s' & E & F & Hh & _ & Hg).
  exists tt, s'. split; [done |]. split; [by eapply vio_frame_data |].
  split; [by apply vio_frame_frame |]. eapply vio_frame_calm; [done | | done].
  destruct Hc as [[V1 V2] _]. split; [by rewrite Hh | by apply Hg].
Qed.

(** ** Admission *)

Definition set_lock (v : bool) (s : afq) : afq := s <| ad ::= fun d => d <| lock := v |> |>.

Lemma spin_lock_run line s : lock (ad s) = false -> spin_lock line s = Ok (tt, set_lock true s).
Proof. unfold spin_lock. by intros ->. Qed.

Lemma data_inv_lock v s : data_inv s -> data_inv (set_lock v s).
Proof. intros H. apply data_inv_ad; auto; apply H. Qed.

(** What runs under the spin lock keeps the frame once the lock is released. *)
Lemma frame_unlock s s' :
  lock (ad s) = false -> frame (set_lock true s) s' -> frame s (set_lock false s').
Proof.
  intros Hl [F1 F2 F3 F4 F5 F6 F7 F8 F9 F10 F11 F12 F13 F14 F15]. split; auto.
Qed.

Lemma critical_run {A} P (m : ST afq A) Q s :
  keeps (fun s => calm false s /\ P s) m (fun a s => calm false s /\ Q a s) ->
  afq_inv s -> P (set_lock true s) ->
  exists a s', m (set_lock true s) = Ok (a, s') /\ afq_inv (set_lock false s') /\
    frame s (set_lock false s') /\ Q a s'.
Proof.
  intros Hm [Hi Hc Hw Hl] HP.
  destruct (Hm (set_lock true s)) as (a & s' & E & Hi' & F & Hc' & HQ);
    [by apply data_inv_lock | exact (conj Hc HP) |].
  exists a, s'. assert (F' : frame s (set_lock false s')) by (by apply frame_unlock).
  split_and!; auto. apply (frame_inv s); auto; [by split | by apply data_inv_lock].
Qed.

Lemma keeps_lower_min p a :
  keeps (fun s => calm false s /\ has_acct p s) (lower_global_min a)
        (fun _ s => calm false s /\ has_acct p s).
Proof.
  unfold lower_global_min. eapply (keeps_bind _ _ _ (fun _ s => calm false s /\ has_acct p s));
    [by apply keeps_gets |]. intros g. destruct (_ && _); [|by apply keeps_ret].
  intros s Hi [Hc Hp]. eexists _, _. split; [done |]. split_and!; auto.
  - apply data_inv_ad; auto; apply Hi.
  - by apply frame_ad.
Qed.

(** The account of the task with account id [cur] among [h], or the next one to be
    allocated. *)
Definition caller_of (h : list account) (cur : Z) (p : nat) : Prop :=
  match h !! p with Some a => account_id a = cur | None => p = length h end.

Lemma get_acct_caller id h :
  keeps (fun s => calm false s /\ heap s = h) (get_acct id)
    (fun o s => calm false s /\ exists p a, o = Some p /\ heap s !! p = Some a /\ account_id a = id /\
       caller_of h id p).
Proof.
  intros s Hi [Hc <-]. destruct (afq_get_acct_run s id Hi) as (p & a & s' & E & Hi' & F & Ha & Hid & Hc' & Hh).
  exists (Some p), s'. split_and!; eauto. exists p, a. split_and!; auto. unfold caller_of.
  destruct Hh as [Eh|[Eh _]]; rewrite Eh in Ha; [by rewrite Ha |].
  apply lookup_app_Some in Ha as [Ha|[Hp Ha]]; [by rewrite Ha |].
  rewrite (proj2 (lookup_ge_None _ _) Hp). apply list_lookup_singleton_Some in Ha. lia.
Qed.

(** The account of the caller: made if need be, and looked at. *)
Lemma keeps_caller line cur h :
  keeps (fun s => calm false s /\ heap s = h) (caller_acct line cur)
    (fun o s => calm false s /\ exists p, o = Some p /\ has_acct p s /\ caller_of h cur p).
Proof.
  unfold caller_acct. eapply keeps_bind; [apply get_acct_caller |].
  intros o s Hi (Hc & p & a & -> & Ha & Hid & Hcl).
  assert (Hm : keeps (fun s => calm false s /\ has_acct p s)
    ((let! a := acct line p in lower_global_min a);; ret (Some p))
    (fun o s => calm false s /\ exists p, o = Some p /\ has_acct p s /\ caller_of h cur p)).
  { eapply keeps_bind; [eapply keeps_bind; [apply afq_keeps_acct | intros ?; apply keeps_lower_min] |].
    intros ?. apply keeps_ret. intros s' [H1 H2]. eauto. }
  apply Hm; [done |]. split; [done | by eexists].
Qed.

(** [scheduled] names an account whose id is not 0. *)
Definition sched_acct (p : nat) (s : afq) : Prop := exists a, heap s !! p = Some a /\ account_id a <> 0.

Lemma sched_acct_frame p s s' : frame s s' -> sched_acct p s -> sched_acct p s'.
Proof.
  intros F (a & Ha & Hid). destruct (fr_heap _ _ F p a Ha) as (a' & Ha' & [E _ _]).
  exists a'. rewrite E. auto.
Qed.

Lemma sched_has p s : sched_acct p s -> has_acct p s.
Proof. intros (a & Ha & _). by eexists. Qed.

Lemma quiet_scheduled p :
  quiet (has_acct p) (scheduled (Some p))
    (fun o s => match o with Some q => q = p /\ sched_acct p s | None => True end).
Proof.
  intros s Hi [a Ha]. unfold scheduled. rewrite (bind_ok _ _ _ _ _ (afq_acct_run _ _ _ _ Ha)).
  eexists _, s. split; [done |]. split; [done |]. split; [reflexivity |].
  destruct (Z.eqb_spec (account_id a) 0); [done |]. split; [done |]. by exists a.
Qed.

Lemma quiet_upd p f :
  (forall a, acct_frame a (f a)) -> (forall a, vio_counter (f a) = vio_counter a) ->
  (forall a, sim_batch (f a) = sim_batch a) ->
  quiet (sched_acct p) (upd_acct p f) (fun _ => sched_acct p).
Proof.
  intros H1 H2 H3 s Hi Hp.
  destruct (keeps_quiet _ _ _ (keeps_upd_acct false p f H1 H2 H3) s Hi) as (a & s' & E & Hi' & F & _).
  { by apply sched_has. }
  exists a, s'. split_and!; auto. by eapply sched_acct_frame.
Qed.

(** How admission ends: the call returns 0 and nothing waits, or the account has to
    schedule it. *)
Definition admitted (h : list account) (cur : Z) (r : entry_result + nat) (s : afq) : Prop :=
  match r with
  | inl r => r = Returns 0 (Some None)
  | inr p => sched_acct p s /\ caller_of h cur p
  end.

Lemma write_admit_run h cur o_direct uniq :
  quiet (fun s => q_sched_uniq s = uniq /\ heap s = h) (write_entry_admit cur o_direct uniq) (admitted h cur).
Proof.
  intros s Hi [Hu Hh]. unfold write_entry_admit. rewrite (bind_ok _ _ _ _ _ (spin_lock_run _ _ (inv_lock _ Hi))).
  rewrite (bind_ok _ _ (set_lock true s) uniq (set_lock true s)) by (unfold gets; simpl; by rewrite Hu).
  rewrite Z.eqb_refl. cbn [negb].
  destruct (critical_run _ _ _ s (keeps_caller 829 cur h) Hi Hh)
    as (o & s1 & E1 & Hi1 & F1 & p & -> & Hp & Hcl).
  rewrite (bind_ok _ _ _ _ _ E1).
  unfold spin_unlock, upd_ad, modify. erewrite (bind_ok (fun s => Ok (tt, _))) by done.
  change (s1 <| ad ::= fun d => d <| lock := false |> |>) with (set_lock false s1).
  match goal with |- exists a s', ?m (set_lock false s1) = _ /\ _ =>
    assert (Hm : quiet (has_acct p) m (admitted h cur)) end.
  { eapply afq_quiet_bind; [apply quiet_scheduled |]. intros [q|]; [|by apply afq_quiet_ret].
    intros s2 Hi2 [-> Hp2].
    match goal with |- exists a s', ?m s2 = _ /\ _ => assert (Hm : quiet (sched_acct p) m (admitted h cur)) end.
    { eapply afq_quiet_bind; [apply quiet_upd; by intros [] |]. intros ?.
      destruct o_direct; [by apply afq_quiet_ret |].
      intros s3 Hi3 (b & Ha & Hid). rewrite (bind_ok _ _ _ _ _ (afq_acct_run _ _ _ _ Ha)).
      rewrite (bind_ok _ _ s3 (global_min_vio_counter2 (ad s3)) s3) by done.
      assert (Hm' : quiet (sched_acct p)
        (if s64 (vio_counter b - global_min_vio_counter2 (ad s3)) <=? WRITE_ALLOWANCE then
           upd_acct p (fun a => a <| num_write_passed ::= fun n => s32 (n + 1) |>);;
           ret (inl (Returns 0 (Some None)))
         else ret (inr p)) (admitted h cur)).
      { destruct (_ <=? _); [|by apply afq_quiet_ret].
        eapply afq_quiet_bind; [apply quiet_upd; by intros [] |]. intros ?. by apply afq_quiet_ret. }
      apply Hm'; [done |]. by exists b. }
    by apply Hm. }
  destruct (Hm (set_lock false s1) Hi1) as (r & s' & E & Hi' & F & HQ); [exact Hp |].
  exists r, s'. split_and!; auto. by transitivity (set_lock false s1).
Qed.

Lemma mkdir_admit_run h cur uniq :
  quiet (fun s => q_sched_uniq s = uniq /\ heap s = h) (mkdir_entry_admit cur uniq) (admitted h cur).
Proof.
  intros s Hi [Hu Hh]. unfold mkdir_entry_admit.
  rewrite (bind_ok _ _ s uniq s) by (unfold gets; simpl; by rewrite Hu). rewrite Z.eqb_refl. cbn [negb].
  match goal with |- exists a s', ?m s = _ /\ _ =>
    assert (Hm : quiet (fun s => heap s = h) m (admitted h cur)); [|by apply Hm] end.
  eapply afq_quiet_bind; [apply keeps_quiet, keeps_caller |].
  intros o s1 Hi1 (p & -> & Hp & Hcl).
  match goal with |- exists a s', ?m s1 = _ /\ _ =>
    assert (Hm : quiet (has_acct p) m (admitted h cur)); [|by apply Hm] end.
  eapply afq_quiet_bind; [apply quiet_scheduled |]. intros [q|]; [|by apply afq_quiet_ret].
  intros s2 Hi2 [-> (a & Ha & Hid)]. rewrite (bind_ok _ _ _ _ _ (afq_acct_run _ _ _ _ Ha)).
  rewrite (bind_ok _ _ s2 (global_min_vio_counter2 (ad s2)) s2) by done.
  destruct (_ <=? _); eexists _, s2; (split; [done |]); (split; [done |]); (split; [reflexivity |]).
  - done.
  - split; [by exists a | done].
Qed.

(** ** Settings *)

(** The values for which the scheduler works. *)
Definition setting_ok (key : string) (val : Z) : Prop :=
  (key = "ioprio"%string -> prio_ok (s32 val)) /\
  (key = "vio_counter"%string -> val <= MAX_VIO_COUNTER_THRESHOLD).

Lemma set_acct_inv s p a a' :
  afq_inv s -> heap s !! p = Some a -> account_id a' = account_id a ->
  io_work_list_head a' = io_work_list_head a -> sim_batch a' = sim_batch a ->
  prio_ok (ioprio a') -> vio_counter a' <= MAX_VIO_COUNTER_THRESHOLD ->
  afq_inv (put_acct p a' s) /\ same_works s (put_acct p a' s).
Proof.
  intros [Hi [[V1 V2] R] Hw Hl] Ha E1 E2 E3 Hp Hv. pose proof (lookup_lt_Some _ _ _ Ha) as Hlt.
  assert (Hs : same_works s (put_acct p a' s)).
  { split; auto. intros q. unfold works_of. rewrite afq_put_lookup by done.
    case_decide; [subst; by rewrite Ha, E2 | done]. }
  split; [|done]. split; auto.
  - eapply data_inv_put; eauto. rewrite E3. by eapply acct_batch_wf.
  - split; [split; [by apply Forall_insert | done] |]. intros Hf. destruct (R Hf) as [R1 R2].
    split; [done |]. apply Forall_insert; [done |]. rewrite E3. exact (Forall_lookup_1 _ _ _ _ R2 Ha).
  - by eapply same_works_inv.
Qed.

Lemma same_works_trans s1 s2 s3 : same_works s1 s2 -> same_works s2 s3 -> same_works s1 s3.
Proof.
  intros [A1 A2 A3 A4 A5 A6 A7] [B1 B2 B3 B4 B5 B6 B7]. split; congruence.
Qed.

Lemma kv_set_run s id key val :
  afq_inv s -> setting_ok key val ->
  exists s', basic_kv_set_callback id key val s = Ok (tt, s') /\ afq_inv s' /\ same_works s s' /\
    q_sched_uniq s' = q_sched_uniq s.
Proof.
  intros Hi [Hk1 Hk2]. unfold basic_kv_set_callback.
  destruct (afq_get_acct_run s id (inv_data _ Hi)) as (p & a & s1 & E1 & Hi1 & F1 & Ha & Hid & Hc & _).
  rewrite (bind_ok _ _ _ _ _ E1), (bind_ok _ _ _ _ _ (afq_acct_run _ _ _ _ Ha)).
  assert (Hinv1 : afq_inv s1) by (apply (frame_inv s); auto; apply Hc, Hi).
  assert (Hok : forall s a, afq_inv s -> heap s !! p = Some a ->
    prio_ok (ioprio a) /\ vio_counter a <= MAX_VIO_COUNTER_THRESHOLD).
  { clear. intros s a [Hi [[V _] _] _ _] Ha. split.
    - exact (Forall_lookup_1 _ _ _ _ (di_prio _ Hi) Ha).
    - exact (Forall_lookup_1 _ _ _ _ V Ha). }
  assert (Hstep : exists s2 a2, (if String.eqb key "ioprio" && negb (val =? ioprio a)
       then upd_acct p (fun a => a <| ioprio := s32 val |>) else ret tt) s1 = Ok (tt, s2) /\
     afq_inv s2 /\ same_works s1 s2 /\ q_sched_uniq s2 = q_sched_uniq s1 /\ heap s2 !! p = Some a2).
  { destruct (_ && _) eqn:Eb.
    - apply andb_true_iff in Eb as [Eb _]. apply String.eqb_eq in Eb.
      rewrite (afq_upd_acct_run _ _ _ _ Ha). eexists _, _. split; [done |].
      destruct (set_acct_inv s1 p a (a <| ioprio := s32 val |>)) as [G1 G2]; auto.
      { by apply (Hok s1 a). }
      split_and!; auto. rewrite afq_put_lookup by (by eapply lookup_lt_Some). by rewrite decide_True.
    - exists s1, a. split_and!; auto; try (by split). }
  destruct Hstep as (s2 & a2 & E2 & Hi2 & S2 & U2 & Ha2).
  rewrite (bind_ok _ _ _ _ _ E2), (bind_ok _ _ _ _ _ (afq_acct_run _ _ _ _ Ha2)).
  assert (S12 : same_works s s2) by (eapply same_works_trans; [by apply frame_same_works | done]).
  assert (U12 : q_sched_uniq s2 = q_sched_uniq s) by (rewrite U2; apply F1).
  clear E2. destruct (_ && _) eqn:Eb.
  - apply andb_true_iff in Eb as [Eb _]. apply String.eqb_eq in Eb.
    rewrite (afq_upd_acct_run _ _ _ _ Ha2). eexists. split; [done |].
    destruct (set_acct_inv s2 p a2 (a2 <| vio_counter := val |>)) as [G1 G2]; auto.
    { by apply (Hok s2 a2). }
    split_and!; auto. by eapply same_works_trans.
  - exists s2. auto.
Qed.

End Hooks.
