(* ===== verification/AfqWorks.v ===== *)
(** * Actually fair queuing: how works move

    A work is queued on the list of an account, selected into a batch, let go, and
    counted until it returns.  Each of these moves keeps the invariant of the works. *)

From S2P Require Import Prelude Keeps CInt Kernel DiskSim IoBatch HashTable CauseTags Tags Jiffies.
From S2P Require Import SplitAccount SplitSched IoctlHelper Afq AfqOps AfqInv AfqVio AfqAccount AfqHooks.

(** ** Lists of lists *)

Lemma flat_map_same {A B} (f f' : A -> list B) l :
  (forall x, x ∈ l -> f' x = f x) -> flat_map f' l = flat_map f l.
Proof.
  induction l as [|y l IH]; intros H; simpl; [done |]. rewrite H by left. f_equal. apply IH.
  intros x Hx. apply H. by right.
Qed.

(** Changing the list of one member. *)
Lemma flat_map_change {A B} (f f' : A -> list B) l y xs ys :
  NoDup l -> y ∈ l -> (forall x, x <> y -> f' x = f x) -> f' y ++ ys ≡ₚ f y ++ xs ->
  flat_map f' l ++ ys ≡ₚ flat_map f l ++ xs.
Proof.
  intros Hn Hy Hf Hp. apply list_elem_of_split in Hy as (l1 & l2 & ->).
  apply list.NoDup_app in Hn as (_ & H12 & [Hy2 _]%list.NoDup_cons).
  assert (Hy1 : y ∉ l1) by (intros ?; eapply H12; [done | left]).
  rewrite !flat_map_app. simpl.
  rewrite (flat_map_same f f' l1), (flat_map_same f f' l2) by (intros x Hx; apply Hf; by intros ->).
  rewrite <- !app_assoc. apply Permutation_app_head.
  rewrite (Permutation_app_comm (flat_map f l2) ys), (Permutation_app_comm (flat_map f l2) xs).
  rewrite !app_assoc. by apply Permutation_app_tail.
Qed.

Lemma flat_map_del {A B} `{EqDecision A} (f : A -> list B) l y :
  f y = [] -> flat_map f (list_del y l) = flat_map f l.
Proof.
  intros Hy. induction l as [|z l IH]; [done |]. unfold list_del in *. rewrite filter_cons.
  case_decide as Hd; simpl; [by rewrite IH |].
  assert (z = y) as -> by (by destruct (decide (z = y))). by rewrite Hy, IH.
Qed.

Lemma elem_of_del {A} `{EqDecision A} (x y : A) l : x ∈ list_del y l <-> x <> y /\ x ∈ l.
Proof. unfold list_del. by rewrite list_elem_of_filter. Qed.

Lemma list_del_nodup {A} `{EqDecision A} (y : A) l : NoDup l -> NoDup (list_del y l).
Proof. apply NoDup_filter. Qed.

Lemma list_del_id {A} `{EqDecision A} (x : A) l : x ∉ l -> list_del x l = l.
Proof.
  induction l as [|y l IH]; intros Hx; [done |]. unfold list_del in *. rewrite filter_cons.
  apply not_elem_of_cons in Hx as [H1 H2]. rewrite decide_True by done. by rewrite IH.
Qed.

Lemma list_del_head {A} `{EqDecision A} (x : A) l : x ∉ l -> list_del x (x :: l) = l.
Proof.
  intros Hx. unfold list_del. rewrite filter_cons, decide_False by (intros H; by apply H).
  by apply list_del_id.
Qed.

(** ** Moving between the lists *)

(** Works may move between the accounts and the limbo as long as none is lost or
    doubled. *)
Lemma work_inv_move sel lim sel' lim' s s' :
  work_inv sel lim s -> rqs s' = rqs s -> calls s' = calls s -> dispatch_list s' = dispatch_list s ->
  NoDup (active_acct_list (ad s')) ->
  (forall p, p ∈ active_acct_list (ad s') <-> works_of s' p <> []) ->
  pending s' ++ lim' ≡ₚ pending s ++ lim ->
  (forall b, batch_ok sel' lim' s' b) ->
  (forall p, is_Some (calls s' !! p) \/ is_Some (batches s' !! p) -> (p < next_desc s')%positive) ->
  work_inv sel' lim' s'.
Proof.
  intros [H1 H2 H3 H4 H5 H6 H7 H8 H9] E1 E2 E3 Hn Ha Hp Hb Hx. split; auto; rewrite ?E3; auto.
  - by rewrite Hp.
  - intros w Hw. rewrite Hp in Hw. specialize (H4 w Hw). revert H4. unfold waiting, has_desc.
    by rewrite E1, E2, E3.
  - intros p c Hc. rewrite E2 in Hc. destruct (H5 p c Hc) as [G1 G2]. split; [done |].
    destruct (c_done c); [done |]. destruct G2 as [G2 G3]. split; [done |]. by rewrite Hp.
  - intros rq Hrq. destruct (H7 rq Hrq) as [d Hd]. exists d. revert Hd. unfold has_desc. by rewrite E1.
Qed.

Section Moves.
Context {K : KernelFns} {KO : KernelOk K} {J : JiffyFns}.

Lemma works_put s p a a' q :
  heap s !! p = Some a ->
  works_of (put_acct p a' s) q = if decide (q = p) then io_work_list_head a' else works_of s q.
Proof.
  intros Ha. unfold works_of. rewrite afq_put_lookup by (by eapply lookup_lt_Some).
  by repeat case_decide.
Qed.

(** What queueing a work leaves alone. *)
Record queue_frame (s s' : afq) : Prop := {
  qf_rqs : rqs s' = rqs s;
  qf_calls : calls s' = calls s;
  qf_batches : batches s' = batches s;
  qf_next : next_desc s' = next_desc s;
  qf_list : dispatch_list s' = dispatch_list s;
  qf_uniq : q_sched_uniq s' = q_sched_uniq s;
  qf_lock : lock (ad s') = lock (ad s);
  qf_wait : keep_wait (ad s') = keep_wait (ad s);
  qf_dead : batch_dead (ad s') = batch_dead (ad s);
  qf_inflight : inflight (ad s') = inflight (ad s);
}.

Lemma add_io_work_state s w p a :
  heap s !! p = Some a ->
  exists n a' s', add_io_work_to_acct w p s = Ok (tt, s') /\
    s' = put_acct p (a' <| io_work_list_head := io_work_list_head a ++ [w] |>)
      ((set_tick n s) <| ad ::= fun d => d <| active_acct_list := 
         (if acct_no_pending_io a then active_acct_list (ad s) ++ [p] else active_acct_list (ad s)) |> |>) /\
    (a' = a \/ a' = a <| vio_counter := global_min_vio_counter2 (ad s) |>).
Proof.
  intros Ha. unfold add_io_work_to_acct. rewrite (bind_ok _ _ _ _ _ (afq_acct_run _ _ _ _ Ha)).
  destruct (acct_no_pending_io a).
  - set (s1 := s <| ad ::= fun d => d <| active_acct_list := active_acct_list (ad s) ++ [p] |> |>).
    assert (Ha1 : forall n, heap (set_tick n s1) !! p = Some a) by done.
      set (m := let! now := jiffies in
       if time_before (u64 (last_end_request a + ACCT_MAX_SLEEP_TIME)) now
       then let! v := gets (fun s => global_min_vio_counter2 (ad s)) in
            upd_acct p (fun a => a <| vio_counter := v |>)
       else ret tt).
    assert (Em : exists s2, m s1 = Ok (tt, s2) /\
      (s2 = set_tick (S (ticks s)) s1 \/ s2 = put_acct p (a <| vio_counter := global_min_vio_counter2 (ad s) |>)
         (set_tick (S (ticks s)) s1))).
    { unfold m. rewrite (bind_ok _ _ _ _ _ (jiffies_run s1)). destruct (time_before _ _).
      - eexists. split; [|by right].
        rewrite (bind_ok _ _ _ (global_min_vio_counter2 (ad s)) (set_tick (S (ticks s)) s1)) by done.
        by rewrite (afq_upd_acct_run _ _ _ _ (Ha1 _)).
      - eexists. split; [done |]. by left. }
    destruct Em as (s2 & Em & Hs2).
    rewrite (bind_ok _ _ s tt s2).
    2: { unfold list_add_active, upd_ad, modify. erewrite (bind_ok (fun s => Ok (tt, _))) by done. exact Em. }
    destruct Hs2 as [->| ->].
    + rewrite (afq_upd_acct_run _ _ _ _ (Ha1 _)). eexists _, a, _. split; [done |]. split; [done |]. by left.
    + erewrite afq_upd_acct_run.
      2: { rewrite afq_put_lookup by (eapply lookup_lt_Some, (Ha1 _)). by rewrite decide_True. }
      rewrite afq_put_put. eexists _, (a <| vio_counter := global_min_vio_counter2 (ad s) |>), _.
      split; [done |]. split; [done |]. by right.
  - rewrite (bind_ok _ _ s tt s) by done. rewrite (afq_upd_acct_run _ _ _ _ Ha).
    exists (ticks s), a. eexists. split; [done |]. split; [|by left].
    rewrite set_tick_id. f_equal.
Qed.

(** A work in limbo goes to the end of the list of an account, which becomes active
    if it was not. *)
Lemma queued_work_inv s s' w p :
  work_inv None [w] s ->
  rqs s' = rqs s -> calls s' = calls s -> dispatch_list s' = dispatch_list s ->
  batches s' = batches s -> next_desc s' = next_desc s ->
  (forall q, works_of s' q = if decide (q = p) then works_of s p ++ [w] else works_of s q) ->
  active_acct_list (ad s') =
    (if bool_decide (works_of s p = []) then active_acct_list (ad s) ++ [p] else active_acct_list (ad s)) ->
  work_inv None [] s'.
Proof.
  intros Hw E1 E2 E3 E4 E5 Hwk Hact. pose proof Hw as [H1 H2 H3 H4 H5 H6 H7 H8 H9].
  assert (Hcase : (works_of s p = [] /\ p ∉ active_acct_list (ad s) /\
      active_acct_list (ad s') = active_acct_list (ad s) ++ [p]) \/
    (works_of s p <> [] /\ p ∈ active_acct_list (ad s) /\ active_acct_list (ad s') = active_acct_list (ad s))).
  { rewrite Hact. specialize (H2 p).
    destruct (bool_decide_reflect (works_of s p = [])); [left | right]; intuition. }
  clear Hact. apply (work_inv_move None [w] None [] s s'); auto.
  - destruct Hcase as [(_ & Hp & ->)|(_ & _ & ->)]; [|done].
    apply list.NoDup_app. split; [done |]. split; [|apply NoDup_singleton].
    by intros x Hx ->%list_elem_of_singleton.
  - intros q. rewrite Hwk. destruct (decide (q = p)) as [->|Hne].
    + split; [intros _; by destruct (works_of s p) |]. intros _.
      destruct Hcase as [(_ & _ & ->)|(_ & Hp & ->)]; [apply elem_of_app; right; left | done].
    + rewrite <- H2. destruct Hcase as [(_ & _ & ->)|(_ & _ & ->)]; [|done].
      rewrite elem_of_app, list_elem_of_singleton. naive_solver.
  - unfold pending. rewrite app_nil_r. destruct Hcase as [(Hnil & Hp & ->)|(_ & Hp & ->)].
    + rewrite flat_map_app. simpl. rewrite Hwk, decide_True, Hnil, app_nil_r by done. simpl.
      rewrite (flat_map_same (works_of s)); [done |]. intros x Hx. rewrite Hwk, decide_False; [done |].
      by intros ->.
    + rewrite <- (app_nil_r (flat_map (works_of s') _)). apply (flat_map_change _ _ _ p); auto.
      * intros x Hx. by rewrite Hwk, decide_False.
      * by rewrite Hwk, decide_True, app_nil_r by done.
  - intros b. specialize (H8 b). unfold batch_ok, outstanding, calls_of, reqs_of, rq_owner in *.
    by rewrite E1, E2, E3, E4.
  - intros q. rewrite E2, E4, E5. apply H9.
Qed.

(** Queueing a work that is in limbo. *)
Lemma add_io_work_run s w p a :
  data_inv s -> calm false s -> work_inv None [w] s -> heap s !! p = Some a ->
  exists s', add_io_work_to_acct w p s = Ok (tt, s') /\
    data_inv s' /\ calm false s' /\ work_inv None [] s' /\ queue_frame s s' /\
    (forall q, works_of s' q = if decide (q = p) then works_of s p ++ [w] else works_of s q).
Proof.
  intros Hi Hc Hw Ha. destruct (add_io_work_state s w p a Ha) as (n & a' & s' & E & Es & Ha').
  exists s'. split; [done |]. set (act := if acct_no_pending_io a then _ else _) in Es.
  set (s1 := (set_tick n s) <| ad ::= fun d => d <| active_acct_list := act |> |>) in Es.
  assert (Hi1 : data_inv s1).
  { apply data_inv_ad; auto; [|apply Hi..]. eapply (vio_frame_data s); [apply vio_frame_tick | done]. }
  assert (Ha1 : heap s1 !! p = Some a) by exact Ha.
  assert (Hworks : works_of s p = io_work_list_head a) by (unfold works_of; by rewrite Ha).
  set (a2 := a' <| io_work_list_head := io_work_list_head a ++ [w] |>) in Es.
  assert (Hwk : forall q, works_of s' q = if decide (q = p) then works_of s p ++ [w] else works_of s q).
  { intros q. rewrite Es, (works_put s1 p a a2 q Ha1). by rewrite Hworks. }
  assert (Hid : account_id a2 = account_id a /\ ioprio a2 = ioprio a /\ sim_batch a2 = sim_batch a /\
    vio_counter a2 <= MAX_VIO_COUNTER_THRESHOLD).
  { destruct Hc as [[V1 V2] _]. pose proof (Forall_lookup_1 _ _ _ _ V1 Ha).
    destruct Ha' as [->| ->]; by split_and!. }
  destruct Hid as (I1 & I2 & I3 & I4). split_and!; auto; rewrite Es.
  - eapply data_inv_put; [done | exact Ha1 | done | |].
    + rewrite I2. exact (Forall_lookup_1 _ _ _ _ (di_prio _ Hi) Ha).
    + rewrite I3. by eapply acct_batch_wf.
  - destruct Hc as [[V1 V2] R]. split; [split; [by apply Forall_insert | done] |].
    intros Hf. destruct (R Hf) as [R1 R2]. split; [done |]. apply Forall_insert; [done |].
    rewrite I3. exact (Forall_lookup_1 _ _ _ _ R2 Ha).
  - rewrite <- Es. apply (queued_work_inv s s' w p); rewrite ?Es; auto; [by rewrite <- Es |].
    simpl. unfold act, acct_no_pending_io. by rewrite Hworks.
  - by split.
Qed.

End Moves.
