(* ===== verification/AfqSelect.v ===== *)
(** * Actually fair queuing: selecting a batch

    [basic_sched_select_io_work] serves the account with the least counter, or stays
    with a sequential account within its slice, and goes on with the next account
    while the batch is small.  [serves] describes the rounds of that loop on the state
    it starts in; the code ends, never fails, and makes exactly these rounds. *)

From S2P Require Import Prelude Keeps CInt Kernel DiskSim IoBatch HashTable CauseTags Tags Jiffies.
From S2P Require Import SplitAccount SplitSched IoctlHelper Afq AfqOps AfqInv AfqVio AfqAccount AfqHooks.
From S2P Require Import AfqWorks.

(** ** The rounds *)

Definition vio_of (s : afq) (p : nat) : Z := match heap s !! p with Some a => vio_counter a | None => 0 end.
Definition seq_of (s : afq) (p : nat) : Z := match heap s !! p with Some a => seq_counter a | None => 0 end.

(** [p] has the least counter of the accounts on [l]. *)
Definition least (s : afq) (l : list nat) (p : nat) : Prop :=
  p ∈ l /\ forall q, q ∈ l -> vio_of s p <= vio_of s q.

(** The works taken from an account when the batch has [n] works. *)
Definition share (s : afq) (p : nat) (n : Z) : list io_ref :=
  take (Z.to_nat (MAX_BATCH_SIZE - n)) (works_of s p).

(** [serves s p l n rs]: with [n] works in the batch and the accounts [l] active, the
    account [p] is served now; [rs] are the rounds from here on. *)
Inductive serves (s : afq) : nat -> list nat -> Z -> list (nat * list io_ref) -> Prop :=
  | serves_enough p l n :
      MIN_BATCH_SIZE <= n + Z.of_nat (length (share s p n)) \/ SEQ_THRESHOLD <= seq_of s p ->
      serves s p l n [(p, share s p n)]
  | serves_all p l n :
      n + Z.of_nat (length (share s p n)) < MIN_BATCH_SIZE -> seq_of s p < SEQ_THRESHOLD ->
      list_del p l = [] -> serves s p l n [(p, share s p n)]
  | serves_next p l n q rs :
      n + Z.of_nat (length (share s p n)) < MIN_BATCH_SIZE -> seq_of s p < SEQ_THRESHOLD ->
      least s (list_del p l) q ->
      serves s q (list_del p l) (n + Z.of_nat (length (share s p n))) rs ->
      serves s p l n ((p, share s p n) :: rs).

(** The works of the rounds, and those taken from one account. *)
Definition served (rs : list (nat * list io_ref)) : list io_ref := flat_map snd rs.
Definition taken_of (q : nat) (rs : list (nat * list io_ref)) : list io_ref :=
  flat_map (fun x => if decide (fst x = q) then snd x else []) rs.

(** ** Moving the works of one account *)

Definition put_batch (b : ptr) (d : io_batch_desc) (s : afq) : afq := s <| batches ::= <[b := d]> |>.

Lemma upd_batch_run b f s d :
  batches s !! b = Some d -> upd_batch b f s = Ok (tt, put_batch b (f d) s).
Proof.
  intros Hd. unfold upd_batch, modify, put_batch, upd, update_field. do 3 f_equal.
  apply map_eq. intros i. rewrite lookup_alter, lookup_insert. case_decide; subst; [by rewrite Hd | done].
Qed.

Definition moved (b : ptr) (p : nat) (a : account) (d : io_batch_desc) (k : nat) (s : afq) : afq :=
  put_batch b (d <| work_selected := work_selected d ++ take k (io_work_list_head a) |>)
    (put_acct p (a <| io_work_list_head := drop k (io_work_list_head a) |>) s).

Lemma put_batch_put b d d' s : put_batch b d' (put_batch b d s) = put_batch b d' s.
Proof. unfold put_batch. simpl. by rewrite insert_insert_eq. Qed.

Lemma put_same s b p a d :
  heap s !! p = Some a -> batches s !! b = Some d -> put_batch b d (put_acct p a s) = s.
Proof.
  unfold heap. intros Ha Hd. unfold put_batch, put_acct, upd, update_field. simpl.
  rewrite list_insert_id by done. rewrite insert_id by done.
  by destruct s as [? ? ? ? ? ? ? ? [[] ? ? ? ? ? ? ? ? ? ? ? ? ? ? ? ?]].
Qed.

Lemma moved_none b p a d s :
  heap s !! p = Some a -> batches s !! b = Some d -> moved b p a d 0 s = s.
Proof.
  intros Ha Hd. unfold moved.
  assert (a <| io_work_list_head := drop 0 (io_work_list_head a) |> = a) as -> by (by destruct a).
  assert (d <| work_selected := work_selected d ++ take 0 (io_work_list_head a) |> = d) as ->
    by (destruct d; simpl; by rewrite app_nil_r).
  by apply put_same.
Qed.

Lemma move_works_run works b p n s a d :
  heap s !! p = Some a -> batches s !! b = Some d -> io_work_list_head a = works ->
  NoDup works -> 0 <= n < MAX_BATCH_SIZE ->
  let k := Nat.min (length works) (Z.to_nat (MAX_BATCH_SIZE - n)) in
  move_works b p works n s = Ok (n + Z.of_nat k, moved b p a d k s).
Proof.
  revert n s a d. induction works as [|w works IH]; intros n s a d Ha Hd Hw Hn Hnn; cbn [move_works length].
  { cbn [Nat.min]. rewrite Z.add_0_r, moved_none by done. done. }
  apply list.NoDup_cons in Hn as [Hw' Hn]. unfold MAX_BATCH_SIZE in *.
  set (a1 := a <| io_work_list_head := works |>).
  set (d1 := d <| work_selected := work_selected d ++ [w] |>).
  set (s1 := put_batch b d1 (put_acct p a1 s)).
  rewrite (bind_ok _ _ s tt (put_acct p a1 s)).
  2: { rewrite (afq_upd_acct_run _ _ _ _ Ha). do 3 f_equal. unfold a1, upd, update_field.
       by rewrite Hw, list_del_head. }
  rewrite (bind_ok _ _ _ tt s1) by (exact (upd_batch_run b _ (put_acct p a1 s) d Hd)).
  rewrite s32_small by (unfold is_s32; lia).
  pose proof (lookup_lt_Some _ _ _ Ha) as Hl.
  assert (Hput : forall k, moved b p a1 d1 k s1 = moved b p a d (S k) s).
  { intros k. unfold moved, s1.
    match goal with |- put_batch b ?x (put_acct p ?y (put_batch b d1 ?z)) = _ =>
      change (put_acct p y (put_batch b d1 z)) with (put_batch b d1 (put_acct p y z)) end.
    rewrite put_batch_put, afq_put_put, Hw. f_equal. unfold d1, upd, update_field. simpl.
    by rewrite <- app_assoc. }
  assert (Ha1 : heap s1 !! p = Some a1).
  { change (heap s1) with (heap (put_acct p a1 s)). rewrite afq_put_lookup by done. by rewrite decide_True. }
  assert (Hd1 : batches s1 !! b = Some d1) by apply lookup_insert_eq.
  destruct (Z.geb_spec (n + 1) 100) as [Hge|Hlt].
  - replace (Nat.min (S (length works)) (Z.to_nat (100 - n))) with 1%nat by lia.
    rewrite <- Hput, moved_none by done. unfold ret. do 2 f_equal.
  - rewrite (IH (n + 1) s1 a1 d1) by (done || lia). rewrite Hput.
    replace (Nat.min (S (length works)) (Z.to_nat (100 - n)))
      with (S (Nat.min (length works) (Z.to_nat (100 - (n + 1))))) by lia.
    rewrite Nat2Z.inj_succ. do 2 f_equal. lia.
Qed.

(** ** One round *)

(** The state after one round: the works are moved, and an account without works is
    no longer active. *)
Definition served_state (b : ptr) (p : nat) (a : account) (d : io_batch_desc) (k : nat) (s : afq) : afq :=
  (moved b p a d k s) <| ad ::= fun ad => ad <| active_acct_list :=
    (if bool_decide (drop k (io_work_list_head a) = []) then list_del p (active_acct_list ad)
     else active_acct_list ad) |> |>.

Lemma serve_acct_run b p n again s a d :
  heap s !! p = Some a -> batches s !! b = Some d -> NoDup (io_work_list_head a) ->
  io_work_list_head a <> [] -> 0 <= n < MAX_BATCH_SIZE ->
  let k := Nat.min (length (io_work_list_head a)) (Z.to_nat (MAX_BATCH_SIZE - n)) in
  serve_acct b p n again s =
  (if (n + Z.of_nat k <? MIN_BATCH_SIZE) && (seq_counter a <? SEQ_THRESHOLD)
   then again (n + Z.of_nat k) else ret 1) (served_state b p a d k s).
Proof.
  intros Ha Hd Hn Hne Hb k. unfold serve_acct. rewrite (bind_ok _ _ _ _ _ (afq_acct_run _ _ _ _ Ha)).
  unfold acct_no_pending_io at 1. rewrite bool_decide_eq_false_2 by done.
  rewrite (bind_ok _ _ _ _ _ (move_works_run _ b p n s a d Ha Hd eq_refl Hn Hb)). fold k.
  set (a1 := a <| io_work_list_head := drop k (io_work_list_head a) |>).
  assert (Ha1 : heap (moved b p a d k s) !! p = Some a1).
  { change (heap (moved b p a d k s)) with (heap (put_acct p a1 s)).
    rewrite afq_put_lookup by (by eapply lookup_lt_Some). by rewrite decide_True. }
  rewrite (bind_ok _ _ _ _ _ (afq_acct_run _ _ _ _ Ha1)).
  rewrite (bind_ok _ _ _ tt (served_state b p a d k s)); [done |].
  unfold acct_no_pending_io, served_state. cbn [a1 io_work_list_head upd update_field].
  destruct (bool_decide (drop k (io_work_list_head a) = [])); [done |].
  unfold ret. do 2 f_equal.
Qed.

Section Select.
Context {K : KernelFns} {KO : KernelOk K} {J : JiffyFns}.

(** While the batch [b] is being selected, having started in [s0]. *)
Record selecting (s0 : afq) (b : ptr) (lim : list io_ref) (s : afq) : Prop := {
  sl_data : data_inv s;
  sl_calm : calm false s;
  sl_work : work_inv (Some b) lim s;
  sl_batch : batches s !! b = Some (IoBatchDesc lim 0);
  sl_batches : forall b', b' <> b -> batches s !! b' = batches s0 !! b';
  sl_next : next_desc s = Pos.succ (next_desc s0);
  sl_rqs : rqs s = rqs s0;
  sl_calls : calls s = calls s0;
  sl_list : dispatch_list s = dispatch_list s0;
  sl_uniq : q_sched_uniq s = q_sched_uniq s0;
  sl_lock : lock (ad s) = lock (ad s0);
  sl_inflight : inflight (ad s) = inflight (ad s0);
  sl_vio : forall p, vio_of s p = vio_of s0 p;
  sl_seq : forall p, seq_of s p = seq_of s0 p;
}.

Lemma outstanding_same s s' b :
  rqs s' = rqs s -> calls s' = calls s -> dispatch_list s' = dispatch_list s ->
  outstanding b s' = outstanding b s.
Proof. intros E1 E2 E3. unfold outstanding, calls_of, reqs_of, rq_owner. by rewrite E1, E2, E3. Qed.

(** The works of an account that is served move to the batch. *)
Lemma served_works b p a d k s sel lim :
  work_inv sel lim s -> heap s !! p = Some a -> io_work_list_head a <> [] ->
  let s' := served_state b p a d k s in
  (forall q, works_of s' q = if decide (q = p) then drop k (works_of s p) else works_of s q) /\
  NoDup (active_acct_list (ad s')) /\
  (forall q, q ∈ active_acct_list (ad s') <-> works_of s' q <> []) /\
  pending s' ++ lim ++ take k (io_work_list_head a) ≡ₚ pending s ++ lim.
Proof.
  intros [H1 H2 _ _ _ _ _ _ _] Ha Hne s'.
  assert (Hw : works_of s p = io_work_list_head a) by (unfold works_of; by rewrite Ha).
  assert (Hp : p ∈ active_acct_list (ad s)) by (apply H2; by rewrite Hw).
  assert (Hwk : forall q, works_of s' q = if decide (q = p) then drop k (works_of s p) else works_of s q).
  { intros q. rewrite Hw. exact (works_put s p a _ q Ha). }
  assert (Hact : active_acct_list (ad s') = if bool_decide (drop k (io_work_list_head a) = [])
    then list_del p (active_acct_list (ad s)) else active_acct_list (ad s)) by done.
  clearbody s'. rewrite Hact. split_and!; auto.
  - case_bool_decide; [by apply list_del_nodup | done].
  - intros q. rewrite Hwk. case_bool_decide as Hd; [rewrite elem_of_del |]; rewrite H2.
    + case_decide as Hq; [subst; rewrite Hw, Hd; naive_solver | naive_solver].
    + case_decide as Hq; [subst; rewrite Hw; naive_solver | done].
  - rewrite (Permutation_app_comm lim), app_assoc. apply Permutation_app_tail. unfold pending. rewrite Hact.
    assert (Hp' : flat_map (works_of s') (active_acct_list (ad s)) ++ take k (io_work_list_head a)
      ≡ₚ flat_map (works_of s) (active_acct_list (ad s))).
    { rewrite <- (app_nil_r (flat_map (works_of s) _)). apply (flat_map_change _ _ _ p); auto.
      - intros q Hq. by rewrite Hwk, decide_False.
      - rewrite Hwk, decide_True, Hw, app_nil_r, Permutation_app_comm by done. by rewrite take_drop. }
    case_bool_decide as Hd; [|done]. rewrite flat_map_del; [done |].
    by rewrite Hwk, decide_True, Hw.
Qed.

(** One round keeps the invariant. *)
Lemma afq_served_inv s0 b lim s p a k :
  selecting s0 b lim s -> heap s !! p = Some a -> io_work_list_head a <> [] ->
  Z.of_nat (length lim + length (take k (io_work_list_head a))) <= MAX_BATCH_SIZE ->
  selecting s0 b (lim ++ take k (io_work_list_head a)) (served_state b p a (IoBatchDesc lim 0) k s).
Proof.
  intros [G1 G2 G3 G4 G5 G6 G7 G8 G9 G10 G11 G12 G13 G14] Ha Hne Hlen.
  pose proof (served_works b p a (IoBatchDesc lim 0) k s _ _ G3 Ha Hne) as (Hwk & Hn & Hact & Hp).
  set (a1 := a <| io_work_list_head := drop k (io_work_list_head a) |>).
  set (s' := served_state b p a (IoBatchDesc lim 0) k s) in *.
  assert (Hheap : heap s' = heap (put_acct p a1 s)) by done.
  assert (Hlk : forall q, heap s' !! q = if decide (q = p) then Some a1 else heap s !! q).
  { intros q. rewrite Hheap. apply afq_put_lookup. by eapply lookup_lt_Some. }
  assert (Hb : batches s' = <[b := IoBatchDesc (lim ++ take k (io_work_list_head a)) 0]> (batches s)) by done.
  assert (Hout : forall b', outstanding b' s' = outstanding b' s) by (intros; by apply outstanding_same).
  split; auto.
  - assert (Hi : data_inv (put_acct p a1 s)).
    { eapply data_inv_put; [done | exact Ha | done | |].
      - exact (Forall_lookup_1 _ _ _ _ (di_prio _ G1) Ha).
      - exact (acct_batch_wf _ _ _ G1 Ha). }
    destruct Hi as [I1 I2 I3 I4 I5 I6 I7 I8 I9]. by split.
  - destruct G2 as [[V1 V2] R]. split; [split; [|done] |].
    + rewrite Hheap. apply Forall_insert; [done |]. exact (Forall_lookup_1 _ _ _ _ V1 Ha).
    + intros Hf. destruct (R Hf) as [R1 R2]. split; [done |]. rewrite Hheap.
      apply Forall_insert; [done |]. exact (Forall_lookup_1 _ _ _ _ R2 Ha).
  - eapply (work_inv_move (Some b) lim); eauto.
    + intros b'. pose proof (wi_batches _ _ _ G3 b') as Hbo. unfold batch_ok in *. rewrite Hb, Hout.
      destruct (decide (b' = b)) as [->|Hne'].
      * rewrite lookup_insert_eq. rewrite G4 in Hbo. destruct Hbo as [Hbo _]. simpl in *.
        split; [done |]. rewrite decide_True by done. split; [done |]. rewrite length_app. lia.
      * rewrite lookup_insert_ne by done. destruct (batches s !! b'); [|done].
        by rewrite decide_False in Hbo |- * by congruence.
    + intros q Hq. apply (wi_next _ _ _ G3). destruct Hq as [Hq|Hq]; [by left | right].
      rewrite Hb in Hq. destruct (decide (q = b)) as [->|Hne']; [by rewrite G4 |].
      by rewrite lookup_insert_ne in Hq by done.
  - rewrite Hb. apply lookup_insert_eq.
  - intros b' Hb'. rewrite Hb, lookup_insert_ne by done. by apply G5.
  - intros q. rewrite <- G13. unfold vio_of. rewrite Hlk. case_decide; [subst; by rewrite Ha | done].
  - intros q. rewrite <- G14. unfold seq_of. rewrite Hlk. case_decide; [subst; by rewrite Ha | done].
Qed.

(** ** The account with the least counter *)

Lemma least_loop l best s :
  (forall q, q ∈ l -> has_acct q s) ->
  exists best', for_acc l best least_turn s = Ok (best', s) /\
    fst best' <= fst best /\ (forall q, q ∈ l -> fst best' <= vio_of s q) /\
    (best' = best \/ exists p, p ∈ l /\ best' = (vio_of s p, Some p)).
Proof.
  revert best. induction l as [|p l IH]; intros best Hl; cbn [for_acc].
  { exists best. split_and!; auto; [lia |]. by intros q ?%elem_of_nil. }
  destruct (Hl p) as [a Ha]; [left |]. unfold least_turn at 1.
  rewrite (bind_ok _ _ s (if vio_counter a <? fst best then (vio_counter a, Some p) else best) s)
    by (by rewrite (bind_ok _ _ _ _ _ (afq_acct_run _ _ _ _ Ha))).
  assert (Hv : vio_of s p = vio_counter a) by (unfold vio_of; by rewrite Ha).
  destruct (IH (if vio_counter a <? fst best then (vio_counter a, Some p) else best)) as (b' & E & H1 & H2 & H3).
  { intros q Hq. apply Hl. by right. }
  exists b'. split; [done |]. destruct (Z.ltb_spec (vio_counter a) (fst best)); simpl in H1.
  - split; [lia |]. split.
    + intros q [->|Hq]%elem_of_cons; [lia | by apply H2].
    + right. destruct H3 as [->|(q & Hq & ->)]; [exists p; split; [left | by rewrite Hv] |].
      exists q. split; [by right | done].
  - split; [lia |]. split.
    + intros q [->|Hq]%elem_of_cons; [lia | by apply H2].
    + destruct H3 as [->|(q & Hq & ->)]; [by left | right]. exists q. split; [by right | done].
Qed.

(** The search finds an account whenever there is one. *)
Lemma least_search s :
  calm false s -> (forall q, q ∈ active_acct_list (ad s) -> has_acct q s) ->
  exists r, for_acc (active_acct_list (ad s)) (MAX_VIO_COUNTER_THRESHOLD * 2, None) least_turn s = Ok (r, s) /\
    match active_acct_list (ad s) with
    | [] => snd r = None
    | _ => exists p, r = (vio_of s p, Some p) /\ least s (active_acct_list (ad s)) p
    end.
Proof.
  intros [[V _] _] Hl.
  destruct (least_loop _ (MAX_VIO_COUNTER_THRESHOLD * 2, None) s Hl) as (r & E & _ & H2 & H3).
  exists r. split; [done |]. destruct (active_acct_list (ad s)) as [|p0 l] eqn:El.
  { destruct H3 as [->|(q & Hq & _)]; [done |]. by apply elem_of_nil in Hq. }
  destruct H3 as [->|(q & Hq & ->)].
  - destruct (Hl p0) as [a Ha]; [left |]. specialize (H2 p0 ltac:(left)). unfold vio_of in H2.
    rewrite Ha in H2. pose proof (Forall_lookup_1 _ _ _ _ V Ha) as Hv. simpl in *.
    assert (0 < MAX_VIO_COUNTER_THRESHOLD) by done. lia.
  - exists q. split; [done |]. by split.
Qed.

(** Changes that matter to nobody who waits. *)
Lemma selecting_same s0 b lim s s' :
  selecting s0 b lim s -> same_works s s' -> data_inv s' -> calm false s' ->
  q_sched_uniq s' = q_sched_uniq s -> lock (ad s') = lock (ad s) -> inflight (ad s') = inflight (ad s) ->
  (forall p, vio_of s' p = vio_of s p) -> (forall p, seq_of s' p = seq_of s p) ->
  selecting s0 b lim s'.
Proof.
  intros [G1 G2 G3 G4 G5 G6 G7 G8 G9 G10 G11 G12 G13 G14] S Hi Hc E1 E2 E3 Hv Hs.
  pose proof S as [S1 S2 S3 S4 S5 S6 S7]. split; try congruence.
  - by eapply same_works_inv.
  - intros b' Hb'. rewrite S5. by apply G5.
Qed.

Lemma selecting_tick s0 b lim s n : selecting s0 b lim s -> selecting s0 b lim (set_tick n s).
Proof.
  intros H. apply (selecting_same s0 b lim s); try done; [|apply H].
  apply (vio_frame_data s); [apply vio_frame_tick | apply H].
Qed.

Lemma selecting_put s0 b lim s p a a' :
  selecting s0 b lim s -> heap s !! p = Some a -> acct_frame a a' ->
  vio_counter a' = vio_counter a -> seq_counter a' = seq_counter a -> sim_batch a' = sim_batch a ->
  selecting s0 b lim (put_acct p a' s) /\ same_works s (put_acct p a' s).
Proof.
  intros H Ha F Ev Es Eb. pose proof F as [F1 F2 F3].
  assert (Hlk : forall q, heap (put_acct p a' s) !! q = if decide (q = p) then Some a' else heap s !! q).
  { intros q. apply afq_put_lookup. by eapply lookup_lt_Some. }
  assert (S : same_works s (put_acct p a' s)) by (by eapply frame_same_works, frame_put_acct).
  split; [|done]. pose proof (sl_data _ _ _ _ H) as Hi. destruct (sl_calm _ _ _ _ H) as [[V1 V2] R].
  apply (selecting_same s0 b lim s); try done.
  - eapply data_inv_put; [done | exact Ha | done | |].
    + rewrite F3. exact (Forall_lookup_1 _ _ _ _ (di_prio _ Hi) Ha).
    + rewrite Eb. exact (acct_batch_wf _ _ _ Hi Ha).
  - split; [split; [|done] |].
    + apply Forall_insert; [done |]. rewrite Ev. exact (Forall_lookup_1 _ _ _ _ V1 Ha).
    + intros Hx. destruct (R Hx) as [R1 R2]. split; [done |]. apply Forall_insert; [done |].
      rewrite Eb. exact (Forall_lookup_1 _ _ _ _ R2 Ha).
  - intros q. unfold vio_of. rewrite Hlk. case_decide; [subst; by rewrite Ha | done].
  - intros q. unfold seq_of. rewrite Hlk. case_decide; [subst; by rewrite Ha | done].
Qed.

(** The fields that are set up for the account that is served. *)
Definition setup (p : nat) (v : Z) : ST afq unit :=
  upd_ad (fun d => d <| last_served_acct := Some p |> <| global_min_vio_counter := v |>);;
  let! now := jiffies in
  upd_acct p (fun a => a <| slice_begin := now |>);;
  let! now := jiffies in
  upd_acct p (fun a => a <| slice_end := u64 (now + AFQ_MAX_SLICE) |>).

Lemma setup_run s0 b lim s p v :
  selecting s0 b lim s -> has_acct p s ->
  exists s' a', setup p v s = Ok (tt, s') /\ selecting s0 b lim s' /\ same_works s s' /\
    heap s' !! p = Some a'.
Proof.
  intros Hs [a Ha]. unfold setup, upd_ad, modify. erewrite (bind_ok (fun s => Ok (tt, _))) by done.
  set (s1 := s <| ad ::= _ |>).
  assert (H1 : selecting s0 b lim s1).
  { apply (selecting_same s0 b lim s); try done; [|apply Hs].
    apply data_inv_ad; auto; try apply Hs. right. exists p. split; [done |]. by eexists. }
  rewrite (bind_ok _ _ _ _ _ (jiffies_run s1)).
  match goal with |- context [set_tick ?n s1] =>
    pose proof (selecting_tick _ _ _ _ n H1) as H2; set (s2 := set_tick n s1) in * end.
  assert (Ha2 : heap s2 !! p = Some a) by done.
  rewrite (bind_ok _ _ _ _ _ (afq_upd_acct_run _ _ _ _ Ha2)).
  match goal with |- context [put_acct p ?x s2] =>
    destruct (selecting_put _ _ _ _ p a x H2 Ha2) as [H3 S3]; [by destruct a.. |];
    set (a3 := x) in *; set (s3 := put_acct p a3 s2) in * end.
  rewrite (bind_ok _ _ _ _ _ (jiffies_run s3)).
  match goal with |- context [set_tick ?n s3] =>
    pose proof (selecting_tick _ _ _ _ n H3) as H4; set (s4 := set_tick n s3) in * end.
  assert (Ha4 : heap s4 !! p = Some a3).
  { change (heap s4) with (heap (put_acct p a3 s2)).
    rewrite afq_put_lookup by (by eapply lookup_lt_Some). by rewrite decide_True. }
  rewrite (afq_upd_acct_run _ _ _ _ Ha4).
  match goal with |- context [put_acct p ?x s4] =>
    destruct (selecting_put _ _ _ _ p a3 x H4 Ha4) as [H5 S5]; [by destruct a.. |];
    exists (put_acct p x s4), x end.
  split; [done |]. split; [done |]. split.
  - eapply same_works_trans; [|exact S5]. destruct S3. by split.
  - rewrite afq_put_lookup by (by eapply lookup_lt_Some). by rewrite decide_True.
Qed.

(** ** The loop *)

Lemma active_has_acct sel lim s p : work_inv sel lim s -> p ∈ active_acct_list (ad s) ->
  exists a, heap s !! p = Some a /\ io_work_list_head a <> [] /\ NoDup (io_work_list_head a) /\
    works_of s p = io_work_list_head a.
Proof.
  intros [H1 H2 H3 _ _ _ _ _ _] Hp. pose proof Hp as Hw. apply H2 in Hw. unfold works_of in *.
  destruct (heap s !! p) as [a|] eqn:Ha; [|done]. exists a. split_and!; auto.
  apply list.NoDup_app in H3 as [H3 _]. unfold pending in H3.
  apply list_elem_of_split in Hp as (l1 & l2 & E). rewrite E, flat_map_app in H3.
  apply list.NoDup_app in H3 as (_ & _ & H3). simpl in H3. apply list.NoDup_app in H3 as (H3 & _).
  unfold works_of in H3. by rewrite Ha in H3.
Qed.

Lemma list_del_length {A} `{EqDecision A} (x : A) l : x ∈ l -> (length (list_del x l) < length l)%nat.
Proof. intros Hx. apply length_filter_lt with x; [done |]. by intros H. Qed.

Lemma add_io_work_unfold fuel b n more :
  add_io_work (S fuel) b n more =
  (let! l := gets (fun s => active_acct_list (ad s)) in
   let! r := for_acc l (MAX_VIO_COUNTER_THRESHOLD * 2, None) least_turn in
   let '(v, min) := r in
   match min with
   | None => if more then ret 1 else free_batch b;; ret (-1)
   | Some p => upd_ad (fun d => d <| last_served_acct := Some p |> <| global_min_vio_counter := v |>);;
       let! now := jiffies in
       upd_acct p (fun a => a <| slice_begin := now |>);;
       let! now := jiffies in
       upd_acct p (fun a => a <| slice_end := u64 (now + AFQ_MAX_SLICE) |>);;
       serve_acct b p n (fun n => add_io_work fuel b n true)
   end).
Proof. done. Qed.

(** Finding the next account and setting it up. *)
Lemma next_acct_run s0 b lim s fuel n more :
  selecting s0 b lim s -> active_acct_list (ad s) <> [] ->
  exists p s', least s (active_acct_list (ad s)) p /\
    add_io_work (S fuel) b n more s = serve_acct b p n (fun n => add_io_work fuel b n true) s' /\
    selecting s0 b lim s' /\ same_works s s'.
Proof.
  intros Hs Hne. rewrite add_io_work_unfold.
  assert (Hacc : forall q, q ∈ active_acct_list (ad s) -> has_acct q s).
  { intros q Hq. destruct (active_has_acct _ _ _ _ (sl_work _ _ _ _ Hs) Hq) as (a & Ha & _). by eexists. }
  rewrite (bind_ok _ _ s (active_acct_list (ad s)) s) by done.
  destruct (least_search s (sl_calm _ _ _ _ Hs) Hacc) as (r & E & Hr). rewrite (bind_ok _ _ _ _ _ E).
  destruct (active_acct_list (ad s)) as [|p0 l] eqn:El; [done |]. destruct Hr as (p & -> & Hleast).
  destruct (setup_run s0 b lim s p (vio_of s p) Hs) as (s' & a' & Es & Hs' & S' & _).
  { apply Hacc, Hleast. }
  exists p, s'. split; [done |]. split; [|done].
  unfold setup in Es. repeat (unfold bind at 1 in Es; unfold bind at 1;
    match type of Es with match ?m with _ => _ end = _ => destruct m as [[? ?]|]; [|done] end).
  by rewrite (bind_ok _ _ _ _ _ Es).
Qed.

(** The works that are taken, and those that are left. *)
Lemma take_share s p n k :
  k = Nat.min (length (works_of s p)) (Z.to_nat (MAX_BATCH_SIZE - n)) ->
  take k (works_of s p) = share s p n /\ k = length (share s p n).
Proof.
  intros ->. unfold share. rewrite length_take. split; [|lia].
  destruct (Nat.min_spec (length (works_of s p)) (Z.to_nat (MAX_BATCH_SIZE - n))) as [[? ->]|[? ->]]; [|done].
  rewrite !take_ge by lia. done.
Qed.

Lemma least_ext s s' l p : (forall q, vio_of s' q = vio_of s q) -> least s' l p -> least s l p.
Proof. intros H [H1 H2]. split; [done |]. intros q Hq. rewrite <- !H. by apply H2. Qed.

(** One round: the share of the account moves to the batch; with a small share
    the account has nothing left and is no longer active. *)
Lemma one_round s0 b p lim s again :
  let n := Z.of_nat (length lim) in let m := n + Z.of_nat (length (share s0 p n)) in
  selecting s0 b lim s -> p ∈ active_acct_list (ad s) -> n < MIN_BATCH_SIZE -> works_of s p = works_of s0 p ->
  exists s1, serve_acct b p n again s =
      (if (m <? MIN_BATCH_SIZE) && (seq_of s0 p <? SEQ_THRESHOLD) then again m else ret 1) s1 /\
    selecting s0 b (lim ++ share s0 p n) s1 /\
    (forall q, works_of s q = taken_of q [(p, share s0 p n)] ++ works_of s1 q) /\
    (forall q, q <> p -> works_of s1 q = works_of s q) /\
    (m < MIN_BATCH_SIZE -> active_acct_list (ad s1) = list_del p (active_acct_list (ad s))).
Proof.
  intros n m Hs Hp Hlt Hw. destruct (active_has_acct _ _ _ _ (sl_work _ _ _ _ Hs) Hp) as (a & Ha & Hne & Hnd & Hwa).
  unfold MIN_BATCH_SIZE, MAX_BATCH_SIZE in *.
  rewrite (serve_acct_run b p n _ s a (IoBatchDesc lim 0) Ha (sl_batch _ _ _ _ Hs) Hnd Hne)
    by (unfold MAX_BATCH_SIZE; lia).
  set (k := Nat.min _ _). destruct (take_share s0 p n k) as [Etk Ek]; [by rewrite <- Hw, Hwa |].
  rewrite <- Hw, Hwa in Etk.
  assert (Hseq : seq_counter a = seq_of s0 p) by (rewrite <- (sl_seq _ _ _ _ Hs); unfold seq_of; by rewrite Ha).
  assert (Hk : Z.of_nat (length lim + length (take k (io_work_list_head a))) <= MAX_BATCH_SIZE).
  { rewrite length_take. unfold k, MAX_BATCH_SIZE. lia. }
  pose proof (served_works b p a (IoBatchDesc lim 0) k s _ _ (sl_work _ _ _ _ Hs) Ha Hne) as (Hwk & _).
  pose proof (afq_served_inv s0 b lim s p a k Hs Ha Hne Hk) as Hs1. rewrite Etk in Hs1.
  exists (served_state b p a (IoBatchDesc lim 0) k s).
  split; [by rewrite Ek, Hseq |]. split; [done |]. split_and!.
  - intros q. unfold taken_of. simpl. rewrite Hwk, app_nil_r, <- Etk. case_decide as Hq; subst.
    + by rewrite decide_True, Hwa, take_drop.
    + by rewrite decide_False.
  - intros q Hq. by rewrite Hwk, decide_False.
  - intros Hsm. unfold served_state. simpl. rewrite bool_decide_eq_true_2; [done |].
    apply drop_ge. unfold m in Hsm. rewrite <- Ek in Hsm. unfold k, MAX_BATCH_SIZE, n in *. lia.
Qed.

Lemma serve_rounds s0 b fuel p n lim s :
  selecting s0 b lim s -> p ∈ active_acct_list (ad s) -> n = Z.of_nat (length lim) -> n < MIN_BATCH_SIZE ->
  (forall q, q ∈ active_acct_list (ad s) -> works_of s q = works_of s0 q) ->
  (length (active_acct_list (ad s)) <= fuel)%nat ->
  exists s' rs, serve_acct b p n (fun n => add_io_work fuel b n true) s = Ok (1, s') /\
    serves s0 p (active_acct_list (ad s)) n rs /\ selecting s0 b (lim ++ served rs) s' /\
    (forall q, works_of s q = taken_of q rs ++ works_of s' q).
Proof.
  revert p n lim s. induction fuel as [|fuel IH]; intros p n lim s Hs Hp -> Hlt Hw Hf.
  { destruct (active_acct_list (ad s)); [by apply elem_of_nil in Hp | simpl in Hf; lia]. }
  destruct (one_round s0 b p lim s (fun n => add_io_work (S fuel) b n true) Hs Hp Hlt (Hw p Hp))
    as (s1 & E1 & Hs1 & Hone & Hoth & Hact). rewrite E1.
  set (n := Z.of_nat (length lim)) in *. set (m := n + Z.of_nat (length (share s0 p n))) in *.
  assert (Hend : serves s0 p (active_acct_list (ad s)) n [(p, share s0 p n)] ->
    exists s' rs, ret 1 s1 = Ok (1, s') /\ serves s0 p (active_acct_list (ad s)) n rs /\
      selecting s0 b (lim ++ served rs) s' /\ (forall q, works_of s q = taken_of q rs ++ works_of s' q)).
  { intros Hv. exists s1, [(p, share s0 p n)]. unfold served. simpl. rewrite app_nil_r. split_and!; auto. }
  destruct (Z.ltb_spec m MIN_BATCH_SIZE) as [Hsm|Hbig]; cbn [andb].
  2: { apply Hend, serves_enough. by left. }
  destruct (Z.ltb_spec (seq_of s0 p) SEQ_THRESHOLD) as [Hns|Hsq].
  2: { apply Hend, serves_enough. by right. }
  specialize (Hact Hsm). pose proof (list_del_length p _ Hp) as Hlen.
  destruct (decide (list_del p (active_acct_list (ad s)) = [])) as [Hnil|Hnn].
  - (* no account is left *)
    rewrite add_io_work_unfold, (bind_ok _ _ s1 [] s1) by (unfold gets; by rewrite Hact, Hnil).
    cbn [for_acc]. rewrite (bind_ok _ _ s1 (MAX_VIO_COUNTER_THRESHOLD * 2, None) s1) by done.
    by apply Hend, serves_all.
  - destruct (next_acct_run s0 b _ s1 fuel m true Hs1) as (q & s2 & Hq & E & Hs2 & S2); [by rewrite Hact |].
    rewrite E. destruct (IH q m (lim ++ share s0 p n) s2) as (s' & rs & E' & Hr & Hs' & Ht);
      rewrite ?(sw_active _ _ S2), ?Hact; auto.
    + rewrite <- Hact. apply Hq.
    + unfold m, n. rewrite length_app. lia.
    + intros r [Hrp Hr]%elem_of_del. rewrite (sw_works _ _ S2), Hoth by done. by apply Hw.
    + lia.
    + rewrite (sw_active _ _ S2), Hact in Hr.
      exists s', ((p, share s0 p n) :: rs). split; [done |]. split; [|split].
      * eapply serves_next; eauto. rewrite Hact in Hq. eapply least_ext; [|exact Hq]. intros r. apply Hs1.
      * unfold served in *. simpl. by rewrite app_assoc.
      * intros r. rewrite Hone. unfold taken_of in *. simpl. rewrite app_nil_r, <- app_assoc. f_equal.
        by rewrite <- Ht, (sw_works _ _ S2).
Qed.

(** ** The function *)

Lemma idle_for_last_run s :
  data_inv s ->
  exists idle n, idle_for_last s = Ok (idle, set_tick n s) /\
    (idle = true -> exists p, last_served_acct (ad s) = Some p /\ has_acct p s /\ SEQ_THRESHOLD <= seq_of s p).
Proof.
  intros Hi. unfold idle_for_last. rewrite (bind_ok _ _ s (last_served_acct (ad s)) s) by done.
  pose proof (di_last _ Hi) as Hl. destruct (last_served_acct (ad s)) as [p|].
  2: { exists false, (ticks s). rewrite set_tick_id. done. }
  destruct (Hl p eq_refl) as [a Ha]. rewrite (bind_ok _ _ _ _ _ (jiffies_run s)).
  rewrite (bind_ok _ _ _ a (set_tick (S (ticks s)) s)) by (apply afq_acct_run; exact Ha).
  destruct (negb _).
  { eexists false, _. done. }
  rewrite (bind_ok _ _ _ _ _ (jiffies_run _)), set_tick_tick.
  eexists _, _. split; [done |]. intros [_ Hq]%andb_true_iff. exists p. split_and!; auto; [by eexists |].
  bool_to_prop. unfold seq_of. by rewrite Ha.
Qed.

(** A new batch that has selected nothing. *)
Definition new_batch (s : afq) : afq :=
  s <| next_desc ::= Pos.succ |> <| batches ::= <[next_desc s := IoBatchDesc [] 0]> |>.

Lemma fresh_desc sel lim s : work_inv sel lim s -> batches s !! next_desc s = None /\ calls s !! next_desc s = None.
Proof.
  intros H. pose proof (wi_next _ _ _ H (next_desc s)) as Hn.
  split; [destruct (batches s !! next_desc s) eqn:E | destruct (calls s !! next_desc s) eqn:E]; auto;
    exfalso; apply (Pos.lt_irrefl (next_desc s)), Hn; eauto.
Qed.

Lemma selecting_new s s1 :
  afq_inv s -> same_works s s1 -> data_inv s1 -> calm false s1 -> q_sched_uniq s1 = q_sched_uniq s ->
  lock (ad s1) = lock (ad s) -> inflight (ad s1) = inflight (ad s) -> heap s1 = heap s ->
  selecting s (next_desc s) [] (new_batch s1).
Proof.
  intros [_ _ Hw _] S Hi Hc E1 E2 E3 Eh. pose proof S as [S1 S2 S3 S4 S5 S6 S7].
  pose proof (same_works_inv _ _ _ _ S Hw) as Hw1.
  destruct (fresh_desc _ _ _ Hw1) as [Hfb Hfc]. rewrite S6 in Hfb, Hfc.
  assert (Hb : batches (new_batch s1) = <[next_desc s := IoBatchDesc [] 0]> (batches s1))
    by (unfold new_batch; simpl; by rewrite S6).
  split; auto.
  - destruct Hi. by split.
  - apply (work_inv_move None [] _ _ s1); auto; try apply Hw1.
    + intros b. pose proof (wi_batches _ _ _ Hw1 b) as Hbo. unfold batch_ok in *. rewrite Hb.
      change (outstanding b (new_batch s1)) with (outstanding b s1).
      destruct (decide (b = next_desc s)) as [->|Hne].
      * rewrite lookup_insert_eq. rewrite Hfb in Hbo. destruct Hbo as [-> _].
        split; [done |]. by rewrite decide_True.
      * rewrite lookup_insert_ne by done. destruct (batches s1 !! b).
        -- rewrite decide_False in Hbo by done. by rewrite decide_False by congruence.
        -- split; [apply Hbo | congruence].
    + intros p Hp. simpl. rewrite S6. destruct (decide (p = next_desc s)) as [->|Hne]; [lia |].
      assert (p < next_desc s)%positive; [|lia]. rewrite <- S6. apply (wi_next _ _ _ Hw1).
      destruct Hp as [Hp|Hp]; [by left | right]. by rewrite Hb, lookup_insert_ne in Hp by done.
  - rewrite Hb. apply lookup_insert_eq.
  - intros b' Hb'. by rewrite Hb, lookup_insert_ne, S5 by done.
  - simpl. by rewrite S6.
  - intros p. unfold vio_of. change (heap (new_batch s1)) with (heap s1). by rewrite Eh.
  - intros p. unfold seq_of. change (heap (new_batch s1)) with (heap s1). by rewrite Eh.
Qed.

(** How a selection ends: with nothing, when nobody waits or the scheduler idles for
    a sequential account, or with a batch of the works of some rounds. *)
Definition first_served (s : afq) (p : nat) : Prop :=
  least s (active_acct_list (ad s)) p \/
  (last_served_acct (ad s) = Some p /\ p ∈ active_acct_list (ad s) /\ SEQ_THRESHOLD <= seq_of s p).

Inductive selected (s : afq) (r : Z * option ptr) (s' : afq) : Prop :=
  | selected_none :
      r = (0, None) -> vio_frame s s' -> heap s' = heap s -> ad s' = ad s ->
      active_acct_list (ad s) = [] \/
      (exists p, last_served_acct (ad s) = Some p /\ works_of s p = [] /\ SEQ_THRESHOLD <= seq_of s p) ->
      selected s r s'
  | selected_batch p rs :
      r = (1, Some (next_desc s)) -> first_served s p ->
      serves s p (active_acct_list (ad s)) 0 rs ->
      selecting s (next_desc s) (served rs) s' ->
      (forall q, works_of s q = taken_of q rs ++ works_of s' q) ->
      selected s r s'.

Lemma kmalloc_run s :
  data_inv s -> exists s', in_clock kmalloc s = Ok (true, s') /\ data_inv s' /\ same_works s s' /\
    heap s' = heap s /\ ad s' = ad s /\ q_sched_uniq s' = q_sched_uniq s.
Proof.
  intros Hi. unfold in_clock, in_kern, in_world, zoom, kmalloc. rewrite (di_alloc _ Hi).
  eexists. split; [done |]. split; [|by split_and!].
  by apply (data_inv_world s (alloc_step (k_world (kern s)))).
Qed.

(** The rounds, from a new batch on. *)
Lemma rounds_run s s2 b idle :
  selecting s b [] s2 -> active_acct_list (ad s2) = active_acct_list (ad s) ->
  active_acct_list (ad s) <> [] -> (forall q, works_of s2 q = works_of s q) ->
  (idle = true -> exists p, last_served_acct (ad s) = Some p /\ p ∈ active_acct_list (ad s) /\
     SEQ_THRESHOLD <= seq_of s p) ->
  exists p s' rs, (match last_served_acct (ad s), idle with
       | Some p, true =>
           serve_acct b p 0 (fun n => add_io_work (S (length (active_acct_list (ad s)))) b n true)
       | _, _ => add_io_work (S (length (active_acct_list (ad s)))) b 0 false end) s2 = Ok (1, s') /\
     first_served s p /\ serves s p (active_acct_list (ad s)) 0 rs /\ selecting s b (served rs) s' /\
     (forall q, works_of s q = taken_of q rs ++ works_of s' q).
Proof.
  intros Hs Ea Hne Hw Hidle. set (l := active_acct_list (ad s)) in *.
  assert (Hleast : exists p s' rs, add_io_work (S (length l)) b 0 false s2 = Ok (1, s') /\
     first_served s p /\ serves s p l 0 rs /\ selecting s b (served rs) s' /\
     (forall q, works_of s q = taken_of q rs ++ works_of s' q)).
  { destruct (next_acct_run s b [] s2 (length l) 0 false Hs) as (p & s3 & Hp & E & Hs3 & S3); [by rewrite Ea |].
    assert (Ea3 : active_acct_list (ad s3) = l) by (by rewrite (sw_active _ _ S3)).
    destruct (serve_rounds s b (length l) p 0 [] s3 Hs3) as (s' & rs & E' & Hr & Hs' & Ht).
    - rewrite Ea3, <- Ea. apply Hp.
    - done.
    - done.
    - intros q _. by rewrite (sw_works _ _ S3).
    - by rewrite Ea3.
    - rewrite Ea3 in Hr. exists p, s', rs. rewrite E. split_and!; auto.
      + left. rewrite Ea in Hp. eapply least_ext; [|exact Hp]. apply Hs.
      + intros q. rewrite <- Ht, (sw_works _ _ S3). by rewrite Hw. }
  destruct (last_served_acct (ad s)) as [p|] eqn:Elast; [|done]. destruct idle; [|done].
  destruct (Hidle eq_refl) as (p' & [= <-] & Hp & Hq).
  destruct (serve_rounds s b (S (length l)) p 0 [] s2 Hs) as (s' & rs & E' & Hr & Hs' & Ht);
    rewrite ?Ea; auto with lia; try done.
  rewrite Ea in Hr. exists p, s', rs. rewrite E'. split_and!; auto.
  - right. auto.
  - intros q. by rewrite <- Ht, Hw.
Qed.

Lemma select_run s :
  afq_inv s -> exists r s', basic_sched_select_io_work s = Ok (r, s') /\ selected s r s'.
Proof.
  intros Hinv. pose proof Hinv as [Hi Hc Hw Hl]. unfold basic_sched_select_io_work.
  set (l := active_acct_list (ad s)). rewrite (bind_ok _ _ s l s) by done.
  destruct (bool_decide_reflect (l = [])) as [Hn|Hn].
  { exists (0, None), s. split; [done |]. apply selected_none; auto. reflexivity. }
  destruct (idle_for_last_run s Hi) as (idle & n & Ei & Hidle). rewrite (bind_ok _ _ _ _ _ Ei).
  set (s1 := set_tick n s).
  rewrite (bind_ok _ _ s1 (last_served_acct (ad s)) s1) by done.
  assert (Hi1 : data_inv s1) by (apply (vio_frame_data s); [apply vio_frame_tick | done]).
  set (stay := match last_served_acct (ad s), idle with
               | Some p, true => bool_decide (works_of s p = []) | _, _ => false end).
  rewrite (bind_ok _ _ s1 stay s1).
  2: { unfold stay. destruct (last_served_acct (ad s)) as [p|], idle; try done.
       destruct (Hidle eq_refl) as (p' & [= <-] & [a Ha] & _).
       rewrite (bind_ok _ _ s1 a s1) by (apply afq_acct_run; exact Ha).
       unfold works_of, acct_no_pending_io, ret. by rewrite Ha. }
  destruct stay eqn:Est.
  { exists (0, None), s1. split; [done |]. apply selected_none; auto; [apply vio_frame_tick |].
    right. unfold stay in Est. destruct (last_served_acct (ad s)) as [p|], idle; try done.
    destruct (Hidle eq_refl) as (p' & [= <-] & _ & Hq). exists p. by apply bool_decide_eq_true in Est. }
  destruct (kmalloc_run s1 Hi1) as (s2 & E2 & Hi2 & S2 & Eh2 & Ead2 & Eu2). rewrite (bind_ok _ _ _ _ _ E2).
  assert (Hs : selecting s (next_desc s) [] (new_batch s2)).
  { apply selecting_new; auto; rewrite ?Ead2; auto.
    - destruct S2. by split.
    - destruct Hc as [[V1 V2] R]. split; [split|]; rewrite ?Eh2, ?Ead2; auto.
      intros Hf. destruct (R Hf). split; by rewrite ?Eh2, ?Ead2. }
  assert (En : next_desc s2 = next_desc s) by apply S2.
  destruct (rounds_run s (new_batch s2) (next_desc s) idle Hs) as (p & s' & rs & E & Hp & Hr & Hs' & Ht); auto.
  { simpl. by rewrite Ead2. }
  { intros q. exact (sw_works _ _ S2 q). }
  { intros ->. destruct (Hidle eq_refl) as (p & Ep & _ & Hq). exists p. split_and!; auto.
    unfold stay in Est. rewrite Ep in Est. apply bool_decide_eq_false in Est. by apply (wi_active _ _ _ Hw). }
  exists (1, Some (next_desc s)), s'. split; [|by eapply selected_batch].
  cbn [negb]. rewrite (bind_ok _ _ s2 (next_desc s) s2) by (unfold gets; by rewrite En).
  rewrite (bind_ok _ _ s2 tt (new_batch s2)) by (unfold modify, new_batch; by rewrite En).
  by rewrite (bind_ok _ _ _ _ _ E).
Qed.

End Select.
