(* ===== verification/AfqSubmit.v ===== *)
(** * Actually fair queuing: submitting a batch and works that return

    A batch lets its works go: the completion of a system call is signalled, a read
    is dispatched; from then on the batch counts them, and it is freed when the last
    has returned. *)

From S2P Require Import Prelude Keeps CInt Kernel DiskSim IoBatch HashTable CauseTags Tags Jiffies.
From S2P Require Import SplitAccount SplitSched IoctlHelper Afq AfqOps AfqInv AfqVio AfqAccount AfqHooks.
From S2P Require Import AfqWorks AfqSelect.

(** ** Counting *)

Section Count.
Context {A : Type} (P : ptr * A -> Prop) {HP : forall x, Decision (P x)}.

Lemma size_filter_insert (m : gmap ptr A) i x x' :
  m !! i = Some x -> ~ P (i, x) ->
  base.size (filter P (<[i := x']> m)) = (base.size (filter P m) + (if decide (P (i, x')) then 1 else 0))%nat.
Proof.
  intros Hx Hn. assert (Hf : filter P m !! i = None).
  { apply map_lookup_filter_None. right. intros y Hy. by simplify_eq. }
  case_decide as Hp.
  - rewrite map_filter_insert_True, map_size_insert_None by done. lia.
  - rewrite map_filter_insert_False, map_filter_delete, delete_id by done. lia.
Qed.

Lemma size_filter_delete (m : gmap ptr A) i x :
  m !! i = Some x ->
  base.size (filter P m) = (base.size (filter P (delete i m)) + (if decide (P (i, x)) then 1 else 0))%nat.
Proof.
  intros Hx. rewrite map_filter_delete. case_decide as Hp.
  - assert (Hf : filter P m !! i = Some x) by (by apply map_lookup_filter_Some).
    rewrite map_size_delete_Some by eauto.
    assert (base.size (filter P m) <> 0%nat); [|lia].
    intros Hz. apply map_size_empty_inv in Hz. by rewrite Hz in Hf.
  - rewrite delete_id; [lia |]. apply map_lookup_filter_None. right. intros y Hy. by simplify_eq.
Qed.
End Count.

(** A call that a batch lets go. *)
Lemma outstanding_call s s' p c c' b' :
  calls s !! p = Some c -> call_owner (c_desc c) = None ->
  calls s' = <[p := c']> (calls s) -> rqs s' = rqs s -> dispatch_list s' = dispatch_list s ->
  outstanding b' s' = outstanding b' s + (if decide (call_owner (c_desc c') = Some b') then 1 else 0).
Proof.
  intros Hc Ho E1 E2 E3. unfold outstanding, calls_of, reqs_of, rq_owner. rewrite E1, E2, E3.
  rewrite (size_filter_insert _ _ _ c c') by (done || (simpl; rewrite Ho; congruence)).
  simpl. case_decide; lia.
Qed.

(** A call that returns. *)
Lemma outstanding_return s s' p c b' :
  calls s !! p = Some c -> calls s' = delete p (calls s) -> rqs s' = rqs s ->
  dispatch_list s' = dispatch_list s ->
  outstanding b' s' = outstanding b' s - (if decide (call_owner (c_desc c) = Some b') then 1 else 0).
Proof.
  intros Hc E1 E2 E3. unfold outstanding, calls_of, reqs_of, rq_owner. rewrite E1, E2, E3.
  rewrite (size_filter_delete _ (calls s) p c) by done. simpl. case_decide; lia.
Qed.

Lemma filter_same {A} (P Q : A -> Prop) `{!forall x, Decision (P x), !forall x, Decision (Q x)} (l : list A) :
  (forall x, x ∈ l -> P x <-> Q x) -> filter P l = filter Q l.
Proof.
  induction l as [|x l IH]; intros Hl; [done |]. rewrite !filter_cons.
  rewrite IH by (intros y Hy; apply Hl; by right). specialize (Hl x ltac:(left)).
  repeat case_decide; tauto || done.
Qed.

(** A request that is dispatched. *)
Lemma outstanding_dispatch s s' rq b' :
  dispatch_list s' ≡ₚ rq :: dispatch_list s -> calls s' = calls s ->
  (forall r, r ∈ dispatch_list s -> rq_owner s' r = rq_owner s r) ->
  outstanding b' s' = outstanding b' s + (if decide (rq_owner s' rq = Some b') then 1 else 0).
Proof.
  intros El Ec Ho. unfold outstanding, calls_of, reqs_of. rewrite Ec, El, filter_cons.
  rewrite (filter_same (fun r => rq_owner s' r = Some b') (fun r => rq_owner s r = Some b'))
    by (intros r Hr; by rewrite Ho).
  case_decide; simpl; lia.
Qed.

(** A request that is completed. *)
Lemma filter_del (P : ptr -> Prop) `{!forall x, Decision (P x)} x (l : list ptr) :
  NoDup l -> x ∈ l ->
  length (filter P l) = (length (filter P (list_del x l)) + (if decide (P x) then 1 else 0))%nat.
Proof.
  induction l as [|y l IH]; intros Hn Hx; [by apply elem_of_nil in Hx |].
  apply list.NoDup_cons in Hn as [Hy Hn]. destruct (decide (y = x)) as [->|Hne].
  - rewrite list_del_head, filter_cons by done. case_decide; simpl; lia.
  - apply elem_of_cons in Hx as [->|Hx]; [done |]. specialize (IH Hn Hx).
    unfold list_del in *. rewrite filter_cons, (filter_cons (fun z => z <> x)).
    rewrite (decide_True _ _ Hne), filter_cons. destruct (decide (P y)); simpl; lia.
Qed.

Lemma outstanding_complete s s' rq b' :
  NoDup (dispatch_list s) -> rq ∈ dispatch_list s -> dispatch_list s' = list_del rq (dispatch_list s) ->
  calls s' = calls s -> rqs s' = rqs s ->
  outstanding b' s' = outstanding b' s - (if decide (rq_owner s rq = Some b') then 1 else 0).
Proof.
  intros Hn Hrq El Ec Er. unfold outstanding, calls_of, reqs_of. rewrite Ec, El.
  rewrite (filter_del (fun r => rq_owner s r = Some b') rq (dispatch_list s)) by done.
  rewrite (filter_same (fun r => rq_owner s' r = Some b') (fun r => rq_owner s r = Some b'))
    by (intros r _; unfold rq_owner; by rewrite Er).
  case_decide; lia.
Qed.

(** ** Letting a call go *)

Definition own_call (b : ptr) (d : call_desc) : call_desc :=
  match d with
  | WrCall d => WrCall (d <| w_owner_batch := Some b |>)
  | FsyncCall d => FsyncCall (d <| f_owner_batch := Some b |>)
  | MkdirCall d => MkdirCall (d <| m_owner_batch := Some b |>)
  end.

Definition go_call (b p : ptr) (c : call) (d : io_batch_desc) (s : afq) : afq :=
  put_batch b (IoBatchDesc (list_del (OfCall p) (work_selected d)) (s32 (one_loop_work d + 1)))
    (s <| calls ::= <[p := Call (own_call b (c_desc c)) true]> |>).

Section Submit.
Context {K : KernelFns} {KO : KernelOk K} {J : JiffyFns}.

Lemma submit_call_run b p s c d :
  calls s !! p = Some c -> batches s !! b = Some d ->
  iow_type (call_work (c_desc c)) = call_type (c_desc c) ->
  submit_work b (OfCall p) s = Ok (tt, go_call b p c d s).
Proof.
  intros Hc Hd Ht. unfold submit_work. rewrite (bind_ok _ _ s (call_work (c_desc c)) s).
  2: { unfold get_io_work. by rewrite (bind_ok _ _ s c s) by (unfold get_call; by rewrite Hc). }
  rewrite Ht. set (d1 := IoBatchDesc (list_del (OfCall p) (work_selected d)) (one_loop_work d)).
  assert (Ecalls : forall y, alter (fun c0 : call => c0 <| c_done := true |>) p
      (alter (fun c0 => c0 <| c_desc := y |>) p (calls s)) = <[p := Call y true]> (calls s)).
  { intros y. apply map_eq. intros i. rewrite !lookup_alter, lookup_insert.
    repeat case_decide; subst; try done. by rewrite Hc. }
  destruct (c_desc c) as [x|x|x] eqn:Ex; cbn [call_type];
    (match goal with |- context [bind (?f ?l (OfCall p)) _] =>
       rewrite (bind_ok (f l (OfCall p)) _ s (p, x) s)
         by (unfold WR_IO, FSYNC_IO, MKDIR_IO, bind, get_call; by rewrite Hc, Ex) end);
    rewrite (bind_ok _ _ s tt (put_batch b d1 s)) by (exact (upd_batch_run b _ s d Hd));
    unfold put_call, complete, modify; erewrite (bind_ok (fun s => Ok (tt, _))) by done;
    (erewrite bind_ok by (apply upd_batch_run; apply lookup_insert_eq));
    do 2 f_equal; unfold go_call, put_batch, own_call, upd, update_field; simpl;
    rewrite insert_insert_eq, Ex; f_equal; exact (Ecalls _).
Qed.

(** While a batch lets its works go. *)
Record submitting (b : ptr) (lim : list io_ref) (s : afq) : Prop := {
  sb_data : data_inv s;
  sb_calm : calm false s;
  sb_work : work_inv (Some b) lim s;
  sb_lock : lock (ad s) = false;
}.

(** What letting go leaves alone. *)
Record submit_frame (s s' : afq) : Prop := {
  sf_works : forall p, works_of s' p = works_of s p;
  sf_active : active_acct_list (ad s') = active_acct_list (ad s);
  sf_next : next_desc s' = next_desc s;
  sf_uniq : q_sched_uniq s' = q_sched_uniq s;
  sf_wait : keep_wait (ad s') = keep_wait (ad s);
}.

#[export] Instance submit_frame_preorder : PreOrder submit_frame.
Proof.
  split; [by intros s; split |].
  intros s1 s2 s3 [A1 A2 A3 A4 A5] [B1 B2 B3 B4 B5]. split; congruence.
Qed.

Lemma sel_batch b lim s :
  work_inv (Some b) lim s ->
  exists d, batches s !! b = Some d /\ work_selected d = lim /\ one_loop_work d = outstanding b s /\
    outstanding b s + Z.of_nat (length lim) <= MAX_BATCH_SIZE.
Proof.
  intros H. pose proof (wi_batches _ _ _ H b) as Hb. unfold batch_ok in Hb.
  destruct (batches s !! b) as [d|]; [|by destruct Hb]. destruct Hb as [H1 H2].
  rewrite decide_True in H2 by done. exists d. tauto.
Qed.

Lemma outstanding_nonneg b s : 0 <= outstanding b s.
Proof. unfold outstanding. lia. Qed.

(** The count of the batch that lets a work go, and of the others. *)
Lemma batches_submit b w lim s s' d :
  work_inv (Some b) (w :: lim) s -> batches s !! b = Some d -> w ∉ lim ->
  batches s' = <[b := IoBatchDesc (list_del w (work_selected d)) (s32 (one_loop_work d + 1))]> (batches s) ->
  (forall b', outstanding b' s' = outstanding b' s + (if decide (b' = b) then 1 else 0)) ->
  forall b', batch_ok (Some b) lim s' b'.
Proof.
  intros Hw Hd Hn Eb Ho b'. destruct (sel_batch _ _ _ Hw) as (d' & Hd' & Es & El & Hlen).
  simplify_eq. pose proof (wi_batches _ _ _ Hw b') as Hbo. unfold batch_ok in *. rewrite Eb, Ho.
  destruct (decide (b' = b)) as [->|Hne].
  - rewrite lookup_insert_eq, decide_True by done. simpl. rewrite Es, list_del_head by done.
    pose proof (outstanding_nonneg b s). unfold MAX_BATCH_SIZE in *. simpl in Hlen.
    rewrite El, s32_small by (unfold is_s32; lia). split_and!; auto. lia.
  - rewrite lookup_insert_ne by done. rewrite !Z.add_0_r. destruct (batches s !! b'); [|done].
    by rewrite decide_False in Hbo |- * by congruence.
Qed.

Lemma go_call_inv b p lim s :
  submitting b (OfCall p :: lim) s ->
  exists c s', calls s !! p = Some c /\ submit_work b (OfCall p) s = Ok (tt, s') /\ submitting b lim s' /\
    submit_frame s s' /\ calls s' = <[p := Call (own_call b (c_desc c)) true]> (calls s) /\
    rqs s' = rqs s /\ dispatch_list s' = dispatch_list s /\
    (forall b', outstanding b' s' = outstanding b' s + (if decide (b' = b) then 1 else 0)).
Proof.
  intros [Hi Hc Hw Hl]. pose proof Hw as [H1 H2 H3 H4 H5 H6 H7 H8 H9].
  destruct (H4 (OfCall p)) as (c & Hcp & Hnd); [apply elem_of_app; right; left |].
  destruct (H5 p c Hcp) as [Ht Hown]. rewrite Hnd in Hown. destruct Hown as [Hown _].
  destruct (sel_batch _ _ _ Hw) as (d & Hd & _).
  assert (Hlim : OfCall p ∉ pending s ++ lim /\ NoDup (pending s ++ lim)).
  { rewrite <- Permutation_middle in H3. by apply list.NoDup_cons in H3. }
  destruct Hlim as [Hlim Hnl].
  exists c, (go_call b p c d s). split; [done |]. split; [by apply submit_call_run |].
  assert (Hout : forall b', outstanding b' (go_call b p c d s)
     = outstanding b' s + (if decide (b' = b) then 1 else 0)).
  { intros b'. rewrite (outstanding_call s (go_call b p c d s) p c (Call (own_call b (c_desc c)) true) b') by done.
    f_equal. destruct (c_desc c); simpl; repeat case_decide; congruence. }
  assert (Hin : forall w, w ∈ pending s ++ lim -> w ∈ pending s ++ OfCall p :: lim).
  { intros w. rewrite !elem_of_app, elem_of_cons. tauto. }
  split; [|split_and!; auto; by split].
  split; auto; [destruct Hi; by split |].
  split; auto.
  - intros w Hx. pose proof (H4 w (Hin w Hx)) as Hwait. destruct w as [q|rq]; [|exact Hwait].
    destruct Hwait as (cq & Hq & Hdq). exists cq. split; [|done]. simpl. rewrite lookup_insert_ne; [done |].
    intros ->. done.
  - intros q cq Hq. simpl in Hq. change (pending (go_call b p c d s)) with (pending s).
    destruct (decide (q = p)) as [->|Hne].
    + rewrite lookup_insert_eq in Hq. injection Hq as <-. split; simpl.
      * by destruct (c_desc c).
      * destruct (c_desc c); by eexists.
    + rewrite lookup_insert_ne in Hq by done. destruct (H5 q cq Hq) as [G1 G2]. split; [done |].
      destruct (c_done cq); [done |]. destruct G2 as [G2 G3]. split; [done |].
      rewrite elem_of_app, elem_of_cons in G3. rewrite elem_of_app. naive_solver.
  - eapply (batches_submit b (OfCall p) lim s); eauto. intros Hx. apply Hlim. apply elem_of_app. by right.
  - intros q Hq. apply H9. simpl in Hq. destruct (decide (q = p)) as [->|Hnp]; [left; by eexists |].
    rewrite lookup_insert_ne in Hq by done.
    destruct (decide (q = b)) as [->|Hnb]; [right; by eexists |]. by rewrite lookup_insert_ne in Hq by done.
Qed.

(** ** Letting a read go *)

Definition own_req (b : ptr) (r : request) : request :=
  r <| rq_desc ::= fmap (fun d => d <| r_owner_batch := Some b |>) |>.

Lemma upd_desc_run rq f s r :
  rqs s !! rq = Some r ->
  upd_desc rq f s = Ok (tt, s <| rqs ::= <[rq := r <| rq_desc ::= fmap f |>]> |>).
Proof.
  intros Hr. unfold upd_desc, upd_rq, modify, upd, update_field. do 3 f_equal.
  apply map_eq. intros i. rewrite lookup_alter, lookup_insert. case_decide; subst; [by rewrite Hr | done].
Qed.

Lemma data_inv_rqs s rq r r' :
  data_inv s -> rqs s !! rq = Some r -> rq_bio r' = rq_bio r -> RQ_CAUSES r' = RQ_CAUSES r ->
  data_inv (s <| rqs ::= <[rq := r']> |>).
Proof. intros [] Hr E1 E2. split; auto. by eapply env_wf_put. Qed.

Lemma afq_dispatch_sort_run rq s :
  exists l, dispatch_sort rq s = Ok (tt, s <| dispatch_list := l |>) /\ l ≡ₚ rq :: dispatch_list s.
Proof. eexists. split; [done |]. apply elv_dispatch_sort_perm. Qed.

(** The accounting of a request, from a state with more of them in flight. *)
Lemma submit_req_run b rq d r bd s :
  data_inv s -> calm false s -> rqs s !! rq = Some r -> rq_desc r = Some d -> r_rq d = rq ->
  iow_type (r_io_work d) = SCHED_READ_REQ -> batches s !! b = Some bd ->
  exists s', submit_work b (OfReq rq) s = Ok (tt, s') /\ data_inv s' /\ calm false s' /\
    rqs s' = <[rq := own_req b r]> (rqs s) /\ calls s' = calls s /\
    batches s' = <[b := IoBatchDesc (list_del (OfReq rq) (work_selected bd)) (s32 (one_loop_work bd + 1))]> (batches s) /\
    dispatch_list s' ≡ₚ rq :: dispatch_list s /\ submit_frame s s' /\ lock (ad s') = lock (ad s).
Proof.
  intros Hi Hc Hr Hd Hrq Ht Hb. unfold submit_work.
  assert (Hget : forall line, get_desc line rq s = Ok (d, s)) by (intros; unfold get_desc; by rewrite Hr, Hd).
  rewrite (bind_ok _ _ s (r_io_work d) s) by (unfold get_io_work; by rewrite (bind_ok _ _ _ _ _ (Hget 670))).
  rewrite Ht. rewrite (bind_ok _ _ s (rq, d) s) by (unfold REQ_IO; by rewrite (bind_ok _ _ _ _ _ (Hget 703))).
  cbn beta iota. rewrite (bind_ok _ _ _ _ _ (upd_desc_run _ _ _ _ Hr)).
  unfold upd_ad, modify. erewrite (bind_ok (fun s => Ok (tt, _))) by done. fold (own_req b r).
  set (s2 := (s <| rqs ::= _ |>) <| ad ::= _ |>).
  assert (Hi2 : data_inv s2).
  { apply data_inv_ad; auto; try apply Hi. by eapply data_inv_rqs. }
  destruct (keeps_account_request2 d (own_req b r) s2 Hi2) as ([] & s3 & E3 & Hi3 & F3 & Hc3).
  { split; [exact Hc |]. simpl. rewrite Hrq. apply lookup_insert_eq. }
  rewrite (bind_ok _ _ _ _ _ E3).
  assert (Hb3 : batches s3 !! b = Some bd) by (by rewrite (fr_batches _ _ F3)).
  rewrite (bind_ok _ _ _ _ _ (upd_batch_run b _ s3 bd Hb3)).
  erewrite bind_ok by (apply upd_batch_run; apply lookup_insert_eq). rewrite put_batch_put.
  match goal with |- context [put_batch b ?x s3] => set (s4 := put_batch b x s3) end.
  destruct (afq_dispatch_sort_run (r_rq d) s4) as (l & E & Hp). exists (s4 <| dispatch_list := l |>).
  split; [exact E |]. split; [destruct Hi3; by split |]. split; [exact Hc3 |].
  split; [exact (fr_rqs _ _ F3) |]. split; [exact (fr_calls _ _ F3) |].
  split; [simpl; by rewrite (fr_batches _ _ F3) |].
  split; [etrans; [exact Hp |]; rewrite Hrq; change (dispatch_list s4) with (dispatch_list s3);
    by rewrite (fr_list _ _ F3) |].
  split; [|exact (fr_lock _ _ F3)].
  split; try apply F3. intros p. exact (frame_works _ _ p F3).
Qed.

Lemma go_req_inv b rq lim s :
  submitting b (OfReq rq :: lim) s ->
  exists r s', rqs s !! rq = Some r /\ submit_work b (OfReq rq) s = Ok (tt, s') /\ submitting b lim s' /\
    submit_frame s s' /\ calls s' = calls s /\ rqs s' = <[rq := own_req b r]> (rqs s) /\
    dispatch_list s' ≡ₚ rq :: dispatch_list s /\
    (forall b', outstanding b' s' = outstanding b' s + (if decide (b' = b) then 1 else 0)).
Proof.
  intros [Hi Hc Hw Hl]. pose proof Hw as [H1 H2 H3 H4 H5 H6 H7 H8 H9].
  destruct (H4 (OfReq rq)) as [(d & [(r & Hr & Hd) Hrq] & Ht & Hown) Hnl]; [apply elem_of_app; right; left |].
  destruct (sel_batch _ _ _ Hw) as (bd & Hbd & _).
  destruct (submit_req_run b rq d r bd s Hi Hc Hr Hd Hrq Ht Hbd)
    as (s' & E & Hi' & Hc' & Er & Ec & Eb & El & Fr & Elk).
  assert (Hlim : OfReq rq ∉ pending s ++ lim /\ NoDup (pending s ++ lim)).
  { rewrite <- Permutation_middle in H3. by apply list.NoDup_cons in H3. }
  destruct Hlim as [Hlim Hnd].
  assert (Hdesc : forall q x, q <> rq -> has_desc s q x -> has_desc s' q x).
  { intros q x Hne [(y & Hy & Hx) Hq]. split; [|done]. exists y. by rewrite Er, lookup_insert_ne. }
  assert (Hrd : has_desc s' rq (d <| r_owner_batch := Some b |>)).
  { split; [|done]. exists (own_req b r). rewrite Er, lookup_insert_eq. split; [done |]. simpl. by rewrite Hd. }
  assert (Hpend : pending s' = pending s).
  { unfold pending. rewrite (sf_active _ _ Fr). apply flat_map_same. intros p _. apply Fr. }
  assert (Hin : forall w, w ∈ pending s ++ lim -> w ∈ pending s ++ OfReq rq :: lim).
  { intros w. rewrite !elem_of_app, elem_of_cons. tauto. }
  assert (Hout : forall b', outstanding b' s' = outstanding b' s + (if decide (b' = b) then 1 else 0)).
  { intros b'. rewrite (outstanding_dispatch s s' rq b') by
      (done || (intros x Hx; unfold rq_owner; rewrite Er, lookup_insert_ne; [done | by intros ->])).
    f_equal. unfold rq_owner. rewrite Er, lookup_insert_eq. simpl. rewrite Hd. simpl.
    repeat case_decide; congruence. }
  exists r, s'. split; [done |]. split; [done |]. split; [|split_and!; auto].
  split; auto; [|by rewrite Elk]. split.
  - by rewrite (sf_active _ _ Fr).
  - intros p. by rewrite (sf_active _ _ Fr), (sf_works _ _ Fr).
  - by rewrite Hpend.
  - intros w Hx. rewrite Hpend in Hx. pose proof (H4 w (Hin w Hx)) as Hwait. destruct w as [q|q].
    + destruct Hwait as (c & Hq & Hdn). exists c. by rewrite Ec.
    + destruct Hwait as [(x & Hx1 & Hx2) Hx3]. assert (q <> rq) by (by intros ->).
      split; [exists x; auto |]. rewrite El, elem_of_cons. naive_solver.
  - intros p c Hp. rewrite Ec in Hp. rewrite Hpend. destruct (H5 p c Hp) as [G1 G2]. split; [done |].
    destruct (c_done c); [done |]. destruct G2 as [G2 G3]. split; [done |].
    rewrite elem_of_app, elem_of_cons in G3. rewrite elem_of_app. naive_solver.
  - rewrite El. by apply list.NoDup_cons.
  - intros q Hq. rewrite El, elem_of_cons in Hq. destruct (decide (q = rq)) as [->|Hne]; [by eexists |].
    destruct Hq as [->|Hq]; [done |]. destruct (H7 q Hq) as [x Hx]. eauto.
  - eapply (batches_submit b (OfReq rq) lim s); eauto. intros Hx. apply Hlim. apply elem_of_app. by right.
  - intros q Hq. rewrite (sf_next _ _ Fr). apply H9. rewrite Ec, Eb in Hq.
    destruct (decide (q = b)) as [->|Hnb]; [right; by eexists |]. by rewrite lookup_insert_ne in Hq by done.
Qed.

(** ** The batch as a whole *)

(** The requests among works. *)
Definition reqs_in (ws : list io_ref) : list ptr :=
  flat_map (fun w => match w with OfReq rq => [rq] | OfCall _ => [] end) ws.

(** The batch [b] lets the works [ws] go. *)
Record granted (b : ptr) (ws : list io_ref) (s s' : afq) : Prop := {
  gr_calls : forall p, calls s' !! p =
    if decide (OfCall p ∈ ws) then (fun c => Call (own_call b (c_desc c)) true) <$> calls s !! p
    else calls s !! p;
  gr_rqs : forall rq, rqs s' !! rq =
    if decide (OfReq rq ∈ ws) then own_req b <$> rqs s !! rq else rqs s !! rq;
  gr_list : dispatch_list s' ≡ₚ reqs_in ws ++ dispatch_list s;
  gr_out : forall b', outstanding b' s' =
    outstanding b' s + (if decide (b' = b) then Z.of_nat (length ws) else 0);
  gr_frame : submit_frame s s';
}.

Lemma submit_loop b ws s :
  submitting b ws s ->
  exists s', for_each ws (submit_work b) s = Ok (tt, s') /\ submitting b [] s' /\ granted b ws s s'.
Proof.
  revert s. induction ws as [|w ws IH]; intros s Hs; cbn [for_each].
  { exists s. split; [done |]. split; [done |]. split; [| |done| |reflexivity].
    - intros p. rewrite decide_False; [done |]. apply not_elem_of_nil.
    - intros p. rewrite decide_False; [done |]. apply not_elem_of_nil.
    - intros b'. simpl. case_decide; lia. }
  assert (Hw : w ∉ ws).
  { pose proof (wi_nodup _ _ _ (sb_work _ _ _ Hs)) as Hn.
    apply list.NoDup_app in Hn as (_ & _ & Hn). by apply list.NoDup_cons in Hn as [Hn _]. }
  destruct w as [p|rq].
  - destruct (go_call_inv b p ws s Hs) as (c & s1 & Hc & E & Hs1 & F1 & Ec & Er & El & Ho).
    rewrite (bind_ok _ _ _ _ _ E). destruct (IH s1 Hs1) as (s' & E' & Hs' & [G1 G2 G3 G4 G5]).
    exists s'. split; [done |]. split; [done |]. split.
    + intros q. rewrite G1, Ec. destruct (decide (q = p)) as [->|Hne].
      * rewrite decide_False, decide_True by (done || left). by rewrite lookup_insert_eq, Hc.
      * rewrite lookup_insert_ne by done. repeat case_decide; set_solver.
    + intros q. rewrite G2, Er. repeat case_decide; set_solver.
    + rewrite G3, El. done.
    + intros b'. rewrite G4, Ho. cbn [length]. case_decide; lia.
    + by transitivity s1.
  - destruct (go_req_inv b rq ws s Hs) as (r & s1 & Hr & E & Hs1 & F1 & Ec & Er & El & Ho).
    rewrite (bind_ok _ _ _ _ _ E). destruct (IH s1 Hs1) as (s' & E' & Hs' & [G1 G2 G3 G4 G5]).
    exists s'. split; [done |]. split; [done |]. split.
    + intros q. rewrite G1, Ec. repeat case_decide; set_solver.
    + intros q. rewrite G2, Er. destruct (decide (q = rq)) as [->|Hne].
      * rewrite decide_False, decide_True by (done || left). by rewrite lookup_insert_eq, Hr.
      * rewrite lookup_insert_ne by done. repeat case_decide; set_solver.
    + rewrite G3, El. simpl. by rewrite Permutation_middle.
    + intros b'. rewrite G4, Ho. cbn [length]. case_decide; lia.
    + by transitivity s1.
Qed.

(** A batch that has let all its works go. *)
Lemma work_inv_submitted b s :
  work_inv (Some b) [] s -> 0 < outstanding b s -> work_inv None [] s.
Proof.
  intros H Ho. apply (work_inv_move (Some b) [] _ _ s); auto; try apply H.
  intros b'. pose proof (wi_batches _ _ _ H b') as Hb. unfold batch_ok in *.
  destruct (batches s !! b') as [d|]; [|split; [apply Hb | done]].
  destruct Hb as [H1 H2]. split; [done |]. rewrite (decide_False (P := None = Some b')) by done.
  case_decide; [|done]. simplify_eq. simpl in H2. split; [apply H2 | lia].
Qed.

Lemma inv_tick s n : afq_inv s -> afq_inv (set_tick n s).
Proof.
  intros Hs. apply (frame_inv s); auto; [apply vio_frame_frame, vio_frame_tick | | apply Hs].
  apply (vio_frame_data s); [apply vio_frame_tick | apply Hs].
Qed.

(** Fields of the scheduler that the works do not depend on. *)
Lemma inv_ad s d :
  afq_inv s -> ad_accts d = ad_accts (ad s) -> active_acct_list d = active_acct_list (ad s) ->
  last_served_acct d = last_served_acct (ad s) -> lock d = false ->
  global_min_vio_counter2 d = global_min_vio_counter2 (ad s) -> ad_sim_batch d = ad_sim_batch (ad s) ->
  prio_served_rqs d = prio_served_rqs (ad s) -> caust_count_dist d = caust_count_dist (ad s) ->
  journal_cct d = journal_cct (ad s) -> afq_inv (s <| ad := d |>).
Proof.
  intros [Hi [[V1 V2] R] Hw Hl] E1 E2 E3 E4 E5 E6 E7 E8 E9.
  assert (Eh : heap (s <| ad := d |>) = heap s) by (unfold heap; simpl; by rewrite E1).
  split; auto.
  - apply data_inv_ad; auto; [rewrite E6 | rewrite E7 | rewrite E8 | rewrite E9]; apply Hi.
  - split; [split; [by rewrite Eh | simpl; by rewrite E5] |]. intros Hf. destruct (R Hf) as [R1 R2].
    split; [simpl; by rewrite E6 | by rewrite Eh].
  - eapply same_works_inv; [|exact Hw]. split; auto. intros p. unfold works_of. by rewrite Eh.
Qed.

Lemma submit_io_work_run b ws s :
  submitting b ws s -> ws <> [] ->
  exists s', basic_sched_submit_io_work b s = Ok (tt, s') /\ afq_inv s' /\
    keep_wait (ad s') = NO_NEW_BATCH /\
    is_Some (batch_wait_timer (ad s')) /\ is_Some (batch_dead_timer (ad s')) /\
    (exists s1, granted b ws s s1 /\ same_works s1 s' /\ q_sched_uniq s' = q_sched_uniq s).
Proof.
  intros Hs Hne. destruct (sel_batch _ _ _ (sb_work _ _ _ Hs)) as (d & Hd & Es & _).
  unfold basic_sched_submit_io_work. rewrite (bind_ok _ _ s d s) by (unfold get_batch; by rewrite Hd).
  rewrite Es. destruct (submit_loop b ws s Hs) as (s1 & E1 & Hs1 & G1). rewrite (bind_ok _ _ _ _ _ E1).
  pose proof Hs1 as [Hi Hc Hw Hl].
  assert (Hinv : afq_inv s1).
  { split; auto. apply (work_inv_submitted b); [done |]. rewrite (gr_out _ _ _ _ G1), decide_True by done.
    pose proof (outstanding_nonneg b s). destruct ws; [done |]. simpl. lia. }
  rewrite (bind_ok _ _ _ _ _ (spin_lock_run 723 s1 Hl)).
  unfold upd_ad, spin_unlock, upd_ad, modify. repeat (erewrite (bind_ok (fun s => Ok (tt, _))) by done).
  rewrite (bind_ok _ _ _ _ _ (jiffies_run _)). repeat (erewrite (bind_ok (fun s => Ok (tt, _))) by done).
  rewrite (bind_ok _ _ _ _ _ (jiffies_run _)). eexists. split; [done |].
  match goal with |- afq_inv ?x /\ _ => set (s' := x) end.
  assert (E' : s' = (set_tick (ticks s') s1) <| ad := ad s' |>) by done.
  split; [rewrite E'; by apply inv_ad; [apply inv_tick |..] |].
  split; [done |]. split; [by eexists |]. split; [by eexists |].
  exists s1. split; [done |]. split; [by split |]. exact (sf_uniq _ _ (gr_frame _ _ _ _ G1)).
Qed.

(** ** Dispatching *)

Lemma selecting_submitting s b lim s' : selecting s b lim s' -> lock (ad s) = false -> submitting b lim s'.
Proof. intros [G1 G2 G3 G4 G5 G6 G7 G8 G9 G10 G11 G12 G13 G14] Hl. split; auto. by rewrite G11. Qed.

Lemma serves_nonempty s p l n rs :
  serves s p l n rs -> 0 <= n < MAX_BATCH_SIZE -> works_of s p <> [] -> served rs <> [].
Proof.
  intros H Hn Hw. assert (Hsh : share s p n <> []).
  { unfold share. destruct (works_of s p); [done |].
    destruct (Z.to_nat (MAX_BATCH_SIZE - n)) eqn:E; [lia | done]. }
  destruct H; unfold served; simpl; by destruct (share s p n).
Qed.

(** One round of dispatching that lets a batch go: the works [served rs] of the rounds
    [rs] leave their accounts and run in a new batch. *)
Record batch_step (s s' : afq) (rs : list (nat * list io_ref)) : Prop := {
  bs_first : exists p, first_served s p /\ serves s p (active_acct_list (ad s)) 0 rs;
  bs_works : forall q, works_of s q = taken_of q rs ++ works_of s' q;
  bs_calls : forall p, calls s' !! p =
    if decide (OfCall p ∈ served rs)
    then (fun c => Call (own_call (next_desc s) (c_desc c)) true) <$> calls s !! p else calls s !! p;
  bs_rqs : forall rq, rqs s' !! rq =
    if decide (OfReq rq ∈ served rs) then own_req (next_desc s) <$> rqs s !! rq else rqs s !! rq;
  bs_list : dispatch_list s' ≡ₚ reqs_in (served rs) ++ dispatch_list s;
  bs_some : served rs <> [];
  bs_wait : keep_wait (ad s') = NO_NEW_BATCH;
  bs_timer : is_Some (batch_wait_timer (ad s'));
}.

(** Nothing is dispatched: the scheduler waits for a batch, nobody waits for the
    scheduler, or it idles for a sequential account. *)
Definition no_batch (s : afq) : Prop :=
  batch_dead (ad s) <> 0 \/
  keep_wait (ad s) <> ALLOW_NEW_BATCH /\
    (keep_wait (ad s) <> KEEP_IN_FLIGHT \/ MIN_IN_FLIGHT <= inflight (ad s)) \/
  active_acct_list (ad s) = [] \/
  exists p, last_served_acct (ad s) = Some p /\ works_of s p = [] /\ SEQ_THRESHOLD <= seq_of s p.

Lemma want_dispatch_run s :
  lock (ad s) = false ->
  exists w, basic_sched_want_dispatch s = Ok (w, s) /\
    (w = 0 \/ w = 1 \/ w = 2) /\ (w = 0 <-> batch_dead (ad s) <> 0 \/
      keep_wait (ad s) <> ALLOW_NEW_BATCH /\
      (keep_wait (ad s) <> KEEP_IN_FLIGHT \/ MIN_IN_FLIGHT <= inflight (ad s))).
Proof.
  intros Hl. unfold basic_sched_want_dispatch. rewrite (bind_ok _ _ _ _ _ (spin_lock_run 753 s Hl)).
  rewrite (bind_ok _ _ _ (ad (set_lock true s)) (set_lock true s)) by done.
  rewrite (bind_ok _ _ (set_lock true s) tt s).
  2: { unfold spin_unlock, upd_ad, modify. do 2 f_equal. destruct s as [? ? ? ? ? ? ? ? []]. simpl in *. by subst. }
  cbn [ad set_lock upd update_field batch_dead keep_wait].
  destruct (Z.eqb_spec (batch_dead (ad s)) 0) as [Hd|Hd]; cbn [negb].
  2: { exists 0. split; [done |]. split; [auto |]. tauto. }
  destruct (Z.eqb_spec (keep_wait (ad s)) ALLOW_NEW_BATCH) as [Hk|Hk].
  { exists 1. split; [done |]. split; [auto |]. split; [done | tauto]. }
  rewrite (bind_ok _ _ s (inflight (ad s)) s) by done.
  destruct (Z.eqb_spec (keep_wait (ad s)) KEEP_IN_FLIGHT), (Z.ltb_spec (inflight (ad s)) MIN_IN_FLIGHT); cbn [andb].
  - exists 2. split; [done |]. split; [auto |]. split; [done | lia].
  - exists 0. split; [done |]. split; [auto |]. tauto.
  - exists 0. split; [done |]. split; [auto |]. tauto.
  - exists 0. split; [done |]. split; [auto |]. tauto.
Qed.

Lemma dispatch_run_afq s force :
  afq_inv s ->
  exists rv s', basic_sched_dispatch force s = Ok (rv, s') /\ afq_inv s' /\ q_sched_uniq s' = q_sched_uniq s /\
    ((rv = 0 /\ frame s s' /\ no_batch s) \/ (rv = 1 /\ exists rs, batch_step s s' rs)).
Proof.
  intros Hinv. pose proof Hinv as [Hi Hc Hw Hl]. unfold basic_sched_dispatch.
  destruct (want_dispatch_run s Hl) as (w & Ew & Hw3 & Hw0). rewrite (bind_ok _ _ _ _ _ Ew).
  destruct (Z.eqb_spec w 0) as [->|Hnz].
  { exists 0, s. split; [done |]. split; [done |]. split; [done |]. left. split; [done |].
    split; [reflexivity |]. unfold no_batch. tauto. }
  destruct (select_run s Hinv) as (r & s1 & E1 & [-> F1 Eh Ea Hcase|p rs -> Hp Hr Hs1 Ht]);
    rewrite (bind_ok _ _ _ _ _ E1); cbn.
  - exists 0, s1. split; [done |]. pose proof (vio_frame_frame _ _ F1) as F.
    split; [|split; [apply F | left; split_and!; auto; unfold no_batch; tauto]].
    apply (frame_inv s); auto; [by eapply vio_frame_data |].
    eapply vio_frame_calm; [done | | done]. destruct Hc as [[V1 V2] _]. split; [by rewrite Eh | by rewrite Ea].
  - assert (Hne : served rs <> []).
    { eapply serves_nonempty; [done | unfold MAX_BATCH_SIZE; lia |].
      apply (wi_active _ _ _ Hw). destruct Hp as [[Hp _]|(_ & Hp & _)]; exact Hp. }
    destruct (submit_io_work_run _ _ s1 (selecting_submitting _ _ _ _ Hs1 Hl) Hne)
      as (s2 & E2 & Hi2 & Hkw & Ht1 & Ht2 & s3 & [G1 G2 G3 G4 G5] & S3 & U3).
    exists 1, s2. rewrite (bind_ok _ _ _ _ _ E2). split; [done |]. split; [done |].
    split; [rewrite U3; apply Hs1 |]. right. split; [done |]. exists rs.
    pose proof S3 as [S31 S32 S33 S34 S35 S36 S37].
    split; auto; rewrite ?S33, ?S34, ?S37.
    + eauto.
    + intros q. rewrite S32, (sf_works _ _ G5). apply Ht.
    + intros q. by rewrite G1, (sl_calls _ _ _ _ Hs1).
    + intros q. by rewrite G2, (sl_rqs _ _ _ _ Hs1).
    + by rewrite G3, (sl_list _ _ _ _ Hs1).
Qed.

End Submit.
