(* ===== verification/AfqPool.v ===== *)
(** * Actually fair queuing: what the scheduler promises

    To the rest of the kernel the scheduler is a pool of works: one queue for each
    account, oldest work first, the works that run in a batch, and the requests
    the device has.  [acts] are the things that can happen to the pool; a handler of the
    scheduler implements a sequence of them. *)

From S2P Require Import Prelude Keeps CInt Kernel DiskSim IoBatch HashTable CauseTags Tags Jiffies.
From S2P Require Import SplitAccount SplitSched IoctlHelper Afq AfqOps AfqInv AfqVio AfqAccount AfqHooks.
From S2P Require Import AfqWorks AfqSelect AfqSubmit.

(** ** The pool *)

Record pool := Pool {
  queued : nat -> list io_ref;        (* by account *)
  running : ptr -> io_ref -> Prop;    (* by batch *)
  device : list ptr;
}.

(** What can happen: a work is queued; a batch [b] starts with the works of some
    rounds; a request goes to the device by itself; a work returns to its batch;
    a request that is in no batch returns. *)
Inductive act :=
  | Enqueue (p : nat) (w : io_ref)
  | Grant (b : ptr) (rs : list (nat * list io_ref))
  | Direct (rq : ptr)
  | Return (b : ptr) (w : io_ref)
  | Finish (rq : ptr).

Definition same_queues (x y : pool) : Prop := forall p, queued y p = queued x p.
Definition same_running (x y : pool) : Prop := forall b w, running y b w <-> running x b w.

Definition happens (a : act) (x y : pool) : Prop :=
  match a with
  | Enqueue p w =>
      (forall q, queued y q = if decide (q = p) then queued x p ++ [w] else queued x q) /\
      same_running x y /\ device y = device x
  | Grant b rs =>
      (forall w, ~ running x b w) /\ served rs <> [] /\
      Z.of_nat (length (served rs)) <= MAX_BATCH_SIZE /\
      (forall q, queued x q = taken_of q rs ++ queued y q) /\
      (forall b' w, running y b' w <-> running x b' w \/ (b' = b /\ w ∈ served rs)) /\
      device y ≡ₚ reqs_in (served rs) ++ device x
  | Direct rq => same_queues x y /\ same_running x y /\ device y ≡ₚ rq :: device x
  | Return b w =>
      same_queues x y /\ running x b w /\
      (forall b' w', running y b' w' <-> running x b' w' /\ w' <> w) /\
      device y = match w with OfReq rq => list_del rq (device x) | OfCall _ => device x end
  | Finish rq =>
      same_queues x y /\ same_running x y /\ (forall b, ~ running x b (OfReq rq)) /\
      device y = list_del rq (device x)
  end.

Definition same_pool (x y : pool) : Prop :=
  same_queues x y /\ same_running x y /\ device y = device x.

Inductive history : list act -> pool -> pool -> Prop :=
  | history_nil x y : same_pool x y -> history [] x y
  | history_cons a l x y z : happens a x y -> history l y z -> history (a :: l) x z.

#[export] Instance same_pool_equiv : Equivalence same_pool.
Proof.
  split.
  - intros x. split_and!; done.
  - intros x y (H1 & H2 & H3). split_and!; [by intros ? | by intros ?? | done].
  - intros x y z (H1 & H2 & H3) (G1 & G2 & G3). split_and!.
    + intros p. by rewrite G1.
    + intros b w. by rewrite (G2 b w).
    + by rewrite G3.
Qed.

(** What happens to a pool does not depend on how it is written down. *)
#[export] Instance happens_proper a : Proper (same_pool ==> same_pool ==> iff) (happens a).
Proof.
  assert (Hone : forall x x' y y', same_pool x x' -> same_pool y y' -> happens a x y -> happens a x' y').
  { intros x x' y y' (Q1 & R1 & D1) (Q2 & R2 & D2).
    unfold happens, same_queues, same_running in *. destruct a; intros H; decompose [and] H; clear H;
      try setoid_rewrite R1; try setoid_rewrite R2; try setoid_rewrite Q1; try setoid_rewrite Q2;
      rewrite ?D1, ?D2; split_and!; auto.
    intros q. rewrite !Q1. auto. }
  intros x x' Hx y y' Hy. split; apply Hone; auto; by symmetry.
Qed.

#[export] Instance history_proper l : Proper (same_pool ==> same_pool ==> iff) (history l).
Proof.
  assert (Hone : forall x x' y y', same_pool x x' -> same_pool y y' -> history l x y -> history l x' y').
  { intros x x' y y' Hx Hy H. revert x' y' Hx Hy. induction H as [x y H|a l x y z H1 H2 IH]; intros x' y' Hx Hy.
    - apply history_nil. by rewrite <- Hx, H, Hy.
    - apply (history_cons _ _ _ y); [by rewrite <- Hx | by apply IH]. }
  intros x x' Hx y y' Hy. split; apply Hone; auto; by symmetry.
Qed.

Lemma history_app l1 l2 x y z : history l1 x y -> history l2 y z -> history (l1 ++ l2) x z.
Proof.
  induction 1 as [x y H|a l x y y' H1 H2 IH]; intros H'; simpl; [by rewrite H |].
  by apply (history_cons _ _ _ y); [|apply IH].
Qed.

Lemma history_one a x y : happens a x y -> history [a] x y.
Proof. intros H. apply (history_cons _ _ _ y); [done |]. by apply history_nil. Qed.

Definition is_grant (a : act) : Prop := match a with Grant _ _ => True | _ => False end.

(** ** The scheduler as a pool *)

Definition runs_in (s : afq) (b : ptr) (w : io_ref) : Prop :=
  match w with
  | OfCall p => exists c, calls s !! p = Some c /\ call_owner (c_desc c) = Some b
  | OfReq rq => rq ∈ dispatch_list s /\ rq_owner s rq = Some b
  end.
Definition abs (s : afq) : pool := Pool (works_of s) (runs_in s) (dispatch_list s).

Lemma same_works_pool s s' : same_works s s' -> same_pool (abs s) (abs s').
Proof.
  intros [S1 S2 S3 S4 S5 S6 S7]. split_and!; simpl.
  - exact S2.
  - intros b w. simpl. unfold runs_in, rq_owner. by rewrite S3, S4, S7.
  - exact S7.
Qed.

Lemma frame_pool s s' : frame s s' -> same_pool (abs s) (abs s').
Proof. intros F. by apply same_works_pool, frame_same_works. Qed.

Lemma served_taken rs w : w ∈ served rs -> exists q, w ∈ taken_of q rs.
Proof.
  unfold taken_of, served. setoid_rewrite list_elem_of_In. setoid_rewrite in_flat_map.
  intros (x & Hx & Hw). exists (fst x), x. split; [done |]. by rewrite decide_True.
Qed.

Lemma serves_length s p l n rs :
  serves s p l n rs -> 0 <= n <= MAX_BATCH_SIZE -> n + Z.of_nat (length (served rs)) <= MAX_BATCH_SIZE.
Proof.
  assert (Hsh : forall p n, 0 <= n <= MAX_BATCH_SIZE ->
    n + Z.of_nat (length (share s p n)) <= MAX_BATCH_SIZE).
  { intros q m Hm. unfold share. rewrite length_take. lia. }
  unfold served. induction 1 as [p l n|p l n|p l n q rs Hn Hq Hl H IH]; intros Hb; cbn [flat_map snd].
  - rewrite app_nil_r. by apply Hsh.
  - rewrite app_nil_r. by apply Hsh.
  - rewrite length_app, Nat2Z.inj_add. specialize (Hsh p n Hb). lia.
Qed.

Lemma pending_elem sel lim s p w : work_inv sel lim s -> w ∈ works_of s p -> w ∈ pending s.
Proof.
  intros H Hw. unfold pending. apply list_elem_of_In, in_flat_map. exists p.
  split; apply list_elem_of_In; [|done]. apply (wi_active _ _ _ H). intros E. rewrite E in Hw.
  by apply elem_of_nil in Hw.
Qed.

(** A work that waits does not run. *)
Lemma waiting_not_running s w b : work_inv None [] s -> w ∈ pending s -> ~ runs_in s b w.
Proof.
  intros H Hw. pose proof (wi_waiting _ _ _ H w) as Hwt. rewrite app_nil_r in Hwt. specialize (Hwt Hw).
  destruct w as [p|rq]; simpl.
  - destruct Hwt as (c & Hc & Hd). intros (c' & Hc' & Ho). simplify_eq.
    destruct (wi_calls _ _ _ H p c Hc) as [_ G]. rewrite Hd in G. destruct G. congruence.
  - destruct Hwt as [_ Hn]. by intros [? _].
Qed.

(** What is not allocated runs nothing. *)
Lemma not_running sel lim s b w : work_inv sel lim s -> batches s !! b = None -> ~ runs_in s b w.
Proof.
  intros H Hb. pose proof (wi_batches _ _ _ H b) as Ho. unfold batch_ok in Ho. rewrite Hb in Ho.
  destruct Ho as [Ho _]. unfold outstanding in Ho. destruct w as [p|rq]; simpl.
  - intros (c & Hc & Hco). assert (Hz : base.size (calls_of b s) = 0%nat) by lia.
    apply map_size_empty_inv in Hz.
    assert (Hf : calls_of b s !! p = Some c) by (by apply map_lookup_filter_Some).
    by rewrite Hz in Hf.
  - intros [Hl Hr]. assert (Hf : rq ∈ reqs_of b s) by (by apply list_elem_of_filter).
    destruct (reqs_of b s); [by apply elem_of_nil in Hf | simpl in Ho; lia].
Qed.

(** The kinds of the descriptors of system calls. *)
Definition kinds (s : afq) : gmap ptr io_type := (fun c => call_type (c_desc c)) <$> calls s.

Lemma frame_kinds s s' : frame s s' -> kinds s' = kinds s.
Proof. intros F. unfold kinds. by rewrite (fr_calls _ _ F). Qed.

Section Pool.
Context {K : KernelFns} {KO : KernelOk K} {J : JiffyFns}.

Lemma reqs_in_elem ws rq : rq ∈ reqs_in ws <-> OfReq rq ∈ ws.
Proof.
  unfold reqs_in. rewrite !list_elem_of_In, in_flat_map. split.
  - intros ([p|r] & Hx & Hr); simpl in Hr; [done |]. destruct Hr as [->|[]]. done.
  - intros H. exists (OfReq rq). split; [done |]. by left.
Qed.

(** The running works after a batch was let go. *)
Lemma batch_step_running s s' rs b w :
  work_inv None [] s -> batch_step s s' rs ->
  runs_in s' b w <-> runs_in s b w \/ (b = next_desc s /\ w ∈ served rs).
Proof.
  intros Hw B. assert (Hsp : forall w, w ∈ served rs -> w ∈ pending s).
  { intros v (q & Hq)%served_taken. apply (pending_elem _ _ _ q _ Hw).
    rewrite (bs_works _ _ _ B q). apply elem_of_app. by left. }
  assert (Hnr : w ∈ served rs -> ~ runs_in s b w) by (intros Hv; by apply waiting_not_running, Hsp).
  destruct w as [p|rq]; simpl in *.
  - rewrite (bs_calls _ _ _ B). case_decide as Hp; [|naive_solver].
    destruct (wi_waiting _ _ _ Hw (OfCall p)) as (c & Hc & Hd);
      [rewrite app_nil_r; by apply Hsp |].
    rewrite Hc in *. simpl. split.
    + intros (c' & [= <-] & Ho). right. split; [|done]. simpl in Ho. destruct (c_desc c); simpl in Ho; congruence.
    + intros [Hr|[-> _]]; [naive_solver |]. eexists. split; [done |]. by destruct (c_desc c).
  - unfold rq_owner in *. rewrite (bs_rqs _ _ _ B), (bs_list _ _ _ B), elem_of_app, reqs_in_elem.
    case_decide as Hp; [|naive_solver].
    destruct (wi_waiting _ _ _ Hw (OfReq rq)) as [(d & [(r & Hr & Hdr) _] & _) Hn];
      [rewrite app_nil_r; by apply Hsp |].
    rewrite Hr in *. simpl in *. rewrite Hdr in *. simpl. naive_solver.
Qed.

Lemma batch_step_grant s s' rs :
  afq_inv s -> batch_step s s' rs -> happens (Grant (next_desc s) rs) (abs s) (abs s').
Proof.
  intros Hinv B. pose proof (inv_work _ Hinv) as Hw. split_and!; simpl.
  - intros w. eapply not_running; [done |]. by eapply fresh_desc.
  - apply B.
  - destruct (bs_first _ _ _ B) as (p & _ & Hr).
    pose proof (serves_length _ _ _ _ _ Hr) as Hl. unfold MAX_BATCH_SIZE in *. lia.
  - apply B.
  - intros b w. by apply batch_step_running.
  - apply B.
Qed.

Lemma batch_step_kinds s s' rs : batch_step s s' rs -> kinds s' = kinds s.
Proof.
  intros B. unfold kinds. apply map_eq. intros p. rewrite !lookup_fmap, (bs_calls _ _ _ B).
  case_decide; [|done]. destruct (calls s !! p) as [c|]; [|done]. simpl. by destruct (c_desc c).
Qed.

(** The scheduler is asked for requests: each time it lets one batch go or does
    nothing. *)
Lemma dispatch_pool s force :
  afq_inv s ->
  exists rv s' acts, basic_sched_dispatch force s = Ok (rv, s') /\ afq_inv s' /\
    q_sched_uniq s' = q_sched_uniq s /\ kinds s' = kinds s /\
    history acts (abs s) (abs s') /\ Forall is_grant acts.
Proof.
  intros Hi. destruct (dispatch_run_afq s force Hi) as (rv & s' & E & Hi' & U & [(-> & F & _)|(-> & rs & B)]).
  - exists 0, s', []. split_and!; auto; [by apply frame_kinds | by apply history_nil, frame_pool].
  - exists 1, s', [Grant (next_desc s) rs]. split_and!; auto.
    + by eapply batch_step_kinds.
    + by apply history_one, batch_step_grant.
    + by repeat constructor.
Qed.

Lemma ask_elevator_run n s :
  afq_inv s ->
  exists s' acts, ask_elevator n s = Ok (tt, s') /\ afq_inv s' /\ q_sched_uniq s' = q_sched_uniq s /\
    kinds s' = kinds s /\ history acts (abs s) (abs s') /\ Forall is_grant acts.
Proof.
  revert s. induction n as [|n IH]; intros s Hi; simpl.
  { exists s, []. split_and!; auto. by apply history_nil. }
  destruct (dispatch_pool s false Hi) as (rv & s1 & l1 & E1 & Hi1 & U1 & K1 & H1 & G1).
  destruct (IH s1 Hi1) as (s2 & l2 & E2 & Hi2 & U2 & K2 & H2 & G2).
  exists s2, (l1 ++ l2). rewrite (bind_ok _ _ _ _ _ E1). split_and!; auto; [congruence | congruence | |].
  - by eapply history_app.
  - by apply Forall_app.
Qed.

Context {D : Driver}.

Lemma run_queue_run s :
  afq_inv s ->
  exists s' acts, __blk_run_queue s = Ok (tt, s') /\ afq_inv s' /\ q_sched_uniq s' = q_sched_uniq s /\
    kinds s' = kinds s /\ history acts (abs s) (abs s') /\ Forall is_grant acts.
Proof. apply ask_elevator_run. Qed.

End Pool.
