(* ===== verification/AfqCalls.v ===== *)
(** * Actually fair queuing: system calls

    The hooks around the system calls: an entry hook either lets the call go on or
    queues its descriptor and wakes the driver; the return hook gives the descriptor
    back to its batch, and the last one to return frees the batch and allows a new
    one. *)

From S2P Require Import Prelude Keeps CInt Kernel DiskSim IoBatch HashTable CauseTags Tags Jiffies.
From S2P Require Import SplitAccount SplitSched IoctlHelper Afq AfqOps AfqInv AfqVio AfqAccount AfqHooks.
From S2P Require Import AfqWorks AfqSelect AfqSubmit AfqPool.

(** ** Works that return *)

(** A batch after one of its works has returned. *)
Definition one_less (b : ptr) (d : io_batch_desc) (m : gmap ptr io_batch_desc) : gmap ptr io_batch_desc :=
  if one_loop_work d =? 1 then delete b m
  else <[b := d <| one_loop_work := one_loop_work d - 1 |>]> m.

Definition dec_state (live : bool) (b : ptr) (d : io_batch_desc) (s : afq) : afq :=
  s <| batches := one_less b d (batches s) |>
    <| ad ::= fun x => x <| keep_wait := if live && (one_loop_work d =? 1) then ALLOW_NEW_BATCH
                                         else keep_wait (ad s) |> |>.

Section Returns.
Context {K : KernelFns} {KO : KernelOk K} {J : JiffyFns}.

Lemma dec_check_run live b d s :
  batches s !! b = Some d -> lock (ad s) = false -> 0 < one_loop_work d <= MAX_BATCH_SIZE ->
  dec_check_cleanup_batch live (Some b) s = Ok (tt, dec_state live b d s).
Proof.
  unfold MAX_BATCH_SIZE. intros Hb Hl Hn. unfold dec_check_cleanup_batch, deref.
  rewrite (bind_ok _ _ s b s) by done. rewrite (bind_ok _ _ s d s) by (unfold get_batch; by rewrite Hb).
  rewrite (bind_ok _ _ _ _ _ (upd_batch_run b _ s d Hb)).
  set (d1 := d <| one_loop_work ::= fun n => s32 (n - 1) |>).
  rewrite (bind_ok _ _ _ d1 (put_batch b d1 s)).
  2: { unfold get_batch, put_batch. simpl. by rewrite lookup_insert_eq. }
  assert (Ed : d1 = d <| one_loop_work := one_loop_work d - 1 |>).
  { unfold d1, upd, update_field. rewrite s32_small by (unfold is_s32; lia). done. }
  assert (E1 : one_loop_work d1 = one_loop_work d - 1) by (by rewrite Ed).
  rewrite E1. unfold dec_state, one_less.
  destruct (Z.eqb_spec (one_loop_work d) 1) as [E|E].
  - rewrite (proj2 (Z.eqb_eq _ _)) by lia. destruct live; cbn [andb].
    + rewrite (bind_ok _ _ _ tt ((put_batch b d1 s) <| ad ::= fun x => x <| keep_wait := ALLOW_NEW_BATCH |> |>)).
      2: { rewrite (bind_ok _ _ _ _ _ (spin_lock_run 439 (put_batch b d1 s) Hl)).
           unfold spin_unlock, upd_ad, modify. erewrite (bind_ok (fun s => Ok (tt, _))) by done.
           do 2 f_equal. unfold set_lock, put_batch, upd, update_field. simpl. by rewrite <- Hl. }
      unfold free_batch, modify, put_batch, upd, update_field. simpl. by rewrite delete_insert_eq.
    + rewrite (bind_ok _ _ _ tt (put_batch b d1 s)) by done.
      unfold free_batch, modify, put_batch, upd, update_field. simpl. rewrite delete_insert_eq.
      by destruct s as [? ? ? ? ? ? ? ? []].
  - rewrite (proj2 (Z.eqb_neq _ _)), andb_false_r by lia. rewrite Ed.
    unfold ret, put_batch, upd, update_field. simpl. by destruct s as [? ? ? ? ? ? ? ? []].
Qed.

(** The counts of the batches when a work has returned. *)
Lemma batches_return b d s s' :
  work_inv None [] s -> batches s !! b = Some d -> batches s' = one_less b d (batches s) ->
  (forall b', outstanding b' s' = outstanding b' s - (if decide (b' = b) then 1 else 0)) ->
  forall b', batch_ok None [] s' b'.
Proof.
  intros Hw Hd Eb Ho b'. pose proof (wi_batches _ _ _ Hw b) as Hb.
  pose proof (wi_batches _ _ _ Hw b') as Hb'. unfold batch_ok in *. rewrite Eb, Ho. rewrite Hd in Hb.
  rewrite decide_False in Hb by done. destruct Hb as (H1 & H2 & H3). unfold one_less.
  destruct (decide (b' = b)) as [->|Hne].
  - destruct (Z.eqb_spec (one_loop_work d) 1) as [E|E].
    + rewrite lookup_delete_eq. split; [lia | done].
    + rewrite lookup_insert_eq, decide_False by done. simpl. split_and!; [lia | done | lia | lia].
  - rewrite Z.sub_0_r. destruct (one_loop_work d =? 1);
      [rewrite lookup_delete_ne by done | rewrite lookup_insert_ne by done]; exact Hb'.
Qed.

(** The batch of a work that runs is allocated and counts it. *)
Lemma running_batch s b w :
  work_inv None [] s -> runs_in s b w ->
  exists d, batches s !! b = Some d /\ one_loop_work d = outstanding b s /\
    0 < one_loop_work d <= MAX_BATCH_SIZE /\ work_selected d = [].
Proof.
  intros Hw Hr. destruct (batches s !! b) as [d|] eqn:Hd; [|by eapply not_running in Hd].
  exists d. split; [done |]. pose proof (wi_batches _ _ _ Hw b) as Hb. unfold batch_ok in Hb.
  rewrite Hd, decide_False in Hb by done. destruct Hb as (H1 & H2 & H3). by rewrite H1.
Qed.

(** How a batch changes when one of its works returns: it goes on with one work less,
    or it ends and, if the scheduler is still there, a new batch is allowed. *)
Definition batch_after (live : bool) (b : ptr) (s s' : afq) : Prop :=
  if decide (outstanding b s = 1)
  then batches s' !! b = None /\ (live = true -> keep_wait (ad s') = ALLOW_NEW_BATCH)
  else is_Some (batches s' !! b) /\ outstanding b s' = outstanding b s - 1 /\
       keep_wait (ad s') = keep_wait (ad s).

Lemma batch_after_dec live b d s s' :
  batches s !! b = Some d -> one_loop_work d = outstanding b s ->
  batches s' = batches (dec_state live b d s) -> keep_wait (ad s') = keep_wait (ad (dec_state live b d s)) ->
  outstanding b s' = outstanding b s - 1 -> batch_after live b s s'.
Proof.
  intros Hd Hn E1 E2 Ho. unfold batch_after. rewrite E1, E2. simpl. unfold one_less. rewrite Hn.
  case_decide as Hc.
  - rewrite Hc. cbn [Z.eqb Pos.eqb]. rewrite lookup_delete_eq. split; [done |]. by intros ->.
  - rewrite (proj2 (Z.eqb_neq _ _)), andb_false_r by done. rewrite lookup_insert_eq.
    split_and!; [by eexists | done | done].
Qed.

Lemma call_return_run s p c sched_uniq :
  afq_inv s -> calls s !! p = Some c -> c_done c = true ->
  exists b s', call_owner (c_desc c) = Some b /\
    call_return (call_owner (c_desc c)) p sched_uniq s = Ok (tt, s') /\ afq_inv s' /\
    q_sched_uniq s' = q_sched_uniq s /\ history [Return b (OfCall p)] (abs s) (abs s') /\
    batch_after (q_sched_uniq s =? sched_uniq) b s s' /\ calls s' = delete p (calls s).
Proof.
  intros Hinv Hc Hdone. pose proof Hinv as [Hi Hca Hw Hl].
  pose proof Hw as [H1 H2 H3 H4 H5 H6 H7 H8 H9].
  destruct (H5 p c Hc) as [_ Hown]. rewrite Hdone in Hown. destruct Hown as [b Hown].
  destruct (running_batch s b (OfCall p) Hw) as (d & Hd & Hn & Hlt & _); [by exists c |].
  exists b, ((dec_state (q_sched_uniq s =? sched_uniq) b d s) <| calls ::= delete p |>).
  split; [done |]. rewrite Hown. split.
  { unfold call_return. rewrite (bind_ok _ _ s (q_sched_uniq s) s) by done.
    by rewrite (bind_ok _ _ _ _ _ (dec_check_run _ b d s Hd Hl Hlt)). }
  match goal with |- afq_inv ?x /\ _ => set (s' := x) end.
  assert (Hout : forall b', outstanding b' s' = outstanding b' s - (if decide (b' = b) then 1 else 0)).
  { intros b'. rewrite (outstanding_return s s' p c b') by done. rewrite Hown. repeat case_decide; congruence. }
  assert (Hrun : forall b' w', runs_in s' b' w' <-> runs_in s b' w' /\ w' <> OfCall p).
  { intros b' [q|rq]; [|split; [by intros ? | by intros [? _]]]. simpl.
    destruct (decide (q = p)) as [->|Hne].
    - rewrite lookup_delete_eq. naive_solver.
    - rewrite lookup_delete_ne by done. naive_solver. }
  assert (Hin : OfCall p ∉ pending s).
  { intros Hp. eapply (waiting_not_running s _ b Hw Hp). by exists c. }
  rewrite !app_nil_r in *.
  split; [|split; [done |]; split; [|split; [|done]]].
  - split; auto; [by destruct Hi |]. split; auto.
    + by rewrite app_nil_r.
    + intros w Hx. rewrite app_nil_r in Hx. specialize (H4 w Hx). destruct w as [q|q]; [|done].
      destruct H4 as (cq & Hq & Hdq). exists cq. split; [|done]. simpl. rewrite lookup_delete_ne; [done |].
      by intros ->.
    + intros q cq Hq. simpl in Hq. apply lookup_delete_Some in Hq as [_ Hq].
      rewrite app_nil_r. exact (H5 q cq Hq).
    + by eapply (batches_return b d s).
    + intros q Hq. apply H9. simpl in Hq. destruct Hq as [Hq|Hq].
      * left. destruct Hq as [x Hq]. apply lookup_delete_Some in Hq as [_ Hq]. by eexists.
      * right. unfold one_less in Hq. destruct (decide (q = b)) as [->|Hne]; [by eexists |].
        destruct (one_loop_work d =? 1);
          [by rewrite lookup_delete_ne in Hq | by rewrite lookup_insert_ne in Hq].
  - apply history_one. split_and!; [done | by exists c | exact Hrun | done].
  - apply (batch_after_dec _ b d); auto. rewrite Hout. by rewrite decide_True.
Qed.

(** ** Queueing a call *)

Lemma outstanding_new s s' p c b :
  calls s !! p = None -> call_owner (c_desc c) = None -> calls s' = <[p := c]> (calls s) ->
  rqs s' = rqs s -> dispatch_list s' = dispatch_list s -> outstanding b s' = outstanding b s.
Proof.
  intros Hp Ho E1 E2 E3. unfold outstanding, calls_of, reqs_of, rq_owner. rewrite E1, E2, E3.
  rewrite map_filter_insert_False, delete_id by (done || (simpl; rewrite Ho; congruence)). done.
Qed.

Definition with_call (d : call_desc) (s : afq) : afq :=
  s <| next_desc ::= Pos.succ |> <| calls ::= <[next_desc s := Call d false]> |>.

Lemma with_call_inv s d :
  afq_inv s -> call_owner d = None -> iow_type (call_work d) = call_type d ->
  data_inv (with_call d s) /\ calm false (with_call d s) /\
  work_inv None [OfCall (next_desc s)] (with_call d s) /\ same_pool (abs s) (abs (with_call d s)).
Proof.
  intros [Hi Hc Hw Hl] Hown Hty. pose proof Hw as [H1 H2 H3 H4 H5 H6 H7 H8 H9].
  destruct (fresh_desc _ _ _ Hw) as [Hfb Hfc]. set (p := next_desc s) in *. set (s1 := with_call d s).
  assert (Hpend : pending s1 = pending s) by done.
  assert (Hnew : OfCall p ∉ pending s).
  { intros Hp. destruct (H4 (OfCall p)) as (c & Hcp & _); [by rewrite app_nil_r |]. congruence. }
  assert (Hold : forall q, q <> p -> calls s1 !! q = calls s !! q).
  { intros q Hq. simpl. by rewrite lookup_insert_ne. }
  assert (Hself : calls s1 !! p = Some (Call d false)) by apply lookup_insert_eq.
  rewrite app_nil_r in *. split; [by destruct Hi |]. split; [done |]. split.
  - split; auto; rewrite ?Hpend.
    + apply list.NoDup_app. split; [done |]. split; [|apply NoDup_singleton].
      by intros x Hx ->%list_elem_of_singleton.
    + intros w [Hx| ->%list_elem_of_singleton]%elem_of_app; [|by exists (Call d false)].
      specialize (H4 w Hx). destruct w as [q|q]; [|done]. destruct H4 as (cq & Hq & Hdq). exists cq.
      rewrite Hold; [done |]. by intros ->.
    + intros q c Hq. destruct (decide (q = p)) as [->|Hne].
      * rewrite Hself in Hq. injection Hq as <-. split; simpl; [done |]. split; [done |].
        apply elem_of_app. right. by left.
      * rewrite Hold in Hq by done. destruct (H5 q c Hq) as [G1 G2]. split; [exact G1 |].
        destruct (c_done c); [exact G2 |]. split; [apply G2 |].
        apply elem_of_app. left. destruct G2 as [_ G2]. exact G2.
    + intros b. specialize (H8 b). unfold batch_ok in *.
      rewrite (outstanding_new s s1 p (Call d false) b) by done. exact H8.
    + intros q Hq. simpl. destruct (decide (q = p)) as [->|Hne]; [unfold p; lia |].
      rewrite Hold in Hq by done. pose proof (H9 q Hq). unfold p in *. lia.
  - split_and!; [done | | done]. intros b [q|rq]; [|done]. simpl.
    destruct (decide (q = p)) as [->|Hne]; [|by rewrite lookup_insert_ne].
    rewrite lookup_insert_eq. split; [intros (c & [= <-] & ?) | intros (c & ? & ?)]; simpl in *; congruence.
Qed.

End Returns.

(** ** Entering a call *)

Section Entries.
Context {K : KernelFns} {KO : KernelOk K} {J : JiffyFns} {D : Driver}.

(** The clock and [kmalloc]. *)
Lemma afq_in_clock_run {A} (m : ST world A) s a w' :
  afq_inv s -> m (k_world (kern s)) = Ok (a, w') -> w_alloc w' = w_alloc (k_world (kern s)) ->
  exists s', in_clock m s = Ok (a, s') /\ afq_inv s' /\ frame s s'.
Proof.
  intros Hi E Ew. exists (s <| kern ::= fun k => k <| k_world := w' |> |>). split.
  { unfold in_clock, in_kern, in_world, zoom. by rewrite E. }
  assert (F : frame s (s <| kern ::= fun k => k <| k_world := w' |> |>)) by (by apply frame_kernel).
  split; [|done]. apply (frame_inv s); auto; [|apply Hi]. apply data_inv_world; [apply Hi | done].
Qed.

(** A call that is queued, and the batches that start when the driver is woken. *)
Lemma queue_call_run s d p :
  afq_inv s -> has_acct p s -> call_owner d = None -> iow_type (call_work d) = call_type d ->
  exists s' acts, queue_call d p s = Ok (next_desc s, s') /\ afq_inv s' /\
    q_sched_uniq s' = q_sched_uniq s /\ kinds s' = <[next_desc s := call_type d]> (kinds s) /\
    history (Enqueue p (OfCall (next_desc s)) :: acts) (abs s) (abs s') /\ Forall is_grant acts.
Proof.
  intros Hinv [a Ha] Ho Ht. destruct (with_call_inv s d Hinv Ho Ht) as (Hi1 & Hc1 & Hw1 & P1).
  unfold queue_call. rewrite (bind_ok _ _ s (next_desc s) (with_call d s)) by done.
  destruct (add_io_work_run (with_call d s) (OfCall (next_desc s)) p a Hi1 Hc1 Hw1 Ha)
    as (s2 & E2 & Hi2 & Hc2 & Hw2 & Q2 & Hwk). rewrite (bind_ok _ _ _ _ _ E2).
  assert (Hinv2 : afq_inv s2) by (split; auto; rewrite (qf_lock _ _ Q2); apply Hinv).
  destruct (run_queue_run s2 Hinv2) as (s3 & acts & E3 & Hi3 & U3 & K3 & H3 & G3).
  exists s3, acts. rewrite (bind_ok _ _ _ _ _ E3). split_and!; auto.
  - by rewrite U3, (qf_uniq _ _ Q2).
  - rewrite K3. unfold kinds. rewrite (qf_calls _ _ Q2). simpl. by rewrite fmap_insert.
  - apply (history_cons _ _ _ (abs s2)); [|done]. rewrite P1. split_and!; simpl.
    + exact Hwk.
    + intros b w. simpl. unfold runs_in, rq_owner.
      by rewrite (qf_calls _ _ Q2), (qf_rqs _ _ Q2), (qf_list _ _ Q2).
    + apply Q2.
Qed.

(** How an entry hook ends: the call goes on and nothing was queued, or its
    descriptor, of the right kind, was queued on the list of the caller's account and
    the call waits for it. *)
Definition entered (kind : io_type) (cur : Z) (s : afq) (r : entry_result) (s' : afq) : Prop :=
  match r with
  | Returns rv _ => history [] (abs s) (abs s') /\ kinds s' = kinds s
  | Waits desc =>
      calls s !! desc = None /\ kinds s' = <[desc := kind]> (kinds s) /\
      exists p acts, caller_of (heap s) cur p /\
        history (Enqueue p (OfCall desc) :: acts) (abs s) (abs s') /\ Forall is_grant acts
  end.

Definition enters (kind : io_type) (cur : Z) (m : ST afq entry_result) (s : afq) : Prop :=
  exists r s', m s = Ok (r, s') /\ afq_inv s' /\ q_sched_uniq s' = q_sched_uniq s /\ entered kind cur s r s'.

Lemma enters_returns kind cur s s1 (m : ST afq entry_result) rv o :
  m s = Ok (Returns rv o, s1) -> afq_inv s1 -> frame s s1 -> enters kind cur m s.
Proof.
  intros E Hi F. exists (Returns rv o), s1. split_and!; auto; [apply F |].
  split; [by apply history_nil, frame_pool | by apply frame_kinds].
Qed.

Lemma enters_queue cur d p s s1 (m : ST afq entry_result) :
  m s = (let! desc := queue_call d p in ret (Waits desc)) s1 ->
  afq_inv s1 -> frame s s1 -> sched_acct p s1 -> caller_of (heap s) cur p -> call_owner d = None ->
  iow_type (call_work d) = call_type d -> enters (call_type d) cur m s.
Proof.
  intros E Hi1 F Hp Hc Ho Ht.
  destruct (queue_call_run s1 d p Hi1 (sched_has _ _ Hp) Ho Ht) as (s' & acts & E' & Hi' & U & Kd & H & G).
  exists (Waits (next_desc s1)), s'. rewrite E, (bind_ok _ _ _ _ _ E'). split; [done |]. split; [done |].
  split; [rewrite U; apply F |]. split_and!.
  - rewrite <- (fr_calls _ _ F). by eapply fresh_desc, Hi1.
  - by rewrite Kd, (frame_kinds _ _ F).
  - exists p, acts. split_and!; auto. by rewrite (frame_pool _ _ F).
Qed.

(** The descriptors, when there is memory. *)
Lemma get_wrdesc_run file count pos w :
  (forall n, w_alloc w n = true) ->
  exists d w', get_wrdesc file count pos w = Ok (inl d, w') /\ w_alloc w' = w_alloc w /\
    w_owner_batch d = None /\ iow_type (w_io_work d) = SCHED_SYS_WRITE.
Proof. intros H. unfold get_wrdesc, bind, kmalloc. rewrite H. by eexists _, _. Qed.
Lemma get_mkdir_desc_run dir dentry mode w :
  (forall n, w_alloc w n = true) ->
  exists d w', get_mkdir_desc dir dentry mode w = Ok (inl d, w') /\ w_alloc w' = w_alloc w /\
    m_owner_batch d = None /\ iow_type (m_io_work d) = SCHED_SYS_MKDIR.
Proof. intros H. unfold get_mkdir_desc, bind, kmalloc. rewrite H. by eexists _, _. Qed.
Lemma get_fsync_desc_run file datasync w :
  (forall n, w_alloc w n = true) ->
  exists d w', get_fsync_desc file datasync w = Ok (inl d, w') /\ w_alloc w' = w_alloc w /\
    f_owner_batch d = None /\ iow_type (f_io_work d) = SCHED_SYS_FSYNC.
Proof. intros H. unfold get_fsync_desc, bind, kmalloc. rewrite H. by eexists _, _. Qed.

Lemma write_entry_run s cur file o_direct count pos :
  afq_inv s ->
  enters SCHED_SYS_WRITE cur (basic_sched_write_entry cur file o_direct count pos (q_sched_uniq s)) s.
Proof.
  intros Hi. destruct (write_admit_run (heap s) cur o_direct (q_sched_uniq s) s Hi) as (r & s1 & E1 & Hi1 & F1 & Hr);
    [done |].
  destruct r as [r|p]; simpl in Hr.
  - subst r. eapply enters_returns; [|exact Hi1 | exact F1].
    unfold basic_sched_write_entry. by rewrite (bind_ok _ _ _ _ _ E1).
  - destruct Hr as [Hp Hcl].
    destruct (quiet_upd p (fun a => a <| num_write_blocked ::= fun n => s32 (n + 1) |>)) with s1
      as (u & s2 & E2 & Hi2 & F2 & Hp2); [by intros [] | by intros [] | by intros [] | done | done |].
    destruct (get_wrdesc_run file count pos (k_world (kern s2)) (di_alloc _ (inv_data _ Hi2)))
      as (d & w' & Ew & Eal & Ho & Ht).
    destruct (afq_in_clock_run _ s2 _ _ Hi2 Ew Eal) as (s3 & E3 & Hi3 & F3).
    apply (enters_queue cur (WrCall (d <| w_acct := Some p |>)) p s s3); auto.
    + unfold basic_sched_write_entry, write_entry_sched.
      rewrite (bind_ok _ _ _ _ _ E1), (bind_ok _ _ _ _ _ E2), (bind_ok _ _ _ _ _ E3). done.
    + transitivity s1; [done |]. by transitivity s2.
    + by eapply sched_acct_frame.
Qed.

(** [mkdir] and [fsync] also cope with a scheduler that is no longer the caller's. *)
Lemma mkdir_entry_run s cur dir dentry mode sched_uniq :
  afq_inv s -> enters SCHED_SYS_MKDIR cur (basic_sched_mkdir_entry cur dir dentry mode sched_uniq) s.
Proof.
  intros Hi. destruct (Z.eq_dec sched_uniq (q_sched_uniq s)) as [->|Hne].
  2: { eapply (enters_returns _ _ s s); [|done | reflexivity]. unfold basic_sched_mkdir_entry, mkdir_entry_admit, bind, gets.
       by rewrite (proj2 (Z.eqb_neq _ _) Hne). }
  destruct (mkdir_admit_run (heap s) cur (q_sched_uniq s) s Hi) as (r & s1 & E1 & Hi1 & F1 & Hr); [done |].
  destruct r as [r|p]; simpl in Hr.
  - subst r. eapply enters_returns; [|exact Hi1 | exact F1].
    unfold basic_sched_mkdir_entry. by rewrite (bind_ok _ _ _ _ _ E1).
  - destruct Hr as [Hp Hcl].
    destruct (get_mkdir_desc_run dir dentry mode (k_world (kern s1)) (di_alloc _ (inv_data _ Hi1)))
      as (d & w' & Ew & Eal & Ho & Ht).
    destruct (afq_in_clock_run _ s1 _ _ Hi1 Ew Eal) as (s3 & E3 & Hi3 & F3).
    apply (enters_queue cur (MkdirCall (d <| m_acct := Some p |>)) p s s3); auto.
    + unfold basic_sched_mkdir_entry, mkdir_entry_sched.
      rewrite (bind_ok _ _ _ _ _ E1), (bind_ok _ _ _ _ _ E3). done.
    + by transitivity s1.
    + by eapply sched_acct_frame.
Qed.

Lemma fsync_entry_run s cur file datasync sched_uniq :
  afq_inv s -> enters SCHED_SYS_FSYNC cur (basic_sched_fsync_entry cur file datasync sched_uniq) s.
Proof.
  intros Hi. destruct (get_fsync_desc_run file datasync (k_world (kern s)) (di_alloc _ (inv_data _ Hi)))
    as (d & w' & Ew & Eal & Ho & Ht).
  destruct (afq_in_clock_run _ s _ _ Hi Ew Eal) as (s1 & E1 & Hi1 & F1).
  assert (Eh : heap s1 = heap s).
  { unfold in_clock, in_kern, in_world, zoom in E1. rewrite Ew in E1. by injection E1 as <-. }
  destruct (Z.eq_dec sched_uniq (q_sched_uniq s1)) as [->|Hne].
  2: { eapply (enters_returns _ _ s s1); [|done | exact F1]. unfold basic_sched_fsync_entry.
       rewrite (bind_ok _ _ _ _ _ E1). unfold bind, gets. by rewrite (proj2 (Z.eqb_neq _ _) Hne). }
  assert (Hm : quiet (fun s => heap s = heap s1) (let! o := get_acct cur in scheduled o)
    (fun o s => match o with Some p => sched_acct p s /\ caller_of (heap s1) cur p | None => True end)).
  { eapply afq_quiet_bind; [apply keeps_quiet, get_acct_caller |]. intros o s' Hi' (p & a & -> & Ha & _ & Hcl).
    destruct (quiet_scheduled p s' Hi') as (o & s2 & E2 & Hi2 & F2 & Hr); [by eexists |].
    exists o, s2. split_and!; auto. destruct o as [q|]; [|done]. by destruct Hr as [-> ?]. }
  destruct (Hm s1 Hi1 eq_refl) as (o & s2 & E2 & Hi2 & F2 & Hr).
  assert (Erun : basic_sched_fsync_entry cur file datasync (q_sched_uniq s1) s =
    (match o with
     | None => ret (Returns 0 (Some None))
     | Some p => let! desc := queue_call (FsyncCall (d <| f_acct := Some p |>)) p in ret (Waits desc)
     end) s2).
  { unfold basic_sched_fsync_entry. rewrite (bind_ok _ _ _ _ _ E1). rewrite (bind_ok _ _ s1 (q_sched_uniq s1) s1) by done.
    rewrite Z.eqb_refl. cbn [negb]. unfold bind in E2. unfold bind at 1.
    destruct (get_acct cur s1) as [[o' s']|]; [|done]. by rewrite (bind_ok _ _ _ _ _ E2). }
  destruct o as [p|].
  - destruct Hr as [Hp Hcl]. rewrite Eh in Hcl.
    eapply (enters_queue cur (FsyncCall (d <| f_acct := Some p |>)) p s s2); [exact Erun | ..]; auto.
    by transitivity s1.
  - eapply enters_returns; [exact Erun | done |]. by transitivity s1.
Qed.

(** ** Leaving a call *)

(** What a return hook does with the descriptor [p] of a call. *)
Definition call_left (p : ptr) (s s' : afq) (sched_uniq : Z) : Prop :=
  exists b, runs_in s b (OfCall p) /\ history [Return b (OfCall p)] (abs s) (abs s') /\
    batch_after (q_sched_uniq s =? sched_uniq) b s s' /\ kinds s' = delete p (kinds s).

Definition leaves (m : ptr -> ST afq unit) (kind : io_type) (sched_uniq : Z) : Prop :=
  forall s p c, afq_inv s -> calls s !! p = Some c -> c_done c = true -> call_type (c_desc c) = kind ->
  exists s', m p s = Ok (tt, s') /\ afq_inv s' /\ q_sched_uniq s' = q_sched_uniq s /\ call_left p s s' sched_uniq.

Lemma leaves_return (m : ptr -> ST afq unit) kind sched_uniq :
  (forall s p c, calls s !! p = Some c -> call_type (c_desc c) = kind ->
     m p s = call_return (call_owner (c_desc c)) p sched_uniq s) -> leaves m kind sched_uniq.
Proof.
  intros Hm s p c Hi Hc Hd Hk. rewrite (Hm s p c Hc Hk).
  destruct (call_return_run s p c sched_uniq Hi Hc Hd) as (b & s' & Ho & E & Hi' & U & H & Ha & Ec).
  exists s'. split_and!; auto. exists b. split_and!; auto; [by exists c |].
  unfold kinds. by rewrite Ec, fmap_delete.
Qed.

Ltac leave := intros s p c Hc Hk;
  destruct (c_desc c) as [d|d|d] eqn:Ed; simplify_eq/=;
  rewrite (bind_ok _ _ s (p, d) s) by (unfold WR_IO, FSYNC_IO, MKDIR_IO, bind, get_call; by rewrite Hc, Ed);
  done.

Lemma write_return_run uniq :
  leaves (fun p => basic_sched_write_return (Some p) uniq) SCHED_SYS_WRITE uniq.
Proof. apply leaves_return. leave. Qed.
Lemma mkdir_return_run uniq :
  leaves (fun p => basic_sched_mkdir_return (Some p) uniq) SCHED_SYS_MKDIR uniq.
Proof. apply leaves_return. leave. Qed.
Lemma fsync_return_run uniq :
  leaves (fun p => basic_sched_fsync_return (Some p) uniq) SCHED_SYS_FSYNC uniq.
Proof. apply leaves_return. leave. Qed.

End Entries.
