(* ===== verification/AfqRequests.v ===== *)
(** * Actually fair queuing: requests and timers

    A request gets a descriptor, is added, and either goes to the device at once (a
    write, or a read of account 0) or waits on the list of its account; when the device
    has completed it, it is given back to its batch.  The timers only decide when
    the next batch may start. *)

From S2P Require Import Prelude Keeps CInt Kernel DiskSim IoBatch HashTable CauseTags Tags Jiffies.
From S2P Require Import SplitAccount SplitSched IoctlHelper Afq AfqOps AfqInv AfqVio AfqAccount AfqHooks.
From S2P Require Import AfqWorks AfqSelect AfqSubmit AfqPool AfqCalls.

(** A request that the scheduler does not have. *)
Definition absent (s : afq) (rq : ptr) : Prop := rq ∉ dispatch_list s /\ OfReq rq ∉ pending s.

Section Requests.
Context {K : KernelFns} {KO : KernelOk K} {J : JiffyFns}.

(** ** Requests that change *)

(** The requests may change, as long as those the scheduler has keep their
    descriptors. *)
Lemma work_inv_rqs s m :
  work_inv None [] s ->
  (forall q, q ∈ dispatch_list s \/ OfReq q ∈ pending s -> rq_desc <$> m !! q = rq_desc <$> rqs s !! q) ->
  work_inv None [] (s <| rqs := m |>) /\ same_pool (abs s) (abs (s <| rqs := m |>)).
Proof.
  intros [H1 H2 H3 H4 H5 H6 H7 H8 H9] Hm. set (s' := s <| rqs := m |>).
  assert (Hd : forall q d, q ∈ dispatch_list s \/ OfReq q ∈ pending s -> has_desc s q d -> has_desc s' q d).
  { intros q d Hq [(r & Hr & Hd) Hrq]. split; [|done]. specialize (Hm q Hq). rewrite Hr in Hm. simpl in *.
    destruct (m !! q) as [r'|] eqn:Hr'; simplify_eq/=. exists r'. split; [done |]. congruence. }
  assert (Ho : forall q, q ∈ dispatch_list s -> rq_owner s' q = rq_owner s q).
  { intros q Hq. specialize (Hm q (or_introl Hq)). unfold rq_owner. simpl.
    destruct (rqs s !! q), (m !! q); simplify_eq/=; [|done]. by match goal with H : _ = _ |- _ => rewrite H end. }
  split.
  - split; auto.
    + intros w Hw. specialize (H4 w Hw). rewrite app_nil_r in Hw. destruct w as [q|q]; [done |].
      destruct H4 as [(d & Hx & Hy) Hn]. split; [|done]. exists d. split; [|done]. apply Hd; auto.
    + intros q Hq. destruct (H7 q Hq) as [d Hx]. exists d. apply Hd; auto.
    + intros b. specialize (H8 b). unfold batch_ok in *.
      replace (outstanding b s') with (outstanding b s); [done |].
      unfold outstanding, reqs_of. f_equal. f_equal. f_equal. symmetry. apply filter_same.
      intros q Hq. by rewrite Ho.
  - split_and!; try done. intros b [q|q]; [done |]. simpl.
    split; intros [Hq Hr]; (split; [done |]); specialize (Ho q Hq); congruence.
Qed.

Lemma afq_inv_rqs s k m :
  afq_inv s -> env_wf k m -> (forall n, w_alloc (k_world k) n = true) ->
  (forall q, q ∈ dispatch_list s \/ OfReq q ∈ pending s -> rq_desc <$> m !! q = rq_desc <$> rqs s !! q) ->
  afq_inv (s <| kern := k |> <| rqs := m |>) /\ same_pool (abs s) (abs (s <| kern := k |> <| rqs := m |>)).
Proof.
  intros [Hi Hc Hw Hl] He Ha Hm. destruct (work_inv_rqs s m Hw Hm) as [Hw' P]. split; [|done]. split; auto.
  - destruct Hi. by split.
  - eapply same_works_inv; [|exact Hw']. by split.
Qed.

(** ** A request goes to the device by itself *)

Lemma direct_inv s rq d l :
  afq_inv s -> has_desc s rq d -> r_owner_batch d = None -> absent s rq -> l ≡ₚ rq :: dispatch_list s ->
  afq_inv (s <| dispatch_list := l |>) /\ happens (Direct rq) (abs s) (abs (s <| dispatch_list := l |>)).
Proof.
  intros [Hi Hc Hw Hl] Hd Hown [Hn1 Hn2] Hp. pose proof Hw as [H1 H2 H3 H4 H5 H6 H7 H8 H9].
  assert (Ho : rq_owner s rq = None).
  { unfold rq_owner. destruct Hd as [(r & -> & ->) _]. done. }
  set (s' := s <| dispatch_list := l |>). assert (Hp' : dispatch_list s' ≡ₚ rq :: dispatch_list s) by done.
  assert (Ho' : forall q, rq_owner s' q = rq_owner s q) by done. split.
  - split; auto; [by destruct Hi |]. split; auto.
    + intros w Hw'. specialize (H4 w Hw'). rewrite app_nil_r in Hw'. destruct w as [q|q]; [done |].
      destruct H4 as [G1 G2]. split; [done |]. rewrite Hp', elem_of_cons. intros [->|?]; done.
    + rewrite Hp'. by apply list.NoDup_cons.
    + intros q. rewrite Hp', elem_of_cons. intros [->|Hq]; [by exists d | by apply H7].
    + intros b. specialize (H8 b). unfold batch_ok in *.
      rewrite (outstanding_dispatch s s' rq b), Ho', Ho, decide_False, Z.add_0_r by done.
      exact H8.
  - split_and!; [done | | done]. intros b [q|q]; [done |]. unfold abs, running, runs_in.
    rewrite Hp', elem_of_cons, Ho'. split; [|tauto].
    intros [[->|Hq] Hr]; [congruence | done].
Qed.

Lemma direct_run s rq d :
  afq_inv s -> has_desc s rq d -> r_owner_batch d = None -> absent s rq ->
  exists s', dispatch_sort rq s = Ok (tt, s') /\ afq_inv s' /\ q_sched_uniq s' = q_sched_uniq s /\
    kinds s' = kinds s /\ history [Direct rq] (abs s) (abs s').
Proof.
  intros Hi Hd Ho Ha. destruct (afq_dispatch_sort_run rq s) as (l & E & Hp).
  destruct (direct_inv s rq d l Hi Hd Ho Ha Hp) as [Hi' H]. exists (s <| dispatch_list := l |>).
  split_and!; auto. by apply history_one.
Qed.

(** ** Adding a request *)

Lemma work_inv_limbo s w : work_inv None [] s -> w ∉ pending s -> waiting s w -> work_inv None [w] s.
Proof.
  intros [H1 H2 H3 H4 H5 H6 H7 H8 H9] Hn Hw. rewrite app_nil_r in *. split; auto.
  - apply list.NoDup_app. split; [done |]. split; [|apply NoDup_singleton].
    by intros x Hx ->%list_elem_of_singleton.
  - intros v [Hv| ->%list_elem_of_singleton]%elem_of_app; auto.
  - intros p c Hc. destruct (H5 p c Hc) as [G1 G2]. split; [done |]. destruct (c_done c); [done |].
    split; [apply G2 |]. apply elem_of_app. left. apply G2.
Qed.

(** A fresh descriptor of the request. *)
Record fresh_req (s : afq) (rq : ptr) (r : request) (d : req_desc) : Prop := {
  fq_rq : rqs s !! rq = Some r;
  fq_desc : rq_desc r = Some d;
  fq_back : r_rq d = rq;
  fq_owner : r_owner_batch d = None;
  fq_type : iow_type (r_io_work d) = if rq_write r then SCHED_WRITE_REQ else SCHED_READ_REQ;
}.

Lemma fresh_has_desc s rq r d : fresh_req s rq r d -> has_desc s rq d.
Proof. intros [H1 H2 H3 H4 H5]. split; [by exists r | done]. Qed.

Lemma fresh_req_frame s s' rq r d : frame s s' -> fresh_req s rq r d -> fresh_req s' rq r d.
Proof. intros F [H1 H2 H3 H4 H5]. split; auto. by rewrite (fr_rqs _ _ F). Qed.

Lemma absent_frame s s' rq : frame s s' -> absent s rq -> absent s' rq.
Proof.
  intros F [H1 H2]. pose proof (frame_same_works _ _ F) as S. split.
  - by rewrite (fr_list _ _ F).
  - by rewrite (same_works_pending _ _ S).
Qed.

(** The statistics and the tag of the caller. *)
Lemma add_prepare_run s cur rq r :
  afq_inv s -> rqs s !! rq = Some r -> (rq_write r = true -> counts_ok r s) ->
  exists s1 rv s2, cause_list_size_stat2 r s = Ok (tt, s1) /\
    in_kern (__cause_list_add (RQ_CAUSES r) cur) s1 = Ok (rv, s2) /\
    afq_inv s2 /\ frame s s2 /\ heap s2 = heap s.
Proof.
  intros Hinv Hr Hcn. pose proof (inv_data _ Hinv) as Hi.
  assert (Ht : tags_ok r s) by (by eapply (ew_rqs _ _ (di_env _ Hi))).
  destruct (keeps_size_stat r s Ht Hcn s Hi) as ([] & s1 & E1 & Hi1 & F1 & Hc1 & Ek & Er & Eh).
  { split; [apply Hinv | done]. }
  destruct (cause_list_add_env (kern s1) (rqs s1) r cur) as (rv & k' & E2 & He & Hdom & Hal).
  { apply Hi1. }
  { by rewrite Ek. }
  exists s1, rv, (s1 <| kern := k' |>). split; [done |].
  split; [unfold in_kern, zoom; cbn [tag_causes tagged_request] in E2; by rewrite E2 |].
  assert (F2 : frame s1 (s1 <| kern := k' |>)) by (by apply frame_kernel).
  split; [|split; [by transitivity s1 | exact Eh]].
  apply (frame_inv s); auto; [by transitivity s1 |]. by apply data_inv_kern.
Qed.

(** What adding a request does: it goes to the device, or it is a read that waits on
    the list of the caller's account. *)
Definition added (cur : Z) (rq : ptr) (r : request) (s s' : afq) : Prop :=
  history [Direct rq] (abs s) (abs s') \/
  (rq_write r = false /\ exists p, caller_of (heap s) cur p /\
     history [Enqueue p (OfReq rq)] (abs s) (abs s')).

Lemma add_write_run s rq r d :
  afq_inv s -> fresh_req s rq r d -> absent s rq ->
  exists s', (upd_ad (fun d => d <| inflight ::= fun n => s32 (n + 1) |>);;
    let! d := get_desc 356 rq in
    afq_account_request2 d;;
    dispatch_sort rq) s = Ok (tt, s') /\ afq_inv s' /\ q_sched_uniq s' = q_sched_uniq s /\
    kinds s' = kinds s /\ history [Direct rq] (abs s) (abs s').
Proof.
  intros Hinv Hf Ha. unfold upd_ad, modify. erewrite (bind_ok (fun s => Ok (tt, _))) by done.
  set (s1 := s <| ad ::= _ |>).
  assert (Hi1 : afq_inv s1) by (apply inv_ad; auto; apply Hinv).
  assert (S1 : same_works s s1) by (by split).
  assert (Hf1 : fresh_req s1 rq r d) by (destruct Hf; by split).
  rewrite (bind_ok _ _ s1 d s1) by (unfold get_desc; by rewrite (fq_rq _ _ _ _ Hf1), (fq_desc _ _ _ _ Hf1)).
  destruct (keeps_account_request2 d r s1 (inv_data _ Hi1)) as ([] & s2 & E2 & Hi2 & F2 & Hc2).
  { split; [apply Hi1 |]. rewrite (fq_back _ _ _ _ Hf1). apply Hf1. }
  rewrite (bind_ok _ _ _ _ _ E2).
  assert (Hinv2 : afq_inv s2) by (by eapply frame_inv).
  destruct (direct_run s2 rq d) as (s3 & E3 & Hi3 & U3 & K3 & H3); auto.
  { eapply fresh_has_desc, fresh_req_frame; eauto. }
  { apply Hf. }
  { by eapply absent_frame. }
  exists s3. split_and!; auto.
  - rewrite U3. apply F2.
  - rewrite K3. exact (frame_kinds _ _ F2).
  - by rewrite (same_works_pool _ _ S1), (frame_pool _ _ F2).
Qed.

Lemma add_read_run s cur rq r d :
  afq_inv s -> fresh_req s rq r d -> absent s rq -> rq_write r = false ->
  exists s', (let! o := get_acct cur in
    get_desc 501 rq;;
    upd_desc rq (fun d => d <| r_acct := o |>);;
    match o with
    | None => dispatch_sort rq
    | Some p =>
        let! a := acct 502 p in
        if negb (account_id a =? 0) then add_io_work_to_acct (OfReq rq) p
        else dispatch_sort rq
    end) s = Ok (tt, s') /\ afq_inv s' /\ q_sched_uniq s' = q_sched_uniq s /\
    kinds s' = kinds s /\ added cur rq r s s'.
Proof.
  intros Hinv Hf Ha Hrd.
  destruct (keeps_quiet _ _ _ (get_acct_caller cur (heap s)) s Hinv eq_refl)
    as (o & s1 & E1 & Hi1 & F1 & p & a & -> & Hp & Hid & Hcl). rewrite (bind_ok _ _ _ _ _ E1).
  assert (Hf1 : fresh_req s1 rq r d) by (by eapply fresh_req_frame).
  assert (Ha1 : absent s1 rq) by (by eapply absent_frame).
  pose proof Hf1 as [G1 G2 G3 G4 G5].
  rewrite (bind_ok _ _ s1 d s1) by (unfold get_desc; by rewrite G1, G2).
  rewrite (bind_ok _ _ _ _ _ (upd_desc_run rq _ s1 r G1)).
  set (r' := r <| rq_desc ::= _ |>). set (s2 := s1 <| rqs ::= <[rq := r']> |>).
  destruct (afq_inv_rqs s1 (kern s1) (<[rq := r']> (rqs s1)) Hi1) as [Hi2 P2].
  { eapply env_wf_put; [apply Hi1 | exact G1 | done | done]. }
  { apply Hi1. }
  { intros q Hq. rewrite lookup_insert_ne; [done |]. intros ->. destruct Ha1. tauto. }
  change (afq_inv s2) in Hi2. change (same_pool (abs s1) (abs s2)) in P2.
  assert (Ha2 : absent s2 rq) by exact Ha1.
  assert (Hd2 : has_desc s2 rq (d <| r_acct := Some p |>)).
  { split; [|done]. exists r'. split; [apply lookup_insert_eq |]. simpl. by rewrite G2. }
  assert (P : same_pool (abs s) (abs s2)) by (by rewrite (frame_pool _ _ F1)).
  rewrite (bind_ok _ _ s2 a s2) by (by apply afq_acct_run).
  destruct (Z.eqb_spec (account_id a) 0) as [Hz|Hz]; cbn [negb].
  - destruct (direct_run s2 rq _ Hi2 Hd2 G4 Ha2) as (s3 & E3 & Hi3 & U3 & K3 & H3).
    exists s3. split_and!; auto; [rewrite U3; apply F1 | rewrite K3; apply (frame_kinds _ _ F1) |].
    left. by rewrite P.
  - destruct (add_io_work_run s2 (OfReq rq) p a) as (s3 & E3 & Hi3 & Hc3 & Hw3 & Q3 & Hwk);
      [apply Hi2 | apply Hi2 | | done |].
    { apply work_inv_limbo; [apply Hi2 | apply Ha2 |]. split; [|apply Ha2].
      exists (d <| r_acct := Some p |>). split_and!; auto. simpl. by rewrite G5, Hrd. }
    exists s3. split_and!; auto.
    + split; auto. rewrite (qf_lock _ _ Q3). apply Hi2.
    + rewrite (qf_uniq _ _ Q3). apply F1.
    + unfold kinds. rewrite (qf_calls _ _ Q3). apply (frame_kinds _ _ F1).
    + right. split; [done |]. exists p. split; [done |]. apply history_one. rewrite P. split_and!; simpl.
      * exact Hwk.
      * intros b w. simpl. unfold runs_in, rq_owner.
        by rewrite (qf_calls _ _ Q3), (qf_rqs _ _ Q3), (qf_list _ _ Q3).
      * apply Q3.
Qed.

Lemma afq_add_request_run s cur rq r d :
  afq_inv s -> fresh_req s rq r d -> absent s rq -> (rq_write r = true -> counts_ok r s) ->
  exists s', basic_sched_add_request cur rq s = Ok (tt, s') /\ afq_inv s' /\
    q_sched_uniq s' = q_sched_uniq s /\ kinds s' = kinds s /\ added cur rq r s s'.
Proof.
  intros Hinv Hf Ha Hcn. unfold basic_sched_add_request.
  rewrite (bind_ok _ _ s r s) by (unfold get_rq; by rewrite (fq_rq _ _ _ _ Hf)).
  destruct (add_prepare_run s cur rq r Hinv (fq_rq _ _ _ _ Hf) Hcn) as (s1 & rv & s2 & E1 & E2 & Hi2 & F2 & Eh).
  rewrite (bind_ok _ _ _ _ _ E1), (bind_ok _ _ _ _ _ E2).
  assert (Hf2 : fresh_req s2 rq r d) by (by eapply fresh_req_frame).
  assert (Ha2 : absent s2 rq) by (by eapply absent_frame).
  destruct (rq_write r) eqn:Ew.
  - destruct (add_write_run s2 rq r d Hi2 Hf2 Ha2) as (s3 & E3 & Hi3 & U3 & K3 & H3).
    exists s3. split_and!; auto; [rewrite U3; apply F2 | rewrite K3; by apply frame_kinds |].
    left. by rewrite (frame_pool _ _ F2).
  - destruct (add_read_run s2 cur rq r d Hi2 Hf2 Ha2 Ew) as (s3 & E3 & Hi3 & U3 & K3 & H3).
    exists s3. split_and!; auto; [rewrite U3; apply F2 | rewrite K3; by apply frame_kinds |].
    unfold added in *. rewrite Eh in H3. destruct H3 as [H3|(_ & p & Hcl & H3)].
    + left. by rewrite (frame_pool _ _ F2).
    + right. split; [done |]. exists p. split; [done |]. by rewrite (frame_pool _ _ F2).
Qed.

(** ** Completing a request *)

(** The device hands back a request it has. *)
Definition taken_back (rq : ptr) (s : afq) : afq := s <| dispatch_list ::= list_del rq |>.

Lemma taken_back_work s rq s' :
  afq_inv s -> rq ∈ dispatch_list s ->
  dispatch_list s' = list_del rq (dispatch_list s) -> rqs s' = rqs s -> calls s' = calls s ->
  (forall p, works_of s' p = works_of s p) -> active_acct_list (ad s') = active_acct_list (ad s) ->
  next_desc s' = next_desc s -> (forall q, is_Some (batches s' !! q) -> is_Some (batches s !! q)) ->
  (forall b, batch_ok None [] s' b) -> work_inv None [] s'.
Proof.
  intros Hinv Hrq E1 E2 E3 E4 E5 E6 E7 Hb. pose proof (inv_work _ Hinv) as [H1 H2 H3 H4 H5 H6 H7 H8 H9].
  assert (Ep : pending s' = pending s).
  { unfold pending. rewrite E5. apply flat_map_same. auto. }
  split; rewrite ?Ep, ?E5; auto.
  - intros p. by rewrite E4.
  - intros w Hw. specialize (H4 w Hw). destruct w as [q|q]; simpl in *; [by rewrite E3 |].
    unfold has_desc in *. rewrite E1, E2. destruct H4 as [G1 G2]. split; [done |].
    rewrite elem_of_del. tauto.
  - by rewrite E3.
  - rewrite E1. by apply list_del_nodup.
  - intros q. rewrite E1, elem_of_del. intros [_ Hq]. unfold has_desc. rewrite E2. by apply H7.
  - intros q Hq. rewrite E6. apply H9. rewrite E3 in Hq. destruct Hq; auto.
Qed.

(** What completing a request does: its batch counts one work less, or it was in none. *)
Definition completed (rq : ptr) (s s' : afq) : Prop :=
  (exists b, runs_in s b (OfReq rq) /\ history [Return b (OfReq rq)] (abs s) (abs s') /\
     batch_after true b s s') \/
  (rq_owner s rq = None /\ history [Finish rq] (abs s) (abs s')).

Lemma completed_running s s' rq :
  rqs s' = rqs s -> calls s' = calls s -> dispatch_list s' = list_del rq (dispatch_list s) ->
  forall b w, runs_in s' b w <-> runs_in s b w /\ w <> OfReq rq.
Proof.
  intros E1 E2 E3 b [p|q]; simpl; [rewrite E2; naive_solver |]. unfold rq_owner.
  rewrite E1, E3, elem_of_del. naive_solver.
Qed.

(** The state when [inflight] has been counted down. *)
Definition landed (rq : ptr) (s : afq) : afq :=
  (taken_back rq s) <| ad ::= fun d => d <| inflight ::= fun n => s32 (n - 1) |> |>.

Lemma landed_data rq s : data_inv s -> data_inv (landed rq s).
Proof. intros Hi. apply data_inv_ad; try apply Hi; auto. by destruct Hi. Qed.

Lemma landed_outstanding s s' rq b :
  afq_inv s -> rq ∈ dispatch_list s -> dispatch_list s' = list_del rq (dispatch_list s) ->
  calls s' = calls s -> rqs s' = rqs s ->
  outstanding b s' = outstanding b s - (if decide (rq_owner s rq = Some b) then 1 else 0).
Proof. intros Hi Hrq El Ec Er. apply outstanding_complete; auto. apply (wi_list_nodup _ _ _ (inv_work _ Hi)). Qed.

(** A request of a batch. *)
Lemma complete_in_batch s rq b :
  afq_inv s -> rq ∈ dispatch_list s -> rq_owner s rq = Some b ->
  exists s', dec_check_cleanup_batch true (Some b) (landed rq s) = Ok (tt, s') /\ afq_inv s' /\
    q_sched_uniq s' = q_sched_uniq s /\ kinds s' = kinds s /\ completed rq s s'.
Proof.
  intros Hinv Hrq Hown. pose proof Hinv as [Hi Hc Hw Hl].
  destruct (running_batch s b (OfReq rq) Hw) as (bd & Hbd & Hn & Hlt & _); [done |].
  exists (dec_state true b bd (landed rq s)). split; [by apply dec_check_run |].
  set (s2 := dec_state true b bd (landed rq s)).
  assert (Hout : forall b', outstanding b' s2 = outstanding b' s - (if decide (b' = b) then 1 else 0)).
  { intros b'. rewrite (landed_outstanding s s2 rq b'), Hown by done. repeat case_decide; congruence. }
  assert (Hw2 : work_inv None [] s2).
  { apply (taken_back_work s rq s2); auto.
    - intros q. simpl. unfold one_less. destruct (decide (q = b)) as [->|Hne]; [by eexists |].
      destruct (one_loop_work bd =? 1); [by rewrite lookup_delete_ne | by rewrite lookup_insert_ne].
    - by eapply (batches_return b bd s). }
  pose proof (landed_data rq s Hi) as Hi1.
  split; [split; auto; apply data_inv_ad; auto; try apply Hi1; by destruct Hi1 |].
  split; [done |]. split; [done |]. left. exists b. split; [done |]. split.
  - apply history_one. split_and!; [done | done | by apply completed_running | done].
  - apply (batch_after_dec true b bd); auto. rewrite Hout. by rewrite decide_True.
Qed.

Lemma complete_request_run s rq :
  afq_inv s -> rq ∈ dispatch_list s ->
  exists s', basic_sched_complte_request rq (taken_back rq s) = Ok (tt, s') /\ afq_inv s' /\
    q_sched_uniq s' = q_sched_uniq s /\ kinds s' = kinds s /\ completed rq s s'.
Proof.
  intros Hinv Hrq. pose proof Hinv as [Hi Hc Hw Hl].
  destruct (wi_list _ _ _ Hw rq Hrq) as [d [(r & Hr & Hd) _]].
  assert (Hown : rq_owner s rq = r_owner_batch d) by (unfold rq_owner; by rewrite Hr, Hd).
  unfold basic_sched_complte_request, upd_ad, modify. erewrite (bind_ok (fun s => Ok (tt, _))) by done.
  change ((taken_back rq s) <| ad ::= _ |>) with (landed rq s).
  rewrite (bind_ok _ _ _ d (landed rq s)) by (unfold get_desc; simpl; by rewrite Hr, Hd).
  destruct (r_owner_batch d) as [b|]; [by apply complete_in_batch |].
  exists (landed rq s). split; [done |].
  assert (Hw1 : work_inv None [] (landed rq s)).
  { apply (taken_back_work s rq); auto. intros b'. pose proof (wi_batches _ _ _ Hw b') as Hb'.
    unfold batch_ok in *. rewrite (landed_outstanding s _ rq b'), Hown, decide_False, Z.sub_0_r by done. done. }
  split; [split; auto; by apply landed_data |]. split; [done |]. split; [done |]. right. split; [done |].
  apply history_one. split_and!; [done | | | done].
  - intros b w. change (runs_in (landed rq s) b w <-> runs_in s b w).
    rewrite (completed_running s _ rq) by done. split; [tauto |].
    intros Hx. split; [done |]. intros ->. destruct Hx as [_ Hx]. congruence.
  - intros b [_ Hx]. congruence.
Qed.

(** ** Setting a request up and putting it *)

(** The two private pointers of a request change. *)
Lemma private_run {A} (m : ST rq_state A) s rq r a k d c :
  afq_inv s -> rqs s !! rq = Some r -> absent s rq ->
  m (RqState (kern s) (rq_desc r) (RQ_CAUSES r)) = Ok (a, RqState k d c) ->
  env_wf k (rqs s) -> (forall p, c = Some p -> is_Some (k_causes k !! p)) ->
  w_alloc (k_world k) = w_alloc (k_world (kern s)) ->
  exists s', on_private rq m s = Ok (a, s') /\ afq_inv s' /\ q_sched_uniq s' = q_sched_uniq s /\
    kinds s' = kinds s /\ history [] (abs s) (abs s') /\ absent s' rq /\
    rqs s' = <[rq := r <| rq_desc := d |> <| RQ_CAUSES := c |>]> (rqs s).
Proof.
  intros Hinv Hr Ha E He Hc Hal. set (r' := r <| rq_desc := d |> <| RQ_CAUSES := c |>).
  exists (s <| kern := k |> <| rqs := <[rq := r']> (rqs s) |>). split.
  { unfold on_private. rewrite (bind_ok _ _ s r s) by (unfold get_rq; by rewrite Hr).
    unfold zoom. rewrite E. do 2 f_equal. unfold upd, update_field. simpl. f_equal.
    apply map_eq. intros i. rewrite lookup_alter, lookup_insert. case_decide; [subst; by rewrite Hr | done]. }
  destruct (afq_inv_rqs s k (<[rq := r']> (rqs s)) Hinv) as [Hi' P].
  { by apply (env_wf_tag _ _ _ r). }
  { intros n. rewrite Hal. apply Hinv. }
  { intros q Hq. rewrite lookup_insert_ne; [done |]. intros ->. destruct Ha. tauto. }
  split_and!; auto. by apply history_nil.
Qed.

Lemma set_request_run_afq s q rq r :
  afq_inv s -> rqs s !! rq = Some r -> absent s rq ->
  exists s' r' d, basic_sched_set_request q rq s = Ok (0, s') /\ afq_inv s' /\
    q_sched_uniq s' = q_sched_uniq s /\ kinds s' = kinds s /\ history [] (abs s) (abs s') /\
    fresh_req s' rq r' d /\ absent s' rq /\ rq_write r' = rq_write r.
Proof.
  intros Hinv Hr Ha. pose proof (inv_data _ Hinv) as Hi.
  set (k1 := (kern s) <| k_world ::= alloc_step |>).
  assert (He1 : env_wf k1 (rqs s)) by (eapply env_wf_same; [apply Hi | by split]).
  destruct (new_cause_list_total k1) as (c & k2 & E2).
  destruct (new_cause_list_env _ _ _ _ He1 E2) as (He2 & Hdom & Hc & Hal).
  set (d := ReqDesc None (IoWork (if rq_write r then SCHED_WRITE_REQ else SCHED_READ_REQ) 0) rq q None).
  destruct (private_run (split_set_request q rq (rq_write r)) s rq r 0 k2 (Some d) c Hinv Hr Ha)
    as (s' & E & Hi' & U & Kd & H & Ha' & Er); auto.
  { unfold split_set_request.
    rewrite (bind_ok _ _ _ (inl d) (RqState k1 (rq_desc r) (RQ_CAUSES r))).
    2: { unfold get_req_desc, in_rs, in_world, zoom, bind, kmalloc. simpl. by rewrite (di_alloc _ Hi). }
    unfold modify. erewrite (bind_ok (fun s => Ok (tt, _))) by done.
    by erewrite bind_ok by (unfold in_rs, zoom; simpl; rewrite E2; done). }
  exists s', (r <| rq_desc := Some d |> <| RQ_CAUSES := c |>), d. split.
  { unfold basic_sched_set_request. by rewrite (bind_ok _ _ s r s) by (unfold get_rq; by rewrite Hr). }
  split_and!; auto. split; auto. by rewrite Er, lookup_insert_eq.
Qed.

Lemma put_request_run_afq s rq r :
  afq_inv s -> rqs s !! rq = Some r -> absent s rq ->
  exists s', basic_sched_put_request rq s = Ok (tt, s') /\ afq_inv s' /\
    q_sched_uniq s' = q_sched_uniq s /\ kinds s' = kinds s /\ history [] (abs s) (abs s') /\
    rq_desc <$> rqs s' !! rq = Some None.
Proof.
  intros Hinv Hr Ha. pose proof (inv_data _ Hinv) as Hi.
  set (k1 := (kern s) <| k_world ::= alloc_step |> <| k_works ::= fun l => l ++ [RQ_CAUSES r] |>).
  assert (He1 : env_wf k1 (rqs s)) by (eapply env_wf_same; [apply Hi | by split]).
  destruct (private_run split_put_request s rq r tt k1 None (RQ_CAUSES r) Hinv Hr Ha)
    as (s' & E & Hi' & U & Kd & H & Ha' & Er); auto.
  { unfold split_put_request, put_cause_list_safe, in_rs, in_world, zoom, bind, kmalloc, modify, gets. simpl.
    by rewrite (di_alloc _ Hi). }
  { apply (ew_rqs _ _ He1 rq r Hr). }
  exists s'. split_and!; auto. by rewrite Er, lookup_insert_eq.
Qed.

(** ** Timers *)

Lemma inv_ad_state s s' :
  afq_inv s -> s' = s <| ad := ad s' |> -> ad_accts (ad s') = ad_accts (ad s) ->
  active_acct_list (ad s') = active_acct_list (ad s) ->
  last_served_acct (ad s') = last_served_acct (ad s) -> lock (ad s') = false ->
  global_min_vio_counter2 (ad s') = global_min_vio_counter2 (ad s) ->
  ad_sim_batch (ad s') = ad_sim_batch (ad s) -> prio_served_rqs (ad s') = prio_served_rqs (ad s) ->
  caust_count_dist (ad s') = caust_count_dist (ad s) -> journal_cct (ad s') = journal_cct (ad s) ->
  afq_inv s' /\ q_sched_uniq s' = q_sched_uniq s /\ kinds s' = kinds s /\ history [] (abs s) (abs s').
Proof.
  intros Hi E H1 H2. intros. split; [rewrite E; by apply inv_ad |].
  split; [by rewrite E |]. split; [unfold kinds; by rewrite E |].
  apply history_nil, same_works_pool. split; try (by rewrite E).
  intros p. unfold works_of, heap. by rewrite H1.
Qed.

(** The timers only change when the next batch may start. *)
Lemma wait_timer_run s :
  afq_inv s ->
  exists s', new_batch_wait_timer_func s = Ok (tt, s') /\ afq_inv s' /\
    q_sched_uniq s' = q_sched_uniq s /\ kinds s' = kinds s /\ history [] (abs s) (abs s') /\
    keep_wait (ad s') = (if keep_wait (ad s) =? NO_NEW_BATCH then KEEP_IN_FLIGHT else keep_wait (ad s)).
Proof.
  intros Hinv. unfold new_batch_wait_timer_func, upd_ad, modify. erewrite (bind_ok (fun s => Ok (tt, _))) by done.
  erewrite bind_ok by (apply spin_lock_run, Hinv).
  erewrite (bind_ok (gets _)) by done. cbn [ad set_lock upd update_field keep_wait].
  destruct (keep_wait (ad s) =? NO_NEW_BATCH) eqn:E;
    (erewrite bind_ok by done; unfold spin_unlock, upd_ad, modify; eexists; split; [done |]);
    match goal with |- afq_inv ?x /\ _ => destruct (inv_ad_state s x) as (G1 & G2 & G3 & G4) end; auto.
Qed.

Lemma dead_timer_run s :
  afq_inv s ->
  exists s', batch_dead_timer_func s = Ok (tt, s') /\ afq_inv s' /\
    q_sched_uniq s' = q_sched_uniq s /\ kinds s' = kinds s /\ history [] (abs s) (abs s') /\
    batch_dead (ad s') = 0.
Proof.
  intros Hinv. unfold batch_dead_timer_func, upd_ad, modify. erewrite (bind_ok (fun s => Ok (tt, _))) by done.
  erewrite bind_ok by (apply spin_lock_run, Hinv).
  erewrite (bind_ok (fun s => Ok (tt, _))) by done. unfold spin_unlock, upd_ad, modify.
  eexists. split; [done |].
  match goal with |- afq_inv ?x /\ _ => destruct (inv_ad_state s x) as (G1 & G2 & G3 & G4) end; auto.
Qed.

End Requests.
