(* ===== verification/AfqRuns.v ===== *)
(** * Actually fair queuing: runs

    A run starts with [basic_sched_init_data] and goes on with calls of the handlers,
    the hooks, the timers and turns of the two threads, in any order, and with
    anything the rest of the kernel does in between that keeps its own promises.  In
    no run does a handler fault, and every handler implements a few acts of the pool. *)

From S2P Require Import Prelude Keeps CInt Kernel DiskSim IoBatch HashTable CauseTags Tags Jiffies.
From S2P Require Import SplitAccount SplitSched IoctlHelper Registry Afq AfqOps AfqInv AfqVio AfqAccount AfqHooks.
From S2P Require Import AfqWorks AfqSelect AfqSubmit AfqPool AfqCalls AfqRequests.

(** The entry points of the scheduler, but for setting up and tearing down, which begin and end a run (see [alive] below);
    [RunQueue] and [UpdateMin] are turns of the threads. *)
Inductive handler :=
  | Dispatch (force : bool)
  | RunQueue
  | UpdateMin
  | SetRequest (q rq : ptr)
  | PutRequest (rq : ptr)
  | MergedRequests (rq next : ptr)
  | AddRequest (cur : Z) (rq : ptr)
  | CompletedRequest (rq : ptr)
  | WriteEntry (cur : Z) (file : ptr) (o_direct : bool) (count pos sched_uniq : Z)
  | WriteReturn (opaque : option ptr) (sched_uniq : Z)
  | MkdirEntry (cur : Z) (dir dentry : ptr) (mode sched_uniq : Z)
  | MkdirReturn (opaque : option ptr) (sched_uniq : Z)
  | FsyncEntry (cur : Z) (file : ptr) (datasync sched_uniq : Z)
  | FsyncReturn (opaque : option ptr) (sched_uniq : Z)
  | CausesDirty (causes : ptr) (new_id : Z) (inode : ptr) (pos : Z)
  | CausesFree (causes : ptr)
  | KvSet (id : Z) (key : string) (val : Z)
  | WaitTimer
  | DeadTimer.

Section Runs.
Context {K : KernelFns} {KO : KernelOk K} {J : JiffyFns} {D : Driver}.

(** The device hands a request back as it is completed. *)
Definition run_handler (h : handler) : ST afq unit :=
  match h with
  | Dispatch force => basic_sched_dispatch force;; ret tt
  | RunQueue => __blk_run_queue
  | UpdateMin => update_active_min
  | SetRequest q rq => basic_sched_set_request q rq;; ret tt
  | PutRequest rq => basic_sched_put_request rq
  | MergedRequests rq next => basic_sched_merged_request rq next
  | AddRequest cur rq => basic_sched_add_request cur rq
  | CompletedRequest rq => modify (taken_back rq);; basic_sched_complte_request rq
  | WriteEntry cur file o_direct count pos uniq =>
      basic_sched_write_entry cur file o_direct count pos uniq;; ret tt
  | WriteReturn opaque uniq => basic_sched_write_return opaque uniq
  | MkdirEntry cur dir dentry mode uniq => basic_sched_mkdir_entry cur dir dentry mode uniq;; ret tt
  | MkdirReturn opaque uniq => basic_sched_mkdir_return opaque uniq
  | FsyncEntry cur file datasync uniq => basic_sched_fsync_entry cur file datasync uniq;; ret tt
  | FsyncReturn opaque uniq => basic_sched_fsync_return opaque uniq
  | CausesDirty causes new_id inode pos => basic_sched_causes_dirty causes new_id inode pos
  | CausesFree causes => basic_sched_causes_free causes
  | KvSet id key val => basic_kv_set_callback id key val
  | WaitTimer => new_batch_wait_timer_func
  | DeadTimer => batch_dead_timer_func
  end.

(** A descriptor that an entry hook of this kind left, and that was completed. *)
Definition returns (kind : io_type) (opaque : option ptr) (s : afq) : Prop :=
  forall p, opaque = Some p ->
  exists c, calls s !! p = Some c /\ c_done c = true /\ call_type (c_desc c) = kind.

(** What the kernel promises of its arguments when it calls a handler, and the administrator of settings; requests are
    never merged, because that hook is a BUG_ON. *)
Definition callable (h : handler) (s : afq) : Prop :=
  match h with
  | SetRequest _ rq | PutRequest rq => is_Some (rqs s !! rq) /\ absent s rq
  | MergedRequests _ _ => False
  | AddRequest _ rq => exists r d, fresh_req s rq r d /\ absent s rq /\ (rq_write r = true -> counts_ok r s)
  | CompletedRequest rq => rq ∈ dispatch_list s
  | WriteEntry _ _ _ _ _ uniq => uniq = q_sched_uniq s
  | WriteReturn opaque _ => returns SCHED_SYS_WRITE opaque s
  | MkdirReturn opaque _ => returns SCHED_SYS_MKDIR opaque s
  | FsyncReturn opaque _ => returns SCHED_SYS_FSYNC opaque s
  | CausesDirty causes _ inode _ => has_causes causes s /\ is_Some (inodes s !! inode)
  | CausesFree causes => has_causes causes s
  | KvSet _ key val => setting_ok key val
  | WaitTimer => batch_wait_timer (ad s) <> None
  | DeadTimer => batch_dead_timer (ad s) <> None
  | Dispatch _ | RunQueue | UpdateMin | MkdirEntry _ _ _ _ _ | FsyncEntry _ _ _ _ => True
  end.

(** What the rest of the kernel may do in between: anything but touch the
    scheduler's data, as long as tags and requests stay in order, the requests the
    scheduler has keep their descriptors, and there is memory. *)
Record kernel_step (s s' : afq) : Prop := {
  ks_ad : ad s' = ad s;
  ks_calls : calls s' = calls s;
  ks_batches : batches s' = batches s;
  ks_next : next_desc s' = next_desc s;
  ks_list : dispatch_list s' = dispatch_list s;
  ks_uniq : q_sched_uniq s' = q_sched_uniq s;
  ks_env : env_wf (kern s') (rqs s');
  ks_alloc : forall n, w_alloc (k_world (kern s')) n = true;
  ks_rqs : forall rq, rq ∈ dispatch_list s \/ OfReq rq ∈ pending s ->
    rq_desc <$> rqs s' !! rq = rq_desc <$> rqs s !! rq;
}.

Inductive reachable : afq -> Prop :=
  | reach_init s q disks d disks' w' :
      env_wf (kern s) (rqs s) -> (forall n, w_alloc (k_world (kern s)) n = true) ->
      calls s = ∅ -> batches s = ∅ -> dispatch_list s = [] ->
      basic_sched_init_data true true q disks (k_world (kern s)) = Ok ((0, Some d, disks'), w') ->
      reachable (s <| kern ::= fun k => k <| k_world := w' |> |> <| ad := d |>)
  | reach_kernel s s' : reachable s -> kernel_step s s' -> reachable s'
  | reach_handler h s s' :
      reachable s -> callable h s -> run_handler h s = Ok (tt, s') -> reachable s'.

(** ** Setting up *)

(** How setting up ends: with an empty scheduler and the disk registered, or, if
    memory is short or a thread cannot be made, with an error and nothing. *)
Lemma init_data_run ok1 ok2 q disks w :
  exists rv o disks' w', basic_sched_init_data ok1 ok2 q disks w = Ok ((rv, o, disks'), w') /\
    w_alloc w' = w_alloc w /\
    match o with
    | Some d => rv = 0 /\ disks' = snd (ioctl_helper_register_disk (w_alloc w' (pred (w_nalloc w'))) disks q) /\
        d = {| ad_accts := init_acct_hash (AcctHash [] []); active_acct_list := [];
               min_acct := None; global_min_vio_counter := MAX_VIO_COUNTER_THRESHOLD;
               global_min_vio_counter2 := MAX_VIO_COUNTER_THRESHOLD;
               last_served_acct := None; lock := false; keep_wait := ALLOW_NEW_BATCH;
               batch_dead := 0; inflight := 0; ad_sim_batch := ad_sim_batch d;
               batch_wait_timer := None; batch_dead_timer := None; disk_full_count := 0;
               prio_served_rqs := replicate (Z.to_nat IOPRIO_BE_NR) 0;
               caust_count_dist := replicate (Z.to_nat MAX_CAUSE_COUNT) 0;
               journal_cct := replicate (Z.to_nat MAX_CAUSE_COUNT) 0 |} /\
        batch_wf (ad_sim_batch d) /\ batch_fullb (ad_sim_batch d) = false
    | None => rv = - ENOMEM /\ disks' = disks /\
        (ok1 = false \/ ok2 = false \/ exists n, w_alloc w n = false)
    end.
Proof.
  unfold basic_sched_init_data, sim_batch_new, bind, kmalloc, gets, ret.
  cbn -[iobatch_new junk_reqs init_acct_hash ioctl_helper_register_disk replicate BATCH_SIZE].
  destruct (w_alloc w (w_nalloc w)) eqn:E1; cbn -[iobatch_new junk_reqs init_acct_hash ioctl_helper_register_disk replicate BATCH_SIZE]; [|eexists _, None, _, _; split; [done |]; eauto 10].
  destruct (w_alloc w (S (w_nalloc w))) eqn:E2; cbn -[iobatch_new junk_reqs init_acct_hash ioctl_helper_register_disk replicate BATCH_SIZE]; [|eexists _, None, _, _; split; [done |]; eauto 10].
  destruct (w_alloc w (S (S (w_nalloc w)))) eqn:E3; [|eexists _, None, _, _; split; [done |]; eauto 10].
  destruct (w_alloc w (S (S (S (w_nalloc w))))) eqn:E4; [|eexists _, None, _, _; split; [done |]; eauto 10].
  match goal with |- context [iobatch_new true true ?j _ _] =>
    destruct (iobatch_new_wf j BATCH_SIZE BATCH_BYTE_CAP) as (b & Hb & Hbw & Hbf); [done | done | done |] end.
  rewrite Hb. destruct ok1, ok2; cbn [negb orb]; try (eexists _, None, _, _; split; [done |]; by eauto 10).
  eexists _, (Some _), _, _. split; [done |]. split; [done |]. split; [done |]. by split.
Qed.

Lemma afq_init_inv s q disks d disks' w' :
  env_wf (kern s) (rqs s) -> (forall n, w_alloc (k_world (kern s)) n = true) ->
  calls s = ∅ -> batches s = ∅ -> dispatch_list s = [] ->
  basic_sched_init_data true true q disks (k_world (kern s)) = Ok ((0, Some d, disks'), w') ->
  afq_inv (s <| kern ::= fun k => k <| k_world := w' |> |> <| ad := d |>).
Proof.
  intros He Ha Hc Hb Hl Hinit.
  destruct (init_data_run true true q disks (k_world (kern s))) as (rv & o & d' & w & E & Ew & Ho).
  rewrite Hinit in E. injection E as <- <- <- <-. destruct Ho as (_ & _ & Ed & Hbw & Hbf).
  set (s' := s <| kern ::= _ |> <| ad := d |>).
  assert (Hh : heap s' = []) by (unfold heap; simpl; by rewrite Ed).
  assert (Hp : pending s' = []) by (unfold pending; simpl; by rewrite Ed).
  assert (Hwk : forall p, works_of s' p = []) by (intros p; unfold works_of; by rewrite Hh).
  assert (Hou : forall b, outstanding b s' = 0).
  { intros b. unfold outstanding, calls_of, reqs_of. simpl. rewrite Hc, Hl. done. }
  split.
  - split; try done; try (simpl; by rewrite Ed).
    + simpl. rewrite Ed. apply accts_wf_init.
    + by rewrite Hh.
    + eapply env_wf_same; [exact He | by split].
    + simpl. by rewrite Ew.
  - split; [split; [by rewrite Hh | simpl; by rewrite Ed] |]. intros _. split; [done | by rewrite Hh].
  - split; rewrite ?Hp; simpl; rewrite ?Hl, ?Hb, ?Hc.
    + rewrite Ed. constructor.
    + intros p. rewrite Hwk. rewrite Ed. split; [by intros ?%elem_of_nil | done].
    + constructor.
    + by intros ? ?%elem_of_nil.
    + by intros p c.
    + constructor.
    + by intros ? ?%elem_of_nil.
    + intros b. unfold batch_ok. rewrite Hou. simpl. by rewrite Hb.
    + intros p [[? ?]|[? ?]]; done.
  - simpl. by rewrite Ed.
Qed.

(** ** What a handler does to the pool *)

(** The specification: which acts each handler may perform, given the accounts there
    are when it is called. *)
Definition allowed (h : handler) (accts : list account) (acts : list act) : Prop :=
  match h with
  | Dispatch _ => Forall is_grant acts /\ (length acts <= 1)%nat
  | RunQueue => Forall is_grant acts
  | AddRequest cur rq =>
      acts = [Direct rq] \/ exists p, caller_of accts cur p /\ acts = [Enqueue p (OfReq rq)]
  | CompletedRequest rq => acts = [Finish rq] \/ exists b, acts = [Return b (OfReq rq)]
  | WriteEntry cur _ _ _ _ _ | MkdirEntry cur _ _ _ _ | FsyncEntry cur _ _ _ =>
      acts = [] \/ exists p desc l, caller_of accts cur p /\ acts = Enqueue p (OfCall desc) :: l /\ Forall is_grant l
  | WriteReturn (Some p) _ | MkdirReturn (Some p) _ | FsyncReturn (Some p) _ =>
      exists b, acts = [Return b (OfCall p)]
  | _ => acts = []
  end.

Definition handles (h : handler) (s : afq) : Prop :=
  exists s' acts, run_handler h s = Ok (tt, s') /\ afq_inv s' /\
    history acts (abs s) (abs s') /\ allowed h (heap s) acts.

Lemma drop_run {A} (m : ST afq A) s a s' : m s = Ok (a, s') -> (m;; ret tt) s = Ok (tt, s').
Proof. intros E. by rewrite (bind_ok _ _ _ _ _ E). Qed.

Lemma quiet_handles h P Q s :
  quiet P (run_handler h) Q -> afq_inv s -> P s -> allowed h (heap s) [] -> handles h s.
Proof.
  intros Hq Hi HP Ha. destruct (Hq s Hi HP) as ([] & s' & E & Hi' & F & _).
  exists s', []. split_and!; auto. by apply history_nil, frame_pool.
Qed.

Lemma enters_handles h kind cur m s :
  run_handler h = (m;; ret tt) -> enters kind cur m s ->
  (forall acts, acts = [] \/ (exists p desc l, caller_of (heap s) cur p /\ acts = Enqueue p (OfCall desc) :: l /\
     Forall is_grant l) -> allowed h (heap s) acts) -> handles h s.
Proof.
  intros Eh (r & s' & E & Hi' & U & He) Ha. unfold handles. rewrite Eh, (drop_run _ _ _ _ E).
  destruct r as [rv o|desc]; simpl in He.
  - exists s', []. split; [done |]. split; [done |]. split; [apply He |]. apply Ha. by left.
  - destruct He as (_ & _ & p & acts & Hc & H & G). exists s', (Enqueue p (OfCall desc) :: acts).
    split_and!; auto. apply Ha. right. by exists p, desc, acts.
Qed.

Lemma leaves_handles h kind uniq m opaque s :
  leaves m kind uniq -> returns kind opaque s -> afq_inv s ->
  run_handler h = (match opaque with Some p => m p | None => ret tt end) ->
  (forall acts, match opaque with Some p => exists b, acts = [Return b (OfCall p)] | None => acts = [] end ->
     allowed h (heap s) acts) -> handles h s.
Proof.
  intros Hm Hr Hi Eh Ha. unfold handles. rewrite Eh. destruct opaque as [p|].
  - destruct (Hr p eq_refl) as (c & Hc & Hd & Hk).
    destruct (Hm s p c Hi Hc Hd Hk) as (s' & E & Hi' & _ & b & _ & H & _).
    exists s', [Return b (OfCall p)]. split_and!; auto. apply Ha. by exists b.
  - exists s, []. split_and!; auto. by apply history_nil.
Qed.

Lemma afq_handler_run h s : afq_inv s -> callable h s -> handles h s.
Proof.
  intros Hi Hc. destruct h; simpl in Hc; try by destruct Hc.
  - destruct (dispatch_run_afq s force Hi) as (rv & s' & E & Hi' & U & [(-> & F & _)|(-> & rs & B)]).
    + exists s', []. split_and!; try done; [by apply (drop_run _ _ _ _ E) | by apply history_nil, frame_pool |].
      split; [constructor | simpl; lia].
    + exists s', [Grant (next_desc s) rs]. split_and!; try done; [by apply (drop_run _ _ _ _ E) | |].
      * by apply history_one, batch_step_grant.
      * split; [by repeat constructor | simpl; lia].
  - destruct (run_queue_run s Hi) as (s' & acts & E & Hi' & _ & _ & H & G). by exists s', acts.
  - eapply (quiet_handles _ (fun _ => True) (fun _ _ => True)); [|done..]. apply keeps_quiet.
    eapply keeps_conseq; [apply keeps_update_min | by intros s' [] | by intros ? s' H].
  - destruct Hc as [[r Hr] Ha].
    destruct (set_request_run_afq s q rq r Hi Hr Ha) as (s' & r' & d & E & Hi' & _ & _ & H & _).
    exists s', []. split_and!; try done. by apply (drop_run _ _ _ _ E).
  - destruct Hc as [[r Hr] Ha].
    destruct (put_request_run_afq s rq r Hi Hr Ha) as (s' & E & Hi' & _ & _ & H & _). by exists s', [].
  - destruct Hc as (r & d & Hf & Ha & Hcn).
    destruct (afq_add_request_run s cur rq r d Hi Hf Ha Hcn) as (s' & E & Hi' & _ & _ & [H|(_ & p & Hcl & H)]).
    + exists s', [Direct rq]. split_and!; try done. by left.
    + exists s', [Enqueue p (OfReq rq)]. split_and!; try done. right. eauto.
  - destruct (complete_request_run s rq Hi Hc) as (s' & E & Hi' & _ & _ & [(b & _ & H & _)|[_ H]]).
    + exists s', [Return b (OfReq rq)]. split_and!; try done. right. eauto.
    + exists s', [Finish rq]. split_and!; try done. by left.
  - subst sched_uniq. by eapply enters_handles; [done | apply write_entry_run |].
  - eapply (leaves_handles _ _ _ _ opaque); [apply (write_return_run sched_uniq) | done | done | |];
      by destruct opaque.
  - by eapply enters_handles; [done | apply mkdir_entry_run |].
  - eapply (leaves_handles _ _ _ _ opaque); [apply (mkdir_return_run sched_uniq) | done | done | |];
      by destruct opaque.
  - by eapply enters_handles; [done | apply fsync_entry_run |].
  - eapply (leaves_handles _ _ _ _ opaque); [apply (fsync_return_run sched_uniq) | done | done | |];
      by destruct opaque.
  - eapply (quiet_handles _ (fun s => has_causes causes s /\ is_Some (inodes s !! inode)) (fun _ _ => True)); [|done..].
    apply keeps_quiet. eapply keeps_conseq; [apply keeps_dirty | done | by intros ? s' H].
  - eapply (quiet_handles _ (has_causes causes) (fun _ _ => True)); [|done..].
    apply keeps_quiet. eapply keeps_conseq; [apply keeps_free | done | by intros ? s' H].
  - destruct (kv_set_run s id key val Hi Hc) as (s' & E & Hi' & S & _). exists s', []. split_and!; try done.
    by apply history_nil, same_works_pool.
  - destruct (wait_timer_run s Hi) as (s' & E & Hi' & _ & _ & H & _). by exists s', [].
  - destruct (dead_timer_run s Hi) as (s' & E & Hi' & _ & _ & H & _). by exists s', [].
Qed.

Lemma afq_kernel_step_inv s s' : afq_inv s -> kernel_step s s' -> afq_inv s'.
Proof.
  intros Hi [E1 E2 E3 E4 E5 E6 He Ha Hr].
  destruct (afq_inv_rqs s (kern s') (rqs s') Hi He Ha Hr) as [[G1 G2 G3 G4] _].
  assert (Eh : heap s' = heap s) by (unfold heap; by rewrite E1). split.
  - destruct G1. split; rewrite ?Eh, ?E1; auto.
  - destruct G2 as [[V1 V2] R]. split; [split; [by rewrite Eh | by rewrite E1] |].
    intros Hf. destruct (R Hf) as [R1 R2]. split; [by rewrite E1 | by rewrite Eh].
  - eapply same_works_inv; [|exact G3]. split; try done; [by rewrite E1 |].
    intros p. unfold works_of. by rewrite Eh.
  - by rewrite E1.
Qed.

Lemma reachable_afq_inv s : reachable s -> afq_inv s.
Proof.
  induction 1 as [s q disks d disks' w' He Ha Hc Hb Hl Hinit|s s' _ IH Hk|h s s' _ IH Hc Hrun].
  - by eapply afq_init_inv.
  - by eapply afq_kernel_step_inv.
  - destruct (afq_handler_run h s IH Hc) as (s2 & acts & E & Hi' & _). congruence.
Qed.

(** ** The life of the scheduler of a queue, with the registry of disks *)

(** There is memory, so that the disk is registered. *)
Definition starts (q : ptr) (disks : disk_list) (reg : bool) (s' : afq) (disks' : disk_list) : Prop :=
  reg = true /\ exists s d w', env_wf (kern s) (rqs s) /\ (forall n, w_alloc (k_world (kern s)) n = true) /\
    calls s = ∅ /\ batches s = ∅ /\ dispatch_list s = [] /\
    basic_sched_init_data true true q disks (k_world (kern s)) = Ok ((0, Some d, disks'), w') /\
    s' = s <| kern ::= fun k => k <| k_world := w' |> |> <| ad := d |>.
Definition moves (s s' : afq) : Prop :=
  kernel_step s s' \/ exists h, callable h s /\ run_handler h s = Ok (tt, s').
Definition alive (q : ptr) : afq -> disk_list -> Prop := life q (starts q) moves true.

Lemma afq_alive_reachable q s disks : alive q s disks -> reachable s.
Proof.
  apply (life_keeps q (starts q) moves reachable).
  - intros ds r x ds' (_ & s0 & d & w & He & Ha & Hc & Hb & Hl & E & ->). by eapply reach_init.
  - intros x x' Hx [Hk|(h & Hc & E)]; [by eapply reach_kernel | by eapply reach_handler].
Qed.

Lemma afq_init_registers q w disks d disks' w' :
  (forall n, w_alloc w n = true) -> basic_sched_init_data true true q disks w = Ok ((0, Some d, disks'), w') ->
  disks' = snd (ioctl_helper_register_disk true disks q).
Proof.
  intros Ha E. destruct (init_data_run true true q disks w) as (rv & o & d1 & w1 & E1 & Ew & Ho). rewrite E in E1.
  injection E1 as <- <- <- <-. destruct Ho as (_ & -> & _). by rewrite Ew, Ha.
Qed.

Lemma afq_starts_registers q disks reg s disks' :
  starts q disks reg s disks' -> disks' = snd (ioctl_helper_register_disk reg disks q).
Proof. intros (-> & s0 & d & w & _ & Ha & _ & _ & _ & E & _). by eapply afq_init_registers. Qed.

Lemma afq_exit_run q d disks :
  (exists disks', ioctl_helper_unregister_disk disks q = Ok disks' /\ q ∉ disks') ->
  exists d' disks', basic_sched_exit_data q d disks = Ok (d', disks') /\ q ∉ disks'.
Proof. intros (disks' & E & Hn). unfold basic_sched_exit_data. rewrite E. by eexists _, disks'. Qed.

(** C5: the scheduler does not crash the kernel as long as it is used with care.  In every run in which no allocation
    fails, the ioctl sets [ioprio] to 0 to 8 and [vio_counter] to no more than the threshold only, and the write hook gets the
    current number of the scheduler ([callable]), from [basic_sched_init_data] on and whatever the rest of the kernel does in
    between, each handler, timer and turn of a thread that is called returns: no NULL
    pointer or freed descriptor is dereferenced, no descriptor is taken for one of
    another type, no array is accessed out of bounds, the spin lock is not taken
    twice, and no loop runs for ever; and the state stays well formed.  [basic_sched_exit_data] returns and takes the disk
    out of the registry.  The hook for merged requests is not to be called: it always hits its BUG_ON. *)
Theorem afq_no_fault q s disks :
  alive q s disks ->
  (forall h, callable h s -> exists s', run_handler h s = Ok (tt, s') /\ alive q s' disks /\ afq_inv s') /\
  (exists d' disks', basic_sched_exit_data q (ad s) disks = Ok (d', disks') /\ q ∉ disks') /\
  (forall rq next, run_handler (MergedRequests rq next) s = Fault (BUG 511)).
Proof.
  intros Ha. split; [|split; [|done]].
  - intros h Hc. destruct (afq_handler_run h s (reachable_afq_inv s (afq_alive_reachable _ _ _ Ha)) Hc) as (s' & acts & E & Hi' & _).
    exists s'. split_and!; auto. eapply life_step; [exact Ha |]. right. by exists h.
  - apply afq_exit_run, (life_unregister q (starts q) moves (afq_starts_registers q) true s disks Ha).
Qed.

(** C7: the scheduler implements a pool of works: an entry hook queues at most one
    work, at the end of the queue of the caller's account; a batch takes works
    from the fronts of queues only, and from then on exactly these run in it; a
    request goes to the device directly or waits on the queue of its account; a work
    that returns leaves its batch; and all else leaves the pool as it is. *)
Theorem afq_refines_pool s h :
  reachable s -> callable h s ->
  exists s' acts, run_handler h s = Ok (tt, s') /\ history acts (abs s) (abs s') /\ allowed h (heap s) acts.
Proof.
  intros Hr Hc. destruct (afq_handler_run h s (reachable_afq_inv s Hr) Hc) as (s' & acts & E & _ & H & Ha). eauto.
Qed.

(** ** Invariants of a run *)

(** The cast that the tag of an [io_work] selects finds a descriptor of that type. *)
Definition cast_ok (s : afq) (w : io_ref) : Prop :=
  exists io, get_io_work 670 w s = Ok (io, s) /\
  match iow_type io with
  | SCHED_SYS_WRITE => exists x, WR_IO 683 w s = Ok (x, s)
  | SCHED_SYS_FSYNC => exists x, FSYNC_IO 673 w s = Ok (x, s)
  | SCHED_SYS_MKDIR => exists x, MKDIR_IO 693 w s = Ok (x, s)
  | SCHED_READ_REQ => exists x, REQ_IO 703 w s = Ok (x, s)
  | SCHED_WRITE_REQ => False
  end.

(** C25: the tagged union of works is used well: in every run, the tag of each work on
    the list of an account names the type of the descriptor that the work is embedded
    in, so that the [container_of] of that type finds it; no write request ever
    waits. *)
Theorem afq_works_typed s p w : reachable s -> w ∈ works_of s p -> cast_ok s w.
Proof.
  intros Hr Hw. pose proof (inv_work _ (reachable_afq_inv s Hr)) as Hi.
  pose proof (pending_elem _ _ _ _ _ Hi Hw) as Hp.
  pose proof (wi_waiting _ _ _ Hi w) as Hwt. rewrite app_nil_r in Hwt. specialize (Hwt Hp).
  unfold cast_ok. destruct w as [q|rq]; cbn [get_io_work].
  - destruct Hwt as (c & Hc & _). destruct (wi_calls _ _ _ Hi q c Hc) as [Ht _].
    exists (call_work (c_desc c)). unfold WR_IO, FSYNC_IO, MKDIR_IO, bind, get_call. rewrite Hc.
    split; [done |]. rewrite Ht. destruct (c_desc c); by eexists.
  - destruct Hwt as [(d & [(r & Hrq & Hd) _] & Ht & _) _]. exists (r_io_work d).
    unfold REQ_IO, bind, get_desc. rewrite Hrq, Hd. split; [done |]. rewrite Ht. by eexists.
Qed.

Lemma flat_map_once {A B} (f : A -> list B) l x y w :
  NoDup (flat_map f l) -> x ∈ l -> y ∈ l -> w ∈ f x -> w ∈ f y -> x = y.
Proof.
  intros Hn Hx Hy Hwx Hwy. apply list_elem_of_split in Hx as (l1 & l2 & ->).
  rewrite flat_map_app in Hn. cbn [flat_map] in Hn.
  apply list.NoDup_app in Hn as (_ & H1 & Hn). apply list.NoDup_app in Hn as (_ & H2 & _).
  assert (Hin : forall l, y ∈ l -> w ∈ flat_map f l).
  { intros l Hl. apply list_elem_of_In, in_flat_map. exists y. by split; apply list_elem_of_In. }
  apply elem_of_app in Hy as [Hy|Hy].
  - exfalso. apply (H1 w (Hin _ Hy)). apply elem_of_app. by left.
  - apply elem_of_cons in Hy as [->|Hy]; [done |]. exfalso. apply (H2 w Hwx (Hin _ Hy)).
Qed.

(** C15: no system call is lost or doubled: in every run, a call that waits for its
    completion is on the list of exactly one account, once, and that account is
    active, so that it takes part in the choice; a call whose completion was signalled
    runs in exactly one batch, which is allocated and waits for it. *)
Theorem afq_call_in_one_place s desc c :
  reachable s -> calls s !! desc = Some c ->
  if c_done c
  then exists b, runs_in s b (OfCall desc) /\ is_Some (batches s !! b) /\
         (forall p, OfCall desc ∉ works_of s p)
  else exists p, OfCall desc ∈ works_of s p /\ p ∈ active_acct_list (ad s) /\ NoDup (works_of s p) /\
         (forall q, OfCall desc ∈ works_of s q -> q = p) /\ (forall b, ~ runs_in s b (OfCall desc)).
Proof.
  intros Hr Hc. pose proof (inv_work _ (reachable_afq_inv s Hr)) as Hi.
  pose proof (wi_nodup _ _ _ Hi) as Hnd. rewrite app_nil_r in Hnd.
  destruct (wi_calls _ _ _ Hi desc c Hc) as [_ Hd]. destruct (c_done c).
  - destruct Hd as [b Hb]. assert (Hrun : runs_in s b (OfCall desc)) by (by exists c).
    exists b. split; [done |]. split.
    + destruct (running_batch s b _ Hi Hrun) as (d & Hbd & _). by eexists.
    + intros p Hp. by apply (waiting_not_running s _ b Hi (pending_elem _ _ _ _ _ Hi Hp)).
  - destruct Hd as [Ho Hw]. rewrite app_nil_r in Hw. pose proof Hw as Hpend.
    unfold pending in Hw. apply list_elem_of_In, in_flat_map in Hw as (p & Hp & Hw).
    apply list_elem_of_In in Hp, Hw. exists p. split_and!; auto.
    + by destruct (active_has_acct _ _ _ _ Hi Hp) as (a & _ & _ & Hn & ->).
    + intros q Hq. eapply (flat_map_once (works_of s)); eauto.
      apply (wi_active _ _ _ Hi). intros E. rewrite E in Hq. by apply elem_of_nil in Hq.
    + intros b. by apply waiting_not_running.
Qed.

(** C26: the count that decides when a batch ends is right: in every run, the count of
    each allocated batch is the number of its works that have not returned, it is
    between 1 and [MAX_BATCH_SIZE], no work is left selected, and only allocated batches have
    works that run. *)
Theorem afq_batches_counted s b :
  reachable s ->
  match batches s !! b with
  | Some d => one_loop_work d = outstanding b s /\ 0 < one_loop_work d <= MAX_BATCH_SIZE /\ work_selected d = []
  | None => forall w, ~ runs_in s b w
  end.
Proof.
  intros Hr. pose proof (inv_work _ (reachable_afq_inv s Hr)) as Hi.
  destruct (batches s !! b) as [d|] eqn:Hd; [|intros w; by eapply not_running].
  pose proof (wi_batches _ _ _ Hi b) as Hb. unfold batch_ok in Hb. rewrite Hd, decide_False in Hb by done.
  destruct Hb as (H1 & H2 & H3). by rewrite H1.
Qed.

(** ** Progress *)

(** The scheduler keeps the disk idle for the account it served last, which is
    sequential and has nothing queued. *)
Definition idling (s : afq) : Prop :=
  exists p, last_served_acct (ad s) = Some p /\ works_of s p = [] /\ SEQ_THRESHOLD <= seq_of s p.


(** The handler gives the work back to the scheduler that let it go. *)
Definition gives_back (h : handler) (w : io_ref) (s : afq) : Prop :=
  match h, w with
  | WriteReturn (Some p) uniq, OfCall q | MkdirReturn (Some p) uniq, OfCall q
  | FsyncReturn (Some p) uniq, OfCall q => p = q /\ uniq = q_sched_uniq s
  | CompletedRequest rq, OfReq q => rq = q
  | _, _ => False
  end.

Lemma runs_in_once s b b' w : runs_in s b w -> runs_in s b' w -> b = b'.
Proof.
  destruct w as [p|rq]; simpl.
  - intros (c & Hc & Ho) (c' & Hc' & Ho'). congruence.
  - intros [_ H] [_ H']. congruence.
Qed.

Lemma returned_gone s s' b w : history [Return b w] (abs s) (abs s') -> ~ runs_in s' b w.
Proof.
  intros H. inversion H as [|a l x y z Hx Hy]; subst. inversion Hy as [x z P|]; subst.
  destruct Hx as (_ & _ & Hx & _). destruct P as (_ & P & _). intros Hn.
  apply (P b w), Hx in Hn. by destruct Hn.
Qed.

Lemma call_left_batch s s' p uniq b :
  call_left p s s' uniq -> uniq = q_sched_uniq s -> runs_in s b (OfCall p) ->
  batch_after true b s s' /\ ~ runs_in s' b (OfCall p).
Proof.
  intros (b' & Hr & H & Ha & _) -> Hb. rewrite (runs_in_once _ _ _ _ Hb Hr).
  rewrite Z.eqb_refl in Ha. split; [done | by apply (returned_gone s)].
Qed.

(** Batches end: a work that is given back leaves its batch; the last one frees
    the batch and allows a new one, and before the last the batch goes on with one work
    less. *)
Theorem afq_batch_ends s h b w :
  reachable s -> callable h s -> gives_back h w s -> runs_in s b w ->
  exists s', run_handler h s = Ok (tt, s') /\ ~ runs_in s' b w /\ batch_after true b s s'.
Proof.
  intros Hr Hc Hg Hb. pose proof (reachable_afq_inv s Hr) as Hi.
  assert (Hcall : forall m kind p uniq, leaves m kind uniq -> returns kind (Some p) s -> w = OfCall p ->
    uniq = q_sched_uniq s -> exists s', m p s = Ok (tt, s') /\ ~ runs_in s' b w /\ batch_after true b s s').
  { intros m kind p uniq Hm Hret -> Hu. destruct (Hret p eq_refl) as (c & Hcp & Hd & Hk).
    destruct (Hm s p c Hi Hcp Hd Hk) as (s' & E & _ & _ & Hl).
    destruct (call_left_batch _ _ _ _ b Hl Hu Hb). eauto. }
  destruct h; try done; simpl in Hc, Hg.
  - destruct w as [p|q]; [done |]. subst rq.
    destruct (complete_request_run s q Hi Hc) as (s' & E & _ & _ & _ & [(b' & Hb' & H & Ha)|[Ho _]]).
    2: { destruct Hb as [_ Hb]. congruence. }
    rewrite (runs_in_once _ _ _ _ Hb Hb') in *. exists s'. split_and!; auto. by apply (returned_gone s).
  - destruct opaque as [p|]; [|done]. destruct w as [q|q]; [|done]. destruct Hg as [-> Hu].
    by apply (Hcall _ _ q _ (write_return_run sched_uniq)).
  - destruct opaque as [p|]; [|done]. destruct w as [q|q]; [|done]. destruct Hg as [-> Hu].
    by apply (Hcall _ _ q _ (mkdir_return_run sched_uniq)).
  - destruct opaque as [p|]; [|done]. destruct w as [q|q]; [|done]. destruct Hg as [-> Hu].
    by apply (Hcall _ _ q _ (fsync_return_run sched_uniq)).
Qed.

(** ** The threads *)

(** What happens while a thread sleeps is a run. *)
Definition goes_on (m : ST afq unit) : Prop :=
  forall s, reachable s -> exists s', m s = Ok (tt, s') /\ reachable s'.

Lemma handler_goes_on h s : reachable s -> callable h s -> exists s', run_handler h s = Ok (tt, s') /\ reachable s'.
Proof.
  intros Hr Hc. destruct (afq_handler_run h s (reachable_afq_inv s Hr) Hc) as (s' & acts & E & _).
  exists s'. split; [done |]. by eapply reach_handler.
Qed.

Lemma turns_run h others s :
  (forall s, callable h s) -> Forall goes_on others -> reachable s ->
  exists s', for_each others (fun other => run_handler h;; other) s = Ok (tt, s') /\ reachable s'.
Proof.
  intros Hc Ho. revert s. induction Ho as [|m others Hm _ IH]; intros s Hr; cbn [for_each]; [by exists s |].
  destruct (handler_goes_on h s Hr (Hc s)) as (s1 & E1 & Hr1). destruct (Hm s1 Hr1) as (s2 & E2 & Hr2).
  destruct (IH s2 Hr2) as (s3 & E3 & Hr3). exists s3. split; [|done].
  rewrite (bind_ok _ _ s tt s2); [done |]. by rewrite (bind_ok _ _ _ _ _ E1).
Qed.

(** Both threads run until they are told to stop, and stop with 0, whatever else goes on in
    between. *)
Lemma sched_thread_run others s :
  Forall goes_on others -> reachable s -> exists s', sched_thread_func others s = Ok (0, s') /\ reachable s'.
Proof.
  intros Ho Hr. destruct (turns_run RunQueue others s (fun _ => I) Ho Hr) as (s' & E & Hr').
  exists s'. split; [|done]. unfold sched_thread_func. by rewrite (bind_ok _ _ _ _ _ E).
Qed.
Lemma min_thread_run others s :
  Forall goes_on others -> reachable s -> exists s', min_thread_func others s = Ok (0, s') /\ reachable s'.
Proof.
  intros Ho Hr. destruct (turns_run UpdateMin others s (fun _ => I) Ho Hr) as (s' & E & Hr').
  exists s'. split; [|done]. unfold min_thread_func. by rewrite (bind_ok _ _ _ _ _ E).
Qed.

(** ** A lock that is not released *)

(** C36: [basic_sched_write_entry] forgets a lock: in any run, when the caller's scheduler
    number is out of date it returns -1 with [afq_data->lock] held, and the next
    dispatch waits for that lock for ever. *)
Theorem write_entry_keeps_lock s cur file o_direct count pos sched_uniq :
  reachable s -> sched_uniq <> q_sched_uniq s ->
  exists s', basic_sched_write_entry cur file o_direct count pos sched_uniq s
               = Ok (Returns (-1) (Some None), s') /\ lock (ad s') = true /\
    forall force, run_handler (Dispatch force) s' = Fault (Deadlock 753).
Proof.
  intros Hr Hu. exists (set_lock true s). split; [|done].
  unfold basic_sched_write_entry, write_entry_admit.
  rewrite (bind_ok _ _ s (inl (Returns (-1) (Some None))) (set_lock true s)); [done |].
  rewrite (bind_ok _ _ _ _ _ (spin_lock_run 817 s (inv_lock _ (reachable_afq_inv s Hr)))).
  unfold bind, gets. cbn [q_sched_uniq set_lock upd update_field].
  by rewrite (proj2 (Z.eqb_neq _ _) Hu).
Qed.

End Runs.
