(* ===== verification/AfqFair.v ===== *)
(** * Actually fair queuing: shares

    What the counters mean: a charge adds an amount that is inversely proportional to
    the priority of the account, so accounts whose counters advanced alike were charged
    in proportion to their priorities; and [update_active_min] finds the least
    counter of the accounts that did I/O lately. *)

From S2P Require Import Prelude Keeps CInt Kernel DiskSim IoBatch HashTable CauseTags Tags Jiffies.
From S2P Require Import SplitAccount SplitSched IoctlHelper Afq AfqOps AfqInv AfqVio AfqAccount AfqHooks.
From S2P Require Import AfqWorks AfqSelect.

Section Fair.
Context {K : KernelFns} {KO : KernelOk K} {J : JiffyFns}.

(** ** Charges *)

(** The weight of an account; 0, the priority of a new account, counts as 1. *)
Definition weight (a : account) : Z := if ioprio a =? 0 then 1 else ioprio a.

(** A priority in range, and a counter [n] charges away from being reset. *)
Definition can_charge (n : nat) (a : account) : Prop :=
  0 <= ioprio a <= 8 /\ 0 <= vio_counter a /\
  vio_counter a + TOTAL_SHARE * Z.of_nat n <= MAX_VIO_COUNTER_THRESHOLD.

Lemma vio_share_exact a :
  0 <= ioprio a <= 8 -> weight a * vio_share a = TOTAL_SHARE /\ 0 < vio_share a <= TOTAL_SHARE /\ 0 < weight a.
Proof.
  intros Hp. unfold vio_share, prio_to_stride, weight.
  assert (Hc : ioprio a = 0 \/ ioprio a = 1 \/ ioprio a = 2 \/ ioprio a = 3 \/ ioprio a = 4 \/ ioprio a = 5 \/
    ioprio a = 6 \/ ioprio a = 7 \/ ioprio a = 8) by lia.
  by decompose [or] Hc; repeat match goal with H : ioprio a = _ |- _ => rewrite H; clear H end.
Qed.

Lemma charged_counter a n :
  can_charge (S n) a -> vio_counter (charged a) = vio_counter a + vio_share a /\ can_charge n (charged a).
Proof.
  intros (Hp & Hv & Hm). destruct (vio_share_exact a Hp) as (_ & Hs & _). unfold TOTAL_SHARE in *.
  assert (E : vio_counter (charged a) = vio_counter a + vio_share a).
  { unfold charged, upd, update_field. simpl. apply s64_small.
    assert (MAX_VIO_COUNTER_THRESHOLD < 0x7fffffffffffffff) by (by vm_compute). unfold is_s64. lia. }
  split; [done |]. split_and!; try exact (proj1 Hp); try exact (proj2 Hp); unfold TOTAL_SHARE; rewrite E; lia.
Qed.

Definition weight_of (s : afq) (p : nat) : Z := match heap s !! p with Some a => weight a | None => 0 end.

(** How often [p] is charged by a sequence of charges. *)
Definition charges_of (p : nat) (l : list nat) : Z := Z.of_nat (length (filter (fun q => q = p) l)).

Lemma charge_once s p n quantity :
  data_inv s -> Forall (can_charge (S n)) (heap s) -> has_acct p s ->
  exists s', add_vio_counter p quantity s = Ok (tt, s') /\ data_inv s' /\ Forall (can_charge n) (heap s') /\
    (forall q, has_acct q s -> has_acct q s') /\ (forall q, weight_of s' q = weight_of s q) /\
    (forall q, weight_of s q * (vio_of s' q - vio_of s q) = if decide (q = p) then TOTAL_SHARE else 0).
Proof.
  intros Hi Hf [a Ha]. destruct (add_vio_counter_run s p a quantity Hi Ha) as (s' & E & F & Hh & _).
  destruct (charged_counter a n (Forall_lookup_1 _ _ _ _ Hf Ha)) as [Ev Hc].
  destruct (vio_share_exact a) as (Hs & _); [exact (proj1 (Forall_lookup_1 _ _ _ _ Hf Ha)) |].
  assert (Eh : heap s' = <[p := charged a]> (heap s)).
  { rewrite Hh. unfold charged_heap. rewrite (proj2 (Z.leb_le _ _)); [done |].
    destruct Hc as (_ & _ & Hc). unfold TOTAL_SHARE in Hc. lia. }
  pose proof (lookup_lt_Some _ _ _ Ha) as Hl.
  assert (Hlk : forall q, heap s' !! q = if decide (q = p) then Some (charged a) else heap s !! q).
  { intros q. rewrite Eh, list_lookup_insert. repeat case_decide; naive_solver. }
  exists s'. split_and!; auto.
  - by eapply vio_frame_data.
  - rewrite Eh. apply Forall_insert; [|done]. eapply Forall_mono; [|exact Hf].
    intros b (B1 & B2 & B3). split_and!; try apply B1; auto. unfold TOTAL_SHARE in *. lia.
  - intros q Hq. unfold has_acct. rewrite Hlk. case_decide; [by eexists | done].
  - intros q. unfold weight_of. rewrite Hlk. case_decide; [subst; by rewrite Ha | done].
  - intros q. unfold weight_of, vio_of. rewrite Hlk. case_decide; [subst; rewrite Ha, Ev; lia | lia].
Qed.

Lemma charges_run l s :
  data_inv s -> Forall (can_charge (length l)) (heap s) -> Forall (fun p => has_acct p s) l ->
  exists s', for_each l (fun p => add_vio_counter p 1) s = Ok (tt, s') /\
    (forall q, weight_of s' q = weight_of s q) /\
    (forall q, weight_of s q * (vio_of s' q - vio_of s q) = TOTAL_SHARE * charges_of q l).
Proof.
  revert s. induction l as [|p l IH]; intros s Hi Hf Hl; cbn [for_each].
  { exists s. split_and!; auto. intros q. unfold charges_of. simpl. lia. }
  apply Forall_cons in Hl as [Hp Hl].
  destruct (charge_once s p (length l) 1 Hi Hf Hp) as (s1 & E1 & Hi1 & Hf1 & Hk1 & Hp1 & Hv1).
  destruct (IH s1 Hi1 Hf1) as (s2 & E2 & Hp2 & Hv2); [eapply Forall_mono; [|exact Hl]; auto |].
  exists s2. rewrite (bind_ok _ _ _ _ _ E1). split_and!; auto; [intros q; by rewrite Hp2 |].
  intros q. specialize (Hv1 q). specialize (Hv2 q). rewrite Hp1 in Hv2. unfold charges_of in *.
  rewrite filter_cons. destruct (decide (q = p)) as [->|Hne].
  - rewrite decide_True by done. cbn [length]. lia.
  - rewrite decide_False by done. lia.
Qed.

(** C19: I/O is shared by priority: however charges are interleaved, two accounts whose
    counters advanced by the same amount were charged in the ratio of their
    priorities, 0 counting as 1 (as long as no counter reaches the threshold at which all
    are reset). *)
Theorem afq_shares_by_priority s l p q :
  data_inv s -> Forall (can_charge (length l)) (heap s) -> Forall (fun x => has_acct x s) l ->
  exists s', for_each l (fun x => add_vio_counter x 1) s = Ok (tt, s') /\
    (vio_of s' p - vio_of s p = vio_of s' q - vio_of s q ->
     charges_of p l * weight_of s q = charges_of q l * weight_of s p).
Proof.
  intros Hi Hf Hl. destruct (charges_run l s Hi Hf Hl) as (s' & E & _ & Hv).
  exists s'. split; [done |]. intros Heq. pose proof (Hv p) as H1. pose proof (Hv q) as H2.
  rewrite Heq in H1. unfold TOTAL_SHARE in *. nia.
Qed.

(** One charge: [TOTAL_SHARE] divided by the priority, 0 counting as 1, is added to the counter of the
    account and to no other; once a counter passes the threshold, all of them start
    again at 0. *)
Theorem afq_charge_exact s p a quantity :
  data_inv s -> heap s !! p = Some a -> 0 <= ioprio a <= 8 ->
  0 <= vio_counter a <= MAX_VIO_COUNTER_THRESHOLD ->
  exists s', add_vio_counter p quantity s = Ok (tt, s') /\
    forall q, has_acct q s ->
      vio_of s' q =
        if vio_counter a + TOTAL_SHARE / weight a <=? MAX_VIO_COUNTER_THRESHOLD
        then vio_of s q + (if decide (q = p) then TOTAL_SHARE / weight_of s p else 0)
        else 0.
Proof.
  intros Hi Ha Hp Hv. destruct (add_vio_counter_run s p a quantity Hi Ha) as (s' & E & F & Hh & _).
  exists s'. split; [done |]. intros q [b Hb]. destruct (vio_share_exact a Hp) as (Hs & Hr & Hw).
  assert (Es : TOTAL_SHARE / weight a = vio_share a).
  { symmetry. apply Z.div_unique with 0; lia. }
  assert (Ev : vio_counter (charged a) = vio_counter a + vio_share a).
  { unfold charged, upd, update_field. simpl. apply s64_small. unfold TOTAL_SHARE in Hr.
    assert (MAX_VIO_COUNTER_THRESHOLD + 840 < 0x7fffffffffffffff) by (by vm_compute). unfold is_s64. lia. }
  unfold vio_of at 1 2, weight_of. rewrite Hh, Hb, Ha, Es. unfold charged_heap. rewrite Ev.
  pose proof (lookup_lt_Some _ _ _ Ha) as Hl.
  destruct (Z.leb_spec (vio_counter a + vio_share a) MAX_VIO_COUNTER_THRESHOLD).
  - rewrite list_lookup_insert. destruct (decide (p = q)) as [->|Hne]; simpl.
    + rewrite !decide_True by done. simplify_eq. done.
    + rewrite !decide_False by naive_solver. rewrite Hb. lia.
  - rewrite list_lookup_fmap, list_lookup_insert. case_decide; simpl; [done | by rewrite Hb].
Qed.

(** ** The least counter *)

(** An account that counts for the minimum: it is not account 0 and completed I/O not
    long ago. *)
Definition counts_at (now : Z) (a : account) : bool :=
  negb (account_id a =? 0) &&
  time_before now (u64 (last_end_request a + c_div ACCT_MAX_SLEEP_TIME 15)).

(** The clock shows [now] for as long as we look. *)
Definition clock_at (now : Z) (s : afq) : Prop := forall n, w_jiffies (k_world (kern s)) n = now.

Lemma active_min_turn_at s now best p a :
  clock_at now s -> heap s !! p = Some a ->
  exists n, active_min_turn best p s =
    Ok (if counts_at now a && (vio_counter a <? fst best) then (vio_counter a, Some p) else best, set_tick n s).
Proof.
  intros Hn Ha. unfold active_min_turn, counts_at. rewrite (bind_ok _ _ _ _ _ (afq_acct_run _ _ _ _ Ha)).
  destruct (account_id a =? 0); cbn [negb andb].
  { exists (ticks s). by rewrite set_tick_id. }
  rewrite (bind_ok _ _ _ _ _ (jiffies_run s)). rewrite Hn. eexists.
  by destruct (time_before _ _ && _).
Qed.

Lemma active_min_loop_at now l best s :
  clock_at now s -> (forall p, p ∈ l -> has_acct p s) ->
  exists best' n, for_acc l best active_min_turn s = Ok (best', set_tick n s) /\
    fst best' <= fst best /\
    (forall p a, p ∈ l -> heap s !! p = Some a -> counts_at now a = true -> fst best' <= vio_counter a) /\
    (best' = best \/ exists p a, heap s !! p = Some a /\ counts_at now a = true /\
       best' = (vio_counter a, Some p) /\ vio_counter a < fst best).
Proof.
  revert best s. induction l as [|p l IH]; intros best s Hn Hl; cbn [for_acc].
  { exists best, (ticks s). rewrite set_tick_id. split_and!; auto; [lia |]. by intros p a ?%elem_of_nil. }
  destruct (Hl p) as [a Ha]; [left |].
  destruct (active_min_turn_at s now best p a Hn Ha) as [n1 E1]. rewrite (bind_ok _ _ _ _ _ E1).
  set (b1 := if _ && _ then _ else _).
  destruct (IH b1 (set_tick n1 s)) as (b2 & n2 & E2 & H2 & H3 & H4);
    [exact Hn | intros q Hq; apply Hl; by right |].
  assert (Hb1 : fst b1 <= fst best /\ (counts_at now a = true -> fst b1 <= vio_counter a) /\
    (b1 = best \/ counts_at now a = true /\ b1 = (vio_counter a, Some p) /\ vio_counter a < fst best)).
  { unfold b1. destruct (counts_at now a) eqn:Ec; cbn [andb]; [|split_and!; auto; lia].
    destruct (Z.ltb_spec (vio_counter a) (fst best)); simpl; split_and!; auto; lia. }
  destruct Hb1 as (G1 & G2 & G3).
  exists b2, n2. split; [exact E2 |]. split; [lia |]. split.
  - intros q c [->|Hq]%elem_of_cons Hc Hac; [|by apply (H3 q c)]. simplify_eq. specialize (G2 Hac). lia.
  - destruct H4 as [->|(q & c & Hq & Hcq & -> & Hlt)]; [|right; exists q, c; split_and!; auto; lia].
    destruct G3 as [->|(Hac & -> & Hlt)]; [by left | right; by exists p, a].
Qed.

(** [update_active_min] computes a minimum: if some account that did I/O lately
    has a counter below the threshold, [min_acct] becomes such an account with the least
    counter and [global_min_vio_counter2] that counter; otherwise both stay as they are.
    The clock must not tick in between, since the code reads it once for each account. *)
Theorem afq_tracks_minimum s now :
  data_inv s -> clock_at now s ->
  exists s', update_active_min s = Ok (tt, s') /\ heap s' = heap s /\
    ((exists p a, heap s !! p = Some a /\ counts_at now a = true /\
        min_acct (ad s') = Some p /\ global_min_vio_counter2 (ad s') = vio_counter a /\
        vio_counter a < MAX_VIO_COUNTER_THRESHOLD /\
        forall q b, heap s !! q = Some b -> counts_at now b = true -> vio_counter a <= vio_counter b) \/
     (ad s' = ad s /\
        forall q b, heap s !! q = Some b -> counts_at now b = true -> MAX_VIO_COUNTER_THRESHOLD <= vio_counter b)).
Proof.
  intros Hi Hn. unfold update_active_min, all_accts, gets, bind at 1. pose proof (di_accts _ Hi) as Hw.
  destruct (active_min_loop_at now (hash_nodes (a_table (ad_accts (ad s)))) (MAX_VIO_COUNTER_THRESHOLD, None) s Hn)
    as (best & n & E & _ & Hle & H).
  { intros p. by apply nodes_have_accts. }
  assert (Hle' : forall q b, heap s !! q = Some b -> counts_at now b = true -> fst best <= vio_counter b).
  { intros q b Hq. apply (Hle q b); [|done]. apply (in_nodes _ q Hw). by exists b. }
  rewrite (bind_ok _ _ _ _ _ E). destruct H as [->|(p & a & Ha & Hc & -> & Hlt)].
  - rewrite Z.eqb_refl. exists (set_tick n s). split_and!; auto.
  - simpl in Hlt. destruct (Z.eqb_spec (vio_counter a) MAX_VIO_COUNTER_THRESHOLD); [lia |].
    eexists. split; [done |]. split; [done |]. left. exists p, a. split_and!; auto.
Qed.

End Fair.
