(* ===== verification/AfqExamples.v ===== *)
(** * Actually fair queuing: a small machine

    Two requests on one disk, two cause lists, and a driver that asks for requests
    once each time it is woken.  The states below are reached by running the handlers;
    the theorems on the scheduler are applied to them. *)

From S2P Require Import Prelude Keeps CInt Kernel DiskSim IoBatch HashTable CauseTags Tags Jiffies.
From S2P Require Import SplitAccount SplitSched IoctlHelper Registry Afq AfqOps AfqInv AfqVio AfqAccount AfqHooks.
From S2P Require Import AfqWorks AfqSelect AfqSubmit AfqPool AfqCalls AfqRequests AfqRuns AfqFair.

Definition afq_world : world :=
  World (fun n => Timespec (Z.of_nat n + 100) 0) (fun _ => 100000) (fun _ => true) (fun _ => 0) 0 0.

(** A cause list that names account 7, and one that names accounts 7 and 9. *)
Definition afq_causes1 : cause_list := CauseList 1 SPLIT_DATA [7] 1 None 1 4096 None 0.
Definition afq_causes2 : cause_list := CauseList 1 SPLIT_DATA [7; 9] 2 (Some 1%positive) 1 4096 None 0.
Definition afq_kernel : kernel :=
  Kern afq_world (<[1%positive := afq_causes1]> (<[2%positive := afq_causes2]> ∅)) 3 0 0 0 0 [].

Definition afq_cll : cause_list_list := CauseListList (Some 1%positive) 4096 1 1 [Some 1%positive].
Definition afq_read : request := Rq false 800 [Bio 800 4096 None] None None.
Definition afq_write : request := Rq true 100 [Bio 100 4096 (Some afq_cll)] None None.
Definition afq_rqs : gmap ptr request :=
  <[1%positive := afq_read]> (<[2%positive := afq_write]> (<[3%positive := afq_read]> ∅)).

#[export] Instance one_ask : Driver := {| drv_asks := fun _ => 1%nat |}.

Definition ad_none : afq_data :=
  AfqData (AcctHash [] []) [] None 0 0 None false 0 0 0 (IoBatch (DiskSim 0) [] 0 0 0 0 0) None None 0 [] [] [].
Definition afq_machine : afq := AFQ afq_kernel afq_rqs ∅ ∅ 1%positive {[ 5%positive := 0 ]} [] 3 ad_none.

(** The scheduler is set up on the machine. *)
Definition ad0 : afq_data :=
  match basic_sched_init_data true true 1%positive [] afq_world with
  | Ok ((_, Some d, _), _) => d
  | _ => ad_none
  end.
Definition afq_world1 : world :=
  match basic_sched_init_data true true 1%positive [] afq_world with Ok (_, w) => w | _ => afq_world end.
Definition e0 : afq := afq_machine <| kern ::= fun k => k <| k_world := afq_world1 |> |> <| ad := ad0 |>.

Lemma afq_machine_env : env_wf afq_kernel afq_rqs.
Proof.
  assert (Hc : forall p c, k_causes afq_kernel !! p = Some c ->
    (c = afq_causes1 \/ c = afq_causes2) /\ (p < 3)%positive).
  { simpl. intros p c. rewrite !lookup_insert. repeat case_decide; subst; intros Hl; simplify_eq; (split; [auto | lia]). }
  split; [split | |].
  - intros p c [[->| ->] _]%Hc; split; try done; simpl.
    + apply NoDup_singleton.
    + apply list.NoDup_cons. split; [by intros [=]%list_elem_of_singleton | apply NoDup_singleton].
  - intros p c [_ H]%Hc. exact H.
  - intros p c [[->| ->] _]%Hc; unfold MAX_IO; simpl; lia.
  - assert (Hr : forall r, r = afq_read \/ r = afq_write -> request_ok afq_kernel r).
    { intros r [->| ->]; (split; [apply Forall_singleton; split; [simpl; lia |] | done]); [done |].
      intros l [= <-]. split; [exists 1%positive; split; [done | by eexists] |]. simpl. split_and!; try lia.
      intros i Hi. assert (i = 0) as -> by lia. exists 1%positive. split; [done | by eexists]. }
    intros rq r. unfold afq_rqs. rewrite !lookup_insert. repeat case_decide; intros; simplify_eq; auto.
Qed.

Lemma e0_reachable : reachable e0.
Proof.
  apply (reach_init afq_machine 1%positive [] ad0 [1%positive] afq_world1);
    [apply afq_machine_env | done | done | done | done | vm_compute; reflexivity].
Qed.

(** Running handlers. *)
Definition exec (h : handler) (s : afq) : afq :=
  match run_handler h s with Ok (_, s') => s' | Fault _ => s end.

Lemma exec_run h s : reachable s -> callable h s -> run_handler h s = Ok (tt, exec h s).
Proof.
  intros Hr Hc. destruct (afq_handler_run h s (reachable_afq_inv s Hr) Hc) as (s' & acts & E & _).
  unfold exec. by rewrite E.
Qed.

Lemma afq_exec_reachable h s : reachable s -> callable h s -> reachable (exec h s).
Proof. intros Hr Hc. eapply reach_handler; [exact Hr | exact Hc | by apply exec_run]. Qed.

(** Account 7 reads: its request gets a descriptor and waits.  Account 8 calls [fsync]:
    the driver is woken, and a batch with the read and the [fsync] starts.  Account 9
    calls [fsync] and waits for the next batch. *)
Definition e1 : afq := exec (SetRequest 1 1) e0.
Definition e2 : afq := exec (AddRequest 7 1) e1.
Definition e3 : afq := exec (FsyncEntry 8 20 0 3) e2.
Definition e4 : afq := exec (FsyncEntry 9 21 0 3) e3.
Definition e5 : afq := exec (CompletedRequest 1) e4.
Definition e6 : afq := exec (FsyncReturn (Some 1%positive) 3) e5.
Definition e7 : afq := exec (Dispatch false) e6.

Example afq_states :
  works_of e2 0 = [OfReq 1] /\ pending e3 = [] /\ dispatch_list e3 = [1%positive] /\
  pending e4 = [OfCall 3] /\ (one_loop_work <$> batches e4 !! 2%positive) = Some 2 /\
  (one_loop_work <$> batches e5 !! 2%positive) = Some 1 /\ batches e6 = ∅ /\
  keep_wait (ad e6) = ALLOW_NEW_BATCH /\ pending e7 = [] /\ (c_done <$> calls e7 !! 3%positive) = Some true.
Proof. vm_compute. repeat split. Qed.

(** ** They are reachable *)

Ltac decided := apply (bool_decide_unpack _); vm_compute; exact I.

Lemma not_pending s rq :
  bool_decide (rq ∉ dispatch_list s) && bool_decide (OfReq rq ∉ pending s) = true -> absent s rq.
Proof. rewrite andb_true_iff, !bool_decide_eq_true. done. Qed.

(** A request that [basic_sched_set_request] has just set up may be added. *)
Lemma set_up_addable s q rq cur r :
  reachable s -> rqs s !! rq = Some r -> rq_write r = false -> absent s rq ->
  callable (AddRequest cur rq) (exec (SetRequest q rq) s).
Proof.
  intros Hr Hrq Hw Ha. destruct (set_request_run_afq s q rq r (reachable_afq_inv s Hr) Hrq Ha)
    as (s' & r' & d & E & _ & _ & _ & _ & Hf & Ha' & Hw').
  assert (exec (SetRequest q rq) s = s') as ->.
  { unfold exec. cbn [run_handler]. by rewrite (bind_ok _ _ _ _ _ E). }
  exists r', d. split_and!; auto. rewrite Hw', Hw. done.
Qed.

Lemma e1_reachable : reachable e1.
Proof.
  apply afq_exec_reachable; [exact e0_reachable |]. split; [by eexists |]. apply not_pending. vm_compute. reflexivity.
Qed.
Lemma e2_reachable : reachable e2.
Proof.
  apply afq_exec_reachable; [exact e1_reachable |].
  apply (set_up_addable e0 1 1 7 afq_read); [exact e0_reachable | done | done |].
  apply not_pending. vm_compute. reflexivity.
Qed.
Lemma e3_reachable : reachable e3.
Proof. apply afq_exec_reachable; [exact e2_reachable | exact I]. Qed.
Lemma e4_reachable : reachable e4.
Proof. apply afq_exec_reachable; [exact e3_reachable | exact I]. Qed.
Lemma e4_completes : callable (CompletedRequest 1) e4.
Proof. cbn [callable]. decided. Qed.
Lemma e5_reachable : reachable e5.
Proof. apply afq_exec_reachable; [exact e4_reachable | exact e4_completes]. Qed.
Lemma e5_returns : callable (FsyncReturn (Some 1%positive) 3) e5.
Proof. intros p [= <-]. vm_compute. eexists. split; [reflexivity |]. split; reflexivity. Qed.
Lemma e6_reachable : reachable e6.
Proof. apply afq_exec_reachable; [exact e5_reachable | exact e5_returns]. Qed.

(** ** The theorems on these runs *)

(** A run with the registry of disks: accounts 8 and 9 call [fsync]. *)
Lemma e0_alive : alive 1 e0 [1%positive].
Proof.
  eapply (life_boot _ _ _ _ []); [by apply not_elem_of_nil |]. split; [done |]. exists afq_machine, ad0, afq_world1.
  split; [apply afq_machine_env |]. do 4 (split; [done |]). split; [vm_compute; reflexivity | done].
Qed.
Lemma afq_exec_alive h s disks : alive 1 s disks -> callable h s -> alive 1 (exec h s) disks.
Proof.
  intros Ha Hc. eapply life_step; [exact Ha |]. right. exists h. split; [exact Hc |].
  apply exec_run; [by eapply afq_alive_reachable | exact Hc].
Qed.
Definition e8 : afq := exec (FsyncEntry 9 21 0 3) (exec (FsyncEntry 8 20 0 3) e0).
Lemma e8_alive : alive 1 e8 [1%positive].
Proof. apply afq_exec_alive; [apply afq_exec_alive; [exact e0_alive | exact I] | exact I]. Qed.
Lemma e8_returns : callable (FsyncReturn (Some 1%positive) 3) e8.
Proof. intros p [= <-]. vm_compute. eexists. split; [reflexivity |]. split; reflexivity. Qed.

Lemma afq_no_fault_witness :
  (exists s', run_handler (FsyncReturn (Some 1%positive) 3) e8 = Ok (tt, s') /\ afq_inv s') /\
  exists d' disks', basic_sched_exit_data 1 (ad e8) [1%positive] = Ok (d', disks') /\ 1%positive ∉ disks'.
Proof.
  destruct (afq_no_fault 1 e8 [1%positive] e8_alive) as (H & Hex & _). split; [|exact Hex].
  destruct (H (FsyncReturn (Some 1%positive) 3)) as (s' & E & _ & Hi).
  - exact e8_returns.
  - exists s'. exact (conj E Hi).
Defined.

Lemma afq_refines_pool_witness :
  exists s' acts, run_handler (CompletedRequest 1) e4 = Ok (tt, s') /\ history acts (abs e4) (abs s') /\
    (acts = [Finish 1] \/ exists b, acts = [Return b (OfReq 1)]).
Proof. exact (afq_refines_pool e4 (CompletedRequest 1) e4_reachable e4_completes). Defined.

Lemma afq_works_typed_witness : works_of e2 0 = [OfReq 1] /\ cast_ok e2 (OfReq 1).
Proof.
  split; [vm_compute; reflexivity |]. apply (afq_works_typed e2 0 (OfReq 1) e2_reachable). decided.
Defined.

Lemma afq_call_in_one_place_witness :
  exists p, OfCall 3 ∈ works_of e4 p /\ p ∈ active_acct_list (ad e4).
Proof.
  destruct (calls e4 !! 3%positive) as [c|] eqn:Hc; [|exfalso; revert Hc; vm_compute; congruence].
  pose proof (afq_call_in_one_place e4 3 c e4_reachable Hc) as H.
  assert (Hd : c_done c = false) by (revert Hc; vm_compute; intros [= <-]; reflexivity).
  rewrite Hd in H. destruct H as (p & H1 & H2 & _). exists p. exact (conj H1 H2).
Defined.

Lemma afq_batches_counted_witness :
  exists d, batches e4 !! 2%positive = Some d /\ one_loop_work d = outstanding 2 e4 /\ one_loop_work d = 2.
Proof.
  pose proof (afq_batches_counted e4 2 e4_reachable) as H.
  destruct (batches e4 !! 2%positive) as [d|] eqn:Hd; [|exfalso; revert Hd; vm_compute; congruence].
  exists d. split; [reflexivity |]. split; [exact (proj1 H) |]. clear H. revert Hd. vm_compute. intros [= <-]. reflexivity.
Defined.


Lemma afq_batch_ends_witness :
  exists s', run_handler (FsyncReturn (Some 1%positive) 3) e5 = Ok (tt, s') /\
    ~ runs_in s' 2 (OfCall 1) /\ batch_after true 2 e5 s'.
Proof.
  apply (afq_batch_ends e5 (FsyncReturn (Some 1%positive) 3) 2 (OfCall 1) e5_reachable e5_returns).
  - split; vm_compute; reflexivity.
  - vm_compute. eexists. split; reflexivity.
Defined.

(** Accounts 7, 8 and 9 are charged once each. *)
Lemma e4_can_charge : Forall (can_charge 3) (heap e4).
Proof.
  apply list.Forall_forall. intros a Ha. unfold can_charge.
  assert (Hb : forallb (fun a => (0 <=? ioprio a) && (ioprio a <=? 8) && (0 <=? vio_counter a) &&
    (vio_counter a + TOTAL_SHARE * 3 <=? MAX_VIO_COUNTER_THRESHOLD)) (heap e4) = true) by (vm_compute; reflexivity).
  rewrite forallb_forall in Hb. specialize (Hb a). rewrite <- list_elem_of_In in Hb. specialize (Hb Ha).
  bool_to_prop. change (Z.of_nat 3) with 3. lia.
Qed.

Definition e4_charged : afq :=
  match for_each [0; 1; 2]%nat (fun x => add_vio_counter x 1) e4 with Ok (_, s) => s | Fault _ => e4 end.

Lemma afq_shares_by_priority_witness :
  charges_of 0 [0; 1; 2]%nat * weight_of e4 1 = charges_of 1 [0; 1; 2]%nat * weight_of e4 0.
Proof.
  destruct (afq_shares_by_priority e4 [0; 1; 2]%nat 0%nat 1%nat) as (s' & E & H).
  - exact (inv_data _ (reachable_afq_inv e4 e4_reachable)).
  - exact e4_can_charge.
  - repeat constructor; decided.
  - apply H. assert (Es : s' = e4_charged) by (unfold e4_charged; rewrite E; reflexivity).
    rewrite Es. vm_compute. reflexivity.
Defined.

Lemma afq_charge_exact_witness :
  exists s', add_vio_counter 0 1 e4 = Ok (tt, s') /\ vio_of s' 0 = vio_of e4 0 + TOTAL_SHARE / weight_of e4 0.
Proof.
  destruct (heap e4 !! 0%nat) as [a|] eqn:Ha; [|exfalso; revert Ha; vm_compute; congruence].
  destruct (Forall_lookup_1 _ _ _ _ e4_can_charge Ha) as (H1 & H2 & H3).
  assert (H4 : TOTAL_SHARE / weight a <= TOTAL_SHARE * Z.of_nat 3).
  { assert (0 < weight a) by (unfold weight; destruct (Z.eqb_spec (ioprio a) 0); lia).
    transitivity TOTAL_SHARE; [apply Z.div_le_upper_bound; unfold TOTAL_SHARE; nia | unfold TOTAL_SHARE; lia]. }
  destruct (afq_charge_exact e4 0%nat a 1) as (s' & E & Hs).
  - exact (inv_data _ (reachable_afq_inv e4 e4_reachable)).
  - exact Ha.
  - exact H1.
  - unfold TOTAL_SHARE in H3. lia.
  - exists s'. split; [exact E |]. rewrite (Hs 0%nat) by (eexists; exact Ha).
    rewrite (proj2 (Z.leb_le _ _)) by lia. reflexivity.
Defined.

Lemma afq_tracks_minimum_witness :
  exists s', update_active_min e4 = Ok (tt, s') /\ heap s' = heap e4.
Proof.
  destruct (afq_tracks_minimum e4 100000) as (s' & E & H & _).
  - exact (inv_data _ (reachable_afq_inv e4 e4_reachable)).
  - intros n. vm_compute. reflexivity.
  - exists s'. exact (conj E H).
Defined.

(** ** Where the code goes wrong *)

Lemma write_entry_keeps_lock_witness :
  exists s', basic_sched_write_entry 7 20 false 4096 0 2 e2 = Ok (Returns (-1) (Some None), s') /\
    run_handler (Dispatch false) s' = Fault (Deadlock 753).
Proof.
  destruct (write_entry_keeps_lock e2 7 20 false 4096 0 2) as (s' & E & _ & H).
  - exact e2_reachable.
  - vm_compute. congruence.
  - exists s'. exact (conj E (H false)).
Defined.

(** A refund for pages that are freed before they are written raises the counter, like
    any other charge: [add_vio_counter] does not look at its argument [quantity]. *)
Lemma refund_is_charged :
  reachable e4 /\ callable (CausesFree 1) e4 /\ vio_of (exec (CausesFree 1) e4) 0 = vio_of e4 0 + TOTAL_SHARE.
Proof.
  split; [exact e4_reachable |]. split; [cbn [callable]; unfold has_causes; decided |]. vm_compute. reflexivity.
Qed.

(** A read of account 0 goes to the device without being counted, but is taken off the
    count when it completes. *)
Definition u1 : afq := exec (SetRequest 1 3) e0.
Definition u2 : afq := exec (AddRequest 0 3) u1.
Definition u3 : afq := exec (CompletedRequest 3) u2.
Lemma u3_reachable : reachable u3.
Proof.
  apply afq_exec_reachable; [|cbn [callable]; decided].
  apply afq_exec_reachable; [|apply (set_up_addable e0 1 3 0 afq_read); [exact e0_reachable | done | done |]];
    [|apply not_pending; vm_compute; reflexivity].
  apply afq_exec_reachable; [exact e0_reachable |]. split; [by eexists |]. apply not_pending. vm_compute. reflexivity.
Qed.
Lemma inflight_below_zero : reachable u3 /\ dispatch_list u3 = [] /\ inflight (ad u3) = -1.
Proof. split; [exact u3_reachable |]. vm_compute. split; reflexivity. Qed.

(** The wait timer is left pending when the scheduler goes away. *)
Lemma exit_keeps_timer q d disks d' disks' :
  basic_sched_exit_data q d disks = Ok (d', disks') -> batch_wait_timer d' = batch_wait_timer d.
Proof.
  unfold basic_sched_exit_data. destruct (ioctl_helper_unregister_disk disks q) as [x|]; [|done]. simpl.
  intros [= <- _]. destruct (batch_dead_timer d) eqn:E1; simpl; destruct (batch_wait_timer d) eqn:E2; done.
Qed.
Lemma exit_leaves_timer :
  exists d' disks', basic_sched_exit_data 1 (ad e3) [1%positive] = Ok (d', disks') /\ is_Some (batch_wait_timer d').
Proof. eexists _, _. split; [vm_compute; reflexivity |]. vm_compute. by eexists. Qed.

(** A priority above 8 makes the index of [prio_served_rqs] negative. *)
Lemma prio_out_of_range :
  exists f, run_handler (Dispatch false) (exec (KvSet 7 "ioprio" 9) e2) = Fault f.
Proof. vm_compute. eexists. reflexivity. Qed.

(** A counter that the administrator sets beyond twice the threshold is never the
    least: nothing is selected though a work waits and a batch is allowed. *)
Definition v1 : afq := exec (KvSet 7 "vio_counter" (MAX_VIO_COUNTER_THRESHOLD * 2)) e2.
Lemma setting_starves :
  pending v1 = [OfReq 1] /\ keep_wait (ad v1) = ALLOW_NEW_BATCH /\
  exists s', basic_sched_dispatch false v1 = Ok (0, s').
Proof. split; [vm_compute; reflexivity |]. split; [vm_compute; reflexivity |]. vm_compute. eexists. reflexivity. Qed.

(** Without memory for an account the pointer is followed all the same. *)
Definition no_memory (s : afq) : afq :=
  s <| kern ::= fun k => k <| k_world ::= fun w => w <| w_alloc := fun _ => false |> |> |>.
Lemma no_memory_crash : exists line, run_handler (CausesFree 1) (no_memory e0) = Fault (NullDeref line).
Proof. vm_compute. eexists. reflexivity. Qed.
