(* ===== verification/AfqAloof.v ===== *)
(** * Actually fair queuing: what the handlers leave alone

    Whatever a handler does, if it returns it has not changed the reference counts of the cause lists,
    their sizes, the work items, and the cause lists of the requests ([tags_apart], [fits_apart]); this
    goes through the text of the handlers, with no invariant.  Only setting up and putting a request are about
    its references.  The hooks of the file systems leave more alone: the works of the accounts, the
    calls, the batches and the lock ([unmoved]). *)

From S2P Require Import Prelude Partial CInt Kernel DiskSim IoBatch HashTable CauseTags CauseRefs Tags Jiffies.
From S2P Require Import SplitAccount SplitSched IoctlHelper Afq AfqOps AfqInv AfqRequests AfqRuns Buffers BuffersFit StackLib.

(** ** What the handlers leave alone *)

(** The tags of the requests. *)
Definition rq_tags (s : afq) : gmap ptr (list bio * option ptr) := (fun r => (rq_bio r, RQ_CAUSES r)) <$> rqs s.

(** Facts that nothing the handlers do to their own data can change. *)
Record apart (P : afq -> Prop) : Prop := {
  ap_ad : forall s d, P s -> P (s <| ad := d |>);
  ap_list : forall s l, P s -> P (s <| dispatch_list := l |>);
  ap_inodes : forall s i, P s -> P (s <| inodes := i |>);
  ap_calls : forall s c, P s -> P (s <| calls := c |>);
  ap_batches : forall s b, P s -> P (s <| batches := b |>);
  ap_next : forall s n, P s -> P (s <| next_desc := n |>);
  ap_world : forall s w, P s -> P (s <| kern ::= fun k => k <| k_world := w |> |>);
  ap_write : forall s p f, mild f -> P s -> P (s <| kern ::= fun k => k <| k_causes ::= alter f p |> |>);
  ap_add : forall cl id, stable P (in_kern (__cause_list_add cl id));
  ap_desc : forall s rq f, P s -> P (s <| rqs ::= alter (fun r => r <| rq_desc ::= fmap f |>) rq |>);
}.

Section Apart.
Context {K : KernelFns} {J : JiffyFns} {D : Driver} {P : afq -> Prop} (AP : apart P).

Lemma apart_upd_ad f : stable P (upd_ad f).
Proof. apply stable_modify. intros s Hs. exact (ap_ad _ AP s (f (ad s)) Hs). Qed.
Lemma apart_acct line p : stable P (acct line p).
Proof. apply stable_reads. intros s a s'. unfold acct. by case_match; intros; simplify_eq. Qed.
Lemma apart_get_rq line rq : stable P (get_rq line rq).
Proof. apply stable_reads. intros s a s'. unfold get_rq. by case_match; intros; simplify_eq. Qed.
Lemma apart_get_desc line rq : stable P (get_desc line rq).
Proof. apply stable_reads. intros s a s'. unfold get_desc. by repeat case_match; intros; simplify_eq. Qed.
Lemma apart_get_call line p : stable P (get_call line p).
Proof. apply stable_reads. intros s a s'. unfold get_call. by case_match; intros; simplify_eq. Qed.
Lemma apart_get_batch line b : stable P (get_batch line b).
Proof. apply stable_reads. intros s a s'. unfold get_batch. by case_match; intros; simplify_eq. Qed.
Lemma apart_get_pos line ino : stable P (inode_get_pos line ino).
Proof. apply stable_reads. intros s a s'. unfold inode_get_pos. by case_match; intros; simplify_eq. Qed.
Lemma apart_clock {A} (m : ST world A) : stable P (in_clock m).
Proof.
  intros s a s' Hs. unfold in_clock, in_kern, in_world, zoom. destruct (m _) as [[b w]|]; [|done].
  intros [= <- <-]. exact (ap_world _ AP s w Hs).
Qed.
Lemma apart_jiffies : stable P jiffies.
Proof. apply apart_clock. Qed.
Lemma apart_get_acct id : stable P (get_acct id).
Proof.
  intros s a s' Hs. unfold get_acct, zoom. destruct (get_account id _) as [[o [h w]]|]; [|done].
  intros [= <- <-]. exact (ap_world _ AP (s <| ad ::= fun d => d <| ad_accts := h |> |>) w (ap_ad _ AP s _ Hs)).
Qed.
Lemma apart_write p f : mild f -> stable P (in_kern (write_causes p f)).
Proof. intros Hf s a s' Hs [= <- <-]. exact (ap_write _ AP s p f Hf Hs). Qed.
Lemma apart_read line p : stable P (in_kern (read_causes line p)).
Proof.
  apply stable_reads. intros s a s'. unfold in_kern, zoom, read_causes. destruct (k_causes (kern s) !! p); [|done].
  intros [= <- <-]. by destruct s.
Qed.
Lemma apart_upd_calls f : stable P (modify (fun s => s <| calls ::= f |>)).
Proof. apply stable_modify. intros s Hs. exact (ap_calls _ AP s _ Hs). Qed.
Lemma apart_upd_batches f : stable P (modify (fun s => s <| batches ::= f |>)).
Proof. apply stable_modify. intros s Hs. exact (ap_batches _ AP s _ Hs). Qed.
Lemma apart_upd_desc rq f : stable P (upd_desc rq f).
Proof. apply stable_modify. intros s Hs. exact (ap_desc _ AP s rq f Hs). Qed.
Lemma apart_dispatch_sort rq : stable P (dispatch_sort rq).
Proof. apply stable_modify. intros s Hs. exact (ap_list _ AP s _ Hs). Qed.
Lemma apart_lock line : stable P (spin_lock line).
Proof. intros s a s' Hs. unfold spin_lock. destruct (lock (ad s)); [done |]. by apply apart_upd_ad. Qed.

#[local] Hint Resolve stable_ret stable_lift stable_gets apart_upd_ad apart_acct apart_get_rq apart_get_desc apart_get_call
  apart_get_batch apart_get_pos apart_clock apart_jiffies apart_get_acct apart_read apart_upd_calls apart_upd_batches
  apart_upd_desc apart_dispatch_sort apart_lock ap_add : apart.
#[local] Hint Extern 1 (partial _ (upd_acct _ _) _) => apply apart_upd_ad : apart.
#[local] Hint Extern 1 (partial _ (upd_batch _ _) _) => apply apart_upd_batches : apart.
#[local] Hint Extern 1 (partial _ (in_kern (causes_set_cost _ _)) _) => apply apart_write; done : apart.
#[local] Hint Extern 1 (partial _ (in_kern (write_causes _ _)) _) => apply apart_write; done : apart.
Ltac apart := repeat first [solve [eauto 2 with apart nocore] | stable_step].

Lemma apart_need_acct line id : stable P (need_acct line id).
Proof. unfold need_acct. apart. Qed.
Lemma apart_update_min : stable P update_active_min.
Proof. unfold update_active_min, all_accts, active_min_turn. apart. Qed.
#[local] Hint Resolve apart_need_acct apart_update_min : apart.
Lemma apart_add_vio p n : stable P (add_vio_counter p n).
Proof. unfold add_vio_counter, all_accts. apart. Qed.
#[local] Hint Resolve apart_add_vio : apart.
Lemma apart_add_estimate p n : stable P (add_estimate_vio p n).
Proof. unfold add_estimate_vio. apart. Qed.
#[local] Hint Resolve apart_add_estimate : apart.

Lemma apart_pos_seq r c : stable P (pos_seq_causes r c).
Proof. unfold pos_seq_causes, afq_accout_pos_seq_update. apart. Qed.
Lemma apart_batch_cause c off full id : stable P (batch_cause c off full id).
Proof. unfold batch_cause. apart. Qed.
Lemma apart_settle : stable P settle_batches.
Proof. unfold settle_batches, all_accts, charge_account. apart. Qed.
#[local] Hint Resolve apart_pos_seq apart_batch_cause apart_settle : apart.
Lemma apart_accounting causes off : stable P (do_disk_accounting causes off).
Proof. unfold do_disk_accounting. apart. Qed.
#[local] Hint Resolve apart_accounting : apart.
Lemma apart_account_causes causes off n : stable P (account_for_causes causes off n).
Proof. unfold account_for_causes. apart. Qed.
#[local] Hint Resolve apart_account_causes : apart.
Lemma apart_account_request d : stable P (afq_account_request2 d).
Proof. unfold afq_account_request2, account_for_bio, bio_tagged, account_for_item. apart. Qed.
Lemma apart_size_stat r : stable P (cause_list_size_stat2 r).
Proof. unfold cause_list_size_stat2, count_causes. apart. Qed.
#[local] Hint Resolve apart_account_request apart_size_stat : apart.

Lemma apart_unlock : stable P spin_unlock.
Proof. apply apart_upd_ad. Qed.
#[local] Hint Resolve apart_unlock : apart.
Lemma apart_cleanup live o : stable P (dec_check_cleanup_batch live o).
Proof. unfold dec_check_cleanup_batch, free_batch. apart. Qed.
Lemma apart_add_work w p : stable P (add_io_work_to_acct w p).
Proof. unfold add_io_work_to_acct, list_add_active. apart. Qed.
#[local] Hint Resolve apart_cleanup apart_add_work : apart.
Lemma apart_add_request cur rq : stable P (basic_sched_add_request cur rq).
Proof. unfold basic_sched_add_request. apart. Qed.
Lemma apart_complete_request rq : stable P (modify (taken_back rq);; basic_sched_complte_request rq).
Proof.
  unfold basic_sched_complte_request. apply stable_bind; [|intros _; apart].
  apply stable_modify. intros s Hs. exact (ap_list _ AP s _ Hs).
Qed.

Lemma apart_move_works b p works n : stable P (move_works b p works n).
Proof. revert n. induction works as [|w works IH]; intros n; simpl; apart. Qed.
#[local] Hint Resolve apart_move_works : apart.
Lemma apart_serve b p n again : (forall n, stable P (again n)) -> stable P (serve_acct b p n again).
Proof. intros Ha. unfold serve_acct, free_batch, list_del_active. apart. Qed.
Lemma apart_add_io_work fuel b n more : stable P (add_io_work fuel b n more).
Proof.
  revert n more. induction fuel as [|fuel IH]; intros n more; simpl; [apply stable_lift |].
  unfold least_turn, free_batch. apart. apply apart_serve. auto.
Qed.
#[local] Hint Resolve apart_serve apart_add_io_work : apart.
Lemma apart_select : stable P basic_sched_select_io_work.
Proof.
  unfold basic_sched_select_io_work, idle_for_last. apart.
  apply stable_modify. intros s Hs. exact (ap_batches _ AP (s <| next_desc ::= Pos.succ |>) _ (ap_next _ AP s _ Hs)).
Qed.
Lemma apart_submit b : stable P (basic_sched_submit_io_work b).
Proof. unfold basic_sched_submit_io_work, submit_work, get_io_work, FSYNC_IO, WR_IO, MKDIR_IO, REQ_IO, put_call, complete. apart. Qed.
#[local] Hint Resolve apart_select apart_submit : apart.
Lemma apart_dispatch force : stable P (basic_sched_dispatch force).
Proof. unfold basic_sched_dispatch, basic_sched_want_dispatch. apart. Qed.
#[local] Hint Resolve apart_dispatch : apart.
Lemma apart_ask n : stable P (ask_elevator n).
Proof. induction n as [|n IH]; simpl; apart. Qed.
Lemma apart_run_queue : stable P __blk_run_queue.
Proof. intros s a s' Hs E. by eapply (apart_ask (drv_asks s)). Qed.
#[local] Hint Resolve apart_run_queue : apart.

Lemma apart_caller line cur : stable P (caller_acct line cur).
Proof. unfold caller_acct, lower_global_min. apart. Qed.
Lemma apart_scheduled o : stable P (scheduled o).
Proof. unfold scheduled. apart. Qed.
Lemma apart_queue_call d p : stable P (queue_call d p).
Proof.
  unfold queue_call, new_call. apart. apply stable_modify. intros s Hs. exact (ap_calls _ AP (s <| next_desc ::= Pos.succ |>) _ (ap_next _ AP s _ Hs)).
Qed.
#[local] Hint Resolve apart_caller apart_scheduled apart_queue_call : apart.
Lemma apart_call_return o p uniq : stable P (call_return o p uniq).
Proof. unfold call_return, free_call. apart. Qed.
#[local] Hint Resolve apart_call_return : apart.

(** The hooks of the file systems. *)
Lemma apart_causes_dirty causes id inode pos : stable P (basic_sched_causes_dirty causes id inode pos).
Proof.
  unfold basic_sched_causes_dirty, inode_set_pos. apart. apply stable_modify. intros s Hs. exact (ap_inodes _ AP s _ Hs).
Qed.
Lemma apart_causes_free causes : stable P (basic_sched_causes_free causes).
Proof. unfold basic_sched_causes_free. apart. Qed.

(** The handlers that do not change the tags of a request. *)
Definition keeps_tags (h : handler) : bool := match h with SetRequest _ _ | PutRequest _ => false | _ => true end.

#[local] Hint Resolve apart_add_request apart_complete_request apart_causes_dirty apart_causes_free : apart.
Lemma apart_handler h : keeps_tags h = true -> stable P (run_handler h).
Proof.
  destruct h; intros Hh; try done; cbn [run_handler];
    unfold basic_sched_write_entry, write_entry_admit, write_entry_sched, basic_sched_mkdir_entry, mkdir_entry_admit,
      mkdir_entry_sched, basic_sched_fsync_entry, basic_sched_write_return, basic_sched_mkdir_return,
      basic_sched_fsync_return, WR_IO, MKDIR_IO, FSYNC_IO, basic_kv_set_callback, new_batch_wait_timer_func,
      batch_dead_timer_func; apart.
Qed.
End Apart.

(** ** Two facts of that kind *)

Lemma rq_tags_desc s rq f : rq_tags (s <| rqs ::= alter (fun r => r <| rq_desc ::= fmap f |>) rq |>) = rq_tags s.
Proof.
  unfold rq_tags. simpl. apply map_eq. intros x. rewrite !lookup_fmap, lookup_alter.
  case_decide; [subst x | done]. by destruct (rqs s !! rq).
Qed.

(** The references, the work items and the tags of the requests. *)
Record tags_apart (s0 s : afq) : Prop := {
  ta_refs : same_refs (kern s0) (kern s);
  ta_works : k_works (kern s) = k_works (kern s0);
  ta_tags : rq_tags s = rq_tags s0;
}.

Lemma tags_apart_apart s0 : apart (tags_apart s0).
Proof.
  split.
  1-6: intros s x [H1 H2 H3]; by split.
  - intros s w [H1 H2 H3]. split; [by destruct H1; split | done | done].
  - intros s p f [Hf _ _] [H1 H2 H3]. split; [|done | done]. transitivity (kern s); [done |]. by apply same_refs_alter.
  - intros cl id s a s' [H1 H2 H3]. unfold in_kern, zoom. destruct (__cause_list_add _ _ _) as [[rv k]|] eqn:E; [|done].
    intros [= <- <-]. split; [|simpl; by rewrite (add_works _ _ _ _ _ E) | done]. transitivity (kern s); [done |]. by eapply add_refs.
  - intros s rq f [H1 H2 H3]. split; [done | done |]. by rewrite rq_tags_desc.
Qed.

(** The sizes of the lists and the work items. *)
Definition fits_apart (works : list (option ptr)) (s : afq) : Prop := heap_fits works none (kern s).

Lemma fits_apart_apart works : apart (fits_apart works).
Proof.
  split; unfold fits_apart.
  1-6: intros s x H1; exact H1.
  - intros s w H1. by eapply fits_same.
  - intros s p f [_ Hi Hs] H1. apply (fits_alter works none); [done | | done].
    intros c [[Hc1 Hc2] Hc3]. destruct (Hi c) as [E1 E2]. split; [split; by rewrite ?E1, ?E2 | by rewrite Hs].
  - intros cl id s a s' H1. unfold in_kern, zoom. destruct (__cause_list_add _ _ _) as [[rv k]|] eqn:E; [|done].
    intros [= <- <-]. by eapply (stable_add works none).
  - intros s rq f H1. exact H1.
Qed.

(** ** The hooks leave the works alone *)

Record unmoved (s0 s : afq) : Prop := {
  um_works : same_works s0 s;
  um_lock : lock (ad s) = lock (ad s0);
  um_uniq : q_sched_uniq s = q_sched_uniq s0;
}.

(** The state but for the kernel, the inodes and the numbers of the accounts. *)
Lemma unmoved_same s0 s s' :
  unmoved s0 s -> rqs s' = rqs s -> calls s' = calls s -> batches s' = batches s -> next_desc s' = next_desc s ->
  dispatch_list s' = dispatch_list s -> q_sched_uniq s' = q_sched_uniq s -> lock (ad s') = lock (ad s) ->
  active_acct_list (ad s') = active_acct_list (ad s) -> (forall p, works_of s' p = works_of s p) -> unmoved s0 s'.
Proof.
  intros [[H1 H2 H3 H4 H5 H6 H7] H8 H9]. intros. split; [split | |]; try congruence; intros p; by rewrite <- H2.
Qed.

Section Unmoved.
Context {K : KernelFns} {J : JiffyFns} (s0 : afq).

Lemma unmoved_acct p f : (forall a, io_work_list_head (f a) = io_work_list_head a) -> stable (unmoved s0) (upd_acct p f).
Proof.
  intros Hf. apply stable_modify. intros s Hs. eapply unmoved_same; [exact Hs | done.. |].
  intros q. unfold works_of, heap. simpl. destruct (decide (q = p)) as [->|Hne].
  - rewrite list_lookup_alter_eq. destruct (a_heap (ad_accts (ad s)) !! p); simpl; [by rewrite Hf | done].
  - by rewrite list_lookup_alter_ne by done.
Qed.

Lemma unmoved_min f :
  (forall d, lock (f d) = lock d /\ active_acct_list (f d) = active_acct_list d /\ ad_accts (f d) = ad_accts d) ->
  stable (unmoved s0) (upd_ad f).
Proof.
  intros Hf. apply stable_modify. intros s Hs. destruct (Hf (ad s)) as (E1 & E2 & E3).
  eapply unmoved_same; [exact Hs | done.. |]. intros q. unfold works_of, heap. simpl. by rewrite E3.
Qed.

Lemma unmoved_kern {A} (m : ST kernel A) : stable (unmoved s0) (in_kern m).
Proof.
  intros s a s' Hs. unfold in_kern, zoom. destruct (m (kern s)) as [[b k]|]; [|done].
  intros [= <- <-]. by eapply unmoved_same.
Qed.

(** Looking up an account may make one, which has no works. *)
Lemma get_account_heap id h w o h' w' :
  get_account id (h, w) = Ok (o, (h', w')) ->
  a_heap h' = a_heap h \/ exists a, a_heap h' = a_heap h ++ [a] /\ io_work_list_head a = [].
Proof.
  unfold get_account. unfold bind at 1, gets. simpl. destruct (find_account h id); [intros [= _ <- _]; by left |].
  unfold bind at 1, zoom. simpl. destruct (new_account id w) as [[[a|] w1]|] eqn:E; [| |done].
  - intros [= _ <- _]. right. exists a. split; [done |]. revert E. unfold new_account, sim_batch_new, bind, kmalloc, read_jiffies, ret, gets.
    simpl. repeat case_match; intros; by simplify_eq.
  - intros [= _ <- _]. by left.
Qed.

Lemma unmoved_get_acct id : stable (unmoved s0) (get_acct id).
Proof.
  intros s a s' Hs. unfold get_acct, zoom. destruct (get_account id _) as [[o [h w]]|] eqn:E; [|done].
  intros [= <- <-]. eapply unmoved_same; [exact Hs | done.. |]. intros q. unfold works_of, heap. simpl.
  destruct (get_account_heap _ _ _ _ _ _ E) as [->|(b & -> & Hb)]; [done |].
  destruct (a_heap (ad_accts (ad s)) !! q) as [c|] eqn:Eq; [by rewrite (lookup_app_l_Some _ _ _ _ Eq) |].
  rewrite lookup_app_r by (by apply lookup_ge_None). destruct (_ - _)%nat; simpl; [by rewrite Hb | done].
Qed.

Lemma unmoved_read_acct line p : stable (unmoved s0) (acct line p).
Proof. apply stable_reads. intros s a s'. unfold acct. by case_match; intros; simplify_eq. Qed.
Lemma unmoved_read_pos line ino : stable (unmoved s0) (inode_get_pos line ino).
Proof. apply stable_reads. intros s a s'. unfold inode_get_pos. by case_match; intros; simplify_eq. Qed.

#[local] Hint Resolve stable_ret stable_lift stable_gets unmoved_kern unmoved_get_acct unmoved_read_acct unmoved_read_pos : unmoved.
#[local] Hint Extern 1 (partial _ (upd_acct _ _) _) => apply unmoved_acct; done : unmoved.
#[local] Hint Extern 1 (partial _ (upd_ad _) _) => apply unmoved_min; done : unmoved.
Ltac unmoved := repeat first [solve [eauto 2 with unmoved nocore] | stable_step].

Lemma unmoved_add_vio p n : stable (unmoved s0) (add_vio_counter p n).
Proof. unfold add_vio_counter, update_active_min, all_accts, active_min_turn, jiffies, in_clock. unmoved. Qed.
#[local] Hint Resolve unmoved_add_vio : unmoved.

Lemma unmoved_causes_dirty causes id inode pos : stable (unmoved s0) (basic_sched_causes_dirty causes id inode pos).
Proof.
  unfold basic_sched_causes_dirty, inode_set_pos, need_acct, add_estimate_vio. unmoved.
  apply stable_modify. intros s Hs. by eapply unmoved_same.
Qed.
Lemma unmoved_causes_free causes : stable (unmoved s0) (basic_sched_causes_free causes).
Proof. unfold basic_sched_causes_free, need_acct. unmoved. Qed.
End Unmoved.
