(* ===== verification/AfqHost.v ===== *)
(** * The actually-fair-queuing scheduler under the file systems

    The hooks of the scheduler keep its promises to the code that dirties pages and frees cause
    lists ([HostOk], [FsHostOk]), as long as memory is not short: they return, and leave the reference
    counts alone.  Nothing is assumed of the tags of the requests ([bare_env]). *)

From S2P Require Import Prelude Keeps Partial CInt Kernel DiskSim IoBatch HashTable CauseTags CauseRefs Tags Jiffies.
From S2P Require Import SplitAccount SplitSched IoctlHelper Afq AfqOps AfqInv AfqVio AfqAccount AfqHooks AfqRuns AfqAloof.
From S2P Require Import Buffers BuffersInv BuffersRuns BuffersFit StackLib.

Section AfqHost.
Context {K : KernelFns} {KO : KernelOk K} {J : JiffyFns} {D : Driver} (q0 : ptr).

(** The scheduler runs on the queue [q0]; the disks of other queues have none with hooks. *)
Definition afq_host : Host afq := {|
  ker := kern;
  set_ker k s := s <| kern := k |>;
  queue_sched_uniq q s := if decide (q = q0) then q_sched_uniq s else 0;
  elevator_causes_free_fn q s := if decide (q = q0) then Some basic_sched_causes_free else None;
|}.
#[local] Existing Instance afq_host.

(** The inodes it knows are files on its disk. *)
Definition afq_fs : FsHost afq := {|
  inode_queue inode s := match inodes s !! inode with Some _ => Some q0 | None => None end;
  elevator_causes_dirty_fn q s :=
    if decide (q = q0) then Some (fun causes task inode pos => basic_sched_causes_dirty causes (task_account_id task) inode pos)
    else None;
|}.
#[local] Existing Instance afq_fs.

(** The data the accounting works on, whatever the tags. *)
Definition books_ok (s : afq) : Prop := @data_inv _ bare_env s /\ calm false s.

Lemma books_kern s k : books_ok s -> w_alloc (k_world k) = w_alloc (k_world (kern s)) -> books_ok (s <| kern := k |>).
Proof. intros [Hd Hc] Hw. split; [|exact Hc]. by apply (@data_inv_kern _ bare_env). Qed.

Lemma free_books causes s :
  books_ok s -> has_causes causes s ->
  exists s', basic_sched_causes_free causes s = Ok (tt, s') /\ books_ok s' /\ same_refs (kern s) (kern s').
Proof.
  intros [Hd Hc] Hh. destruct (@keeps_free _ _ _ bare_env causes s Hd (conj Hc Hh)) as ([] & s' & E & Hd' & _ & Hc').
  exists s'. split_and!; [done | done |]. by apply (apart_causes_free (tags_apart_apart s) causes s tt s').
Qed.

Lemma dirty_books causes id inode pos s :
  books_ok s -> has_causes causes s -> is_Some (inodes s !! inode) ->
  exists s', basic_sched_causes_dirty causes id inode pos s = Ok (tt, s') /\ books_ok s' /\ same_refs (kern s) (kern s').
Proof.
  intros [Hd Hc] Hh Hi. destruct (@keeps_dirty _ _ _ bare_env causes id inode pos s Hd (conj Hc (conj Hh Hi))) as ([] & s' & E & Hd' & _ & Hc').
  exists s'. split_and!; [done | done |]. by apply (apart_causes_dirty (tags_apart_apart s) causes id inode pos s tt s').
Qed.

Definition afq_host_ok : HostOk afq.
Proof.
  refine {| host_inv := books_ok |}.
  - done.
  - by intros [].
  - intros k s Hs Hk. apply books_kern; [done | apply Hk].
  - intros s p c Hs Hc. simpl in Hc.
    assert (Hnot : exists s', ret tt s = Ok (tt, s') /\ same_refs (kern s) (kern s') /\
      forall k, k_causes k = delete p (k_causes (kern s')) -> k_world k = k_world (kern s') -> books_ok (s' <| kern := k |>)).
    { exists s. split_and!; [done | done |]. intros k _ Ew. apply books_kern; [done | by rewrite Ew]. }
    unfold notify. destruct (callback_q c) as [q|]; [|done]. unfold bind, gets. destruct (_ =? _); [|done].
    cbn [elevator_causes_free_fn afq_host]. case_decide; [|done].
    destruct (free_books p s Hs) as (s' & E & Hs' & Hr); [by exists c |].
    exists s'. split_and!; [done | done |]. intros k _ Ew. apply books_kern; [done | by rewrite Ew].
Defined.
#[local] Existing Instance afq_host_ok.

Lemma afq_fs_ok : FsHostOk afq.
Proof.
  split. intros s inode q p c task pos size Hs Hq Hc. simpl in Hq, Hc.
  destruct (inodes s !! inode) as [ipos|] eqn:Ei; [|done]. injection Hq as <-.
  assert (Htell : exists s1, match callback_q c with
      | None => (let! uniq := gets (queue_sched_uniq q0) in
                 in_kernel (write_causes p (fun c => c <| callback_q := Some q0 |> <| cl_sched_uniq := uniq |> <| cl_size := u64 size |>)))
      | Some _ => ret tt end s = Ok (tt, s1) /\ books_ok s1 /\ same_refs (kern s) (kern s1) /\ has_causes p s1 /\
      inodes s1 !! inode = Some ipos).
  { destruct (callback_q c); [exists s; split_and!; [done | done | done | by exists c | done] |].
    eexists. split; [reflexivity |]. split_and!; [by apply books_kern | by apply same_refs_alter | | done].
    unfold has_causes. simpl. rewrite lookup_alter_eq, Hc. by eexists. }
  destruct Htell as (s1 & E1 & Hs1 & Hr1 & [c1 Hc1] & Ei1). unfold tell_scheduler. rewrite (bind_ok _ _ _ _ _ E1).
  unfold bind at 1, gets. cbn [elevator_causes_dirty_fn afq_fs]. rewrite decide_True by done.
  rewrite (bind_ok _ _ s1 c1 s1) by (by apply in_kernel_read). unfold bind at 1.
  destruct (_ =? _); [|by exists s1].
  destruct (dirty_books p (task_account_id task) inode pos s1 Hs1) as (s' & E & Hs' & Hr); [by exists c1 | by rewrite Ei1 |].
  exists s'. split_and!; [done | done | by transitivity (kern s1)].
Qed.

(** What the file systems leave alone: the works, the requests and the work items. *)
Definition fs_apart (works : list (option ptr)) (s0 s : afq) : Prop := fits_apart works s /\ unmoved s0 s.

Lemma fs_apart_obliging works s0 : Obliging works (fs_apart works s0).
Proof.
  split; simpl.
  - done.
  - by intros s [H _].
  - intros s k [_ H] Hk. split; [done |]. by eapply unmoved_same.
  - intros q fn p s E. case_decide; [|done]. injection E as <-.
    apply stable_both; [by apply apart_causes_free, fits_apart_apart | apply unmoved_causes_free].
  - intros q fn p task inode pos s E. case_decide; [|done]. injection E as <-.
    apply stable_both; [by apply apart_causes_dirty, fits_apart_apart | apply unmoved_causes_dirty].
Qed.
End AfqHost.
