(* ===== verification/AfqStack.v ===== *)
(** * The actually-fair-queuing scheduler in the kernel that is patched for it

    The whole machine: file systems, journal and block layer with the patches (Buffers.v), the
    scheduler on their disk, and requests made of their bios.  In AfqRuns.v the rest of the kernel was
    anything that keeps the tags of the requests in order; here it is the code of the patches, and that
    the tags are in order is proved, from the reference counts. *)

From S2P Require Import Prelude Keeps Partial CInt Kernel DiskSim IoBatch HashTable CauseTags CauseRefs Tags Jiffies.
From S2P Require Import SplitAccount SplitSched IoctlHelper Registry Afq AfqOps AfqInv AfqVio AfqAccount AfqHooks.
From S2P Require Import AfqWorks AfqSelect AfqSubmit AfqPool AfqCalls AfqRequests AfqRuns AfqAloof AfqHost.
From S2P Require Import Buffers BuffersInv BuffersOps BuffersRuns BuffersFit StackLib RequestTags.

(** ** The machine *)

(** [fk_bios] has the addresses of the bios of each request. *)
Record fair := Fair { fk_glue : glue afq; fk_bios : gmap ptr (list ptr) }.
#[export] Instance eta_fair : Eta fair := fun x => Fair (fk_glue x) (fk_bios x).

Abbreviation fk_host x := (g_host (fk_glue x)).
Abbreviation fk_mem x := (g_mem (fk_glue x)).

Inductive fstep :=
  | FFs (o : op)                                   (* the code of the patches *)
  | FHandle (h : handler)                          (* a handler, a timer or a turn of a thread *)
  | FGetRequest (rq : ptr) (write : bool)          (* get_request, which calls set_request *)
  | FAddBio (rq bi : ptr) (sector size pos : Z) (front : bool)   (* a bio joins a request *)
  | FFreeRequest (rq : ptr)                        (* put_request is called and the request freed *)
  | FRunWork.                                      (* the work queue runs do_put_cause_list_work *)

Section Stack.
Context {K : KernelFns} {KO : KernelOk K} {J : JiffyFns} {D : Driver} (q0 : ptr).
#[local] Instance fk_the_host : Host afq := afq_host q0.
#[local] Instance fk_the_fs : FsHost afq := afq_fs q0.
#[local] Instance fk_the_host_ok : HostOk afq := afq_host_ok q0.
#[local] Instance fk_the_fs_ok : FsHostOk afq := afq_fs_ok q0.

Definition on_glue {A} (m : ST (glue afq) A) : ST fair A := zoom fk_glue (fun g x => x <| fk_glue := g |>) m.
Definition on_afq {A} (m : ST afq A) : ST fair A := on_glue (in_host m).
Definition edit_rqs (f : gmap ptr request -> gmap ptr request) : ST fair unit :=
  on_afq (modify (fun s => s <| rqs ::= f |>)).
Definition edit_lost (f : list (option ptr) -> list (option ptr)) : ST fair unit :=
  on_glue (change (fun m => m <| lost ::= f |>)).

Definition run_fstep (a : fstep) : ST fair unit :=
  match a with
  | FFs o => on_glue (run_op o)
  | FHandle h => on_afq (run_handler h)
  | FGetRequest rq write =>
      edit_rqs <[rq := Rq write 0 [] None None]>;;
      modify (fun x => x <| fk_bios ::= <[rq := []]> |>);;
      on_afq (basic_sched_set_request q0 rq);;
      let! r := on_afq (get_rq 0 rq) in
      edit_lost (cons (RQ_CAUSES r))
  | FAddBio rq bi sector size pos front =>
      let! v := on_glue (get_bio 0 bi) in
      let v := v <| bi_sector := sector |> <| bi_size := size |> in
      on_glue (set_bio bi v);;
      edit_rqs (alter (fun r => r <| rq_bio ::= join_bio front v |> <| blk_rq_pos := pos |>) rq);;
      modify (fun x => x <| fk_bios ::= alter (join_bio front bi) rq |>)
  | FFreeRequest rq =>
      on_afq (basic_sched_put_request rq);;
      edit_rqs (delete rq);;
      modify (fun x => x <| fk_bios ::= delete rq |>)
  | FRunWork =>
      let! works := gets (fun x => k_works (kern (fk_host x))) in
      match works with
      | [] => ret tt
      | cl :: _ => on_afq do_put_cause_list_work;; edit_lost (drop_ref cl)
      end
  end.

Definition fk_flight (x : fair) (bi : ptr) : Prop := has_bio (fk_bios x) bi.

(** What the kernel around the patches and the scheduler promises. *)
Definition fstep_ready (a : fstep) (x : fair) : Prop :=
  match a with
  | FFs o => ready o (fk_mem x) /\ BuffersRuns.roomy (fk_glue x) /\ sizes_ok o /\ Forall (fun bi => ~ fk_flight x bi) (touched o)
  | FHandle h => keeps_tags h = true /\ callable h (fk_host x) /\
      match h with CausesDirty _ _ _ _ | CausesFree _ => False | _ => True end
  | FGetRequest rq _ => rqs (fk_host x) !! rq = None
  | FAddBio rq bi sector _ _ _ =>
      is_Some (rqs (fk_host x) !! rq) /\ is_Some (bios (fk_mem x) !! bi) /\ ~ fk_flight x bi /\ 0 <= sector < 0x4000000000000
  | FFreeRequest rq => is_Some (rqs (fk_host x) !! rq) /\ absent (fk_host x) rq
  | FRunWork => True
  end.

(** Memory is never short: the scheduler follows NULL otherwise. *)
Inductive freach : fair -> Prop :=
  | fr_boot s init q disks d disks' w' :
      (forall n, w_alloc (k_world (kern s)) n = true) ->
      k_causes (kern s) = ∅ -> k_works (kern s) = [] -> rqs s = ∅ -> calls s = ∅ -> batches s = ∅ -> dispatch_list s = [] ->
      basic_sched_init_data true true q disks (k_world (kern s)) = Ok ((0, Some d, disks'), w') ->
      freach (Fair (Glue (s <| kern ::= fun k => k <| k_world := w' |> |> <| ad := d |>) (boot_memory init)) ∅)
  | fr_act a x x' : freach x -> fstep_ready a x -> run_fstep a x = Ok (tt, x') -> freach x'.

(** ** The invariant *)

Record fair_inv (x : fair) : Prop := {
  fi_books : books_ok (fk_host x);
  fi_rqs : requests_ok (kern (fk_host x)) (fk_mem x) (fk_bios x) (rq_tags (fk_host x));
  fi_work : work_inv None [] (fk_host x);
  fi_lock : lock (ad (fk_host x)) = false;
}.

Lemma fair_glue x : fair_inv x -> ginv (fk_glue x).
Proof. intros [Hb Hr _ _]. split_and!; [done | apply Hr | apply Hr]. Qed.

(** The tags of the requests are in order. *)
Lemma fair_env x : fair_inv x -> env_wf (kern (fk_host x)) (rqs (fk_host x)).
Proof. intros Hx. eapply rk_env, (fi_rqs _ Hx). Qed.

Lemma fair_afq_inv x : fair_inv x -> afq_inv (fk_host x).
Proof.
  intros Hx. pose proof (fair_env x Hx) as He. destruct Hx as [[[H1 H2 H3 H4 H5 H6 H7 _ H9] Hc] _ Hw Hl]. split; [by split | done..].
Qed.

Lemma books_of s : afq_inv s -> books_ok s.
Proof. intros [[H1 H2 H3 H4 H5 H6 H7 _ H9] Hc _ _]. split; [by split | done]. Qed.

(** ** Every act keeps it *)

Lemma on_glue_run {A} (m : ST (glue afq) A) g b a g' : m g = Ok (a, g') -> on_glue m (Fair g b) = Ok (a, Fair g' b).
Proof. intros E. unfold on_glue, zoom. simpl. by rewrite E. Qed.

Lemma on_afq_run {A} (m : ST afq A) h M b a h' :
  m h = Ok (a, h') -> on_afq m (Fair (Glue h M) b) = Ok (a, Fair (Glue h' M) b).
Proof. intros E. apply on_glue_run. unfold in_host. simpl. by rewrite E. Qed.

(** The file systems have run: the works are where they were. *)
Lemma fair_unmoved s s' M' b :
  work_inv None [] s -> lock (ad s) = false -> unmoved s s' -> books_ok s' -> requests_ok (kern s') M' b (rq_tags s) ->
  fair_inv (Fair (Glue s' M') b).
Proof.
  intros Hw Hl [Hs E _] Hb Hr. split; cbn [fk_glue fk_bios g_host g_mem]; [done | | by eapply same_works_inv | congruence].
  unfold rq_tags in *. by rewrite (sw_rqs _ _ Hs).
Qed.

(** There is memory for whatever an act needs. *)
Lemma fair_enough o x : fair_inv x -> enough o (fk_glue x).
Proof. intros Hx. destruct o; simpl; try done. intros _. apply (di_alloc _ (proj1 (fi_books _ Hx))). Qed.

Lemma ffs_run o x :
  fair_inv x -> fstep_ready (FFs o) x ->
  exists x', run_fstep (FFs o) x = Ok (tt, x') /\ fair_inv x' /\ same_pool (abs (fk_host x)) (abs (fk_host x')).
Proof.
  intros Hx (Hr & Hm & Hs & Hf). destruct x as [g b]. pose proof (fi_rqs _ Hx) as Hq. simpl in Hq.
  destruct (op_run o g (fair_glue _ Hx) Hr Hm (fair_enough o _ Hx)) as (g' & E & (Ha' & Ho' & Hm') & [[new El] _]).
  exists (Fair g' b). split; [by apply on_glue_run |]. rewrite list.Forall_forall in Hf.
  set (works := k_works (kern (g_host g))).
  pose proof (@op_fits afq _ _ works (fs_apart works (g_host g)) (fs_apart_obliging q0 works _) (touched o) (bios (g_mem g)) o Hs (fun bi H => H)) as Hfit.
  destruct (Hfit g tt g') as [[Hk Hu] Hb Hkept]; [|exact E|].
  { split; [split; [apply Hq | split; [|done..]; by split] | apply Hq | done]. }
  split; [|by apply same_works_pool, Hu]. destruct g' as [s' M']. eapply (fair_unmoved (g_host g)); [apply Hx.. | done | done |].
  eapply rk_fs; [exact Hq | done | done | done | done | | exact El]. intros bi Hbi. apply Hkept. intros Hin. by apply (Hf bi Hin).
Qed.

Lemma fhandle_run h x :
  fair_inv x -> fstep_ready (FHandle h) x ->
  exists x' acts, run_fstep (FHandle h) x = Ok (tt, x') /\ fair_inv x' /\
    history acts (abs (fk_host x)) (abs (fk_host x')) /\ allowed h (heap (fk_host x)) acts.
Proof.
  intros Hx (Ht & Hc & _). destruct x as [[s M] b]. simpl in *.
  destruct (afq_handler_run h s (fair_afq_inv _ Hx) Hc) as (s' & acts & E & Hi & Hh & Ha).
  exists (Fair (Glue s' M) b), acts. split; [by apply on_afq_run |]. split; [|done].
  assert (Hu : tags_apart s s') by (eapply (apart_handler (tags_apart_apart s) h Ht); [by split | exact E]).
  destruct Hu as [Hr Hw Htg]. pose proof (fi_rqs _ Hx) as Hq. simpl in Hq.
  split; cbn [fk_glue fk_bios g_host g_mem]; [by apply books_of | | apply Hi | apply Hi].
  rewrite Htg. eapply rk_written; [exact Hq | done | done |].
  eapply (apart_handler (fits_apart_apart (k_works (kern s))) h Ht); [apply Hq | exact E].
Qed.

(** The requests that the scheduler does not have may come, go and change. *)
Lemma fair_requests s M b k rs M' b' :
  fair_inv (Fair (Glue s M) b) -> w_alloc (k_world k) = w_alloc (k_world (kern s)) ->
  (forall q, q ∈ dispatch_list s \/ OfReq q ∈ pending s -> rq_desc <$> rs !! q = rq_desc <$> rqs s !! q) ->
  requests_ok k M' b' ((fun r => (rq_bio r, RQ_CAUSES r)) <$> rs) ->
  fair_inv (Fair (Glue (s <| kern := k |> <| rqs := rs |>) M') b') /\
    same_pool (abs s) (abs (s <| kern := k |> <| rqs := rs |>)).
Proof.
  intros Hx Hk Hr Hq. assert (Ha : forall n, w_alloc (k_world k) n = true) by (intros n; rewrite Hk; apply (di_alloc _ (proj1 (fi_books _ Hx)))).
  destruct (afq_inv_rqs s k rs (fair_afq_inv _ Hx)) as [Hi P]; [by eapply rk_env | done | done |].
  split; [|done]. split; [by apply books_of | done | apply Hi | apply Hi].
Qed.

Lemma there_desc s q : work_inv None [] s -> q ∈ dispatch_list s \/ OfReq q ∈ pending s -> is_Some (rqs s !! q).
Proof.
  intros Hw [Hq|Hq].
  - destruct (wi_list _ _ _ Hw q Hq) as (d & (r & Hr & _) & _). by exists r.
  - destruct (wi_waiting _ _ _ Hw (OfReq q)) as [(d & [(r & Hr & _) _] & _) _]; [by rewrite app_nil_r |]. by exists r.
Qed.

Lemma fget_run rq write x :
  fair_inv x -> fstep_ready (FGetRequest rq write) x ->
  exists x', run_fstep (FGetRequest rq write) x = Ok (tt, x') /\ fair_inv x' /\ same_pool (abs (fk_host x)) (abs (fk_host x')).
Proof.
  intros Hx Hn. destruct x as [[s M] b]. simpl in Hn. pose proof (fi_rqs _ Hx) as Hq. simpl in Hq.
  set (k1 := (kern s) <| k_world ::= alloc_step |>). destruct (new_cause_list_total k1) as (c & k2 & E2).
  set (d := ReqDesc None (IoWork (if write then SCHED_WRITE_REQ else SCHED_READ_REQ) 0) rq q0 None).
  set (r := Rq write 0 [] (Some d) c). set (rs := <[rq := r]> (rqs s)).
  assert (Eset : split_set_request q0 rq write (RqState (kern s) None None) = Ok (0, RqState k2 (Some d) c)).
  { unfold split_set_request. rewrite (bind_ok _ _ _ (inl d) (RqState k1 None None)).
    2: { unfold get_req_desc, in_rs, in_world, zoom, bind, kmalloc. simpl. by rewrite (di_alloc _ (proj1 (fi_books _ Hx))). }
    unfold modify. erewrite (bind_ok (fun s => Ok (tt, _))) by done.
    by erewrite bind_ok by (unfold in_rs, zoom; simpl; rewrite E2; done). }
  destruct (fair_requests s M b k2 rs (M <| lost ::= cons c |>) (<[rq := []]> b)) as [Hx' P]; [done | | | |].
  - exact (new_alloc _ _ _ E2).
  - intros q Hin. unfold rs. rewrite lookup_insert_ne; [done |]. intros <-.
    destruct (there_desc s rq (fi_work _ Hx) Hin) as [? ?]. simpl in *. congruence.
  - unfold rs. rewrite fmap_insert. apply (rk_new k1); [|unfold rq_tags in *; by rewrite lookup_fmap, Hn | done].
    eapply rk_written; [exact Hq | done | done |]. eapply fits_same; [apply Hq | done | done].
  - eexists. split; [|split; [exact Hx' | exact P]]. simpl. unfold edit_rqs.
    erewrite bind_ok by (apply on_afq_run; reflexivity). unfold bind at 1, modify. simpl.
    erewrite bind_ok.
    2: { apply on_afq_run. unfold basic_sched_set_request. erewrite bind_ok by (unfold get_rq; simpl; rewrite lookup_insert_eq; reflexivity).
         unfold on_private. erewrite bind_ok by (unfold get_rq; simpl; rewrite lookup_insert_eq; reflexivity).
         unfold zoom. cbn [kern rq_desc RQ_CAUSES rq_write upd update_field]. rewrite Eset. reflexivity. }
    erewrite bind_ok.
    2: { apply on_afq_run. unfold get_rq. simpl. rewrite lookup_alter_eq, lookup_insert_eq. reflexivity. }
    unfold rs. simpl. unfold edit_lost, on_glue, zoom. simpl. by rewrite alter_insert_eq.
Qed.

Lemma fadd_bio_run rq bi sector size pos front x :
  fair_inv x -> fstep_ready (FAddBio rq bi sector size pos front) x ->
  exists x', run_fstep (FAddBio rq bi sector size pos front) x = Ok (tt, x') /\ fair_inv x' /\
    same_pool (abs (fk_host x)) (abs (fk_host x')).
Proof.
  intros Hx ([r Hr] & [v Hv] & Hfl & Hsec). destruct x as [[s M] b]. simpl in *. pose proof (fi_rqs _ Hx) as Hq. simpl in Hq.
  assert (Ht : rq_tags s !! rq = Some (rq_bio r, RQ_CAUSES r)) by (unfold rq_tags; by rewrite lookup_fmap, Hr).
  destruct (rk_link _ _ _ _ Hq rq _ _ Ht) as (bs & Hbs & _).
  set (v' := v <| bi_sector := sector |> <| bi_size := size |>). set (r' := r <| rq_bio ::= join_bio front v' |> <| blk_rq_pos := pos |>).
  destruct (fair_requests s M b (kern s) (<[rq := r']> (rqs s)) (M <| bios ::= <[bi := v']> |>) (<[rq := join_bio front bi bs]> b)) as [Hx' P]; [done | done | | |].
  - intros q _. rewrite lookup_insert. case_decide; [subst q; by rewrite Hr | done].
  - rewrite fmap_insert. by apply (rk_add (kern s) M b (rq_tags s) rq (rq_bio r) (RQ_CAUSES r) bs bi v sector size front).
  - eexists. split; [|split; [exact Hx' | exact P]].
    erewrite bind_ok by (apply on_glue_run; unfold get_bio, in_mem; simpl; rewrite Hv; reflexivity).
    erewrite bind_ok by (apply on_glue_run; reflexivity). unfold edit_rqs. erewrite bind_ok by (apply on_afq_run; reflexivity).
    unfold modify. simpl. rewrite (alter_known _ _ _ _ Hbs), (alter_known _ _ _ _ Hr). by destruct s.
Qed.

Lemma ffree_run rq x :
  fair_inv x -> fstep_ready (FFreeRequest rq) x ->
  exists x', run_fstep (FFreeRequest rq) x = Ok (tt, x') /\ fair_inv x' /\ same_pool (abs (fk_host x)) (abs (fk_host x')).
Proof.
  intros Hx [[r Hr] [Hn1 Hn2]]. destruct x as [[s M] b]. simpl in *. pose proof (fi_rqs _ Hx) as Hq. simpl in Hq.
  set (k' := (kern s) <| k_world ::= alloc_step |> <| k_works ::= fun l => l ++ [RQ_CAUSES r] |>).
  destruct (fair_requests s M b k' (delete rq (rqs s)) M (delete rq b)) as [Hx' P]; [done | done | | |].
  - intros q Hin. rewrite lookup_delete_ne; [done |]. intros <-. by destruct Hin.
  - rewrite fmap_delete. eapply (rk_free (kern s)); [exact Hq | | done | done | by right].
    unfold rq_tags. by rewrite lookup_fmap, Hr.
  - eexists. split; [|split; [exact Hx' | exact P]].
    erewrite bind_ok.
    2: { apply on_afq_run. unfold basic_sched_put_request, on_private. erewrite bind_ok by (unfold get_rq; rewrite Hr; reflexivity).
         unfold zoom, split_put_request, put_cause_list_safe, in_rs, in_world, zoom, bind, kmalloc, modify, gets. simpl.
         rewrite (di_alloc _ (proj1 (fi_books _ Hx))). reflexivity. }
    unfold edit_rqs. erewrite bind_ok by (apply on_afq_run; reflexivity). unfold modify. simpl. by rewrite delete_alter_eq.
Qed.

Lemma fwork_run x :
  fair_inv x -> exists x', run_fstep FRunWork x = Ok (tt, x') /\ fair_inv x' /\ same_pool (abs (fk_host x)) (abs (fk_host x')).
Proof.
  intros Hx. destruct x as [[s M] b]. pose proof (fi_rqs _ Hx) as Hq. simpl in *. unfold bind at 1, gets. simpl.
  destruct (k_works (kern s)) as [|cl ws] eqn:Ew; [by exists (Fair (Glue s M) b) |].
  set (s1 := s <| kern ::= fun k => k <| k_works := ws |> |>).
  destruct (put_spec cl (holders M)) with (s := s1) as ([] & s' & u' & E & Ha' & Ho' & Hu').
  { intros q Eq. pose proof (lost_held M q). pose proof (rk_work_held _ _ _ _ _ _ q Hq Ew Eq). lia. }
  { by apply books_kern; [apply (fi_books _ Hx) |]. }
  { eapply owned_ext; [apply Hq | done..]. }
  pose proof (@stable_put_cause_list afq _ _ ws _ (fs_apart_obliging q0 ws s) cl s1 tt s') as Hsafe.
  destruct Hsafe as [Hk Hu]; [|exact E|].
  { destruct (rk_fits _ _ _ _ Hq) as [F1 F2 _]. split; [by split | by split]. }
  exists (Fair (Glue s' (M <| lost ::= drop_ref cl |>)) b). split; [|split; [|by apply same_works_pool, Hu]].
  - rewrite (bind_ok _ _ _ tt (Fair (Glue s' M) b)); [reflexivity |]. apply on_afq_run. unfold do_put_cause_list_work. unfold bind at 1, gets. simpl.
    rewrite Ew. erewrite bind_ok by reflexivity. exact E.
  - eapply (fair_unmoved s); [apply Hx.. | done | done |]. by eapply (rk_work (kern s)).
Qed.

(** ** Runs *)

(** What an act may do to the pool of works. *)
Definition fstep_spec (a : fstep) (s s' : afq) : Prop :=
  match a with
  | FHandle h => exists acts, history acts (abs s) (abs s') /\ allowed h (heap s) acts
  | _ => same_pool (abs s) (abs s')
  end.

Lemma fstep_run a x :
  fair_inv x -> fstep_ready a x ->
  exists x', run_fstep a x = Ok (tt, x') /\ fair_inv x' /\ fstep_spec a (fk_host x) (fk_host x').
Proof.
  intros Hx Ha. destruct a as [o|h|rq write|rq bi sector size pos front|rq|].
  - by apply ffs_run.
  - destruct (fhandle_run h x Hx Ha) as (x' & acts & E & Hx' & Hh & Hal). exists x'. split_and!; [done | done | by exists acts].
  - by apply fget_run.
  - by apply fadd_bio_run.
  - by apply ffree_run.
  - by apply fwork_run.
Qed.

Lemma fboot_inv s init q disks d disks' w' :
  (forall n, w_alloc (k_world (kern s)) n = true) ->
  k_causes (kern s) = ∅ -> k_works (kern s) = [] -> rqs s = ∅ -> calls s = ∅ -> batches s = ∅ -> dispatch_list s = [] ->
  basic_sched_init_data true true q disks (k_world (kern s)) = Ok ((0, Some d, disks'), w') ->
  fair_inv (Fair (Glue (s <| kern ::= fun k => k <| k_world := w' |> |> <| ad := d |>) (boot_memory init)) ∅).
Proof.
  intros Ha Ek Ew Er Ec Eb El Hinit.
  assert (Hq : requests_ok ((kern s) <| k_world := w' |>) (boot_memory init) ∅ ∅) by (by apply rk_boot).
  assert (He : env_wf (kern s) (rqs s)).
  { rewrite Er. apply (rk_env (kern s) (boot_memory init) ∅ (∅ : gmap ptr request)). rewrite fmap_empty. by apply rk_boot. }
  pose proof (afq_init_inv s q disks d disks' w' He Ha Ec Eb El Hinit) as Hi.
  split; cbn [fk_glue fk_bios g_host g_mem]; [by apply books_of | | apply Hi | apply Hi].
  unfold rq_tags. simpl. by rewrite Er, fmap_empty.
Qed.

Lemma freach_inv x : freach x -> fair_inv x.
Proof.
  induction 1 as [s init q disks d disks' w' Ha Ek Ew Er Ec Eb El Hi|a x x' _ IH Ha E].
  - by eapply fboot_inv.
  - destruct (fstep_run a x IH Ha) as (x1 & E1 & Hx1 & _). congruence.
Qed.

(** The life of the machine with the registry of disks, from the set-up of the scheduler on [q0]. *)
Definition fboots (disks : disk_list) (reg : bool) (x : fair) (disks' : disk_list) : Prop :=
  reg = true /\ exists s init d w', (forall n, w_alloc (k_world (kern s)) n = true) /\
    k_causes (kern s) = ∅ /\ k_works (kern s) = [] /\ rqs s = ∅ /\ calls s = ∅ /\ batches s = ∅ /\ dispatch_list s = [] /\
    basic_sched_init_data true true q0 disks (k_world (kern s)) = Ok ((0, Some d, disks'), w') /\
    x = Fair (Glue (s <| kern ::= fun k => k <| k_world := w' |> |> <| ad := d |>) (boot_memory init)) ∅.
Definition fsteps (x x' : fair) : Prop := exists a, fstep_ready a x /\ run_fstep a x = Ok (tt, x').
Definition fair_life : fair -> disk_list -> Prop := life q0 fboots fsteps true.

Lemma life_freach x disks : fair_life x disks -> freach x.
Proof.
  apply (life_keeps q0 fboots fsteps freach).
  - intros ds r y ds' (_ & s & init & d & w & Ha & Ek & Ew & Er & Ec & Eb & El & E & ->). by eapply fr_boot.
  - intros y y' Hy (a & Ha & E). by eapply fr_act.
Qed.

Lemma fboots_registers disks reg x disks' : fboots disks reg x disks' -> disks' = snd (ioctl_helper_register_disk reg disks q0).
Proof. intros (-> & s & init & d & w & Ha & _ & _ & _ & _ & _ & _ & E & _). by eapply afq_init_registers. Qed.

(** C3: the patched kernel with the fair-queuing scheduler does not crash as long as the scheduler is used with care: no
    allocation fails, the ioctl sets [ioprio] to 0 to 8 and [vio_counter] to no more than the threshold only, and the write hook
    gets the current number of the scheduler ([callable]).  Then, from
    the boot on, whatever is written, committed and written back, whatever requests are made of the bios,
    added, dispatched, completed and freed, and whatever system calls come and go, every operation of the file systems
    and the block layer on cause lists, every handler, every timer and every turn of a thread
    runs to its end: no NULL pointer or freed cause list or descriptor is used, no lock is taken twice, no loop runs for ever; and
    [basic_sched_exit_data] returns.  Requests are not merged: that hook is a BUG_ON, whenever it is called.
    The tags of the requests are in order, and the scheduler remains a pool of works, which only its handlers touch. *)
Theorem afq_kernel_no_fault x disks :
  fair_life x disks ->
  (forall a, fstep_ready a x ->
     exists x', run_fstep a x = Ok (tt, x') /\ fair_life x' disks /\ env_wf (kern (fk_host x')) (rqs (fk_host x')) /\
       fstep_spec a (fk_host x) (fk_host x')) /\
  (exists d' disks', basic_sched_exit_data q0 (ad (fk_host x)) disks = Ok (d', disks') /\ q0 ∉ disks') /\
  (forall rq next, run_fstep (FHandle (MergedRequests rq next)) x = Fault (BUG 511)).
Proof.
  intros Hl. split; [|split; [|done]].
  - intros a Ha. destruct (fstep_run a x (freach_inv _ (life_freach _ _ Hl)) Ha) as (x' & E & Hx' & Hs). exists x'.
    split_and!; [done | eapply life_step; [exact Hl | by exists a] | by apply fair_env | done].
  - apply afq_exit_run, (life_unregister q0 fboots fsteps fboots_registers true x disks Hl).
Qed.
End Stack.
