(* ===== verification/AfqStackExamples.v ===== *)
(** * The patched kernel with the fair-queuing scheduler: a concrete run

    A file is written, its buffers are submitted, requests are made of the bios, added and completed, a
    task calls fsync, and what is left is put by the work queue. *)

From S2P Require Import Prelude Keeps Partial CInt Kernel DiskSim IoBatch HashTable CauseTags CauseRefs Tags Jiffies.
From S2P Require Import SplitAccount SplitSched IoctlHelper Registry Afq AfqOps AfqInv AfqVio AfqAccount AfqHooks.
From S2P Require Import AfqWorks AfqSelect AfqSubmit AfqPool AfqCalls AfqRequests AfqRuns AfqExamples AfqAloof AfqHost.
From S2P Require Import Buffers BuffersInv BuffersOps BuffersRuns BuffersFit StackLib RequestTags AfqStack.

(** ** Running acts whose conditions can be checked *)

(** A request that was set up and not added yet. *)
Definition set_up (s : afq) (rq : ptr) : Prop :=
  match rqs s !! rq with
  | Some r =>
      match rq_desc r with
      | Some d => r_rq d = rq /\ r_owner_batch d = None /\
          iow_type (r_io_work d) = if rq_write r then SCHED_WRITE_REQ else SCHED_READ_REQ
      | None => False
      end
  | None => False
  end.
#[local] Instance set_up_dec s rq : Decision (set_up s rq).
Proof. unfold set_up. destruct (rqs s !! rq) as [r|]; [destruct (rq_desc r)|]; apply _. Defined.
#[local] Instance absent_dec s rq : Decision (absent s rq).
Proof. unfold absent. apply _. Defined.

Lemma set_up_fresh s rq : set_up s rq -> exists r d, fresh_req s rq r d.
Proof.
  unfold set_up. destruct (rqs s !! rq) as [r|] eqn:Er; [|done]. destruct (rq_desc r) as [d|] eqn:Ed; [|done].
  intros (H1 & H2 & H3). exists r, d. by split.
Qed.

Definition fchecked (a : fstep) (x : fair) : Prop :=
  match a with
  | FFs o => ready o (fk_mem x) /\ low_counts (kern (fk_host x)) /\ sizes_ok o /\ Forall (fun bi => bi ∉ flying (fk_bios x)) (touched o)
  | FHandle (Dispatch _) | FHandle (FsyncEntry _ _ _ _) => True
  | FHandle (AddRequest _ rq) => set_up (fk_host x) rq /\ absent (fk_host x) rq /\
      map_Forall (fun _ c => 0 <= item_count c) (k_causes (kern (fk_host x)))
  | FHandle (CompletedRequest rq) => rq ∈ dispatch_list (fk_host x)
  | FGetRequest rq _ => rqs (fk_host x) !! rq = None
  | FAddBio rq bi sector _ _ _ =>
      is_Some (rqs (fk_host x) !! rq) /\ is_Some (bios (fk_mem x) !! bi) /\ bi ∉ flying (fk_bios x) /\ 0 <= sector < 0x4000000000000
  | FFreeRequest rq => is_Some (rqs (fk_host x) !! rq) /\ absent (fk_host x) rq
  | FRunWork => True
  | _ => False
  end.
#[local] Instance fchecked_dec a x : Decision (fchecked a x).
Proof. destruct a as [|[]| | | |]; simpl; apply _. Defined.

Lemma fchecked_ready (q0 : ptr) a x : fair_inv x -> fchecked a x -> fstep_ready a x.
Proof.
  intros Hx. destruct a as [o|[]|rq write|rq bi sector size pos front|rq|]; simpl; try done.
  - intros (Hr & Hl & Hs & Hf). split_and!; [done | | done |].
    + by apply (@low_roomy afq (afq_host q0) (afq_host_ok q0) (fk_glue x) (fair_glue q0 _ Hx)).
    + eapply Forall_impl; [exact Hf |]. intros bi. apply flying_spec.
  - intros ((r & d & Hf)%set_up_fresh & Ha & Hc). split_and!; [done | | done]. exists r, d. split_and!; [done | done |].
    intros _ b l p c _ _ _ Hp. exact (Hc p c Hp).
  - intros (H1 & H2 & H3 & H4). split_and!; try done; try lia. by apply flying_spec.
Qed.

Fixpoint run_fsteps (q0 : ptr) (acts : list fstep) (x : fair) : option fair :=
  match acts with
  | [] => Some x
  | a :: acts =>
      if decide (fchecked a x) then match run_fstep q0 a x with Ok (_, x') => run_fsteps q0 acts x' | Fault _ => None end
      else None
  end.

Lemma run_fsteps_reach q0 acts x x' : freach q0 x -> run_fsteps q0 acts x = Some x' -> freach q0 x'.
Proof.
  revert x. induction acts as [|a acts IH]; intros x Hx; cbn [run_fsteps]; [by intros [= <-] |].
  case_decide as Hc; [|done]. destruct (run_fstep q0 a x) as [[[] x1]|] eqn:E; [|done]. apply IH.
  eapply fr_act; [exact Hx | | exact E]. apply (fchecked_ready q0); [by apply (freach_inv q0) | done].
Qed.

Lemma run_fsteps_life q0 disks acts x x' : fair_life q0 x disks -> run_fsteps q0 acts x = Some x' -> fair_life q0 x' disks.
Proof.
  revert x. induction acts as [|a acts IH]; intros x Hx; cbn [run_fsteps]; [by intros [= <-] |].
  case_decide as Hc; [|done]. destruct (run_fstep q0 a x) as [[[] x1]|] eqn:E; [|done]. apply IH.
  eapply life_step; [exact Hx |]. exists a. split; [|exact E].
  apply (fchecked_ready q0); [apply (freach_inv q0); by eapply life_freach | done].
Qed.

(** ** The run *)

(** Nothing has been written; inode 5 is a file on the disk of queue 3. *)
Definition fk_machine : afq := AFQ (Kern afq_world ∅ 1 0 0 0 0 []) ∅ ∅ ∅ 1%positive {[ 5%positive := 0 ]} [] 3 ad_none.
Definition fk_boot : fair :=
  Fair (Glue (fk_machine <| kern ::= fun k => k <| k_world := afq_world1 |> |> <| ad := ad0 |>) (boot_memory 1)) ∅.

Lemma fk_boot_reach : freach 3 fk_boot.
Proof. by apply (fr_boot 3 fk_machine 1 1%positive [] ad0 [1%positive] afq_world1). Qed.

(** Two buffers are written by account 7; the first one is submitted, and its request added.  Account 9 reads
    and calls fsync. *)
Definition fk_acts : list fstep :=
  [FFs (AllocBuffer 1); FFs (AllocBuffer 2); FFs (CommitWrite [1%positive; 2%positive] 1024 1 7 5 0);
   FFs (BioAlloc 1); FFs (SubmitBh true 1024 1 1024 1); FGetRequest 1 true; FAddBio 1 1 8 1024 8 false;
   FHandle (AddRequest 7 1); FFs (BioAlloc 2); FGetRequest 2 false; FAddBio 2 2 80 1024 80 false;
   FHandle (AddRequest 9 2); FHandle (FsyncEntry 9 4 0 3)].
Definition fk_busy : fair := default fk_boot (run_fsteps 3 fk_acts fk_boot).

Lemma fk_run : run_fsteps 3 fk_acts fk_boot = Some fk_busy.
Proof.
  assert (E : match run_fsteps 3 fk_acts fk_boot with Some _ => true | None => false end = true) by (vm_compute; reflexivity).
  unfold fk_busy. by destruct (run_fsteps 3 fk_acts fk_boot).
Qed.

Lemma fk_busy_reach : freach 3 fk_busy.
Proof. eapply run_fsteps_reach; [apply fk_boot_reach | apply fk_run]. Qed.

(** Both requests are at the disk; when they are done and freed, only the causes of the second buffer are left. *)
Example fk_ends :
  dispatch_list (fk_host fk_busy) = [1; 2]%positive /\
  match run_fsteps 3 [FHandle (CompletedRequest 1); FFreeRequest 1; FFs (BioFree 1); FRunWork;
                     FHandle (CompletedRequest 2); FFreeRequest 2; FFs (BioFree 2); FRunWork] fk_busy with
  | Some x => dispatch_list (fk_host x) = [] /\ base.size (k_causes (kern (fk_host x))) = 1%nat
  | None => False
  end.
Proof. vm_compute. repeat split. Qed.

(** The same run with the registry. *)
Lemma fk_busy_life : fair_life 3 fk_busy [3%positive].
Proof.
  eapply run_fsteps_life; [|apply fk_run]. eapply (life_boot _ _ _ _ []); [by apply not_elem_of_nil |]. split; [done |].
  exists fk_machine, 1%positive, ad0, afq_world1. do 7 (split; [done |]). split; [vm_compute; reflexivity | done].
Qed.

Lemma afq_kernel_no_fault_witness :
  (exists x', run_fstep 3 (FHandle (Dispatch false)) fk_busy = Ok (tt, x') /\ env_wf (kern (fk_host x')) (rqs (fk_host x'))) /\
  exists d' disks', basic_sched_exit_data 3 (ad (fk_host fk_busy)) [3%positive] = Ok (d', disks') /\ 3%positive ∉ disks'.
Proof.
  destruct (afq_kernel_no_fault 3 fk_busy [3%positive] fk_busy_life) as (H & Hex & _). split; [|exact Hex].
  destruct (H (FHandle (Dispatch false))) as (x' & E & _ & He & _).
  - split; [reflexivity |]. split; exact I.
  - exists x'. split; [exact E | exact He].
Defined.
