(* ===== verification/Elevator.v ===== *)
(** * Elevators and the hooks of system calls (src/patches/4.5/elevator.c.patch,
    elevator.h.patch, blkdev.h.patch, super.c.patch; src/patches/3.2.51/elevator.c.patch)

    How the kernel finds the scheduler that a system call has to pass: from the inode
    to the request queue, from there to the elevator and the functions it offers, with a
    reference on the module that has them; and the number [sched_uniq] by which a
    scheduler is to notice that it has been replaced in the meantime.

    [read], [write], [fsync], [mkdir] and [create] have an entry and a return hook each:
    the ten fields of [struct elevator_syscall_ops] are two functions of the call. *)

From S2P Require Import Prelude CInt Kernel.

(** ** Data *)

Inductive sys_call := SysRead | SysWrite | SysFsync | SysMkdir | SysCreate.
#[export] Instance sys_call_eq_dec : EqDecision sys_call.
Proof. solve_decision. Defined.

(** A function pointer: the module whose text it points into, and where. *)
Record code := Code { text_of : ptr; entry_point : ptr }.

(** The fields of [struct elevator_ops] that the patch adds for system calls. *)
Record elevator_ops := ElvOps {
  elevator_entry_fn : sys_call -> option code;
  elevator_return_fn : sys_call -> option code;
}.

Record elevator_syscall_ops := Sops {
  entry_fn : sys_call -> option code;
  return_fn : sys_call -> option code;
  sched_uniq : Z;
}.
(** After [memset(sops, 0, sizeof( *sops))]. *)
Definition no_sops : elevator_syscall_ops := Sops (fun _ => None) (fun _ => None) 0.

Record elevator_type := ElvType {
  ops : elevator_ops;
  elevator_owner : option ptr;      (* NULL if it is built in *)
}.
Record elevator_queue := ElvQueue { eq_type : option elevator_type }.
Record request_queue := RqQueue {
  elevator : option elevator_queue;
  q_sched_uniq : Z;
}.
#[export] Instance eta_request_queue : Eta request_queue := fun q => RqQueue (elevator q) (q_sched_uniq q).

(** The parts of an inode by which its device is found. *)
Record fs_devices := FsDevices { num_devices : Z; devices : list (option ptr) }.
Record fs_info := FsInfo { fi_devices : option fs_devices }.
Record btrfs_root := BtrfsRoot { root_fs_info : option fs_info }.
Record super_block := SuperBlock {
  s_type : option (option string);  (* the type of the file system and its name *)
  s_bdev : option ptr;
}.
Record inode := Inode {
  i_mode : Z;
  i_sb : option super_block;
  btrfs_inode_root : option btrfs_root;
}.
Record address_space := Mapping { host : option inode }.
Record file := File { f_mapping : option address_space }.

Definition S_IFMT : Z := 0xf000.
Definition S_ISREG (m : Z) : bool := Z.land m S_IFMT =? 0x8000.
Definition S_ISDIR (m : Z) : bool := Z.land m S_IFMT =? 0x4000.

(** A module is in the kernel or not, and has users. *)
Record module := Mod { m_live : bool; m_refs : Z }.
#[export] Instance eta_module : Eta module := fun m => Mod (m_live m) (m_refs m).

Record sys := Sys {
  queues : gmap ptr request_queue;
  modules : gmap ptr module;
}.
#[export] Instance eta_sys : Eta sys := fun s => Sys (queues s) (modules s).

(** ** Functions of the kernel *)

(** [bdev_get_queue] of linux/blkdev.h. *)
Class BlkFns := { bdev_get_queue : ptr -> option ptr }.

(** [try_module_get] and [module_put] of linux/module.h: *)
Class ModFns := {
  try_module_get : ptr -> ST sys bool;
  module_put : ptr -> ST sys unit;
}.

(** a module that is in the kernel and not about to be unloaded gives a reference, others do not; and a reference that there
    is can be given back. *)
Class ModOk (M : ModFns) : Prop := {
  try_module_get_live : forall m d s, modules s !! m = Some d -> m_live d = true ->
    try_module_get m s = Ok (true, s <| modules ::= <[m := d <| m_refs ::= Z.succ |>]> |>);
  try_module_get_gone : forall m s, (forall d, modules s !! m = Some d -> m_live d = false) ->
    try_module_get m s = Ok (false, s);
  module_put_ref : forall m d s, modules s !! m = Some d -> 0 < m_refs d ->
    module_put m s = Ok (tt, s <| modules ::= <[m := d <| m_refs ::= Z.pred |>]> |>);
}.

#[export] Instance ref_mod : ModFns := {|
  try_module_get m := fun s =>
    match modules s !! m with
    | Some d => if m_live d then Ok (true, s <| modules ::= <[m := d <| m_refs ::= Z.succ |>]> |>)
                else Ok (false, s)
    | None => Ok (false, s)
    end;
  module_put m := fun s =>
    match modules s !! m with
    | Some d => Ok (tt, s <| modules ::= <[m := d <| m_refs ::= Z.pred |>]> |>)
    | None => Fault (UseAfterFree 0)
    end;
|}.
#[export] Instance ref_mod_ok : ModOk ref_mod.
Proof.
  split; simpl.
  - by intros m d s -> ->.
  - intros m s H. destruct (modules s !! m) as [d|]; [by rewrite (H d) | done].
  - by intros m d s -> _.
Qed.

(** ** From the inode to the hooks *)

(** [list_first_entry] of an empty list is not an entry. *)
Definition btrfs_inode_to_bdev (i : inode) : result (option ptr) :=
  match btrfs_inode_root i with
  | None => Ok None
  | Some root =>
      match root_fs_info root with
      | None => Ok None
      | Some info =>
          match fi_devices info with
          | None => Ok None
          | Some d => if negb (num_devices d =? 1) then Ok None
                      else deref 24 (head (devices d))
          end
      end
  end.

Definition is_btrfs (sb : super_block) : bool :=
  match s_type sb with Some (Some name) => String.eqb name "btrfs" | _ => false end.

Section Info.
Context {B : BlkFns} {MF : ModFns}.

Definition inode_to_request_queue (o : option inode) : ST sys (option ptr) := fun s =>
  match o with
  | None => Ok (None, s)
  | Some i =>
      if negb (S_ISREG (i_mode i)) && negb (S_ISDIR (i_mode i)) then Ok (None, s)
      else
        match i_sb i with
        | None => Ok (None, s)
        | Some sb =>
            let? bdev := if is_btrfs sb then btrfs_inode_to_bdev i else Ok (s_bdev sb) in
            match bdev with
            | None => Ok (None, s)
            | Some bdev =>
                match bdev_get_queue bdev with
                | None => Ok (None, s)
                | Some rq =>
                    match queues s !! rq with
                    | None => Fault (NullDeref 58)
                    | Some q =>
                        match elevator q with
                        | Some (ElvQueue (Some _)) => Ok (Some rq, s)
                        | _ => Ok (None, s)
                        end
                    end
                end
            end
        end
  end.

(** What a caller gets: the queue, the module, and the hooks. *)
Definition call_info : Type := option ptr * option ptr * elevator_syscall_ops.
Definition skip_info : call_info := (None, None, no_sops).

Definition get_elevator_call_info_from_inode (i : option inode) : ST sys call_info :=
  let! rq := inode_to_request_queue i in
  match rq with
  | None => ret skip_info
  | Some rq =>
      let! q := gets (fun s => queues s !! rq) in
      let! q := lift (deref 77 q) in
      let! eq := lift (deref 77 (elevator q)) in
      let! type := lift (deref 77 (eq_type eq)) in
      match elevator_owner type with
      | None => ret skip_info
      | Some module =>
          let! ok := try_module_get module in
          if ok : bool
          then ret (Some rq, Some module,
                    Sops (elevator_entry_fn (ops type)) (elevator_return_fn (ops type)) (q_sched_uniq q))
          else ret skip_info
      end
  end.

Definition get_elevator_call_info (filp : option file) : ST sys call_info :=
  match filp with
  | None => ret skip_info
  | Some f =>
      match f_mapping f with
      | None => ret skip_info
      | Some mapping =>
          match host mapping with
          | None => ret skip_info
          | Some i => get_elevator_call_info_from_inode (Some i)
          end
      end
  end.

End Info.

(** ** Replacing the elevator *)

(** [q->sched_uniq++; if (q->sched_uniq < 0) q->sched_uniq = 1;] *)
Definition bump_uniq (u : Z) : Z := let u := s32 (u + 1) in if u <? 0 then 1 else u.

(** [elevator_switch] as patched: [init_err] is what [elevator_init_fn] of the new
    elevator returns, which puts itself on the queue if that is 0; [register_err] is what
    [elv_register_queue] returns, which is called if the old elevator was [registered]. *)
Definition elevator_switch (registered : bool) (init_err register_err : Z) (new_e : elevator_type)
    (q : request_queue) : Z * request_queue :=
  let old := elevator q in
  if negb (init_err =? 0) then (init_err, q)
  else
    let q := q <| elevator := Some (ElvQueue (Some new_e)) |> <| q_sched_uniq ::= bump_uniq |> in
    if registered && negb (register_err =? 0) then (register_err, q <| elevator := old |>)
    else (0, q <| q_sched_uniq := 1000 |>).

(** The same in the patch for 3.2.51, where setting up a queue starts the numbers and
    attaching an elevator to it takes the next one. *)
Definition elevator_attach (eq : elevator_queue) (q : request_queue) : request_queue :=
  q <| q_sched_uniq ::= bump_uniq |> <| elevator := Some eq |>.
Definition elevator_init (eq : elevator_queue) (q : request_queue) : request_queue :=
  elevator_attach eq (q <| q_sched_uniq := 1000 |>).

(** ** The numbers *)

(** A run of switches that succeed. *)
Definition switches (es : list elevator_type) (q : request_queue) : request_queue :=
  fold_left (fun q e => snd (elevator_switch true 0 0 e q)) es q.
Definition attaches (es : list elevator_queue) (q : request_queue) : request_queue :=
  fold_left (fun q e => elevator_attach e q) es q.

Lemma switches_last es e q :
  switches (es ++ [e]) q = RqQueue (Some (ElvQueue (Some e))) 1000.
Proof. unfold switches. rewrite fold_left_app. by destruct (fold_left _ es q). Qed.

(** A switch that succeeds leaves the number 1000, whatever it was. *)
Lemma switch_uniq registered e q :
  elevator_switch registered 0 0 e q = (0, RqQueue (Some (ElvQueue (Some e))) 1000).
Proof. unfold elevator_switch. simpl. by rewrite andb_false_r. Qed.

(** So from the first replacement on, replacing the elevator of a queue does not change its number. *)
Lemma switch_uniq_stuck es e es' e' q :
  q_sched_uniq (switches (es' ++ [e']) (switches (es ++ [e]) q)) = q_sched_uniq (switches (es ++ [e]) q).
Proof. by rewrite !switches_last. Qed.

(** *** Counting up to the greatest [int] and on with 1 *)

Definition UNIQS : Z := 0x7fffffff.

Lemma bump_uniq_mod u : 1 <= u <= UNIQS -> bump_uniq u = (u - 1 + 1) mod UNIQS + 1.
Proof.
  unfold bump_uniq, UNIQS. intros Hu. destruct (Z.eq_dec u 0x7fffffff) as [->|Hne]; [done |].
  rewrite s32_small by (unfold is_s32; lia). destruct (Z.ltb_spec (u + 1) 0); [lia |].
  rewrite Z.mod_small; lia.
Qed.

Lemma attaches_uniq es q :
  1 <= q_sched_uniq q <= UNIQS ->
  q_sched_uniq (attaches es q) = (q_sched_uniq q - 1 + Z.of_nat (length es)) mod UNIQS + 1.
Proof.
  unfold attaches. revert q. induction es as [|e es IH]; intros q Hq; cbn [fold_left length].
  { rewrite Z.add_0_r, Z.mod_small; unfold UNIQS in *; lia. }
  assert (Hb : q_sched_uniq (elevator_attach e q) = (q_sched_uniq q - 1 + 1) mod UNIQS + 1)
    by (by apply bump_uniq_mod).
  pose proof (Z.mod_pos_bound (q_sched_uniq q - 1 + 1) UNIQS ltac:(done)) as Hm.
  rewrite IH by (rewrite Hb; unfold UNIQS in *; lia). rewrite Hb, Z.add_simpl_r, Zplus_mod_idemp_l.
  f_equal. f_equal. lia.
Qed.

(** The patch for 3.2.51 does it right: on a queue that has been set up, the
    number differs from that at any earlier time unless exactly a multiple of 2^31 - 1
    elevators were attached in between; so a call that took its hooks from one
    elevator is noticed by every other one of the next 2^31 - 2. *)
Theorem attach_uniq_detects eq es es' q :
  let before := attaches es (elevator_init eq q) in
  let after := attaches es' before in
  0 < Z.of_nat (length es') < UNIQS -> q_sched_uniq after <> q_sched_uniq before.
Proof.
  cbv zeta. intros Hn. set (q0 := elevator_init eq q). assert (H0 : q_sched_uniq q0 = 1001) by done.
  assert (Hr : 1 <= q_sched_uniq (attaches es q0) <= UNIQS).
  { rewrite attaches_uniq by (rewrite H0; by unfold UNIQS).
    pose proof (Z.mod_pos_bound (q_sched_uniq q0 - 1 + Z.of_nat (length es)) UNIQS ltac:(done)). lia. }
  rewrite attaches_uniq by done. set (u := q_sched_uniq (attaches es q0)) in *. intros E.
  assert (Hz : (u - 1 + Z.of_nat (length es')) mod UNIQS = u - 1) by lia.
  destruct (Z_lt_le_dec (u - 1 + Z.of_nat (length es')) UNIQS) as [Hl|Hl].
  - rewrite Z.mod_small in Hz by lia. lia.
  - rewrite <- (Z_mod_plus_full _ (-1)), Z.mod_small in Hz by lia. lia.
Qed.

Definition ex_type : elevator_type := ElvType (ElvOps (fun _ => None) (fun _ => None)) (Some 1%positive).
Lemma attach_uniq_detects_witness :
  let q := attaches [] (elevator_init (ElvQueue (Some ex_type)) (RqQueue None 0)) in
  q_sched_uniq (attaches [ElvQueue (Some ex_type)] q) <> q_sched_uniq q.
Proof. apply (attach_uniq_detects _ [] [ElvQueue (Some ex_type)]). simpl. unfold UNIQS. lia. Defined.
