(* ===== verification/VfsCalls.v ===== *)
(** * The system calls that pass a scheduler (src/patches/4.5/read_write.c.patch,
    sync.c.patch, namei.c.patch)

    [vfs_write], [vfs_fsync_range], [vfs_create] and [vfs_mkdir] with the calls of the
    hooks that the patches put around them.  A call gives up the processor in many
    places, and others run meanwhile; so a call is a tree of operations ([prog]), each of
    which is one step, and what the rest of the kernel answers chooses the branch.  The
    work of the file system is an operation whose answer is the error code.

    What a scheduler relies on is the protocol [keeps_protocol]: hooks are called only while the
    caller has a reference on their module; the return hook is called once if and only if
    the entry hook let the call in, with what the entry hook left in [opaque] and with
    the same number; and the reference is given back. *)

From S2P Require Import Prelude CInt Kernel Elevator.

(** ** Calls as trees of operations *)

(** What the file system does by itself. *)
Inductive work :=
  | WriteChecks        (* FMODE_WRITE, FMODE_CAN_WRITE, access_ok *)
  | WriteBody          (* rw_verify_area, and the write if that allows it *)
  | FsyncChecks        (* f_op->fsync, mark_inode_dirty_sync *)
  | FsyncBody          (* f_op->fsync(file, start, end, datasync) *)
  | MayCreate          (* may_create(dir, dentry) *)
  | OpMissing          (* 1 if i_op->create or i_op->mkdir is NULL *)
  | SecurityInode      (* security_inode_create, security_inode_mkdir *)
  | IopCreate          (* i_op->create, fsnotify_create *)
  | IopMkdir.          (* i_op->mkdir, fsnotify_mkdir *)

Inductive prog :=
  | Ret (rv : Z)
  | GetInfo (i : option inode) (k : call_info -> prog)
  | CallEntry (fn : code) (rq : option ptr) (uniq : Z) (k : Z -> option ptr -> prog)
  | CallReturn (fn : code) (rq : option ptr) (opaque : option ptr) (rv uniq : Z) (k : prog)
  | ModulePut (m : ptr) (k : prog)
  | Work (w : work) (k : Z -> prog)
  | Bug (line : Z).

Definition EACCES : Z := 13.
Definition EPERM : Z := 1.
Definition EMLINK : Z := 31.

(** [get_elevator_call_info] on the file. *)
Definition file_inode (filp : option file) : option inode :=
  match filp with
  | Some f => match f_mapping f with Some mapping => host mapping | None => None end
  | None => None
  end.

(** The block after "intercept entry": [opaque] is NULL unless the hook writes it. *)
Definition intercept_entry (line : Z) (c : sys_call) (info : call_info) (k : option ptr -> prog) : prog :=
  let '(rq, module, sops) := info in
  match entry_fn sops c with
  | Some fn =>
      CallEntry fn rq (sched_uniq sops) (fun ret opaque =>
        if negb (ret =? 0)
        then match module with Some m => ModulePut m (Ret ret) | None => Bug line end
        else k opaque)
  | None => k None
  end.

(** The block after "intercept exit". *)
Definition intercept_exit (c : sys_call) (info : call_info) (opaque : option ptr) (rv : Z) : prog :=
  let '(rq, module, sops) := info in
  let leave := match module with Some m => ModulePut m (Ret rv) | None => Ret rv end in
  match return_fn sops c with
  | Some fn => CallReturn fn rq opaque rv (sched_uniq sops) leave
  | None => leave
  end.

Definition vfs_write (filp : option file) : prog :=
  Work WriteChecks (fun err =>
    if negb (err =? 0) then Ret err
    else
      GetInfo (file_inode filp) (fun info =>
        intercept_entry 35 SysWrite info (fun opaque =>
          Work WriteBody (fun ret =>
            intercept_exit SysWrite info opaque ret)))).

Definition vfs_fsync_range (filp : option file) : prog :=
  Work FsyncChecks (fun err =>
    if negb (err =? 0) then Ret err
    else
      GetInfo (file_inode filp) (fun info =>
        intercept_entry 38 SysFsync info (fun opaque =>
          Work FsyncBody (fun rv =>
            intercept_exit SysFsync info opaque rv)))).

(** The label [out] is [intercept_exit]. *)
Definition vfs_create (dir : option inode) : prog :=
  GetInfo dir (fun info =>
    intercept_entry 39 SysCreate info (fun opaque =>
      let out error := intercept_exit SysCreate info opaque error in
      Work MayCreate (fun error =>
        if negb (error =? 0) then out error
        else Work OpMissing (fun missing =>
          if negb (missing =? 0) then out (- EACCES)
          else Work SecurityInode (fun error =>
            if negb (error =? 0) then out error
            else Work IopCreate (fun error => out error)))))).

(** [max_links] is [dir->i_sb->s_max_links] and [i_nlink] the count of the links of
    [dir] when it is looked at. *)
Definition vfs_mkdir (max_links i_nlink : Z) (dir : option inode) : prog :=
  Work MayCreate (fun error =>
    if negb (error =? 0) then Ret error
    else Work OpMissing (fun missing =>
      if negb (missing =? 0) then Ret (- EPERM)
      else
        GetInfo dir (fun info =>
          intercept_entry 101 SysMkdir info (fun opaque =>
            let out error := intercept_exit SysMkdir info opaque error in
            Work SecurityInode (fun error =>
              if negb (error =? 0) then out error
              else if negb (max_links =? 0) && (i_nlink >=? max_links) then Ret (- EMLINK)
              else Work IopMkdir (fun error => out error)))))).

(** ** The protocol *)

(** How far a call has come with its scheduler. *)
Inductive phase :=
  | Outside                                                       (* no reference *)
  | Asking (rq m : ptr) (sops : elevator_syscall_ops)             (* has the hooks *)
  | Inside (rq m : ptr) (sops : elevator_syscall_ops) (opaque : option ptr)
                                                                  (* was let in *)
  | Leaving (m : ptr).                                            (* was refused, or has returned *)

(** The module a call has a reference on. *)
Definition held (ph : phase) : option ptr :=
  match ph with Outside => None | Asking _ m _ | Inside _ m _ _ | Leaving m => Some m end.

(** What [get_elevator_call_info] delivers: no hooks, or hooks of the module. *)
Definition info_ok (info : call_info) : Prop :=
  let '(rq, module, sops) := info in
  match rq, module with
  | Some _, Some m =>
      forall c fn, entry_fn sops c = Some fn \/ return_fn sops c = Some fn -> text_of fn = m
  | None, None => sops = no_sops
  | _, _ => False
  end.

Definition informed (info : call_info) : phase :=
  match info with (Some rq, Some m, sops) => Asking rq m sops | _ => Outside end.

(** The phase after an operation on the scheduler. *)
Definition let_in (c : sys_call) (ph : phase) (opaque : option ptr) : Prop :=
  match ph with
  | Inside _ _ _ o => o = opaque
  | Asking _ _ sops => entry_fn sops c = None /\ opaque = None
  | _ => False
  end.
Definition sops_of (ph : phase) : option (ptr * elevator_syscall_ops) :=
  match ph with Asking rq _ sops | Inside rq _ sops _ => Some (rq, sops) | _ => None end.
Definition after_entry (ph : phase) (rv : Z) (opaque : option ptr) : phase :=
  match ph with
  | Asking rq m sops => if rv =? 0 then Inside rq m sops opaque else Leaving m
  | _ => ph
  end.
Definition after_return (ph : phase) : phase :=
  match held ph with Some m => Leaving m | None => Outside end.

(** May a call give its reference back? *)
Definition may_leave (c : sys_call) (ph : phase) : Prop :=
  match ph with
  | Leaving _ => True
  | Inside _ _ sops _ => return_fn sops c = None
  | Asking _ _ sops => entry_fn sops c = None /\ return_fn sops c = None
  | Outside => False
  end.

(** [tidy]: must the reference have been given back when the call returns? *)
Fixpoint keeps_protocol (tidy : bool) (c : sys_call) (ph : phase) (p : prog) : Prop :=
  match p with
  | Ret _ => tidy = true -> ph = Outside
  | GetInfo _ k => ph = Outside /\ forall info, info_ok info -> keeps_protocol tidy c (informed info) (k info)
  | CallEntry fn rq uniq k =>
      (exists q m sops, ph = Asking q m sops /\ entry_fn sops c = Some fn /\ text_of fn = m /\
         rq = Some q /\ uniq = sched_uniq sops) /\
      forall rv opaque, keeps_protocol tidy c (after_entry ph rv opaque) (k rv opaque)
  | CallReturn fn rq opaque _ uniq k =>
      (exists q m sops, sops_of ph = Some (q, sops) /\ let_in c ph opaque /\ held ph = Some m /\
         return_fn sops c = Some fn /\ text_of fn = m /\ rq = Some q /\ uniq = sched_uniq sops) /\
      keeps_protocol tidy c (after_return ph) k
  | ModulePut m k => held ph = Some m /\ may_leave c ph /\ keeps_protocol tidy c Outside k
  | Work _ k => forall rv, keeps_protocol tidy c ph (k rv)
  | Bug _ => False
  end.

(** A call keeps to the protocol from its start to its end. *)
Definition disciplined := fun tidy c p => keeps_protocol tidy c Outside p.

Section Protocol.
Variables (tidy : bool) (c : sys_call).

Lemma exit_keeps rq m sops opaque rv :
  info_ok (Some rq, Some m, sops) -> let_in c (Inside rq m sops opaque) opaque ->
  keeps_protocol tidy c (Inside rq m sops opaque) (intercept_exit c (Some rq, Some m, sops) opaque rv).
Proof.
  intros Hi Hl. unfold intercept_exit. destruct (return_fn sops c) as [fn|] eqn:Ef; cbn.
  - split; [|done]. exists rq, m, sops. split_and!; auto. apply (Hi c fn). by right.
  - done.
Qed.

Lemma exit_keeps_asking rq m sops rv :
  info_ok (Some rq, Some m, sops) -> entry_fn sops c = None ->
  keeps_protocol tidy c (Asking rq m sops) (intercept_exit c (Some rq, Some m, sops) None rv).
Proof.
  intros Hi He. unfold intercept_exit. destruct (return_fn sops c) as [fn|] eqn:Ef; cbn.
  - split; [|done]. exists rq, m, sops. split_and!; auto. apply (Hi c fn). by right.
  - done.
Qed.

Lemma exit_keeps_outside rv opaque :
  keeps_protocol tidy c Outside (intercept_exit c skip_info opaque rv).
Proof. done. Qed.

(** The block at the entry; [k] is the rest of the call. *)
Lemma entry_keeps line info k :
  info_ok info ->
  (forall ph opaque, (forall rv, keeps_protocol tidy c ph (intercept_exit c info opaque rv)) ->
     held ph = held (informed info) -> keeps_protocol tidy c ph (k opaque)) ->
  keeps_protocol tidy c (informed info) (intercept_entry line c info k).
Proof.
  intros Hi Hk. destruct info as [[[rq|] [m|]] sops]; try done.
  - unfold intercept_entry. destruct (entry_fn sops c) as [fn|] eqn:Ef.
    + split.
      { exists rq, m, sops. split_and!; auto. apply (Hi c fn). by left. }
      intros rv opaque. simpl. destruct (rv =? 0); simpl; [|done].
      apply Hk; [|done]. intros rv'. by apply exit_keeps.
    + apply Hk; [|done]. intros rv. by apply exit_keeps_asking.
  - simpl in Hi. subst sops. apply Hk; [|done]. intros rv. apply exit_keeps_outside.
Qed.
End Protocol.

(** ** The four calls *)

(** The directory has as many links as its file system allows. *)
Definition at_link_limit (max_links i_nlink : Z) : bool := negb (max_links =? 0) && (i_nlink >=? max_links).

Lemma write_keeps tidy filp : disciplined tidy SysWrite (vfs_write filp).
Proof.
  intros err. destruct (err =? 0); simpl; [|done]. split; [done |]. intros info Hi.
  apply entry_keeps; [done |]. intros ph opaque Hx _ rv. apply Hx.
Qed.

Lemma fsync_keeps tidy filp : disciplined tidy SysFsync (vfs_fsync_range filp).
Proof.
  intros err. destruct (err =? 0); simpl; [|done]. split; [done |]. intros info Hi.
  apply entry_keeps; [done |]. intros ph opaque Hx _ rv. apply Hx.
Qed.

Lemma create_keeps tidy dir : disciplined tidy SysCreate (vfs_create dir).
Proof.
  split; [done |]. intros info Hi. apply entry_keeps; [done |]. intros ph opaque Hx _ err.
  destruct (err =? 0); simpl; [|apply Hx]. intros missing. destruct (missing =? 0); simpl; [|apply Hx].
  intros err'. destruct (err' =? 0); simpl; [|apply Hx]. intros rv. apply Hx.
Qed.

Lemma mkdir_keeps tidy max_links i_nlink dir :
  tidy = false \/ at_link_limit max_links i_nlink = false ->
  disciplined tidy SysMkdir (vfs_mkdir max_links i_nlink dir).
Proof.
  intros Ht err. destruct (err =? 0); simpl; [|done]. intros missing.
  destruct (missing =? 0); simpl; [|done]. split; [done |]. intros info Hi.
  apply entry_keeps; [done |]. intros ph opaque Hx _ err'. destruct (err' =? 0); simpl; [|apply Hx].
  change (negb (max_links =? 0) && (i_nlink >=? max_links)) with (at_link_limit max_links i_nlink).
  destruct Ht as [->| ->]; [|intros rv; apply Hx].
  destruct (at_link_limit _ _); [done | intros rv; apply Hx].
Qed.

Definition ex_code : code := Code 1 1.
Definition ex_sops : elevator_syscall_ops := Sops (fun _ => Some ex_code) (fun _ => Some ex_code) 1000.
Definition ex_info : call_info := (Some 5%positive, Some 1%positive, ex_sops).
Lemma ex_info_ok : info_ok ex_info.
Proof. simpl. intros _ fn [[= <-]|[= <-]]; done. Qed.

(** C23: the calls keep to the protocol of the schedulers: [vfs_write],
    [vfs_fsync_range] and [vfs_create], whatever the file system and the hooks answer, call
    a hook only while they hold a reference on the module it is part of, call the return hook once if
    the entry hook let them in and never otherwise, with the [opaque] value and
    the number of the entry, and give the reference back; the BUG_ON is never reached.
    So does [vfs_mkdir] unless the directory is full. *)
Theorem vfs_calls_keep_protocol filp dir max_links i_nlink :
  disciplined true SysWrite (vfs_write filp) /\ disciplined true SysFsync (vfs_fsync_range filp) /\
  disciplined true SysCreate (vfs_create dir) /\
  (disciplined true SysMkdir (vfs_mkdir max_links i_nlink dir) <-> at_link_limit max_links i_nlink = false).
Proof.
  split_and!; auto using write_keeps, fsync_keeps, create_keeps. split.
  2: { intros H. by apply mkdir_keeps; right. }
  intros H. specialize (H 0 0) as [_ H]. specialize (H ex_info ex_info_ok).
  destruct H as [_ H]. specialize (H 0 None 0). cbn in H. unfold at_link_limit.
  destruct (negb (max_links =? 0) && (i_nlink >=? max_links)); [|done]. by specialize (H eq_refl).
Qed.
