(* ===== verification/VfsModules.v ===== *)
(** * System calls, elevators and modules together

    Any number of system calls run at the same time, operation by operation, while
    elevators are replaced and modules come and go.  A module may be taken out of the kernel when it has no
    references: in no run is a hook called whose module is gone, and the references
    are exactly those of the queues and of the calls on their way. *)

From S2P Require Import Prelude CInt Kernel Elevator VfsCalls.

(** ** The machine *)

Record task := Task { t_call : sys_call; t_phase : phase; t_prog : prog }.
Record vm := VM { v_sys : sys; v_tasks : list task }.

(** The system calls that are patched. *)
Inductive vfs_call : sys_call -> prog -> Prop :=
  | is_write filp : vfs_call SysWrite (vfs_write filp)
  | is_fsync filp : vfs_call SysFsync (vfs_fsync_range filp)
  | is_create dir : vfs_call SysCreate (vfs_create dir)
  | is_mkdir max_links i_nlink dir : vfs_call SysMkdir (vfs_mkdir max_links i_nlink dir).

(** The functions of an elevator are those of its module. *)
Definition type_ok (e : elevator_type) : Prop :=
  forall c fn, elevator_entry_fn (ops e) c = Some fn \/ elevator_return_fn (ops e) c = Some fn ->
  elevator_owner e = Some (text_of fn).

Definition queue_owner (q : request_queue) : option ptr :=
  match elevator q with Some (ElvQueue (Some e)) => elevator_owner e | _ => None end.

Section Machine.
Context {B : BlkFns} {MF : ModFns} {MO : ModOk MF}.

(** [elevator_get] and [elevator_put]: a queue has a reference on its elevator's module. *)
Definition get_owner (o : option ptr) : ST sys bool :=
  match o with Some m => try_module_get m | None => ret true end.
Definition put_owner (o : option ptr) : ST sys unit :=
  match o with Some m => module_put m | None => ret tt end.

(** Replacing the elevator of the queue [rq]; the module that is not used in the
    end is put. *)
Definition switch_queue (registered : bool) (init_err register_err : Z) (new_e : elevator_type)
    (rq : ptr) (q : request_queue) : ST sys Z :=
  let! ok := get_owner (elevator_owner new_e) in
  if ok : bool then
    let '(err, q') := elevator_switch registered init_err register_err new_e q in
    modify (fun s => s <| queues ::= <[rq := q']> |>);;
    put_owner (if err =? 0 then queue_owner q else elevator_owner new_e);;
    ret err
  else ret (-22).

Inductive vstep : vm -> vm -> Prop :=
  | step_call s ts c p : vfs_call c p -> vstep (VM s ts) (VM s (ts ++ [Task c Outside p]))
  | step_info s ts n c ph i k info s' :
      ts !! n = Some (Task c ph (GetInfo i k)) ->
      get_elevator_call_info_from_inode i s = Ok (info, s') ->
      vstep (VM s ts) (VM s' (<[n := Task c (informed info) (k info)]> ts))
  | step_entry s ts n c ph fn rq uniq k rv opaque :
      ts !! n = Some (Task c ph (CallEntry fn rq uniq k)) ->
      vstep (VM s ts) (VM s (<[n := Task c (after_entry ph rv opaque) (k rv opaque)]> ts))
  | step_return s ts n c ph fn rq opaque rv uniq k :
      ts !! n = Some (Task c ph (CallReturn fn rq opaque rv uniq k)) ->
      vstep (VM s ts) (VM s (<[n := Task c (after_return ph) k]> ts))
  | step_put s ts n c ph m k s' :
      ts !! n = Some (Task c ph (ModulePut m k)) -> module_put m s = Ok (tt, s') ->
      vstep (VM s ts) (VM s' (<[n := Task c Outside k]> ts))
  | step_work s ts n c ph w k rv :
      ts !! n = Some (Task c ph (Work w k)) ->
      vstep (VM s ts) (VM s (<[n := Task c ph (k rv)]> ts))
  | step_switch s ts registered init_err register_err new_e rq q err s' :
      type_ok new_e -> queues s !! rq = Some q ->
      switch_queue registered init_err register_err new_e rq q s = Ok (err, s') ->
      vstep (VM s ts) (VM s' ts)
  | step_load s ts m :
      modules s !! m = None -> vstep (VM s ts) (VM (s <| modules ::= <[m := Mod true 0]> |>) ts)
  | step_stop s ts m d :
      modules s !! m = Some d -> m_refs d = 0 ->
      vstep (VM s ts) (VM (s <| modules ::= <[m := d <| m_live := false |>]> |>) ts)
  | step_unload s ts m d :
      modules s !! m = Some d -> m_live d = false ->
      vstep (VM s ts) (VM (s <| modules ::= delete m |>) ts).

(** Before anything runs the queues have no elevator from a module. *)
Inductive vreach : vm -> Prop :=
  | vreach_init s : (forall rq q, queues s !! rq = Some q -> elevator q = None) ->
      modules s = ∅ -> vreach (VM s [])
  | vreach_step v v' : vreach v -> vstep v v' -> vreach v'.

(** ** Counting the users of a module *)

Definition of_module (m : ptr) (x : ptr * request_queue) : Prop := queue_owner (snd x) = Some m.
#[export] Instance of_module_dec m x : Decision (of_module m x).
Proof. unfold of_module. apply _. Defined.
Definition holds (m : ptr) (t : task) : Prop := held (t_phase t) = Some m.
#[export] Instance holds_dec m t : Decision (holds m t).
Proof. unfold holds. apply _. Defined.

Definition queue_users (qs : gmap ptr request_queue) (m : ptr) : Z := Z.of_nat (size (filter (of_module m) qs)).
Definition task_users (ts : list task) (m : ptr) : Z := Z.of_nat (length (filter (holds m) ts)).
Definition users (s : sys) (ts : list task) (m : ptr) : Z := queue_users (queues s) m + task_users ts m.

Lemma task_users_insert ts n t t' m :
  ts !! n = Some t ->
  task_users (<[n := t']> ts) m = task_users ts m - one (held (t_phase t)) m + one (held (t_phase t')) m.
Proof.
  intros Hn. apply list_elem_of_split_length in Hn as (l1 & l2 & -> & ->).
  unfold task_users. rewrite insert_app_r_alt, Nat.sub_diag by lia. simpl.
  rewrite !filter_app, !length_app, !filter_cons. unfold one, holds.
  repeat case_decide; try congruence; simpl; lia.
Qed.

Lemma task_users_app ts t m : task_users (ts ++ [t]) m = task_users ts m + one (held (t_phase t)) m.
Proof.
  unfold task_users. rewrite filter_app, length_app, filter_cons, filter_nil. unfold one, holds.
  repeat case_decide; try congruence; simpl; lia.
Qed.

Lemma queue_users_insert qs rq q q' m :
  qs !! rq = Some q ->
  queue_users (<[rq := q']> qs) m = queue_users qs m - one (queue_owner q) m + one (queue_owner q') m.
Proof.
  intros Hq. unfold queue_users. rewrite <- (insert_delete_id qs rq q Hq) at 2.
  rewrite <- insert_delete_eq. set (qs' := delete rq qs).
  assert (Hd : qs' !! rq = None) by apply lookup_delete_eq.
  assert (Hf : filter (of_module m) qs' !! rq = None) by (by apply map_lookup_filter_None; left).
  assert (Hi : forall x, Z.of_nat (size (filter (of_module m) (<[rq := x]> qs'))) =
    Z.of_nat (size (filter (of_module m) qs')) + one (queue_owner x) m).
  { intros x. unfold one. case_decide as H.
    - rewrite map_filter_insert_True by done. rewrite map_size_insert_None by done. lia.
    - rewrite map_filter_insert_False by done. rewrite delete_id by done. lia. }
  rewrite !Hi. lia.
Qed.

Lemma users_range s ts m : 0 <= users s ts m.
Proof. unfold users, queue_users, task_users. lia. Qed.

(** ** References *)

(** Every module has the references that [u] says, and a module that has users is in
    the kernel. *)
Definition refs_ok (s : sys) (u : ptr -> Z) : Prop :=
  forall m, match modules s !! m with
            | Some d => m_refs d = u m /\ (m_live d = false -> u m = 0)
            | None => u m = 0
            end.

Lemma refs_ok_ext s s' u u' :
  refs_ok s u -> modules s' = modules s -> (forall m, u' m = u m) -> refs_ok s' u'.
Proof. intros H E Hu m. rewrite E, Hu. apply H. Qed.

Lemma refs_ok_live s u m :
  refs_ok s u -> 0 < u m -> exists d, modules s !! m = Some d /\ m_live d = true /\ m_refs d = u m.
Proof.
  intros H Hu. specialize (H m). destruct (modules s !! m) as [d|]; [|lia].
  exists d. destruct H as [H1 H2]. split_and!; auto. destruct (m_live d); [done | lia].
Qed.

Lemma try_get_cases m s :
  (exists d, modules s !! m = Some d /\ m_live d = true /\
     try_module_get m s = Ok (true, s <| modules ::= <[m := d <| m_refs ::= Z.succ |>]> |>)) \/
  try_module_get m s = Ok (false, s).
Proof.
  destruct (modules s !! m) as [d|] eqn:Hm; [destruct (m_live d) eqn:Hl |].
  - left. exists d. split_and!; auto. by apply try_module_get_live.
  - right. apply try_module_get_gone. congruence.
  - right. apply try_module_get_gone. congruence.
Qed.

Lemma try_get_refs s u m s' :
  refs_ok s u -> try_module_get m s = Ok (true, s') ->
  refs_ok s' (fun n => u n + one (Some m) n) /\ queues s' = queues s.
Proof.
  intros H E. destruct (try_get_cases m s) as [(d & Hm & Hl & E')|E']; rewrite E' in E; [|done].
  injection E as <-. split; [|done]. intros n. simpl.
  rewrite lookup_insert. specialize (H n). unfold one. case_decide as Hn.
  - subst n. rewrite Hm in H. rewrite decide_True by done. simpl. split; [lia | congruence].
  - rewrite decide_False by congruence. rewrite Z.add_0_r. exact H.
Qed.

Lemma try_get_fails m s s' : try_module_get m s = Ok (false, s') -> s' = s.
Proof.
  destruct (try_get_cases m s) as [(d & _ & _ & ->)| ->]; [done | by intros [= <-]].
Qed.

Lemma put_refs s u m s' :
  refs_ok s u -> 0 < u m -> module_put m s = Ok (tt, s') ->
  refs_ok s' (fun n => u n - one (Some m) n) /\ queues s' = queues s.
Proof.
  intros H Hu. destruct (refs_ok_live s u m H Hu) as (d & Hm & Hl & Hr).
  rewrite (module_put_ref m d s Hm) by lia. intros [= <-]. split; [|done]. intros n. simpl.
  rewrite lookup_insert. specialize (H n). unfold one. case_decide as Hn.
  - subst n. rewrite decide_True by done. simpl. split; [lia | congruence].
  - rewrite decide_False by congruence. rewrite Z.sub_0_r. exact H.
Qed.

Lemma put_run s u m : refs_ok s u -> 0 < u m -> exists s', module_put m s = Ok (tt, s').
Proof.
  intros H Hu. destruct (refs_ok_live s u m H Hu) as (d & Hm & _ & Hr). rewrite (module_put_ref m d s Hm) by lia. eauto.
Qed.

(** *** Getting and putting the owner of an elevator *)

Lemma get_owner_refs s u o s' :
  refs_ok s u -> get_owner o s = Ok (true, s') ->
  refs_ok s' (fun n => u n + one o n) /\ queues s' = queues s.
Proof.
  intros H. destruct o as [m|]; simpl; [by apply try_get_refs |]. intros [= <-]. split; [|done].
  eapply refs_ok_ext; [exact H | done |]. intros m. unfold one. rewrite decide_False by done. lia.
Qed.

Lemma get_owner_fails o s s' : get_owner o s = Ok (false, s') -> s' = s.
Proof. destruct o; simpl; [apply try_get_fails | done]. Qed.

Lemma put_owner_refs s u o s' :
  refs_ok s u -> (forall m, o = Some m -> 0 < u m) -> put_owner o s = Ok (tt, s') ->
  refs_ok s' (fun n => u n - one o n) /\ queues s' = queues s.
Proof.
  intros H Hu. destruct o as [m|]; simpl; [apply put_refs; auto |]. intros [= <-]. split; [|done].
  eapply refs_ok_ext; [exact H | done |]. intros m. unfold one. rewrite decide_False by done. lia.
Qed.

(** ** The invariant *)

Definition types_ok (s : sys) : Prop :=
  forall rq q e, queues s !! rq = Some q -> elevator q = Some (ElvQueue (Some e)) -> type_ok e.

Definition task_ok (t : task) : Prop := keeps_protocol false (t_call t) (t_phase t) (t_prog t).

Record vm_inv (v : vm) : Prop := {
  vi_refs : refs_ok (v_sys v) (users (v_sys v) (v_tasks v));
  vi_types : types_ok (v_sys v);
  vi_tasks : Forall task_ok (v_tasks v);
}.

Lemma vfs_call_keeps c p : vfs_call c p -> disciplined false c p.
Proof.
  intros []; auto using write_keeps, fsync_keeps, create_keeps. apply mkdir_keeps. by left.
Qed.

(** What a call is told about its scheduler. *)
Lemma call_info_run i s info s' :
  types_ok s -> get_elevator_call_info_from_inode i s = Ok (info, s') ->
  info_ok info /\
  ((info = skip_info /\ s' = s) \/
   exists m, held (informed info) = Some m /\ try_module_get m s = Ok (true, s')).
Proof.
  intros Ht. unfold get_elevator_call_info_from_inode, bind at 1.
  destruct (inode_to_request_queue i s) as [[rq s1]|] eqn:Eq; [|done].
  assert (Es : s1 = s).
  { revert Eq. unfold inode_to_request_queue, rbind.
    repeat case_match; intros; simplify_eq; done. }
  subst s1. destruct rq as [rq|]; [|intros [= <- <-]; by split; [|left]].
  unfold bind, gets, lift, deref. destruct (queues s !! rq) as [q|] eqn:Hq; [|done].
  destruct (elevator q) as [[o]|] eqn:He; [|done]. simpl. destruct o as [e|]; [|done].
  destruct (elevator_owner e) as [m|] eqn:Ho; [|intros [= <- <-]; by split; [|left]].
  destruct (try_module_get m s) as [[ok s2]|] eqn:Em; [|done]. destruct ok.
  - intros [= <- <-]. split; [|right; by exists m]. simpl. intros c fn Hfn.
    specialize (Ht rq q e Hq He c fn Hfn). congruence.
  - intros [= <- <-]. rewrite (try_get_fails _ _ _ Em). by split; [|left].
Qed.

(** A step of one call: its users change by what it holds. *)
Lemma task_step_inv s ts s' n t t' :
  vm_inv (VM s ts) -> ts !! n = Some t -> task_ok t' -> queues s' = queues s ->
  refs_ok s' (fun m => users s ts m - one (held (t_phase t)) m + one (held (t_phase t')) m) ->
  vm_inv (VM s' (<[n := t']> ts)).
Proof.
  intros [Hr Ht Hk] Hn Ht' Eq Hrefs. split; simpl in *.
  - eapply refs_ok_ext; [exact Hrefs | done |]. intros m. unfold users. rewrite Eq.
    rewrite (task_users_insert _ _ _ _ _ Hn). lia.
  - intros rq q e. rewrite Eq. apply Ht.
  - by apply Forall_insert.
Qed.

Lemma quiet_step_inv s ts n t t' :
  vm_inv (VM s ts) -> ts !! n = Some t -> task_ok t' -> held (t_phase t') = held (t_phase t) ->
  vm_inv (VM s (<[n := t']> ts)).
Proof.
  intros Hi Hn Ht' Hh. eapply task_step_inv; eauto. rewrite Hh.
  eapply refs_ok_ext; [exact (vi_refs _ Hi) | done |]. intros m. simpl. lia.
Qed.

Lemma held_after_entry ph rv opaque : held (after_entry ph rv opaque) = held ph.
Proof. destruct ph; simpl; try done. by destruct (rv =? 0). Qed.
Lemma held_after_return ph : held (after_return ph) = held ph.
Proof. by destruct ph. Qed.

Lemma task_at s ts n t : vm_inv (VM s ts) -> ts !! n = Some t -> task_ok t.
Proof. intros Hi Hn. eapply Forall_lookup_1; [apply Hi | exact Hn]. Qed.

Lemma task_user s ts n t m :
  ts !! n = Some t -> held (t_phase t) = Some m -> 0 < users s ts m.
Proof.
  intros Hn Hh. unfold users, queue_users, task_users.
  assert (Hin : t ∈ filter (holds m) ts) by (apply list_elem_of_filter; split; [done | by eapply list_elem_of_lookup_2]).
  destruct (filter (holds m) ts); [by apply elem_of_nil in Hin | simpl; lia].
Qed.

Lemma queue_user s ts rq q m :
  queues s !! rq = Some q -> queue_owner q = Some m -> 0 < users s ts m.
Proof.
  intros Hq Ho. unfold users, queue_users, task_users.
  assert (Hl : filter (of_module m) (queues s) !! rq = Some q) by (by apply map_lookup_filter_Some).
  destruct (decide (filter (of_module m) (queues s) = ∅)) as [E|E]; [by rewrite E in Hl |].
  apply map_size_non_empty_iff in E. lia.
Qed.

(** Which elevator is on the queue after a switch. *)
Lemma switch_elevator registered init_err register_err new_e q err q' :
  elevator_switch registered init_err register_err new_e q = (err, q') ->
  elevator q' = if err =? 0 then Some (ElvQueue (Some new_e)) else elevator q.
Proof.
  unfold elevator_switch. destruct (Z.eqb_spec init_err 0) as [->|Hi]; simpl.
  - destruct registered; simpl; [|by intros [= <- <-]].
    destruct (Z.eqb_spec register_err 0); simpl; intros [= <- <-]; [done |]. simpl.
    by rewrite (proj2 (Z.eqb_neq _ _)).
  - intros [= <- <-]. by rewrite (proj2 (Z.eqb_neq _ _)).
Qed.

(** What a switch does: nothing, if the module of the new elevator gives no reference, or what [elevator_switch] says, and
    the references of the elevator that is not used in the end go. *)
Lemma switch_queue_run s ts registered init_err register_err new_e rq q err s' :
  vm_inv (VM s ts) -> queues s !! rq = Some q ->
  switch_queue registered init_err register_err new_e rq q s = Ok (err, s') ->
  (err = -22 /\ s' = s) \/
  exists err0 q', elevator_switch registered init_err register_err new_e q = (err0, q') /\
    err = err0 /\ queues s' = <[rq := q']> (queues s) /\
    refs_ok s' (fun m => users s ts m + one (elevator_owner new_e) m
                         - one (if err0 =? 0 then queue_owner q else elevator_owner new_e) m).
Proof.
  intros Hi Hq. unfold switch_queue, bind at 1.
  destruct (get_owner (elevator_owner new_e) s) as [[ok s1]|] eqn:Eg; [|done]. destruct ok.
  2: { intros [= <- <-]. left. by rewrite (get_owner_fails _ _ _ Eg). }
  destruct (get_owner_refs _ _ _ _ (vi_refs _ Hi) Eg) as [Hr1 Eq1].
  destruct (elevator_switch _ _ _ _ q) as [err0 q'] eqn:Es.
  unfold bind at 1, modify. set (s2 := s1 <| queues ::= _ |>). unfold bind.
  set (o := if err0 =? 0 then queue_owner q else elevator_owner new_e).
  destruct (put_owner o s2) as [[[] s3]|] eqn:Ep; [|done]. intros [= <- <-]. right. exists err0, q'.
  assert (Hr2 : refs_ok s2 (fun m => users s ts m + one (elevator_owner new_e) m)) by exact Hr1.
  destruct (put_owner_refs _ _ o s3 Hr2) as [Hr3 Eq3]; [|exact Ep | split_and!; auto; rewrite Eq3; simpl; by rewrite Eq1].
  intros m Hm. pose proof (users_range s ts m). unfold o in Hm. destruct (err0 =? 0).
  - pose proof (queue_user s ts _ _ _ Hq Hm). pose proof (one_range (elevator_owner new_e) m). lia.
  - unfold one. rewrite decide_True by done. lia.
Qed.

Lemma switch_step_inv s ts registered init_err register_err new_e rq q err s' :
  vm_inv (VM s ts) -> type_ok new_e -> queues s !! rq = Some q ->
  switch_queue registered init_err register_err new_e rq q s = Ok (err, s') -> vm_inv (VM s' ts).
Proof.
  intros Hi He Hq Hs. destruct (switch_queue_run _ _ _ _ _ _ _ _ _ _ Hi Hq Hs) as [[_ ->]|(err0 & q' & Es & _ & Eq & Hr3)]; [done |].
  destruct Hi as [Hr Ht Hk]. simpl in Hr, Ht, Hk. pose proof (switch_elevator _ _ _ _ _ _ _ Es) as Hel.
  assert (Hown : queue_owner q' = if err0 =? 0 then elevator_owner new_e else queue_owner q).
  { unfold queue_owner. rewrite Hel. by destruct (err0 =? 0). }
  split; simpl; auto.
  - eapply refs_ok_ext; [exact Hr3 | done |]. intros m. unfold users. rewrite Eq.
    rewrite (queue_users_insert _ _ _ _ _ Hq), Hown. destruct (err0 =? 0); lia.
  - intros rq' x e. rewrite Eq, lookup_insert. case_decide; [|apply Ht]. intros [= <-]. rewrite Hel.
    destruct (err0 =? 0); [by intros [= <-] |]. by apply (Ht rq).
Qed.

Lemma vstep_inv v v' : vm_inv v -> vstep v v' -> vm_inv v'.
Proof.
  intros Hi Hs. revert Hi. destruct Hs; intros Hi; try (match goal with H : _ !! _ = Some (Task _ _ _) |- _ =>
    pose proof (task_at _ _ _ _ Hi H) as Hk; unfold task_ok in Hk; simpl in Hk end).
  - destruct Hi as [Hr Ht Hk]. split; simpl in *; auto.
    + eapply refs_ok_ext; [exact Hr | done |]. intros m. unfold users. rewrite task_users_app.
      unfold one. rewrite decide_False by done. lia.
    + apply Forall_app. split; [done |]. constructor; [|constructor]. by apply vfs_call_keeps.
  - destruct Hk as [-> Hk]. destruct (call_info_run _ _ _ _ (vi_types _ Hi) H0) as [Hok Hin].
    eapply task_step_inv; eauto; simpl.
    + by apply Hk.
    + destruct Hin as [[_ ->]|(m & _ & E)]; [done |]. by apply (try_get_refs s _ m _ (vi_refs _ Hi)).
    + destruct Hin as [[-> ->]|(m & -> & E)].
      * eapply refs_ok_ext; [exact (vi_refs _ Hi) | done |]. intros m. simpl. lia.
      * destruct (try_get_refs _ _ _ _ (vi_refs _ Hi) E) as [Hr _].
        eapply refs_ok_ext; [exact Hr | done |]. intros n'. simpl. unfold one at 1. rewrite decide_False by done. lia.
  - destruct Hk as [_ Hk]. eapply quiet_step_inv; [exact Hi | exact H | apply Hk | apply held_after_entry].
  - destruct Hk as [_ Hk]. eapply quiet_step_inv; [exact Hi | exact H | apply Hk | apply held_after_return].
  - destruct Hk as (Hh & _ & Hk). eapply task_step_inv; eauto; simpl.
    all: destruct (put_refs s (users s ts) m s' (vi_refs _ Hi)) as [Hr Eq]; [by eapply task_user | done | try done].
    rewrite Hh. eapply refs_ok_ext; [exact Hr | done |]. intros n'. unfold one at 2. rewrite decide_False by done. lia.
  - eapply quiet_step_inv; [exact Hi | exact H | apply Hk | done].
  - by eapply switch_step_inv.
  - destruct Hi as [Hr Ht Hk]. split; simpl in *; auto. intros n. simpl. specialize (Hr n).
    rewrite lookup_insert. case_decide as Hn; [|exact Hr]. subst n. rewrite H in Hr. done.
  - destruct Hi as [Hr Ht Hk]. split; simpl in *; auto. intros n. simpl. specialize (Hr n).
    rewrite lookup_insert. case_decide as Hn; [|exact Hr]. subst n. rewrite H in Hr.
    destruct Hr as [Hr _]. change (users _ ts m) with (users s ts m). simpl. split; [done | lia].
  - destruct Hi as [Hr Ht Hk]. split; simpl in *; auto. intros n. simpl. specialize (Hr n).
    rewrite lookup_delete. case_decide as Hn; [|exact Hr]. subst n. rewrite H in Hr. by apply Hr.
Qed.

Lemma vreach_inv v : vreach v -> vm_inv v.
Proof.
  induction 1 as [s Hq Hm|v v' _ IH Hs]; [|by eapply vstep_inv]. split; simpl; auto.
  - intros m. simpl. rewrite Hm, lookup_empty. unfold users, queue_users, task_users. simpl.
    assert (E : filter (of_module m) (queues s) = ∅); [|by rewrite E].
    apply map_empty. intros rq. apply map_lookup_filter_None. right. intros q Hrq.
    unfold of_module, queue_owner. simpl. by rewrite (Hq rq q Hrq).
  - intros rq q e Hrq. by rewrite (Hq rq q Hrq).
Qed.

(** The hook a call is about to call. *)
Definition next_hook (t : task) : option code :=
  match t_prog t with CallEntry fn _ _ _ | CallReturn fn _ _ _ _ _ => Some fn | _ => None end.

(** C14: no hook of a module that is gone is called: in every run of any number of
    writes, fsyncs, creates and mkdirs, with elevators replaced, with success or not, and
    modules loaded and unloaded in between, when a call is about to call a hook, the module
    of the hook is in the kernel and has a reference of this call; and no call runs into
    the BUG_ON, or puts a module that it does not have a reference on. *)
Theorem vfs_hooks_loaded v n t :
  vreach v -> v_tasks v !! n = Some t ->
  match t_prog t with
  | CallEntry fn _ _ _ | CallReturn fn _ _ _ _ _ =>
      held (t_phase t) = Some (text_of fn) /\
      exists d, modules (v_sys v) !! text_of fn = Some d /\ m_live d = true /\ 0 < m_refs d
  | ModulePut m _ => held (t_phase t) = Some m /\ exists s', module_put m (v_sys v) = Ok (tt, s')
  | Bug _ => False
  | _ => True
  end.
Proof.
  intros Hv%vreach_inv Hn. destruct v as [s ts]. simpl in *. pose proof (task_at _ _ _ _ Hv Hn) as Hk.
  unfold task_ok in Hk.
  assert (Hlive : forall m, held (t_phase t) = Some m ->
    exists d, modules s !! m = Some d /\ m_live d = true /\ 0 < m_refs d).
  { intros m Hm. pose proof (task_user s ts n t m Hn Hm) as Hu.
    destruct (refs_ok_live s _ m (vi_refs _ Hv) Hu) as (d & ? & ? & ?). exists d. split_and!; auto. simpl in *. lia. }
  destruct (t_prog t); simpl in Hk; try done.
  - destruct Hk as [(q & m & sops & Hp & _ & Hfn & _) _].
    assert (Hh : held (t_phase t) = Some (text_of fn)) by (rewrite Hp; simpl; congruence). auto.
  - destruct Hk as [(q & m & sops & _ & _ & Hm & _ & Hfn & _) _].
    assert (Hh : held (t_phase t) = Some (text_of fn)) by congruence. auto.
  - destruct Hk as (Hm & _). split; [done |]. eapply put_run; [exact (vi_refs _ Hv) | by eapply task_user].
Qed.

(** C24: the references of a module are exactly its users: the queues whose elevator it
    has and the calls that took its hooks and have not given the reference back.  So
    once no queue uses a module and every such call is over, it can be unloaded. *)
Theorem module_refs_exact v m d :
  vreach v -> modules (v_sys v) !! m = Some d -> m_refs d = users (v_sys v) (v_tasks v) m.
Proof.
  intros Hv%vreach_inv Hm. pose proof (vi_refs _ Hv m) as H. rewrite Hm in H. apply H.
Qed.

(** C38: a scheduler that is replaced is not told: let a call have taken the hooks of an
    elevator when the number of its queue was 1000, as it is after every switch, and be
    about to call the entry hook; and let the queue be given another elevator.
    The call then calls the hook of the old elevator, with a number that
    equals that of the queue, so that the hook takes the data of the new elevator for its own. *)
Theorem stale_call_unnoticed v n t rq m sops fn k registered e q s' :
  vreach v -> v_tasks v !! n = Some t -> t_phase t = Asking rq m sops ->
  t_prog t = CallEntry fn (Some rq) (sched_uniq sops) k -> sched_uniq sops = 1000 ->
  queues (v_sys v) !! rq = Some q -> type_ok e ->
  switch_queue registered 0 0 e rq q (v_sys v) = Ok (0, s') ->
  vreach (VM s' (v_tasks v)) /\
  exists q', queues s' !! rq = Some q' /\ elevator q' = Some (ElvQueue (Some e)) /\
    q_sched_uniq q' = sched_uniq sops.
Proof.
  intros Hv Hn Hp Hk Hu Hq He Hs. destruct v as [s ts]. simpl in *. split.
  { eapply vreach_step; [exact Hv |]. by eapply step_switch. }
  pose proof (vreach_inv _ Hv) as Hi. destruct (switch_queue_run _ _ _ _ _ _ _ _ _ _ Hi Hq Hs) as [[[=] _]|(err & q' & Es & Hs')].
  rewrite switch_uniq in Es. injection Es as <- <-. destruct Hs' as (_ & Eq & _).
  eexists. rewrite Eq, lookup_insert_eq. split; [done |]. simpl. by rewrite Hu.
Qed.

(** *** The call that forgets its reference *)

Inductive vsteps : vm -> vm -> Prop :=
  | vsteps_refl v : vsteps v v
  | vsteps_step v v' v'' : vstep v v' -> vsteps v' v'' -> vsteps v v''.

Lemma vsteps_reach v v' : vreach v -> vsteps v v' -> vreach v'.
Proof. intros Hv H. induction H; [done |]. apply IHvsteps. by eapply vreach_step. Qed.

(** A call that is over does not change any more. *)
Definition over (n : nat) (t : task) (v : vm) : Prop :=
  v_tasks v !! n = Some t /\ exists rv, t_prog t = Ret rv.

Lemma over_step n t v v' : over n t v -> vstep v v' -> over n t v'.
Proof.
  intros [Hn [rv Hr]] Hs. split; [|by exists rv]. revert Hn. destruct Hs; simpl; auto; intros Hn.
  { by apply lookup_app_l_Some. }
  all: match goal with H : _ !! ?k = Some (Task _ _ _) |- _ =>
    destruct (decide (k = n)) as [->|Hne]; [|by rewrite list_lookup_insert_ne];
    rewrite H in Hn; injection Hn as <-; discriminate end.
Qed.

Lemma over_steps n t v v' : over n t v -> vsteps v v' -> over n t v'.
Proof. intros Ho H. induction H; [done |]. apply IHvsteps. by eapply over_step. Qed.

(** *** Running one call by itself *)

(** [fs] is what the file system answers, [hook] what the entry hook does. *)
Fixpoint run_alone (fs : work -> Z) (hook : Z * option ptr) (ph : phase) (p : prog) (s : sys)
    : result (Z * phase * sys) :=
  match p with
  | Ret rv => Ok (rv, ph, s)
  | GetInfo i k =>
      let? r := get_elevator_call_info_from_inode i s in
      run_alone fs hook (informed (fst r)) (k (fst r)) (snd r)
  | CallEntry _ _ _ k => run_alone fs hook (after_entry ph (fst hook) (snd hook)) (k (fst hook) (snd hook)) s
  | CallReturn _ _ _ _ _ k => run_alone fs hook (after_return ph) k s
  | ModulePut m k => let? r := module_put m s in run_alone fs hook Outside k (snd r)
  | Work w k => run_alone fs hook ph (k (fs w)) s
  | Bug line => Fault (BUG line)
  end.

Lemma run_alone_steps fs hook c p ph s ts n rv ph' s' :
  ts !! n = Some (Task c ph p) -> run_alone fs hook ph p s = Ok (rv, ph', s') ->
  vsteps (VM s ts) (VM s' (<[n := Task c ph' (Ret rv)]> ts)).
Proof.
  assert (Hgo : forall s ts s1 t1 k1 ph1, ts !! n = Some t1 ->
    vstep (VM s ts) (VM s1 (<[n := Task c ph1 k1]> ts)) ->
    (forall ts, ts !! n = Some (Task c ph1 k1) ->
      vsteps (VM s1 ts) (VM s' (<[n := Task c ph' (Ret rv)]> ts))) ->
    vsteps (VM s ts) (VM s' (<[n := Task c ph' (Ret rv)]> ts))).
  { intros t0 ts0 s1 t1 k1 ph1 Hn Hs Hk. eapply vsteps_step; [exact Hs |].
    rewrite <- (list_insert_insert_eq ts0 n (Task c ph' (Ret rv)) (Task c ph1 k1)). apply Hk.
    apply list_lookup_insert_eq. by eapply lookup_lt_Some. }
  revert ph s ts. induction p; intros ph s ts Hn Hr; simpl in Hr.
  - simplify_eq. rewrite list_insert_id by done. constructor.
  - destruct (get_elevator_call_info_from_inode i s) as [[info s1]|] eqn:Ei; [|done]. simpl in Hr.
    eapply Hgo; [exact Hn | by eapply step_info |]. intros ts' Hn'. eapply H; eauto.
  - eapply Hgo; [exact Hn | by eapply step_entry |]. intros ts' Hn'. eapply H; eauto.
  - eapply Hgo; [exact Hn | by eapply step_return |]. intros ts' Hn'. eapply IHp; eauto.
  - destruct (module_put m s) as [[[] s1]|] eqn:Em; [|done]. simpl in Hr.
    eapply Hgo; [exact Hn | by eapply step_put |]. intros ts' Hn'. eapply IHp; eauto.
  - eapply Hgo; [exact Hn | by eapply step_work |]. intros ts' Hn'. eapply H; eauto.
  - done.
Qed.

(** A file system that objects to nothing. *)
Definition willing : work -> Z := fun _ => 0.

(** C37: [vfs_mkdir] in a full directory keeps its reference for ever: if the directory has
    as many links as its file system allows, the call, once the entry hook has let it in,
    returns -EMLINK without calling the return hook and without putting the
    module; from then on, whatever else happens, the module cannot be unloaded. *)
Theorem mkdir_at_limit_pins_module v max_links i_nlink dir rq m sops s1 opaque :
  vreach v -> at_link_limit max_links i_nlink = true ->
  get_elevator_call_info_from_inode dir (v_sys v) = Ok ((Some rq, Some m, sops), s1) ->
  exists v1 t, vsteps v v1 /\ over (length (v_tasks v)) t v1 /\ t_prog t = Ret (- EMLINK) /\
    t_phase t = match entry_fn sops SysMkdir with
                | Some _ => Inside rq m sops opaque | None => Asking rq m sops end /\
    forall v2, vsteps v1 v2 -> exists d, modules (v_sys v2) !! m = Some d /\ m_live d = true /\ 0 < m_refs d.
Proof.
  intros Hv Hlim Hinfo. destruct v as [s ts]. simpl in *.
  set (ph := match entry_fn sops SysMkdir with
             | Some _ => Inside rq m sops opaque | None => Asking rq m sops end).
  assert (Hrun : run_alone willing (0, opaque) Outside (vfs_mkdir max_links i_nlink dir) s = Ok (- EMLINK, ph, s1)).
  { simpl. rewrite Hinfo. cbn [rbind fst snd informed]. unfold intercept_entry, ph.
    unfold at_link_limit in Hlim. destruct (entry_fn sops SysMkdir); simpl; by rewrite Hlim. }
  set (n := length ts). set (t0 := Task SysMkdir Outside (vfs_mkdir max_links i_nlink dir)).
  assert (Hn : (ts ++ [t0]) !! n = Some t0) by (rewrite lookup_app_r, Nat.sub_diag by done; done).
  set (v1 := VM s1 (<[n := Task SysMkdir ph (Ret (- EMLINK))]> (ts ++ [t0]))).
  assert (Hsteps : vsteps (VM s ts) v1).
  { eapply vsteps_step; [apply step_call, is_mkdir |]. by eapply run_alone_steps. }
  assert (Ho : over n (Task SysMkdir ph (Ret (- EMLINK))) v1).
  { split; [|by eexists]. simpl. apply list_lookup_insert_eq. by eapply lookup_lt_Some. }
  exists v1, (Task SysMkdir ph (Ret (- EMLINK))). split_and!; auto. intros v2 H2.
  pose proof (over_steps _ _ _ _ Ho H2) as [Hn2 _].
  pose proof (vreach_inv _ (vsteps_reach _ _ (vsteps_reach _ _ Hv Hsteps) H2)) as Hi.
  assert (Hh : held ph = Some m) by (unfold ph; by destruct (entry_fn sops SysMkdir)).
  pose proof (task_user (v_sys v2) (v_tasks v2) n _ m Hn2 Hh) as Hu.
  destruct (refs_ok_live _ _ m (vi_refs _ Hi) Hu) as (d & Hd & Hl & Hr). exists d. split_and!; auto. lia.
Qed.
End Machine.

(** ** A small machine: one disk, one module *)

#[export] Instance one_disk : BlkFns := {| bdev_get_queue := fun bdev => Some bdev |}.

Definition ex_elevator : elevator_type :=
  ElvType (ElvOps (fun _ => Some (Code 1 1)) (fun _ => Some (Code 1 2))) (Some 1%positive).
Definition ex_dir : inode := Inode 0x41ed (Some (SuperBlock (Some (Some "ext4"%string)) (Some 5%positive))) None.
Definition ex_sys0 : sys := Sys {[5%positive := RqQueue None 0]} ∅.
Definition ex_sys1 : sys := Sys {[5%positive := RqQueue None 0]} {[1%positive := Mod true 0]}.
Definition ex_sys2 : sys :=
  Sys {[5%positive := RqQueue (Some (ElvQueue (Some ex_elevator))) 1000]} {[1%positive := Mod true 1]}.

Lemma ex_sys2_reach : vreach (VM ex_sys2 []).
Proof.
  eapply vreach_step; [eapply vreach_step; [apply (vreach_init ex_sys0)|]|].
  - intros rq q Hq. simpl in Hq. apply lookup_singleton_Some in Hq as [_ <-]. done.
  - done.
  - apply (step_load ex_sys0 [] 1%positive). done.
  - change (ex_sys0 <| modules ::= <[1%positive := Mod true 0]> |>) with ex_sys1.
    eapply (step_switch ex_sys1 [] true 0 0 ex_elevator 5%positive).
    + intros c fn [[= <-]|[= <-]]; done.
    + done.
    + reflexivity.
Qed.

(** A [create] that has taken the hooks. *)
Definition ex_sys3 : sys :=
  Sys {[5%positive := RqQueue (Some (ElvQueue (Some ex_elevator))) 1000]} {[1%positive := Mod true 2]}.
Definition ex_sops3 : elevator_syscall_ops := Sops (fun _ => Some (Code 1 1)) (fun _ => Some (Code 1 2)) 1000.
Definition ex_task3 : task :=
  Task SysCreate (Asking 5 1 ex_sops3)
    (match vfs_create (Some ex_dir) with GetInfo _ k => k (Some 5%positive, Some 1%positive, ex_sops3) | p => p end).

Lemma ex_sys3_reach : vreach (VM ex_sys3 [ex_task3]).
Proof.
  eapply vreach_step; [eapply vreach_step; [exact ex_sys2_reach | apply step_call, (is_create (Some ex_dir))]|].
  exact (step_info ex_sys2 [Task SysCreate Outside (vfs_create (Some ex_dir))] 0 SysCreate Outside (Some ex_dir) _
           (Some 5%positive, Some 1%positive, ex_sops3) ex_sys3 eq_refl eq_refl).
Qed.

Lemma vfs_hooks_loaded_witness :
  exists d, modules ex_sys3 !! 1%positive = Some d /\ m_live d = true /\ 0 < m_refs d.
Proof.
  pose proof (vfs_hooks_loaded (VM ex_sys3 [ex_task3]) 0 ex_task3 ex_sys3_reach eq_refl) as [_ H]. exact H.
Defined.

Definition ex_builtin : elevator_type := ElvType (ElvOps (fun _ => None) (fun _ => None)) None.

Lemma stale_call_unnoticed_witness :
  exists s' q', vreach (VM s' [ex_task3]) /\ queues s' !! 5%positive = Some q' /\
    elevator q' = Some (ElvQueue (Some ex_builtin)) /\ q_sched_uniq q' = 1000.
Proof.
  pose proof (fun k => stale_call_unnoticed (VM ex_sys3 [ex_task3]) 0 ex_task3 5%positive 1%positive ex_sops3
    (Code 1 1) k true ex_builtin (RqQueue (Some (ElvQueue (Some ex_elevator))) 1000)
    (Sys {[5%positive := RqQueue (Some (ElvQueue (Some ex_builtin))) 1000]} {[1%positive := Mod true 1]})
    ex_sys3_reach eq_refl eq_refl) as H.
  destruct (H _ eq_refl eq_refl eq_refl) as (H1 & q' & H2); [by intros c fn [|] | reflexivity |].
  eexists _, q'. exact (conj H1 H2).
Defined.

Lemma module_refs_exact_witness : users ex_sys2 [] 1%positive = 1.
Proof.
  pose proof (module_refs_exact (VM ex_sys2 []) 1%positive (Mod true 1) ex_sys2_reach eq_refl) as H.
  symmetry. exact H.
Defined.

Lemma mkdir_at_limit_pins_module_witness :
  exists v1 t, vsteps (VM ex_sys2 []) v1 /\ over 0 t v1 /\ t_prog t = Ret (- EMLINK).
Proof.
  destruct (mkdir_at_limit_pins_module (VM ex_sys2 []) 65000 65000 (Some ex_dir) 5%positive 1%positive
    ex_sops3 ex_sys3 None ex_sys2_reach) as (v1 & t & H1 & H2 & H3 & _); [reflexivity | reflexivity |].
  exists v1, t. done.
Defined.
