(* ===== verification/VfsAfq.v ===== *)
(** * System calls on a disk with the actually-fair-queuing scheduler

    [AfqRuns] assumes that a return hook is given a descriptor that an entry hook of the
    same kind left and that was let go.  Here the callers are the
    system calls as patched: any number of them run at the same time, operation by
    operation, sleep in the entry hook until their descriptor is completed, and
    return; in between anything else of a run of the scheduler happens.  The
    assumption holds then, since no descriptor is lost, taken for another or
    freed while a call has it. *)

From S2P Require Import Elevator VfsCalls VfsModules.
From S2P Require Import Prelude Keeps CInt Kernel DiskSim IoBatch HashTable CauseTags Tags Jiffies.
From S2P Require Import SplitAccount SplitSched IoctlHelper Afq AfqOps AfqInv AfqVio AfqAccount AfqHooks.
From S2P Require Import AfqWorks AfqSelect AfqSubmit AfqPool AfqCalls AfqRequests AfqRuns AfqExamples.

(** ** The elevator *)

(** The kind of the descriptor for a call that has hooks. *)
Definition call_kind (c : sys_call) : option io_type :=
  match c with
  | SysWrite => Some SCHED_SYS_WRITE
  | SysFsync => Some SCHED_SYS_FSYNC
  | SysMkdir => Some SCHED_SYS_MKDIR
  | SysRead | SysCreate => None
  end.

(** The hooks for system calls; [m] is [THIS_MODULE]. *)
Definition basic_sched_elv_type (m : ptr) : elevator_type := {|
  ops := {|
    elevator_entry_fn := fun c => match c with
      | SysWrite => Some (Code m 1) | SysMkdir => Some (Code m 2) | SysFsync => Some (Code m 3)
      | SysRead | SysCreate => None end;
    elevator_return_fn := fun c => match c with
      | SysWrite => Some (Code m 4) | SysMkdir => Some (Code m 5) | SysFsync => Some (Code m 6)
      | SysRead | SysCreate => None end;
  |};
  elevator_owner := Some m;
|}.

Lemma basic_sched_type_ok m : type_ok (basic_sched_elv_type m).
Proof. intros c fn Hf. destruct c; simpl in Hf; destruct Hf as [Hf|Hf]; by simplify_eq. Qed.

(** The arguments of a call and the account of its caller. *)
Record call_args := CallArgs {
  a_cur : Z; a_file : ptr; a_dentry : ptr; a_direct : bool;
  a_count : Z; a_pos : Z; a_mode : Z; a_datasync : Z;
}.

Section Hooks.
Context {K : KernelFns} {KO : KernelOk K} {J : JiffyFns} {D : Driver}.

(** What the hooks in the table do. *)
Definition afq_entry (c : sys_call) (a : call_args) (uniq : Z) : ST afq entry_result :=
  match c with
  | SysWrite => basic_sched_write_entry (a_cur a) (a_file a) (a_direct a) (a_count a) (a_pos a) uniq
  | SysMkdir => basic_sched_mkdir_entry (a_cur a) (a_file a) (a_dentry a) (a_mode a) uniq
  | SysFsync => basic_sched_fsync_entry (a_cur a) (a_file a) (a_datasync a) uniq
  | SysRead | SysCreate => lift (Fault (NullDeref 0))
  end.
Definition afq_return (c : sys_call) (opaque : option ptr) (uniq : Z) : ST afq unit :=
  match c with
  | SysWrite => basic_sched_write_return opaque uniq
  | SysMkdir => basic_sched_mkdir_return opaque uniq
  | SysFsync => basic_sched_fsync_return opaque uniq
  | SysRead | SysCreate => lift (Fault (NullDeref 0))
  end.

(** ** The machine *)

Record task := Task {
  t_call : sys_call;
  t_args : call_args;
  t_phase : phase;
  t_prog : prog;
  t_wait : option ptr;      (* the descriptor whose completion it waits for *)
}.

(** The handlers that are not hooks of system calls. *)
Definition other_handler (h : handler) : Prop :=
  match h with
  | WriteEntry _ _ _ _ _ _ | WriteReturn _ _ | MkdirEntry _ _ _ _ _ | MkdirReturn _ _
  | FsyncEntry _ _ _ _ | FsyncReturn _ _ => False
  | _ => True
  end.

Variables q m : ptr.     (* the queue and the module of the scheduler *)

Definition afq_sops (uniq : Z) : elevator_syscall_ops :=
  Sops (elevator_entry_fn (ops (basic_sched_elv_type m))) (elevator_return_fn (ops (basic_sched_elv_type m))) uniq.

Inductive astep : afq * list task -> afq * list task -> Prop :=
  | a_handler s ts h s' :
      other_handler h -> callable h s -> run_handler h s = Ok (tt, s') -> astep (s, ts) (s', ts)
  | a_kernel s ts s' : kernel_step s s' -> astep (s, ts) (s', ts)
  | a_call s ts c a p : vfs_call c p -> astep (s, ts) (s, ts ++ [Task c a Outside p None])
  | a_info s ts n c a ph i k info :
      ts !! n = Some (Task c a ph (GetInfo i k) None) ->
      info = skip_info \/ info = (Some q, Some m, afq_sops (q_sched_uniq s)) ->
      astep (s, ts) (s, <[n := Task c a (informed info) (k info) None]> ts)
  | a_enter s ts n c a ph fn rq uniq k rv o s' :
      ts !! n = Some (Task c a ph (CallEntry fn rq uniq k) None) ->
      afq_entry c a uniq s = Ok (Returns rv o, s') ->
      let opaque := default None o in
      astep (s, ts) (s', <[n := Task c a (after_entry ph rv opaque) (k rv opaque) None]> ts)
  | a_wait s ts n c a ph fn rq uniq k desc s' :
      ts !! n = Some (Task c a ph (CallEntry fn rq uniq k) None) ->
      afq_entry c a uniq s = Ok (Waits desc, s') ->
      astep (s, ts) (s', <[n := Task c a ph (CallEntry fn rq uniq k) (Some desc)]> ts)
  | a_wake s ts n c a ph fn rq uniq k desc d :
      ts !! n = Some (Task c a ph (CallEntry fn rq uniq k) (Some desc)) ->
      calls s !! desc = Some d -> c_done d = true ->
      astep (s, ts) (s, <[n := Task c a (after_entry ph 0 (Some desc)) (k 0 (Some desc)) None]> ts)
  | a_return s ts n c a ph fn rq opaque rv uniq k s' :
      ts !! n = Some (Task c a ph (CallReturn fn rq opaque rv uniq k) None) ->
      afq_return c opaque uniq s = Ok (tt, s') ->
      astep (s, ts) (s', <[n := Task c a (after_return ph) k None]> ts)
  | a_put s ts n c a ph m' k :
      ts !! n = Some (Task c a ph (ModulePut m' k) None) ->
      astep (s, ts) (s, <[n := Task c a Outside k None]> ts)
  | a_work s ts n c a ph w k rv :
      ts !! n = Some (Task c a ph (Work w k) None) ->
      astep (s, ts) (s, <[n := Task c a ph (k rv) None]> ts).

Inductive areach : afq * list task -> Prop :=
  | areach_init s : reachable s -> areach (s, [])
  | areach_step x y : areach x -> astep x y -> areach y.

(** ** What the scheduler does to the descriptors of calls *)

(** A call that runs goes on until it returns. *)
Lemma history_keeps_call l x y b p :
  history l x y -> Forall (fun a => forall b, a <> Return b (OfCall p)) l ->
  running x b (OfCall p) -> running y b (OfCall p).
Proof.
  induction 1 as [x y (_ & P & _)|a l x y z H _ IH]; intros Hl Hr; [by apply P |].
  apply Forall_cons in Hl as [Ha Hl]. apply IH; [done |]. clear IH Hl.
  destruct a; simpl in H; unfold same_running in H.
  - destruct H as (_ & H & _). by apply H.
  - destruct H as (_ & _ & _ & _ & H & _). apply H. by left.
  - destruct H as (_ & H & _). by apply H.
  - destruct H as (_ & _ & H & _). apply H. split; [done |]. intros <-. by apply (Ha b0).
  - destruct H as (_ & H & _). by apply H.
Qed.

Definition calls_go_on (s s' : afq) : Prop :=
  q_sched_uniq s' = q_sched_uniq s /\
  forall b p, runs_in s b (OfCall p) -> runs_in s' b (OfCall p).

Lemma history_go_on l s s' :
  history l (abs s) (abs s') -> Forall (fun a => forall b p, a <> Return b (OfCall p)) l ->
  q_sched_uniq s' = q_sched_uniq s -> calls_go_on s s'.
Proof.
  intros H Hl U. split; [done |]. intros b p. apply (history_keeps_call l _ _ b p H).
  eapply Forall_mono; [|exact Hl]. intros a Ha b'. apply Ha.
Qed.

Lemma grants_no_return l : Forall is_grant l -> Forall (fun a => forall b p, a <> Return b (OfCall p)) l.
Proof. apply Forall_mono. by intros []. Qed.

(** *** Handlers that are not hooks *)

Definition undisturbed (s s' : afq) : Prop := kinds s' = kinds s /\ calls_go_on s s'.

Lemma frame_undisturbed s s' : frame s s' -> undisturbed s s'.
Proof.
  intros F. split; [by apply frame_kinds |]. eapply (history_go_on []).
  - by apply history_nil, frame_pool.
  - constructor.
  - apply F.
Qed.

Lemma quiet_undisturbed P (m' : ST afq unit) Q s s' :
  quiet P m' Q -> afq_inv s -> P s -> m' s = Ok (tt, s') -> undisturbed s s'.
Proof.
  intros Hq Hi HP E. destruct (Hq s Hi HP) as (b & s1 & E1 & _ & F & _).
  rewrite E1 in E. injection E as _ <-. by apply frame_undisturbed.
Qed.

Lemma one_act_undisturbed a s s' :
  kinds s' = kinds s -> q_sched_uniq s' = q_sched_uniq s -> history [a] (abs s) (abs s') ->
  (forall b p, a <> Return b (OfCall p)) -> undisturbed s s'.
Proof. intros Ek U H Ha. split; [done |]. eapply history_go_on; [exact H | | done]. by repeat constructor. Qed.

Lemma no_act_undisturbed s s' :
  kinds s' = kinds s -> q_sched_uniq s' = q_sched_uniq s -> history [] (abs s) (abs s') -> undisturbed s s'.
Proof. intros Ek U H. split; [done |]. by eapply history_go_on; [exact H | |]. Qed.

Lemma other_handler_undisturbed h s s' :
  afq_inv s -> callable h s -> other_handler h -> run_handler h s = Ok (tt, s') -> undisturbed s s'.
Proof.
  intros Hi Hc Ho Hrun. destruct h; simpl in Hc, Ho, Hrun; try done.
  - destruct (dispatch_pool s force Hi) as (rv & s1 & acts & E & _ & U & Ek & H & G).
    rewrite (drop_run _ _ _ _ E) in Hrun. injection Hrun as <-. split; [done |].
    by eapply history_go_on; [exact H | apply grants_no_return |].
  - destruct (run_queue_run s Hi) as (s1 & acts & E & _ & U & Ek & H & G).
    rewrite E in Hrun. injection Hrun as <-. split; [done |].
    by eapply history_go_on; [exact H | apply grants_no_return |].
  - eapply (quiet_undisturbed (fun _ => True)); [|done | done | done]. apply keeps_quiet.
    eapply keeps_conseq; [apply keeps_update_min | by intros ? [] | by intros ? ? H].
  - destruct Hc as [[r Hr] Ha].
    destruct (set_request_run_afq s q0 rq r Hi Hr Ha) as (s1 & r' & d & E & _ & U & Ek & H & _).
    rewrite (drop_run _ _ _ _ E) in Hrun. injection Hrun as <-. by apply no_act_undisturbed.
  - destruct Hc as [[r Hr] Ha].
    destruct (put_request_run_afq s rq r Hi Hr Ha) as (s1 & E & _ & U & Ek & H & _).
    rewrite E in Hrun. injection Hrun as <-. by apply no_act_undisturbed.
  - destruct Hc as (r & d & Hf & Ha & Hcn).
    destruct (afq_add_request_run s cur rq r d Hi Hf Ha Hcn) as (s1 & E & _ & U & Ek & [H|(_ & p & _ & H)]);
      rewrite E in Hrun; injection Hrun as <-; by eapply one_act_undisturbed.
  - destruct (complete_request_run s rq Hi Hc) as (s1 & E & _ & U & Ek & [(b & _ & H & _)|[_ H]]);
      rewrite (bind_ok _ _ s tt (taken_back rq s)) in Hrun by done; rewrite E in Hrun; injection Hrun as <-;
      by eapply one_act_undisturbed.
  - eapply (quiet_undisturbed (fun s => has_causes causes s /\ is_Some (inodes s !! inode)));
      [|done | done | done]. apply keeps_quiet. eapply keeps_conseq; [apply keeps_dirty | done | by intros ? ? H].
  - eapply (quiet_undisturbed (has_causes causes)); [|done | done | done].
    apply keeps_quiet. eapply keeps_conseq; [apply keeps_free | done | by intros ? ? H].
  - destruct (kv_set_run s id key val Hi Hc) as (s1 & E & _ & S & U). rewrite E in Hrun. injection Hrun as <-.
    apply no_act_undisturbed; [unfold kinds; by rewrite (sw_calls _ _ S) | done |].
    by apply history_nil, same_works_pool.
  - destruct (wait_timer_run s Hi) as (s1 & E & _ & U & Ek & H & _). rewrite E in Hrun. injection Hrun as <-.
    by apply no_act_undisturbed.
  - destruct (dead_timer_run s Hi) as (s1 & E & _ & U & Ek & H & _). rewrite E in Hrun. injection Hrun as <-.
    by apply no_act_undisturbed.
Qed.

Lemma kernel_step_undisturbed s s' : kernel_step s s' -> undisturbed s s'.
Proof.
  intros [E1 E2 E3 E4 E5 E6 _ _ _]. split; [unfold kinds; by rewrite E2 |]. split; [done |].
  intros b p. simpl. by rewrite E2.
Qed.

(** *** Hooks *)

Definition entry_handler (c : sys_call) (a : call_args) (uniq : Z) : handler :=
  match c with
  | SysWrite => WriteEntry (a_cur a) (a_file a) (a_direct a) (a_count a) (a_pos a) uniq
  | SysMkdir => MkdirEntry (a_cur a) (a_file a) (a_dentry a) (a_mode a) uniq
  | _ => FsyncEntry (a_cur a) (a_file a) (a_datasync a) uniq
  end.
Definition return_handler (c : sys_call) (opaque : option ptr) (uniq : Z) : handler :=
  match c with
  | SysWrite => WriteReturn opaque uniq
  | SysMkdir => MkdirReturn opaque uniq
  | _ => FsyncReturn opaque uniq
  end.

Lemma entry_enters c a kind s :
  afq_inv s -> call_kind c = Some kind -> enters kind (a_cur a) (afq_entry c a (q_sched_uniq s)) s.
Proof.
  intros Hi Hk. destruct c; simpl in Hk; try done; injection Hk as <-; simpl.
  - by apply write_entry_run.
  - by apply fsync_entry_run.
  - by apply mkdir_entry_run.
Qed.

(** What an entry hook does to the descriptors. *)
Lemma entry_descriptors c a kind s r s' :
  reachable s -> call_kind c = Some kind -> afq_entry c a (q_sched_uniq s) s = Ok (r, s') ->
  reachable s' /\ calls_go_on s s' /\
  match r with
  | Returns _ _ => kinds s' = kinds s
  | Waits desc => kinds s !! desc = None /\ kinds s' = <[desc := kind]> (kinds s)
  end.
Proof.
  intros Hr Hk E. pose proof (reachable_afq_inv s Hr) as Hi.
  destruct (entry_enters c a kind s Hi Hk) as (r1 & s1 & E1 & _ & U & Hent). rewrite E in E1. injection E1 as <- <-.
  split.
  { apply (reach_handler (entry_handler c a (q_sched_uniq s)) s); [done | by destruct c |].
    destruct c; try done; simpl in *; by rewrite (drop_run _ _ _ _ E). }
  destruct r as [rv o|desc]; simpl in Hent.
  - destruct Hent as [H Ek]. split; [|done]. by eapply history_go_on; [exact H | |].
  - destruct Hent as (Hc & Ek & p & acts & _ & H & G). split; [|split; [|done]].
    + eapply history_go_on; [exact H | | done]. constructor; [done |]. by apply grants_no_return.
    + unfold kinds. by rewrite lookup_fmap, Hc.
Qed.

Lemma running_returns s p b kind :
  afq_inv s -> kinds s !! p = Some kind -> runs_in s b (OfCall p) -> returns kind (Some p) s.
Proof.
  intros Hi Hk (c & Hc & Ho) p' [= <-]. exists c. split; [done |].
  unfold kinds in Hk. rewrite lookup_fmap, Hc in Hk. injection Hk as Hk. split; [|done].
  destruct (wi_calls _ _ _ (inv_work _ Hi) p c Hc) as [_ Hd]. destruct (c_done c); [done |].
  destruct Hd as [Hd _]. congruence.
Qed.

Lemma done_runs s p c :
  afq_inv s -> calls s !! p = Some c -> c_done c = true -> exists b, runs_in s b (OfCall p).
Proof.
  intros Hi Hc Hd. destruct (wi_calls _ _ _ (inv_work _ Hi) p c Hc) as [_ H]. rewrite Hd in H.
  destruct H as [b Hb]. exists b. by exists c.
Qed.

(** What a return hook does to the descriptors. *)
Lemma return_descriptors c kind s opaque uniq :
  reachable s -> call_kind c = Some kind ->
  (forall p, opaque = Some p -> kinds s !! p = Some kind /\ exists b, runs_in s b (OfCall p)) ->
  exists s', afq_return c opaque uniq s = Ok (tt, s') /\ reachable s' /\
    q_sched_uniq s' = q_sched_uniq s /\
    forall p, opaque <> Some p -> kinds s' !! p = kinds s !! p /\
      forall b, runs_in s b (OfCall p) -> runs_in s' b (OfCall p).
Proof.
  intros Hr Hk Hop. pose proof (reachable_afq_inv s Hr) as Hi. destruct opaque as [p|].
  2: { exists s. split_and!; try done. by destruct c. }
  destruct (Hop p eq_refl) as (Hkp & b & Hb). pose proof (running_returns s p b kind Hi Hkp Hb) as Hret.
  destruct (Hret p eq_refl) as (d & Hd & Hdone & Htype).
  assert (Hl : leaves (fun p => afq_return c (Some p) uniq) kind uniq).
  { destruct c; simpl in Hk; try done; injection Hk as <-;
      [exact (write_return_run uniq) | exact (fsync_return_run uniq) | exact (mkdir_return_run uniq)]. }
  destruct (Hl s p d Hi Hd Hdone Htype) as (s' & E & _ & U & b' & _ & H & _ & Ek).
  exists s'. split_and!; auto.
  - apply (reach_handler (return_handler c (Some p) uniq) s); [done | |].
    + destruct c; simpl in Hk; try done; by injection Hk as <-.
    + by destruct c.
  - intros p' Hne. rewrite Ek, lookup_delete_ne by congruence. split; [done |]. intros b1.
    apply (history_keeps_call _ _ _ b1 p' H). constructor; [|constructor]. intros b2 [= _ E']. congruence.
Qed.

(** ** The invariant *)

(** The descriptor a call has: it sleeps on it, or has been let in with it. *)
Definition owns (t : task) : option ptr :=
  match t_wait t with
  | Some desc => Some desc
  | None => match t_phase t with Inside _ _ _ opaque => opaque | _ => None end
  end.

Definition afq_phase (s : afq) (ph : phase) : Prop :=
  forall rq sops, sops_of ph = Some (rq, sops) -> sops = afq_sops (q_sched_uniq s).

Record task_ok (s : afq) (t : task) : Prop := {
  tk_keeps : keeps_protocol false (t_call t) (t_phase t) (t_prog t);
  tk_phase : afq_phase s (t_phase t);
  tk_wait : forall desc, t_wait t = Some desc -> exists fn rq uniq k, t_prog t = CallEntry fn rq uniq k;
  tk_owns : forall p, owns t = Some p -> exists kind, call_kind (t_call t) = Some kind /\
    kinds s !! p = Some kind /\ (t_wait t = None -> exists b, runs_in s b (OfCall p));
}.

Record vfs_afq_inv (s : afq) (ts : list task) : Prop := {
  va_reach : reachable s;
  va_tasks : forall n t, ts !! n = Some t -> task_ok s t;
  va_own : forall n n' t t' p, ts !! n = Some t -> ts !! n' = Some t' ->
    owns t = Some p -> owns t' = Some p -> n = n';
}.

(** Other tasks do not notice a step that leaves their descriptors alone. *)
Lemma task_ok_go_on s s' t :
  task_ok s t -> q_sched_uniq s' = q_sched_uniq s ->
  (forall p, owns t = Some p -> kinds s' !! p = kinds s !! p /\
     forall b, runs_in s b (OfCall p) -> runs_in s' b (OfCall p)) -> task_ok s' t.
Proof.
  intros [H1 H2 H3 H4] U Hp. split; auto.
  - intros rq sops Hs. rewrite U. by apply (H2 rq).
  - intros p Ho. destruct (H4 p Ho) as (kind & Hk & Hkp & Hw). destruct (Hp p Ho) as [E Hr].
    exists kind. rewrite E. split_and!; auto. intros Hn. destruct (Hw Hn) as [b Hb]. eauto.
Qed.

Lemma undisturbed_inv s s' ts :
  vfs_afq_inv s ts -> reachable s' -> undisturbed s s' -> vfs_afq_inv s' ts.
Proof.
  intros [H1 H2 H3] Hr [Ek [U Hg]]. split; auto. intros n t Hn. eapply task_ok_go_on; eauto.
  intros p _. rewrite Ek. auto.
Qed.

(** One task takes a step and ends with the descriptor it had, with a new one, or
    with none. *)
Lemma task_step s s' ts n t t' :
  vfs_afq_inv s ts -> ts !! n = Some t -> reachable s' -> task_ok s' t' ->
  q_sched_uniq s' = q_sched_uniq s ->
  (forall p, owns t <> Some p -> is_Some (kinds s !! p) -> kinds s' !! p = kinds s !! p /\
     forall b, runs_in s b (OfCall p) -> runs_in s' b (OfCall p)) ->
  (forall p, owns t' = Some p -> owns t = Some p \/ kinds s !! p = None) ->
  vfs_afq_inv s' (<[n := t']> ts).
Proof.
  intros [H1 H2 H3] Hn Hr Ht' U Hp Hown.
  assert (Hother : forall n1 t1, n1 <> n -> ts !! n1 = Some t1 -> forall p, owns t1 = Some p ->
    owns t <> Some p /\ is_Some (kinds s !! p)).
  { intros n1 t1 Hne Hn1 p Ho. split.
    - intros Ht. by apply Hne, (H3 n1 n t1 t p).
    - destruct (tk_owns _ _ (H2 n1 t1 Hn1) p Ho) as (kind & _ & -> & _). by eexists. }
  assert (Hnew : forall n1 t1 p, n1 <> n -> ts !! n1 = Some t1 -> owns t1 = Some p -> owns t' <> Some p).
  { intros n1 t1 p Hne Hn1 Ho Ht. destruct (Hother n1 t1 Hne Hn1 p Ho) as [Ho1 [x Hx]].
    destruct (Hown p Ht) as [?|E]; [done | congruence]. }
  split; [done | |].
  - intros n1 t1. destruct (decide (n1 = n)) as [->|Hne].
    + rewrite list_lookup_insert_eq by (by eapply lookup_lt_Some). by intros [= <-].
    + rewrite list_lookup_insert_ne by done. intros Hn1. eapply task_ok_go_on; eauto.
      intros p Ho. destruct (Hother n1 t1 Hne Hn1 p Ho). by apply Hp.
  - intros n1 n2 t1 t2 p. destruct (decide (n1 = n)) as [->|Hne1], (decide (n2 = n)) as [->|Hne2]; try done;
      rewrite ?(list_lookup_insert_eq _ n) by (by eapply lookup_lt_Some);
      rewrite ?list_lookup_insert_ne by done.
    + intros [= <-] Hn2 Ho1 Ho2. by destruct (Hnew n2 t2 p Hne2 Hn2 Ho2).
    + intros Hn1 [= <-] Ho1 Ho2. by destruct (Hnew n1 t1 p Hne1 Hn1 Ho1).
    + apply H3.
Qed.

(** ** Every step keeps the invariant *)

Lemma bind_inv {S A B} (m' : ST S A) (f : A -> ST S B) s r :
  bind m' f s = Ok r -> exists a s1, m' s = Ok (a, s1) /\ f a s1 = Ok r.
Proof. unfold bind. destruct (m' s) as [[a s1]|]; [|done]. eauto. Qed.

(** An entry hook that returns at once leaves NULL in [opaque]. *)
Definition null_return (m' : ST afq entry_result) : Prop :=
  forall s rv o s', m' s = Ok (Returns rv o, s') -> default None o = None.

Lemma admitted_null (m' : ST afq (entry_result + nat)) (f : nat -> ST afq entry_result) :
  (forall s rv o s', m' s = Ok (inl (Returns rv o), s') -> default None o = None) ->
  (forall p, null_return (f p)) ->
  null_return (let! r := m' in match r with inl r => ret r | inr p => f p end).
Proof.
  intros Hm Hf s rv o s' (r & s1 & E & E1)%bind_inv. destruct r as [r|p]; [|by eapply Hf].
  injection E1 as -> ->. by eapply Hm.
Qed.

Ltac null_returns :=
  repeat match goal with
  | H : bind _ _ _ = Ok _ |- _ => apply bind_inv in H as (? & ? & ? & ?)
  | H : ret _ _ = Ok _ |- _ => unfold ret in H; simplify_eq/=
  | H : (match ?x with _ => _ end) _ = Ok _ |- _ => destruct x
  end; try done.

Lemma entry_null c a uniq : null_return (afq_entry c a uniq).
Proof.
  destruct c; try done; simpl.
  - apply admitted_null.
    + intros s rv o s' H. unfold write_entry_admit in H. null_returns.
    + intros p s rv o s' H. unfold write_entry_sched in H. null_returns.
  - intros s rv o s' H. unfold basic_sched_fsync_entry in H. null_returns.
  - apply admitted_null.
    + intros s rv o s' H. unfold mkdir_entry_admit in H. null_returns.
    + intros p s rv o s' H. unfold mkdir_entry_sched in H. null_returns.
Qed.

(** A call that has a hook has a kind. *)
Lemma hook_kind c uniq fn :
  entry_fn (afq_sops uniq) c = Some fn \/ return_fn (afq_sops uniq) c = Some fn ->
  exists kind, call_kind c = Some kind.
Proof. destruct c; simpl; intros [|]; eauto; done. Qed.

(** A task that is about to call the entry hook. *)
Lemma entry_task s c a ph fn rq uniq k w :
  task_ok s (Task c a ph (CallEntry fn rq uniq k) w) ->
  exists q' m' kind, ph = Asking q' m' (afq_sops (q_sched_uniq s)) /\ uniq = q_sched_uniq s /\
    call_kind c = Some kind /\ forall rv opaque, keeps_protocol false c (after_entry ph rv opaque) (k rv opaque).
Proof.
  intros [Hk Hph _ _]. simpl in Hk, Hph. destruct Hk as [(q' & m' & sops & -> & Hfn & _ & _ & ->) Hk].
  specialize (Hph q' sops eq_refl). subst sops.
  destruct (hook_kind c _ fn (or_introl Hfn)) as [kind Hkind]. exists q', m', kind.
  split_and!; try done.
Qed.

Lemma return_task s c a ph fn rq opaque rv uniq k :
  task_ok s (Task c a ph (CallReturn fn rq opaque rv uniq k) None) ->
  exists kind, call_kind c = Some kind /\ uniq = q_sched_uniq s /\
    (forall p, opaque = Some p -> kinds s !! p = Some kind /\ exists b, runs_in s b (OfCall p)) /\
    (forall p, owns (Task c a ph (CallReturn fn rq opaque rv uniq k) None) <> Some p <-> opaque <> Some p) /\
    keeps_protocol false c (after_return ph) k.
Proof.
  intros [Hk Hph _ Ho]. simpl in Hk, Hph. destruct Hk as [(q' & m' & sops & Hs & Hl & _ & Hfn & _ & _ & ->) Hk].
  specialize (Hph q' sops Hs). subst sops. destruct (hook_kind c _ fn (or_intror Hfn)) as [kind Hkind].
  exists kind. split_and!; auto; destruct ph; simpl in Hs, Hl; try done.
  - destruct Hl as [_ ->]. done.
  - subst opaque0. intros p ->. destruct (Ho p eq_refl) as (kind' & Hk' & Hkp & Hr). simpl in Hk'.
    rewrite Hkind in Hk'. injection Hk' as <-. auto.
  - by destruct Hl as [_ ->].
  - by subst opaque0.
Qed.

Lemma afq_info_ok s : info_ok (Some q, Some m, afq_sops (q_sched_uniq s)).
Proof. intros c fn Hf. destruct c; simpl in Hf; destruct Hf as [Hf|Hf]; by simplify_eq. Qed.

(** A step of one task that does not touch the scheduler. *)
Lemma private_step s ts n t t' :
  vfs_afq_inv s ts -> ts !! n = Some t -> task_ok s t' ->
  (forall p, owns t' = Some p -> owns t = Some p) -> vfs_afq_inv s (<[n := t']> ts).
Proof.
  intros Hi Hn Ht Ho. eapply task_step; eauto; try apply Hi.
Qed.

Lemma call_step s ts c a p : vfs_afq_inv s ts -> vfs_call c p -> vfs_afq_inv s (ts ++ [Task c a Outside p None]).
Proof.
  intros [H1 H2 H3] Hp. assert (Ht : task_ok s (Task c a Outside p None))
    by (split; try done; by apply vfs_call_keeps).
  split; auto.
  - intros n t [Hn|[_ Hn]]%lookup_app_Some; [by apply (H2 n) |]. apply list_lookup_singleton_Some in Hn as [_ <-]. done.
  - intros n n' t t' x [Hn|[_ Hn]]%lookup_app_Some [Hn'|[_ Hn']]%lookup_app_Some; [by apply H3 | | |];
      rewrite ?list_lookup_singleton_Some in Hn; rewrite ?list_lookup_singleton_Some in Hn';
      intros Ho Ho'; destruct_and?; by subst.
Qed.

Lemma info_step s ts n c a ph i k info :
  vfs_afq_inv s ts -> ts !! n = Some (Task c a ph (GetInfo i k) None) ->
  info = skip_info \/ info = (Some q, Some m, afq_sops (q_sched_uniq s)) ->
  vfs_afq_inv s (<[n := Task c a (informed info) (k info) None]> ts).
Proof.
  intros Hi Hn Hinfo. pose proof (va_tasks _ _ Hi n _ Hn) as [Hk _ _ _]. destruct Hk as [_ Hk].
  eapply private_step; eauto.
  - split; try done; simpl.
    + apply Hk. destruct Hinfo as [->| ->]; [done | apply afq_info_ok].
    + intros rq sops Hs. by destruct Hinfo as [->| ->]; simplify_eq/=.
    + intros p. by destruct Hinfo as [->| ->].
  - intros p. by destruct Hinfo as [->| ->].
Qed.

Lemma enter_step s ts n c a ph fn rq uniq k rv o s' :
  vfs_afq_inv s ts -> ts !! n = Some (Task c a ph (CallEntry fn rq uniq k) None) ->
  afq_entry c a uniq s = Ok (Returns rv o, s') ->
  let opaque := default None o in
  vfs_afq_inv s' (<[n := Task c a (after_entry ph rv opaque) (k rv opaque) None]> ts).
Proof.
  intros Hi Hn E opaque.
  destruct (entry_task _ _ _ _ _ _ _ _ _ (va_tasks _ _ Hi n _ Hn)) as (q' & m' & kind & Hph & -> & Hkind & Hk).
  destruct (entry_descriptors c a kind s _ s' (va_reach _ _ Hi) Hkind E) as (Hr & [U Hg] & Ek).
  assert (Hnone : opaque = None) by (by apply (entry_null c a (q_sched_uniq s) s rv o s')).
  rewrite Hnone in *. subst ph.
  assert (Hown : owns (Task c a (after_entry (Asking q' m' (afq_sops (q_sched_uniq s))) rv None) (k rv None) None) = None)
    by (unfold owns; simpl; by destruct (rv =? 0)).
  eapply task_step; eauto.
  - split; try done.
    + apply Hk.
    + intros rq' sops Hs. rewrite U. simpl in Hs. by destruct (rv =? 0); simplify_eq/=.
    + rewrite Hown. done.
  - intros p _ _. rewrite Ek. auto.
  - rewrite Hown. done.
Qed.

Lemma wait_step s ts n c a ph fn rq uniq k desc s' :
  vfs_afq_inv s ts -> ts !! n = Some (Task c a ph (CallEntry fn rq uniq k) None) ->
  afq_entry c a uniq s = Ok (Waits desc, s') ->
  vfs_afq_inv s' (<[n := Task c a ph (CallEntry fn rq uniq k) (Some desc)]> ts).
Proof.
  intros Hi Hn E. pose proof (va_tasks _ _ Hi n _ Hn) as Ht.
  destruct (entry_task _ _ _ _ _ _ _ _ _ Ht) as (q' & m' & kind & Hph & -> & Hkind & Hk).
  destruct (entry_descriptors c a kind s _ s' (va_reach _ _ Hi) Hkind E) as (Hr & [U Hg] & Hd & Ek).
  eapply task_step; eauto.
  - destruct Ht as [T1 T2 T3 T4]. split; simpl in *; auto.
    + intros rq' sops Hs. rewrite U. by apply (T2 rq').
    + intros desc' _. by eexists _, _, _, _.
    + intros p [= <-]. exists kind. rewrite Ek, lookup_insert_eq. done.
  - intros p _ [x Hx]. rewrite Ek, lookup_insert_ne by congruence. auto.
  - intros p [= <-]. by right.
Qed.

Lemma wake_step s ts n c a ph fn rq uniq k desc d :
  vfs_afq_inv s ts -> ts !! n = Some (Task c a ph (CallEntry fn rq uniq k) (Some desc)) ->
  calls s !! desc = Some d -> c_done d = true ->
  vfs_afq_inv s (<[n := Task c a (after_entry ph 0 (Some desc)) (k 0 (Some desc)) None]> ts).
Proof.
  intros Hi Hn Hd Hdone. pose proof (va_tasks _ _ Hi n _ Hn) as Ht.
  destruct (entry_task _ _ _ _ _ _ _ _ _ Ht) as (q' & m' & kind & -> & -> & Hkind & Hk).
  eapply private_step; eauto. split; try done; simpl.
  - apply (Hk 0).
  - intros rq' sops Hs. by simplify_eq/=.
  - intros p [= <-]. destruct (tk_owns _ _ Ht desc eq_refl) as (kind' & Hk' & Hkd & _).
    exists kind'. split_and!; auto. intros _. eapply done_runs; eauto. apply reachable_afq_inv, Hi.
Qed.

Lemma return_step s ts n c a ph fn rq opaque rv uniq k s' :
  vfs_afq_inv s ts -> ts !! n = Some (Task c a ph (CallReturn fn rq opaque rv uniq k) None) ->
  afq_return c opaque uniq s = Ok (tt, s') ->
  vfs_afq_inv s' (<[n := Task c a (after_return ph) k None]> ts).
Proof.
  intros Hi Hn E.
  destruct (return_task _ _ _ _ _ _ _ _ _ _ (va_tasks _ _ Hi n _ Hn)) as (kind & Hkind & _ & Hop & Hown & Hk).
  destruct (return_descriptors c kind s opaque uniq (va_reach _ _ Hi) Hkind Hop) as (s1 & E1 & Hr & U & Hp).
  rewrite E in E1. injection E1 as <-.
  assert (Hnone : owns (Task c a (after_return ph) k None) = None) by (by destruct ph).
  eapply task_step; eauto.
  - split; try done.
    + intros rq' sops. by destruct ph.
    + rewrite Hnone. done.
  - intros p Ho _. apply Hp. by apply Hown.
  - rewrite Hnone. done.
Qed.

Lemma astep_inv x y : vfs_afq_inv (fst x) (snd x) -> astep x y -> vfs_afq_inv (fst y) (snd y).
Proof.
  intros Hi Hs. revert Hi. destruct Hs; cbn [fst snd]; intros Hi.
  - eapply undisturbed_inv; [exact Hi | |].
    + by eapply reach_handler; [apply Hi | |].
    + eapply other_handler_undisturbed; eauto. apply reachable_afq_inv, Hi.
  - eapply undisturbed_inv; [exact Hi | by eapply reach_kernel; [apply Hi |] | by apply kernel_step_undisturbed].
  - by apply call_step.
  - by eapply info_step.
  - by eapply enter_step.
  - by eapply wait_step.
  - by eapply wake_step.
  - by eapply return_step.
  - pose proof (va_tasks _ _ Hi n _ H) as [(_ & _ & Hk) _ _ _]. eapply private_step; [done | exact H | by split | done].
  - pose proof (va_tasks _ _ Hi n _ H) as [T1 T2 T3 T4]. eapply private_step; [done | exact H | | done].
    split; [apply T1 | exact T2 | done | exact T4].
Qed.

Lemma areach_inv x : areach x -> vfs_afq_inv (fst x) (snd x).
Proof.
  induction 1 as [s Hr|x y _ IH Hs]; [by split | by eapply astep_inv].
Qed.

(** C11: the schedulers' callers are what the scheduler needs: let any number of writes, fsyncs, creates and
    mkdirs pass the patched kernel on a disk that fair queuing serves, and
    let requests, timers, threads and the rest of the kernel do what they like
    in between, as long as no allocation fails, the ioctl sets [ioprio] and [vio_counter] within their bounds ([setting_ok]) and
    the elevator is not switched.  When a call is about to call its entry hook,
    the hook runs without a fault; while it sleeps there, its descriptor is
    allocated; when it is about to call its return hook, the hook runs without a fault; and no
    other call has the same descriptor. *)
Theorem vfs_afq_no_fault s ts n t :
  areach (s, ts) -> ts !! n = Some t ->
  match t_prog t with
  | CallEntry _ _ uniq _ =>
      match t_wait t with
      | None => exists r s', afq_entry (t_call t) (t_args t) uniq s = Ok (r, s') /\ afq_inv s'
      | Some desc => exists c, calls s !! desc = Some c /\ Some (call_type (c_desc c)) = call_kind (t_call t)
      end
  | CallReturn _ _ opaque _ uniq _ =>
      exists s', afq_return (t_call t) opaque uniq s = Ok (tt, s') /\ afq_inv s'
  | _ => True
  end /\
  forall n' t' p, ts !! n' = Some t' -> owns t = Some p -> owns t' = Some p -> n' = n.
Proof.
  intros Hr%areach_inv Hn. simpl in Hr. split; [|intros n' t' p Hn' Ho Ho'; by eapply (va_own _ _ Hr n' n)].
  pose proof (va_tasks _ _ Hr n t Hn) as Ht. pose proof (reachable_afq_inv s (va_reach _ _ Hr)) as Hi.
  destruct t as [c a ph p w]. simpl. destruct p; try done.
  - destruct (entry_task _ _ _ _ _ _ _ _ _ Ht) as (q' & m' & kind & _ & -> & Hkind & _). destruct w as [desc|].
    + destruct (tk_owns _ _ Ht desc eq_refl) as (kind' & Hk' & Hkd & _). unfold kinds in Hkd.
      rewrite lookup_fmap in Hkd. destruct (calls s !! desc) as [d|]; [|done]. injection Hkd as <-. by exists d.
    + destruct (entry_enters c a kind s Hi Hkind) as (r & s' & E & Hi' & _). eauto.
  - assert (w = None) as ->.
    { destruct w as [desc|]; [|done]. destruct (tk_wait _ _ Ht desc eq_refl) as (? & ? & ? & ? & ?). done. }
    destruct (return_task _ _ _ _ _ _ _ _ _ _ Ht) as (kind & Hkind & _ & Hop & _ & _).
    destruct (return_descriptors c kind s opaque uniq (va_reach _ _ Hr) Hkind Hop) as (s' & E & Hr' & _).
    exists s'. split; [done | by apply reachable_afq_inv].
Qed.

(** *** A call that does not return to its scheduler *)

Inductive asteps : afq * list task -> afq * list task -> Prop :=
  | asteps_refl x : asteps x x
  | asteps_step x y z : astep x y -> asteps y z -> asteps x z.

Lemma asteps_reach x y : areach x -> asteps x y -> areach y.
Proof. intros Hx H. induction H; [done |]. apply IHasteps. by eapply areach_step. Qed.

Lemma finished_step x y n t rv : t_prog t = Ret rv -> snd x !! n = Some t -> astep x y -> snd y !! n = Some t.
Proof.
  intros Hp Hn Hs. revert Hn. destruct Hs; cbn [snd]; intros Hn; try done.
  { by apply lookup_app_l_Some. }
  all: match goal with H : _ !! ?k = Some (Task _ _ _ _ _) |- _ =>
    destruct (decide (k = n)) as [->|Hne]; [|by rewrite list_lookup_insert_ne];
    rewrite H in Hn; injection Hn as <-; discriminate end.
Qed.

(** A call that is over and still has its descriptor, as [vfs_mkdir] in a full
    directory, leaves its batch unfinished: however the run goes on, the descriptor stays
    allocated and its batch waits for it. *)
Lemma forgotten_call_pins_batch s ts n t rv p s' ts' :
  areach (s, ts) -> ts !! n = Some t -> t_prog t = Ret rv -> owns t = Some p -> asteps (s, ts) (s', ts') ->
  exists b d, runs_in s' b (OfCall p) /\ batches s' !! b = Some d /\ 0 < one_loop_work d.
Proof.
  intros Hr Hn Hp Ho Hs. assert (Hn' : ts' !! n = Some t).
  { clear Hr. change (snd (s', ts') !! n = Some t). change (snd (s, ts) !! n = Some t) in Hn.
    induction Hs as [|x y z Hxy _ IH]; [done |]. apply IH. by eapply finished_step. }
  pose proof (areach_inv _ (asteps_reach _ _ Hr Hs)) as Hi. simpl in Hi.
  pose proof (va_tasks _ _ Hi n t Hn') as Ht.
  assert (Hw : t_wait t = None).
  { destruct (t_wait t) as [desc|] eqn:Ew; [|done].
    destruct (tk_wait _ _ Ht desc Ew) as (? & ? & ? & ? & E). congruence. }
  destruct (tk_owns _ _ Ht p Ho) as (kind & _ & _ & Hrun). destruct (Hrun Hw) as [b Hb].
  pose proof (inv_work _ (reachable_afq_inv s' (va_reach _ _ Hi))) as Hwork.
  destruct (running_batch s' b _ Hwork Hb) as (d & Hd & _ & Hc & _). exists b, d. split_and!; auto. lia.
Qed.
End Hooks.

(** ** An [fsync] on the small machine *)

Definition ex_args : call_args := CallArgs 8 20 1 false 0 0 0 0.
Definition ex_file : option file := Some (File (Some (Mapping None))).

(** Account 8 calls [fsync] when the scheduler has just been set up: it is queued
    and let go at once. *)
Definition f1 : afq :=
  match afq_entry SysFsync ex_args 3 e0 with Ok (_, s) => s | Fault _ => e0 end.
Lemma f1_waits : afq_entry SysFsync ex_args 3 e0 = Ok (Waits 1, f1).
Proof. vm_compute. reflexivity. Qed.

Definition ex_call_info : call_info := (Some 1%positive, Some 9%positive, afq_sops 9 3).
Definition ex_exit : prog := intercept_exit SysFsync ex_call_info (Some 1%positive) 0.
Definition ex_inside : phase := Inside 1 9 (afq_sops 9 3) (Some 1%positive).

Lemma f1_reach : areach 1 9 (f1, [Task SysFsync ex_args ex_inside ex_exit None]).
Proof.
  pose proof (areach_init 1 9 e0 e0_reachable) as H.
  apply (fun H => areach_step 1 9 _ _ H (a_call 1 9 e0 [] SysFsync ex_args _ (is_fsync ex_file))) in H.
  eapply areach_step in H; [|eapply (a_work 1 9 e0 _ 0 SysFsync ex_args Outside FsyncChecks _ 0); reflexivity].
  eapply areach_step in H; [|eapply (a_info 1 9 e0 _ 0 SysFsync ex_args Outside _ _ ex_call_info);
    [reflexivity | by right]].
  eapply areach_step in H; [|eapply (a_wait 1 9 e0 _ 0 SysFsync ex_args _ (Code 9 3) _ 3 _ 1 f1);
    [reflexivity | exact f1_waits]].
  destruct (calls f1 !! 1%positive) as [d|] eqn:Ed; [|vm_compute in Ed; discriminate].
  eapply areach_step in H; [|eapply (a_wake 1 9 f1 _ 0 SysFsync ex_args _ (Code 9 3) _ 3 _ 1 d);
    [reflexivity | exact Ed | vm_compute in Ed; by injection Ed as <-]].
  eapply areach_step in H; [|eapply (a_work 1 9 f1 _ 0 SysFsync ex_args _ FsyncBody _ 0); reflexivity].
  exact H.
Qed.

Lemma vfs_afq_no_fault_witness :
  exists s', afq_return SysFsync (Some 1%positive) 3 f1 = Ok (tt, s') /\ afq_inv s'.
Proof.
  exact (proj1 (vfs_afq_no_fault 1 9 f1 _ 0 (Task SysFsync ex_args ex_inside ex_exit None) f1_reach eq_refl)).
Defined.
