(* ===== verification/SchedTypes.v ===== *)
(** * The tables of the three schedulers (elevator_tbucket of tbucket.c, iosched_deadline of
    split_deadline_sched.c, basic_sched_elv_type of acct_afq_sched.c)

    Which hooks of system calls the modules offer, and the hooks of the token-bucket
    scheduler that do nothing.  The tables are such as the calls of the file
    system need: the functions are the module's own, and a call that has an entry hook has
    a return hook. *)

From S2P Require Import Prelude CInt Kernel Elevator VfsModules VfsAfq.

(** [m] is [THIS_MODULE]. *)
Definition elevator_tbucket (m : ptr) : elevator_type := {|
  ops := {|
    elevator_entry_fn := fun c => match c with
      | SysWrite => Some (Code m 1) | SysFsync => Some (Code m 2) | SysCreate => Some (Code m 3)
      | SysRead | SysMkdir => None end;
    elevator_return_fn := fun c => match c with
      | SysWrite => Some (Code m 4) | SysFsync => Some (Code m 5) | SysCreate => Some (Code m 6)
      | SysRead | SysMkdir => None end;
  |};
  elevator_owner := Some m;
|}.

Definition iosched_deadline (m : ptr) : elevator_type := {|
  ops := {|
    elevator_entry_fn := fun c => match c with SysFsync => Some (Code m 1) | _ => None end;
    elevator_return_fn := fun c => match c with SysFsync => Some (Code m 2) | _ => None end;
  |};
  elevator_owner := Some m;
|}.

(** Hooks of the token-bucket scheduler that have nothing to do. *)
Section Empty.
Context {S : Type}.
Definition tbucket_write_return (opaque : option ptr) (rv sched_uniq : Z) : ST S unit := ret tt.
Definition tbucket_fsync_return (opaque : option ptr) (rv sched_uniq : Z) : ST S unit := ret tt.
Definition tbucket_create_return (opaque : option ptr) (rv sched_uniq : Z) : ST S unit := ret tt.

(** Its requests have no neighbours to be merged with. *)
Definition tbucket_former_request (rq : ptr) : ST S (option ptr) := ret None.
Definition tbucket_latter_request (rq : ptr) : ST S (option ptr) := ret None.
End Empty.

Definition paired (e : elevator_type) : Prop :=
  forall c, is_Some (elevator_entry_fn (ops e) c) <-> is_Some (elevator_return_fn (ops e) c).

Lemma sched_types_ok m e :
  e ∈ [elevator_tbucket m; iosched_deadline m; basic_sched_elv_type m] -> type_ok e /\ paired e.
Proof.
  intros He. repeat (apply elem_of_cons in He as [->|He]); [..|by apply elem_of_nil in He].
  all: split; [intros c fn Hf; destruct c; simpl in Hf; destruct Hf; by simplify_eq |].
  all: intros c; destruct c; simpl; split; intros [? ?]; (done || by eexists).
Qed.
